(** * mongoz: routing, dispatch and failure handling

    A shallow embedding of the parts of mongoz that its specification makes
    checkable statements about, with the statements proved (or refuted) on
    the embedding.

    - [Bson]     bson/bson.h, bson/types.h, bson/ordering.h
    - [Hashing]  config.cpp, the digest of hashed sharding keys
    - [Write]    write.cpp, [defaultAckMerger]
    - [Pool]     backend.cpp, the connection pools of an [Endpoint]
    - [Select]   shard.cpp, [Multiple::selectLocal]
    - [Shard]    shard.cpp, [readOp] of the three kinds of shard
    - [Topology] config.cpp, [Config::Config], [Config::find], [Config::shards]
    - [Feed]     operations.h, cursor.h, session.cpp: datasources, the cursor
                 map and [Session::feed]
    - [SessionOps] session.cpp, the [KILL_CURSORS] branch of [Session::run]
    - [Auth]     auth.h, auth.cpp, session.cpp: privileges, [Privileges::auth]
                 and the [getnonce] and [authenticate] commands
    - [Concern]  write.cpp, operations.h: [areWriteConcernsEqual] and
                 [WriteOperation::acknowledge]
    - [Access]   write.cpp, read.cpp: the privileges that writes, queries and
                 aggregations require
    - [Wire]     proto.h, session.cpp, write.cpp: [Message], [MsgBuilder], the
                 messages of a client, [pack24], [QueryComposer], [readMsg]
    - [Version]  backend.h, shard.h, shard.cpp: [Backend::SoftwareVersion],
                 [Shard::softwareVersion], [Shard::supportsWriteCommands]
    - [Multi]    write.h, write.cpp: [MultiWrite], [SequentialWrite::perform]
    - [Read]     read.cpp, parallel.h: [BackendDatasource::talk] and
                 [TaskPool::wait]

    The embedding comes first, module by module; the notions that the
    statements are made of follow ([HashingNotions] and the like), with
    the examples; the proofs come last ([HashingFacts] and the like). *)

From Stdlib Require Import ZArith List String Ascii Bool Lia.
From stdpp Require Import gmap strings list.
Import ListNotations.
Set Warnings "-register-all".
Open Scope string_scope.
Open Scope Z_scope.

(* ================================================================== *)
(** * Machine integers and thrown exceptions *)
(* ================================================================== *)

Definition INT32_MIN : Z := -2147483648.
Definition INT32_MAX : Z := 2147483647.
Definition INT64_MIN : Z := -9223372036854775808.
Definition INT64_MAX : Z := 9223372036854775807.
Definition SIZE_MAX : Z := 18446744073709551615.

(** An unsigned [w]-bit integer holds [x mod 2^w]. *)
Definition wrap (w x : Z) : Z := x mod 2 ^ w.

(** A signed [w]-bit integer, two's complement. *)
Definition swrap (w x : Z) : Z := (x + 2 ^ (w - 1)) mod 2 ^ w - 2 ^ (w - 1).

(** The [n] bytes of [x] in memory order on a little-endian machine. *)
Fixpoint le_bytes (n : nat) (x : Z) : list Z :=
  match n with
  | O => []
  | S n' => (x mod 256) :: le_bytes n' (x / 256)
  end.

(** The unsigned integer stored little-endian in a byte list. *)
Fixpoint le_value (bs : list Z) : Z :=
  match bs with
  | [] => 0
  | b :: r => b + 256 * le_value r
  end.

(** The bytes of a [std::string]. *)
Fixpoint string_bytes (s : string) : list Z :=
  match s with
  | EmptyString => []
  | String c r => Z.of_N (N_of_ascii c) :: string_bytes r
  end.

Definition strlen (s : string) : Z := Z.of_nat (String.length s).

(** What a C++ function of the embedding can throw.  [Error] is
    [errors::Error], which [REQUIRE] throws; [AssertionFailed], which
    [ASSERT] throws, is not a subclass of it.  [Undefined] is not a C++
    exception: it marks an execution whose behaviour the language leaves
    undefined. *)
Inductive exn : Type :=
| TypeMismatch
| Error (what : string)
| AssertionFailed (what : string)
| ShardConfigBroken (what : string)
| RuntimeError (what : string)
| OutOfRange (what : string)
| Undefined (what : string).

Inductive result (A : Type) : Type :=
| Ok (a : A)
| Throw (e : exn).
Arguments Ok {A} a.
Arguments Throw {A} e.

Definition bind {A B : Type} (r : result A) (k : A -> result B) : result B :=
  match r with
  | Ok a => k a
  | Throw e => Throw e
  end.

Notation "'do' x <- r ; k" := (bind r (fun x => k))
  (at level 10, x name, r at level 100, k at level 200).

(* ================================================================== *)
(** * BSON documents *)
(* ================================================================== *)

Module Bson.

(** A [double]: not-a-number, an infinity, or the dyadic rational
    [m * 2^e].  A binary64 value has [|m| < 2^53] and [-1074 <= e <= 971]. *)
Inductive double : Type :=
| DNaN
| DInf (negative : bool)
| DFin (m e : Z).

Definition is_binary64 (d : double) : bool :=
  match d with
  | DFin m e => (Z.abs m <? 2 ^ 53) && (-1074 <=? e) && (e <=? 971)
  | _ => true
  end.

Definition isnan (d : double) : bool :=
  match d with DNaN => true | _ => false end.

(** Exact comparison of two finite values. *)
Definition dfin_compare (m1 e1 m2 e2 : Z) : comparison :=
  let e := Z.min e1 e2 in
  (m1 * 2 ^ (e1 - e)) ?= (m2 * 2 ^ (e2 - e)).

(** [a < b], [a == b] on doubles: false as soon as one side is NaN. *)
Definition dcompare (a b : double) : option comparison :=
  match a, b with
  | DNaN, _ | _, DNaN => None
  | DInf true, DInf true => Some Eq
  | DInf true, _ => Some Lt
  | _, DInf true => Some Gt
  | DInf false, DInf false => Some Eq
  | DInf false, _ => Some Gt
  | _, DInf false => Some Lt
  | DFin m1 e1, DFin m2 e2 => Some (dfin_compare m1 e1 m2 e2)
  end.

Definition dlt (a b : double) : bool :=
  match dcompare a b with Some Lt => true | _ => false end.

Definition dgt (a b : double) : bool := dlt b a.

(** The integer part of a finite value, rounded toward zero. *)
Definition dtrunc (m e : Z) : Z :=
  if 0 <=? e then m * 2 ^ e else Z.quot m (2 ^ (- e)).

(** [static_cast<double>(z)] for an integer: round to nearest, ties to
    even, on 53 bits. *)
Definition double_of_int (z : Z) : double :=
  let k := Z.log2 (Z.abs z) + 1 - 53 in
  if k <=? 0 then DFin z 0
  else
    let q := Z.abs z / 2 ^ k in
    let r := Z.abs z mod 2 ^ k in
    let half := 2 ^ (k - 1) in
    let q' := if (half <? r) || ((r =? half) && Z.odd q) then q + 1 else q in
    if q' =? 2 ^ 53 then DFin (Z.sgn z * 2 ^ 52) (k + 1)
    else DFin (Z.sgn z * q') k.

(** [static_cast<T>(d)] for a signed ([lo = -2^(w-1)]) or unsigned integer
    type with values [lo .. hi]: truncation, undefined when the truncated
    value is not a value of [T]. *)
Definition double_to_int (lo hi : Z) (d : double) : result Z :=
  match d with
  | DFin m e =>
      let t := dtrunc m e in
      if (lo <=? t) && (t <=? hi) then Ok t
      else Throw (Undefined "floating-integral conversion out of range")
  | _ => Throw (Undefined "floating-integral conversion out of range")
  end.

(** BSON values, by element type. *)
Inductive Value : Type :=
| VDouble (d : double)                       (* 1 *)
| VString (s : string)                       (* 2 *)
| VObject (fields : list (string * Value))   (* 3 *)
| VArray (items : list (string * Value))     (* 4 *)
| VBinary (subtype : Z) (bytes : list Z)     (* 5 *)
| VObjectID (bytes : list Z)                 (* 7, twelve bytes *)
| VBool (b : bool)                           (* 8 *)
| VTime (milli : Z)                          (* 9 *)
| VNull                                      (* 10 *)
| VInt32 (i : Z)                             (* 16 *)
| VTimestamp (ts : Z)                        (* 17 *)
| VInt64 (i : Z)                             (* 18 *)
| VMinKey                                    (* 0xFF *)
| VMaxKey.                                   (* 0x7F *)

Definition Object : Type := list (string * Value).

(** [bson::Element]: a named value, or the element that does not exist. *)
Definition Element : Type := option (string * Value).

Definition exists_ (e : Element) : bool :=
  match e with Some _ => true | None => false end.

Definition name (e : Element) : string :=
  match e with Some (n, _) => n | None => "" end.

(** [Element::type()], an [int8_t]. *)
Definition type_of (v : Value) : Z :=
  match v with
  | VDouble _ => 1
  | VString _ => 2
  | VObject _ => 3
  | VArray _ => 4
  | VBinary _ _ => 5
  | VObjectID _ => 7
  | VBool _ => 8
  | VTime _ => 9
  | VNull => 10
  | VInt32 _ => 16
  | VTimestamp _ => 17
  | VInt64 _ => 18
  | VMinKey => -1
  | VMaxKey => 127
  end.

Definition safeType (e : Element) : Z :=
  match e with Some (_, v) => type_of v | None => 0 end.

Definition is_double (e : Element) : bool :=
  match e with Some (_, VDouble _) => true | _ => false end.
Definition is_string (e : Element) : bool :=
  match e with Some (_, VString _) => true | _ => false end.
Definition is_object (e : Element) : bool :=
  match e with Some (_, VObject _) => true | _ => false end.
Definition is_array (e : Element) : bool :=
  match e with Some (_, VArray _) => true | _ => false end.
Definition is_binary (e : Element) : bool :=
  match e with Some (_, VBinary _ _) => true | _ => false end.
Definition is_objectid (e : Element) : bool :=
  match e with Some (_, VObjectID _) => true | _ => false end.
Definition is_bool (e : Element) : bool :=
  match e with Some (_, VBool _) => true | _ => false end.
Definition is_time (e : Element) : bool :=
  match e with Some (_, VTime _) => true | _ => false end.
Definition is_null (e : Element) : bool :=
  match e with Some (_, VNull) => true | _ => false end.
Definition is_int32 (e : Element) : bool :=
  match e with Some (_, VInt32 _) => true | _ => false end.
Definition is_int64 (e : Element) : bool :=
  match e with Some (_, VInt64 _) => true | _ => false end.
Definition is_timestamp (e : Element) : bool :=
  match e with Some (_, VTimestamp _) => true | _ => false end.
Definition is_minkey (e : Element) : bool :=
  match e with Some (_, VMinKey) => true | _ => false end.
Definition is_maxkey (e : Element) : bool :=
  match e with Some (_, VMaxKey) => true | _ => false end.

Definition isNumber (e : Element) : bool :=
  is_int32 e || is_int64 e || is_double e.

(** [Element::asNumber<T>()] for an integer type [T] with values
    [lo .. hi], [conv] being the integer conversion into [T]. *)
Definition asNumber (conv : Z -> Z) (lo hi : Z) (e : Element) : result Z :=
  match e with
  | Some (_, VInt32 i) => Ok (conv i)
  | Some (_, VInt64 i) => Ok (conv i)
  | Some (_, VDouble d) => double_to_int lo hi d
  | _ => Throw TypeMismatch
  end.

Definition as_int (e : Element) : result Z :=
  asNumber (swrap 32) INT32_MIN INT32_MAX e.
Definition as_int64 (e : Element) : result Z :=
  asNumber (swrap 64) INT64_MIN INT64_MAX e.
Definition as_size_t (e : Element) : result Z :=
  asNumber (wrap 64) 0 SIZE_MAX e.

(** [Element::as<bool>()]. *)
Definition as_bool (e : Element) : result bool :=
  match e with
  | None => Throw TypeMismatch
  | Some (_, VBool b) => Ok b
  | Some _ =>
      if isNumber e then do i <- as_int e; Ok (negb (i =? 0))
      else Throw TypeMismatch
  end.

Definition as_string (e : Element) : result string :=
  match e with Some (_, VString s) => Ok s | _ => Throw TypeMismatch end.
Definition as_object (e : Element) : result Object :=
  match e with Some (_, VObject o) => Ok o | _ => Throw TypeMismatch end.
Definition as_array (e : Element) : result Object :=
  match e with Some (_, VArray o) => Ok o | _ => Throw TypeMismatch end.
Definition as_double (e : Element) : result double :=
  match e with Some (_, VDouble d) => Ok d | _ => Throw TypeMismatch end.

(** [Object::operator[]]: the first element of that name. *)
Fixpoint get (o : Object) (key : string) : Element :=
  match o with
  | [] => None
  | (n, v) :: r => if String.eqb n key then Some (n, v) else get r key
  end.

Definition front (o : Object) : Element :=
  match o with [] => None | f :: _ => Some f end.

Definition empty (o : Object) : bool :=
  match o with [] => true | _ => false end.

(** [ObjectBuilder::put]: the builder appends. *)
Definition put (b : Object) (key : string) (v : Value) : Object :=
  app b [(key, v)].

(** ** Sizes *)

Fixpoint valueSize (v : Value) : Z :=
  match v with
  | VDouble _ => 8
  | VString s => 4 + strlen s + 1
  | VObject fs | VArray fs =>
      4 + (fix elts (l : list (string * Value)) : Z :=
             match l with
             | [] => 0
             | (n, x) :: r => (1 + strlen n + 1 + valueSize x) + elts r
             end) fs + 1
  | VBinary _ bs => 4 + 1 + Z.of_nat (List.length bs)
  | VObjectID _ => 12
  | VBool _ => 1
  | VTime _ => 8
  | VNull => 0
  | VInt32 _ => 4
  | VTimestamp _ => 8
  | VInt64 _ => 8
  | VMinKey => 0
  | VMaxKey => 0
  end.

(** [Base::rawSize()] of a document. *)
Definition rawSize (o : Object) : Z := valueSize (VObject o).

(** ** Ordering (ordering.h and the [cmp] members of bson.h) *)

(** The six function objects a [cmp<Cmp>] is instantiated with. *)
Inductive Cmp : Type :=
| equal_to | not_equal_to | less | less_equal | greater | greater_equal.

(** [Cmp<T>()(x, y)] for a totally ordered [T], from the three-way
    comparison of [x] and [y]. *)
Definition apply (c : Cmp) (o : comparison) : bool :=
  match c, o with
  | equal_to, Eq => true
  | equal_to, _ => false
  | not_equal_to, Eq => false
  | not_equal_to, _ => true
  | less, Lt => true
  | less, _ => false
  | less_equal, Gt => false
  | less_equal, _ => true
  | greater, Gt => true
  | greater, _ => false
  | greater_equal, Lt => false
  | greater_equal, _ => true
  end.

(** [Cmp<double>()(x, y)]. *)
Definition apply_double (c : Cmp) (x y : double) : bool :=
  match dcompare x y with
  | Some o => apply c o
  | None => match c with not_equal_to => true | _ => false end
  end.

(** Lexicographic three-way comparison. *)
Fixpoint lex_compare (a b : list Z) : comparison :=
  match a, b with
  | [], [] => Eq
  | [], _ :: _ => Lt
  | _ :: _, [] => Gt
  | x :: a', y :: b' =>
      match x ?= y with
      | Eq => lex_compare a' b'
      | o => o
      end
  end.

(** A byte as a (signed) [char]. *)
Definition schar (b : Z) : Z := if b <? 128 then b else b - 256.

(** [Element::cmp] once the value comparison [vals] is known: names by
    [strcmp], then types, then values. *)
Definition cmpElement (c : Cmp) (na : string) (ta : Z) (nb : string) (tb : Z)
    (vals : bool) : bool :=
  match String.compare na nb with
  | Eq =>
      if ta =? tb then (if ta =? 0 then apply c Eq else vals)
      else apply c (ta ?= tb)
  | o => apply c o
  end.

(** [Element::cmpValues<Cmp>(a, b)] for two values of one type, with
    [Base::cmp<Cmp>] for documents and arrays. *)
Fixpoint cmpValues (c : Cmp) (a b : Value) {struct a} : bool :=
  match a, b with
  | VDouble x, VDouble y => apply_double c x y
  | VString x, VString y => apply c (String.compare x y)
  | VObject fa, VObject fb | VArray fa, VArray fb =>
      (fix base (fa fb : list (string * Value)) {struct fa} : bool :=
         match fa, fb with
         | (na, va) :: ra, (nb, vb) :: rb =>
             if cmpElement not_equal_to na (type_of va) nb (type_of vb)
                  (cmpValues not_equal_to va vb)
             then cmpElement c na (type_of va) nb (type_of vb) (cmpValues c va vb)
             else base ra rb
         | (na, va) :: _, [] => cmpElement c na (type_of va) "" 0 false
         | [], (nb, vb) :: _ => cmpElement c "" 0 nb (type_of vb) false
         | [], [] => cmpElement c "" 0 "" 0 false
         end) fa fb
  | VBinary _ x, VBinary _ y => apply c (lex_compare (map schar x) (map schar y))
  | VObjectID x, VObjectID y => apply c (lex_compare x y)
  | VBool x, VBool y => apply c (Z.b2z x ?= Z.b2z y)
  | VTime x, VTime y => apply c (x ?= y)
  | VNull, VNull => apply c Eq
  | VInt32 x, VInt32 y => apply c (x ?= y)
  | VTimestamp x, VTimestamp y => apply c (x ?= y)
  | VInt64 x, VInt64 y => apply c (x ?= y)
  | VMinKey, VMinKey => apply c Eq
  | VMaxKey, VMaxKey => apply c Eq
  | _, _ => false
  end.

(** [Base::cmp<Cmp>] on documents: the operators of [bson::Object]. *)
Definition cmp (c : Cmp) (a b : Object) : bool :=
  cmpValues c (VObject a) (VObject b).

(** The operators of [bson::Element]. *)
Definition cmpElt (c : Cmp) (a b : Element) : bool :=
  match a, b with
  | Some (na, va), Some (nb, vb) =>
      cmpElement c na (type_of va) nb (type_of vb) (cmpValues c va vb)
  | Some (na, va), None => cmpElement c na (type_of va) "" 0 false
  | None, Some (nb, vb) => cmpElement c "" 0 nb (type_of vb) false
  | None, None => cmpElement c "" 0 "" 0 false
  end.

End Bson.

(* ================================================================== *)
(** * The digest of hashed sharding keys (config.cpp) *)
(* ================================================================== *)

Module Hashing.
Import Bson.

(** [(double) std::numeric_limits<int64_t>::min()] and [...::max()]. *)
Definition INT64_MIN_as_double : double := Eval vm_compute in double_of_int INT64_MIN.
Definition INT64_MAX_as_double : double := Eval vm_compute in double_of_int INT64_MAX.

(** A NUL-terminated name. *)
Definition cstring (s : string) : list Z := app (string_bytes s) [0].

(** [Element::valueData()], [valueSize()] bytes. *)
Definition valueData (v : Value) : list Z :=
  match v with
  | VString s => app (le_bytes 4 (strlen s + 1)) (cstring s)
  | VBinary st bs => app (le_bytes 4 (Z.of_nat (List.length bs))) (st :: bs)
  | VObjectID bs => bs
  | VBool b => [Z.b2z b]
  | VTime t => le_bytes 8 t
  | VTimestamp t => le_bytes 8 t
  | VInt32 i => le_bytes 4 i
  | VInt64 i => le_bytes 8 i
  | _ => []
  end.

(** [hashType]: the bytes of the [int] type tag fed to [MD5_Update]. *)
Definition hashType (elt : Element) : list Z :=
  let type :=
    if negb (exists_ elt) then 0
    else if is_minkey elt || is_maxkey elt then safeType elt
    else if is_null elt then 5
    else if isNumber elt then 10
    else if is_string elt then 15
    else if is_object elt then 20
    else if is_array elt then 25
    else if is_binary elt then 30
    else if is_objectid elt then 35
    else if is_bool elt then 40
    else if is_time elt then 45
    else if is_timestamp elt then 47
    else -1 in
  le_bytes 4 type.

(** The [int64_t i] that [hash(ctx, elt)] computes from a double. *)
Definition double_path (v : double) : result Z :=
  if isnan v then Ok 0
  else if dlt v INT64_MIN_as_double then Ok INT64_MIN
  else if dgt v INT64_MAX_as_double then Ok INT64_MAX
  else double_to_int INT64_MIN INT64_MAX v.

(** [hash(MD5_CTX*, elt)] with [hashRange]: the bytes fed to [MD5_Update],
    in order. *)
Fixpoint hashValue (v : Value) : result (list Z) :=
  match v with
  | VObject fs | VArray fs =>
      (fix hashRange (range : list (string * Value)) : result (list Z) :=
         match range with
         | [] => Ok (le_bytes 4 0)
         | (n, x) :: r =>
             do hx <- hashValue x;
             do hr <- hashRange r;
             Ok (app (hashType (Some (n, x))) (app (cstring n) (app hx hr)))
         end) fs
  | VDouble d => do i <- double_path d; Ok (le_bytes 8 i)
  | VInt32 i | VInt64 i => Ok (le_bytes 8 (swrap 64 i))
  | _ => Ok (valueData v)
  end.

(** Everything [hash(elt)] feeds to MD5: the seed, the type tag, the
    value. *)
Definition hashInput (elt : Element) : result (list Z) :=
  do hv <- match elt with
           | Some (_, v) => hashValue v
           | None => Ok []
           end;
  Ok (app (le_bytes 4 0) (app (hashType elt) hv)).

(** [size_t hash(elt)]: the first eight bytes of the digest.  [MD5] is
    OpenSSL's. *)
Definition hash (MD5 : list Z -> list Z) (elt : Element) : result Z :=
  do input <- hashInput elt;
  Ok (le_value (firstn 8 (MD5 input))).

End Hashing.

(* ================================================================== *)
(** * Merging acknowledgements (write.cpp) *)
(* ================================================================== *)

Module Write.
Import Bson.

(** The local variables of [defaultAckMerger]. *)
Record Merge : Type := mkMerge {
  err : Element;
  code : Element;
  n : Z;                      (* size_t *)
  hasUpdatedExisting : bool;
  updatedExisting : bool;
  upserted : Element;
  wtimeout : bool;
  waited : Z;                 (* int32_t *)
  wtime : Z                   (* int32_t *)
}.

Definition merge0 : Merge :=
  mkMerge None None 0 false false None false 0 0.

(** [a || elt.as<bool>()]: the conversion runs only when [a] is false. *)
Definition or_as_bool (a : bool) (elt : Element) : result bool :=
  if a then Ok true else as_bool elt.

(** The body of the inner loop, for one element of one acknowledgement. *)
Definition visit (m : Merge) (elt : Element) : result Merge :=
  let nm := name elt in
  let m :=
    if String.eqb nm "err" && (negb (exists_ (err m)) || is_null (err m))
    then mkMerge elt (code m) (n m) (hasUpdatedExisting m) (updatedExisting m)
                 (upserted m) (wtimeout m) (waited m) (wtime m)
    else m in
  let m :=
    if String.eqb nm "code" && negb (exists_ (code m))
    then mkMerge (err m) elt (n m) (hasUpdatedExisting m) (updatedExisting m)
                 (upserted m) (wtimeout m) (waited m) (wtime m)
    else m in
  do m <- (if String.eqb nm "n"
           then do v <- as_size_t elt;
                Ok (mkMerge (err m) (code m) (wrap 64 (n m + v))
                      (hasUpdatedExisting m) (updatedExisting m)
                      (upserted m) (wtimeout m) (waited m) (wtime m))
           else Ok m);
  do m <- (if String.eqb nm "updatedExisting"
           then do u <- or_as_bool (updatedExisting m) elt;
                Ok (mkMerge (err m) (code m) (n m) true u
                      (upserted m) (wtimeout m) (waited m) (wtime m))
           else Ok m);
  let m :=
    if String.eqb nm "upserted" && negb (exists_ (upserted m))
    then mkMerge (err m) (code m) (n m) (hasUpdatedExisting m) (updatedExisting m)
                 elt (wtimeout m) (waited m) (wtime m)
    else m in
  do m <- (if String.eqb nm "wtimeout"
           then do w <- or_as_bool (wtimeout m) elt;
                Ok (mkMerge (err m) (code m) (n m) (hasUpdatedExisting m)
                      (updatedExisting m) (upserted m) w (waited m) (wtime m))
           else Ok m);
  do m <- (if String.eqb nm "waited"
           then do v <- as_int elt;
                Ok (mkMerge (err m) (code m) (n m) (hasUpdatedExisting m)
                      (updatedExisting m) (upserted m) (wtimeout m)
                      (Z.max (waited m) v) (wtime m))
           else Ok m);
  if String.eqb nm "wtime"
  then do v <- as_int elt;
       Ok (mkMerge (err m) (code m) (n m) (hasUpdatedExisting m)
             (updatedExisting m) (upserted m) (wtimeout m)
             (waited m) (Z.max (wtime m) v))
  else Ok m.

(** The two nested [for] loops: every element of every acknowledgement,
    in order. *)
Fixpoint visitAll (m : Merge) (elts : list (string * Value)) : result Merge :=
  match elts with
  | [] => Ok m
  | elt :: r => do m' <- visit m (Some elt); visitAll m' r
  end.

(** [b[key] = elt] for an element: nothing is put for one that does not
    exist (the callers test [exists()] first). *)
Definition putElement (b : Object) (key : string) (elt : Element) : Object :=
  match elt with
  | Some (_, v) => put b key v
  | None => b
  end.

(** The [ObjectBuilder] part. *)
Definition build (m : Merge) : Object :=
  let b : Object := [] in
  let b := put b "ok" (VInt32 (if exists_ (err m) && negb (is_null (err m)) then 0 else 1)) in
  let b := if exists_ (err m) then putElement b "err" (err m) else b in
  let b := if exists_ (code m) then putElement b "code" (code m) else b in
  let b := if INT32_MAX <? n m
           then put b "n" (VInt64 (swrap 64 (n m)))
           else put b "n" (VInt32 (swrap 32 (n m))) in
  let b := if hasUpdatedExisting m then put b "updatedExisting" (VBool (updatedExisting m)) else b in
  let b := if exists_ (upserted m) then putElement b "upserted" (upserted m) else b in
  let b := if wtimeout m then put b "wtimeout" (VBool true) else b in
  let b := if negb (waited m =? 0) then put b "waited" (VInt32 (waited m)) else b in
  let b := if negb (wtime m =? 0) then put b "wtime" (VInt32 (wtime m)) else b in
  b.

Definition defaultAckMerger (rets : list Object) : result Object :=
  match rets with
  | [] => Ok []
  | [ret] => Ok ret
  | _ => do m <- visitAll merge0 (concat rets); Ok (build m)
  end.


End Write.

(* ================================================================== *)
(** * The connection pools of an endpoint (backend.h, backend.cpp) *)
(* ================================================================== *)

Module Pool.

(** [Connection::Impl], without its stream and its version map. *)
Record Impl : Type := mkImpl {
  isPrimary : bool;
  authenticated : bool
}.

(** A [Connection] owns an [Impl] or is empty. *)
Definition Connection : Type := option Impl.

Definition exists_ (c : Connection) : bool :=
  match c with Some _ => true | None => false end.

(** The two pools of an [Endpoint]; a vector grows at its end. *)
Record Endpoint : Type := mkEndpoint {
  conns_ : list Connection;
  primaries_ : list Connection
}.

Definition size (v : list Connection) : N := N.of_nat (List.length v).

(** [Endpoint::pop]: the result and what is left of the vector. *)
Definition pop (v : list Connection) : Connection * list Connection :=
  match v with
  | [] => (None, [])
  | _ => (List.last v None, List.removelast v)
  end.

(** [Endpoint::get], on [primaries_] when [primary] and on [conns_]
    otherwise. *)
Definition get (primary : bool) (e : Endpoint) : Connection * Endpoint :=
  let v := if primary then primaries_ e else conns_ e in
  let (ret, v') := pop v in
  let e' := if primary then mkEndpoint (conns_ e) v' else mkEndpoint v' (primaries_ e) in
  if exists_ ret then (ret, e') else (Some (mkImpl primary false), e').

Definition getAny (e : Endpoint) : Connection * Endpoint := get false e.
Definition getPrimary (e : Endpoint) : Connection * Endpoint := get true e.

Definition flush (e : Endpoint) : Endpoint := mkEndpoint [] [].

(** [Endpoint::release]: what is not pushed back is destroyed with the
    argument, which closes it. *)
Definition release (connPoolSize : N) (conn : Connection) (e : Endpoint) : Endpoint :=
  match conn with
  | None => e
  | Some i =>
      if isPrimary i then
        if (size (primaries_ e) <? connPoolSize)%N
        then mkEndpoint (conns_ e) (app (primaries_ e) [conn])
        else e
      else
        if (size (conns_ e) <? connPoolSize)%N
        then mkEndpoint (app (conns_ e) [conn]) (primaries_ e)
        else e
  end.

(** What can happen to the pools of one endpoint, under its mutex. *)
Inductive Op : Type :=
| OpGetAny
| OpGetPrimary
| OpPop (primary : bool)
| OpFlush
| OpRelease (conn : Connection).

Definition step (connPoolSize : N) (e : Endpoint) (o : Op) : Endpoint :=
  match o with
  | OpGetAny => snd (getAny e)
  | OpGetPrimary => snd (getPrimary e)
  | OpPop true => mkEndpoint (conns_ e) (snd (pop (primaries_ e)))
  | OpPop false => mkEndpoint (snd (pop (conns_ e))) (primaries_ e)
  | OpFlush => flush e
  | OpRelease c => release connPoolSize c e
  end.

Definition run (connPoolSize : N) (e : Endpoint) (ops : list Op) : Endpoint :=
  fold_left (step connPoolSize) ops e.

(** A new [Endpoint] has two empty vectors. *)
Definition fresh : Endpoint := mkEndpoint [] [].

End Pool.

(* ================================================================== *)
(** * Choosing a backend within the local threshold (shard.cpp) *)
(* ================================================================== *)

Module Select.

(** What [selectLocal] reads of a [Backend]: its address stands for the
    pointer, its roundtrip is in microseconds. *)
Record Backend : Type := mkBackend {
  addr : string;
  roundtrip : Z
}.

(** The first loop: the members of [byRoundtrip()] that [pred] accepts. *)
Definition candidatesOf (pred : Backend -> bool) (byrt : list Backend) : list Backend :=
  List.filter pred byrt.

(** [front()->roundtrip() + options().localThreshold]: microseconds plus
    milliseconds, in 64-bit microseconds. *)
Definition thresholdOf (front : Backend) (localThreshold : Z) : Z :=
  swrap 64 (roundtrip front + 1000 * localThreshold).

(** The second loop: how far [it] gets from [begin()]. *)
Fixpoint advance (threshold : Z) (l : list Backend) : nat :=
  match l with
  | [] => O
  | b :: r => if roundtrip b <? threshold then S (advance threshold r) else O
  end.

(** [std::distance(candidates.begin(), it)] when [i] is computed. *)
Definition range (candidates : list Backend) (localThreshold : Z) : nat :=
  match candidates with
  | [] => O
  | front :: _ =>
      let it := advance (thresholdOf front localThreshold) candidates in
      if Nat.eqb it 0 then List.length candidates else it
  end.

(** [rand() * distance / ((unsigned long long) RAND_MAX + 1)]. *)
Definition index (RAND_MAX rand : Z) (distance : nat) : nat :=
  Z.to_nat (rand * Z.of_nat distance / (RAND_MAX + 1)).

(** [Multiple::selectLocal]; [rand] is what [rand()] returns. *)
Definition selectLocal (RAND_MAX : Z) (pred : Backend -> bool) (byrt : list Backend)
    (localThreshold : Z) (rand : Z) : option Backend :=
  let candidates := candidatesOf pred byrt in
  match candidates with
  | [] => None
  | _ => nth_error candidates (index RAND_MAX rand (range candidates localThreshold))
  end.

End Select.

(* ================================================================== *)
(** * Asking a shard for a connection to read from (shard.cpp) *)
(* ================================================================== *)

Module Shard.
Import Bson Select.

(** [messages::Query::SLAVE_OK]. *)
Definition SLAVE_OK : Z := 4.

(** A [Backend*] is null ([None]) or points to the backend of the shard
    at an address. *)
Definition BackendPtr : Type := option Backend.

(** [b == p] on pointers. *)
Definition same (b : Backend) (p : BackendPtr) : bool :=
  match p with
  | Some e => String.eqb (addr b) (addr e)
  | None => false
  end.

(** Which of [getPrimary()] and [getAny()] of an endpoint a connection
    comes from. *)
Inductive Pooled : Type := FromPrimary | FromAny.

(** The [Connection] that [readOp] returns, by the backend of its
    endpoint; [None] is [Connection()]. *)
Definition Connection : Type := option (Backend * Pooled).

(** [Single::readOp]; [alive] is [backend()->alive()]. *)
Definition Single_readOp (backend : Backend) (alive : bool) (exclude : BackendPtr)
    : Connection :=
  if alive && negb (same backend exclude) then Some (backend, FromPrimary) else None.

(** [Sync::readOp]. *)
Definition Sync_readOp (RAND_MAX : Z) (byrt : list Backend) (localThreshold rand : Z)
    (exclude : BackendPtr) : Connection :=
  match selectLocal RAND_MAX (fun b => negb (same b exclude)) byrt localThreshold rand with
  | Some b => Some (b, FromAny)
  | None => None
  end.

(** What [ReplicaSet::readOp] reads of the replica set: the primary that
    [primary_] holds, the backends by roundtrip, [isHealthy],
    [tagsMatch(p, tags)] for a backend, and for [withinLag] the last
    conjunct of the predicate given to [selectLocal], which looks the
    backend up in [info]. *)
Record ReplicaSet : Type := mkReplicaSet {
  primary_ : BackendPtr;
  byRoundtrip : list Backend;
  isHealthy : Backend -> bool;
  tagsMatch : Backend -> list (string * Value) -> bool;
  withinLag : Backend -> list (string * Value) -> bool
}.

(** The mode and the tags that [readOp] works with. *)
Definition modeOf (queryFlags : Z) (readPref : Object)
    : result (string * list (string * Value)) :=
  if negb (empty readPref) then
    do mode <- as_string (get readPref "mode");
    do tags <- match get readPref "tags" with
               | None => Ok []
               | el => as_array el
               end;
    Ok (mode, tags)
  else if negb (Z.land queryFlags SLAVE_OK =? 0) then Ok ("nearest", [])
  else Ok ("primary", []).

(** [p != exclude && p && tagsMatch(p, tags)]. *)
Definition otherPrimary (rs : ReplicaSet) (tags : list (string * Value))
    (exclude : BackendPtr) : bool :=
  match primary_ rs with
  | Some p => negb (same p exclude) && tagsMatch rs p tags
  | None => false
  end.

(** [ReplicaSet::readOp]. *)
Definition ReplicaSet_readOp (RAND_MAX : Z) (localThreshold rand : Z) (rs : ReplicaSet)
    (queryFlags : Z) (readPref : Object) (exclude : BackendPtr) : result Connection :=
  do mt <- modeOf queryFlags readPref;
  let (mode, tags) := mt in
  if (String.eqb mode "primary" || String.eqb mode "primaryPreferred")
     && (String.eqb mode "primary" || otherPrimary rs tags exclude)
  then
    match primary_ rs with
    | Some p => Ok (Some (p, FromPrimary))
    | None => Ok None
    end
  else
    match selectLocal RAND_MAX
            (fun b => isHealthy rs b && negb (same b exclude) && withinLag rs b tags)
            (byRoundtrip rs) localThreshold rand with
    | Some b => Ok (Some (b, FromAny))
    | None => Ok None
    end.

End Shard.

(* ================================================================== *)
(** * The topology snapshot and the router (config.h, config.cpp) *)
(* ================================================================== *)

Module Topology.
Import Bson.

(** ** sorted_vector.h *)

Section SortedVector.
Context {T Key : Type}.
Variable extractor_ : T -> Key.
Variable lt : Key -> Key -> bool.   (* operator < of Key *)
Variable eq : Key -> Key -> bool.   (* operator == of Key *)

Fixpoint insert_sorted (x : T) (v : list T) : list T :=
  match v with
  | [] => [x]
  | y :: r =>
      if lt (extractor_ x) (extractor_ y) then x :: y :: r
      else y :: insert_sorted x r
  end.

(** [finish()]: [std::sort] with [cmp_]. *)
Definition finish (v : list T) : list T :=
  fold_left (fun acc x => insert_sorted x acc) v [].

(** [std::lower_bound]: the furthermost position all elements before which
    are less than [k]. *)
Fixpoint lower_bound (v : list T) (k : Key) : nat :=
  match v with
  | [] => O
  | x :: r => if lt (extractor_ x) k then S (lower_bound r k) else O
  end.

(** [std::upper_bound]: the furthermost position no element before which
    is greater than [k]. *)
Fixpoint upper_bound (v : list T) (k : Key) : nat :=
  match v with
  | [] => O
  | x :: r => if lt k (extractor_ x) then O else S (upper_bound r k)
  end.

Definition equal_range (v : list T) (k : Key) : nat * nat :=
  (lower_bound v k, upper_bound v k).

(** [find]: [None] is [end()]. *)
Definition find_ (v : list T) (k : Key) : option nat :=
  let i := lower_bound v k in
  match nth_error v i with
  | Some x => if eq (extractor_ x) k then Some i else None
  | None => None
  end.

Definition findPtr (v : list T) (k : Key) : option T :=
  match find_ v k with
  | Some i => nth_error v i
  | None => None
  end.

Definition findRef (v : list T) (k : Key) : result T :=
  match findPtr v k with
  | Some x => Ok x
  | None => Throw (OutOfRange "key not found")
  end.

End SortedVector.

(** ** version.h, proto.h *)

(** [bson::ObjectID] is twelve bytes, [bson::Timestamp] a [uint64_t]. *)
Record ChunkVersion : Type := mkVersion {
  epoch : list Z;
  stamp : Z
}.

(** [ChunkVersion()]. *)
Definition zeroVersion : ChunkVersion := mkVersion (repeat 0 12) 0.

Definition oid_eqb (a b : list Z) : bool :=
  match lex_compare a b with Eq => true | _ => false end.

Definition version_eqb (a b : ChunkVersion) : bool :=
  oid_eqb (epoch a) (epoch b) && (stamp a =? stamp b).

Record Namespace : Type := mkNamespace {
  db : string;
  collection : string;
  ns : string
}.

(** Where the first ['.'] of a string is. *)
Fixpoint find_dot (s : string) : option nat :=
  match s with
  | EmptyString => None
  | String c r =>
      if Ascii.eqb c "."%char then Some O
      else match find_dot r with Some i => Some (S i) | None => None end
  end.

(** [explicit Namespace(std::string ns)]; [REQUIRE] throws
    [errors::Error]. *)
Definition Namespace_of (s : string) : result Namespace :=
  match find_dot s with
  | None => Throw (Error "Assertion failed: dot != std::string::npos")
  | Some dot =>
      Ok (mkNamespace (String.substring 0 dot s)
            (String.substring (S dot) (String.length s - S dot) s) s)
  end.

(** ** config.h *)

(** A [std::shared_ptr<Shard>] is the address of a [Shard] that
    [ShardPool] owns; 0 is the null pointer. *)
Definition ShardPtr : Type := Z.

Record Chunk : Type := mkChunk {
  ns_ : Namespace;
  version_ : ChunkVersion;
  min_ : Object;
  max_ : Object;
  shardID_ : string;
  shard_ : ShardPtr
}.

Definition lowerBound (c : Chunk) : Object := min_ c.
Definition upperBound (c : Chunk) : Object := max_ c.

Definition contains (c : Chunk) (key : Object) : bool :=
  (empty (min_ c) || cmp greater_equal key (min_ c))
  && (empty (max_ c) || cmp less key (max_ c)).

Definition setVersion (c : Chunk) (v : ChunkVersion) : Chunk :=
  mkChunk (ns_ c) v (min_ c) (max_ c) (shardID_ c) (shard_ c).

(** [range_] holds two positions in [chunks_]. *)
Record Collection : Type := mkCollection {
  cns_ : Namespace;
  isDropped_ : bool;
  shardingKey_ : Object;
  range_ : nat * nat
}.

Record Database : Type := mkDatabase {
  name_ : string;
  isPartitioned_ : bool;
  primaryID_ : string;
  primary_ : ShardPtr
}.

Record VersionedShard : Type := mkVS {
  shard : ShardPtr;
  version : ChunkVersion
}.

Record Config : Type := mkConfig {
  configShard_ : ShardPtr;
  shards_ : list (string * ShardPtr);
  chunks_ : list Chunk;
  collections_ : list Collection;
  databases_ : list Database
}.

(** The key orders of the four sorted vectors. *)
Definition string_lt (a b : string) : bool := String.ltb a b.

(** [operator <] of [std::pair<std::string, bson::Object>]. *)
Definition pair_lt (a b : string * Object) : bool :=
  string_lt (fst a) (fst b)
  || (negb (string_lt (fst b) (fst a)) && cmp less (snd a) (snd b)).

Definition pair_eq (a b : string * Object) : bool :=
  String.eqb (fst a) (fst b) && cmp equal_to (snd a) (snd b).

Definition chunkKey (c : Chunk) : string * Object := (ns (ns_ c), lowerBound c).
Definition chunkNs (c : Chunk) : string := ns (ns_ c).
Definition collectionKey (c : Collection) : string := ns (cns_ c).

(** [Config::shard]. *)
Definition shardByName (configShard : ShardPtr) (shards : list (string * ShardPtr))
    (name : string) : result ShardPtr :=
  if String.eqb name "config" then Ok configShard
  else do s <- findRef fst string_lt String.eqb shards name; Ok (snd s).

Definition database (conf : Config) (name : string) : option Database :=
  findPtr name_ string_lt String.eqb (databases_ conf) name.

Definition collectionOf (conf : Config) (n : Namespace) : option Collection :=
  findPtr collectionKey string_lt String.eqb (collections_ conf) (ns n).

(** The chunks of a collection, [begin()] to [end()]. *)
Definition chunksOf (conf : Config) (c : Collection) : list Chunk :=
  firstn (snd (range_ c) - fst (range_ c)) (skipn (fst (range_ c)) (chunks_ conf)).

(** ** The constructors of the four tables *)

Definition Chunk_of (obj : Object) : result Chunk :=
  do nss <- as_string (get obj "ns");
  do n <- Namespace_of nss;
  do e <- match get obj "lastmodEpoch" with
          | Some (_, VObjectID bs) => Ok bs
          | _ => Throw TypeMismatch
          end;
  do ts <- match get obj "lastmod" with
           | Some (_, VTimestamp t) => Ok t
           | _ => Throw TypeMismatch
           end;
  do mn <- as_object (get obj "min");
  do mx <- as_object (get obj "max");
  do sh <- as_string (get obj "shard");
  let mn := if String.eqb (name (front mn)) "$minkey" then [] else mn in
  let mx := if String.eqb (name (front mx)) "$maxkey" then [] else mx in
  Ok (mkChunk n (mkVersion e ts) mn mx sh 0).

Definition ShardConf_of (obj : Object) : result (string * string) :=
  do id <- as_string (get obj "_id");
  do connstr <- as_string (get obj "host");
  Ok (id, connstr).

Definition Collection_of (obj : Object) : result Collection :=
  do nss <- as_string (get obj "_id");
  do n <- Namespace_of nss;
  do d <- as_bool (get obj "dropped");
  do k <- as_object (get obj "key");
  Ok (mkCollection n d k (O, O)).

Definition Database_of (obj : Object) : result Database :=
  do nm <- as_string (get obj "_id");
  do p <- as_bool (get obj "partitioned");
  do pr <- as_string (get obj "primary");
  Ok (mkDatabase nm p pr 0).

(** The loop of [populate], before [finish()]. *)
Fixpoint emplace_all {T : Type} (make : Object -> result T)
    (arr : list (string * Value)) : result (list T) :=
  match arr with
  | [] => Ok []
  | el :: r =>
      do o <- as_object (Some el);
      do t <- make o;
      do ts <- emplace_all make r;
      Ok (t :: ts)
  end.

Definition populate {T Key : Type} (extractor_ : T -> Key) (lt : Key -> Key -> bool)
    (make : Object -> result T) (arr : Element) : result (list T) :=
  do a <- as_array arr;
  do v <- emplace_all make a;
  Ok (finish extractor_ lt v).

(** [link(conf, dest)] for the three tables. *)
Fixpoint mapM {A B : Type} (f : A -> result B) (l : list A) : result (list B) :=
  match l with
  | [] => Ok []
  | a :: r => do b <- f a; do bs <- mapM f r; Ok (b :: bs)
  end.

Definition Chunk_link (configShard : ShardPtr) (shards : list (string * ShardPtr))
    (c : Chunk) : result Chunk :=
  do p <- shardByName configShard shards (shardID_ c);
  Ok (mkChunk (ns_ c) (version_ c) (min_ c) (max_ c) (shardID_ c) p).

(** The loop of [Collection::link] over neighbouring chunks. *)
Fixpoint has_gap (l : list Chunk) : bool :=
  match l with
  | i :: ((j :: _) as r) => cmp not_equal_to (upperBound i) (lowerBound j) || has_gap r
  | _ => false
  end.

Definition Collection_link (chunks : list Chunk) (c : Collection) : result Collection :=
  let r := equal_range chunkNs string_lt chunks (ns (cns_ c)) in
  if has_gap (firstn (snd r - fst r) (skipn (fst r) chunks))
  then Throw (RuntimeError ("gap in partition of collection " ++ ns (cns_ c)))
  else Ok (mkCollection (cns_ c) (isDropped_ c) (shardingKey_ c) r).

Definition Database_link (configShard : ShardPtr) (shards : list (string * ShardPtr))
    (d : Database) : result Database :=
  do p <- shardByName configShard shards (primaryID_ d);
  Ok (mkDatabase (name_ d) (isPartitioned_ d) (primaryID_ d) p).

(** ** The versions of a (namespace, shard) pair *)

Definition groupKey (ch : Chunk) : string * Z := (ns (ns_ ch), shard_ ch).

(** The first loop at the end of [Config::Config]; [connectionString]
    gives the text of a shard for the message. *)
Fixpoint collectVersions (connectionString : ShardPtr -> string)
    (versions : gmap (string * Z) ChunkVersion) (chunks : list Chunk)
    : result (gmap (string * Z) ChunkVersion) :=
  match chunks with
  | [] => Ok versions
  | ch :: r =>
      let k := groupKey ch in
      match versions !! k with
      | None => collectVersions connectionString (<[k := version_ ch]> versions) r
      | Some v =>
          if negb (oid_eqb (epoch v) (epoch (version_ ch))) then
            Throw (ShardConfigBroken
                     ("chunks epochs differ for collection " ++ ns (ns_ ch)
                      ++ " and shard " ++ connectionString (shard_ ch)))
          else if stamp v <? stamp (version_ ch) then
            collectVersions connectionString (<[k := version_ ch]> versions) r
          else collectVersions connectionString versions r
      end
  end.

(** The second loop. *)
Definition applyVersions (versions : gmap (string * Z) ChunkVersion)
    (chunks : list Chunk) : list Chunk :=
  map (fun ch => setVersion ch (default (version_ ch) (versions !! groupKey ch))) chunks.

Definition unifyVersions (connectionString : ShardPtr -> string)
    (chunks : list Chunk) : result (list Chunk) :=
  do versions <- collectVersions connectionString ∅ chunks;
  Ok (applyVersions versions chunks).

(** ** [Config::Config]

    [pool] is [ShardPool::instance().get]: the shard interned for a
    connection string (the identifier only names a new one). *)
Definition linkAll (pool : string -> string -> ShardPtr) (configShard : ShardPtr)
    (obj : Object) : result Config :=
  do shards <- populate fst string_lt ShardConf_of (get obj "shards");
  do chunks <- populate chunkKey pair_lt Chunk_of (get obj "chunks");
  do collections <- populate collectionKey string_lt Collection_of (get obj "collections");
  do databases <- populate name_ string_lt Database_of (get obj "databases");
  let shards_ := map (fun s => (fst s, pool (fst s) (snd s))) shards in
  do chunks <- mapM (Chunk_link configShard shards_) chunks;
  do collections <- mapM (Collection_link chunks) collections;
  do databases <- mapM (Database_link configShard shards_) databases;
  Ok (mkConfig configShard shards_ chunks collections databases).

Definition Config_of (pool : string -> string -> ShardPtr)
    (connectionString : ShardPtr -> string) (configShard : ShardPtr)
    (obj : Object) : result Config :=
  do linked <- linkAll pool configShard obj;
  do chunks <- unifyVersions connectionString (chunks_ linked);
  Ok (mkConfig (configShard_ linked) (shards_ linked) chunks
        (collections_ linked) (databases_ linked)).

(** ** [Config::shards(ns)] *)

(** [std::map<std::shared_ptr<Shard>, ChunkVersion>], kept in key order;
    [insert] leaves an existing key alone. *)
Fixpoint map_insert (k : ShardPtr) (v : ChunkVersion)
    (m : list (ShardPtr * ChunkVersion)) : list (ShardPtr * ChunkVersion) :=
  match m with
  | [] => [(k, v)]
  | (k', v') :: r =>
      if k <? k' then (k, v) :: m
      else if k' <? k then (k', v') :: map_insert k v r
      else m
  end.

Definition shardsOf (conf : Config) (n : Namespace) : list VersionedShard :=
  if String.eqb (db n) "config" then [mkVS (configShard_ conf) zeroVersion]
  else
    let m :=
      match collectionOf conf n with
      | Some c =>
          fold_left (fun m chunk => map_insert (shard_ chunk) (version_ chunk) m)
            (chunksOf conf c) []
      | None =>
          match database conf (db n) with
          | Some d => map_insert (primary_ d) zeroVersion []
          | None => []
          end
      end in
    map (fun s => mkVS (fst s) (snd s)) m.

(** ** [Config::find] *)

(** What the loop over the sharding key leaves behind, unless it
    returns early. *)
Record Scan : Type := mkScan {
  vectorName : string;
  vectorValues : list (string * Value);
  headb : Object;
  tailb : Object
}.

(** [*s != '$'] on the characters of a name. *)
Definition starts_with_dollar (s : string) : bool :=
  match s with
  | String c _ => Ascii.eqb c "$"%char
  | EmptyString => false
  end.

(** The loop over the sharding key: [None] is [return shards(ns)]. *)
Fixpoint scanKey (criteria : Object) (key : list (string * Value)) (st : Scan)
    : result (option Scan) :=
  match key with
  | [] => Ok (Some st)
  | (kname, _) :: r =>
      let el := get criteria kname in
      match el with
      | None => Ok None
      | Some (_, v) =>
          let op := match v with
                    | VObject o => starts_with_dollar (name (front o))
                    | _ => false
                    end in
          if negb op then
            if String.eqb (vectorName st) ""
            then scanKey criteria r
                   (mkScan (vectorName st) (vectorValues st) (put (headb st) kname v) (tailb st))
            else scanKey criteria r
                   (mkScan (vectorName st) (vectorValues st) (headb st) (put (tailb st) kname v))
          else
            do o <- as_object el;
            if String.eqb (name (front o)) "$in" then
              if String.eqb (vectorName st) "" then
                do vals <- as_array (front o);
                scanKey criteria r (mkScan kname vals (headb st) (tailb st))
              else Ok None
            else Ok None
      end
  end.

(** The name of the hashed field, or the empty string. *)
Definition hashedFieldOf (shardingKey : Object) : string :=
  match shardingKey with
  | [(n, VString "hashed")] => n
  | _ => ""
  end.

(** The lambda [doFind]. *)
Definition doFind (MD5 : list Z -> list Z) (conf : Config) (n : Namespace)
    (hashedField : string) (key : Object) : result VersionedShard :=
  do k <- (if String.eqb hashedField "" then Ok key
           else do h <- Hashing.hash MD5 (get key hashedField);
                Ok [(hashedField, VInt64 (swrap 64 h))]);
  let i := upper_bound chunkKey pair_lt (chunks_ conf) (ns n, k) in
  match i with
  | O => Throw (AssertionFailed "Assertion failed: i != chunks_.begin()")
  | S i' =>
      match nth_error (chunks_ conf) i' with
      | Some ch =>
          if contains ch k then Ok (mkVS (shard_ ch) (version_ ch))
          else Throw (AssertionFailed "Assertion failed: i->contains(k)")
      | None => Throw (Undefined "dereference past the end")
      end
  end.

(** [std::set<VersionedShard, vsLess>::insert]. *)
Fixpoint set_insert (x : VersionedShard) (s : list VersionedShard) : list VersionedShard :=
  match s with
  | [] => [x]
  | y :: r =>
      if shard x <? shard y then x :: s
      else if shard y <? shard x then y :: set_insert x r
      else s
  end.

(** The last loop, over the values of [$in]. *)
Fixpoint findEach (MD5 : list Z -> list Z) (conf : Config) (n : Namespace)
    (hashedField : string) (st : Scan) (values : list (string * Value))
    (ret : list VersionedShard) : result (list VersionedShard) :=
  match values with
  | [] => Ok ret
  | (_, v) :: r =>
      let kb := app (headb st) (app [(vectorName st, v)] (tailb st)) in
      do vs <- doFind MD5 conf n hashedField kb;
      findEach MD5 conf n hashedField st r (set_insert vs ret)
  end.

Definition find (MD5 : list Z -> list Z) (conf : Config) (n : Namespace)
    (criteria : Object) : result (list VersionedShard) :=
  match collectionOf conf n with
  | None => Ok (shardsOf conf n)
  | Some coll =>
      let hashedField := hashedFieldOf (shardingKey_ coll) in
      do sc <- scanKey criteria (shardingKey_ coll) (mkScan "" [] [] []);
      match sc with
      | None => Ok (shardsOf conf n)
      | Some st =>
          if String.eqb (vectorName st) "" then
            do vs <- doFind MD5 conf n hashedField (headb st);
            Ok [vs]
          else findEach MD5 conf n hashedField st (vectorValues st) []
      end
  end.

End Topology.

(* ================================================================== *)
(** * Datasources, cursors and the reply loop
      (operations.h, cursor.h, session.cpp) *)
(* ================================================================== *)

Module Feed.
Import Bson.

(** [messages::Reply] flags. *)
Definition CURSOR_NOT_FOUND : Z := 1.
Definition QUERY_FAILURE : Z := 2.

(** [DataSource::generateID]: [++g_id] on the process-wide
    [std::atomic<uint64_t>]; the new counter, which is also the
    identifier. *)
Definition generateID (g_id : Z) : Z := wrap 64 (g_id + 1).

(** The subclasses of [DataSource].  [Remote] stands for a
    [BackendDatasource] or a [MergeDatasource] by what the reply loop can
    observe of it: the documents still to come, each with what
    [doAdvance()] does when the cursor moves past it, return ([None]) or
    throw a [std::exception] with that [what()]. *)
Inductive Body : Type :=
| Null
| Fixed (obj_ : Object) (consumed_ : bool) (flags_ : Z)
| Remote (pending : list (Object * option string)).

Record DataSource : Type := mkDS {
  id_ : Z;
  pos_ : Z;
  closed_ : bool;
  body : Body
}.

(** [DataSource::DataSource()] for a subclass object. *)
Definition construct (g_id : Z) (b : Body) : Z * DataSource :=
  let id := generateID g_id in (id, mkDS id 0 false b).

Definition setId (ds : DataSource) (id : Z) : DataSource :=
  mkDS id (pos_ ds) (closed_ ds) (body ds).

Definition atEnd (ds : DataSource) : bool :=
  match body ds with
  | Null => true
  | Fixed _ consumed _ => consumed
  | Remote [] => true
  | Remote (_ :: _) => false
  end.

Definition get (ds : DataSource) : result Object :=
  match body ds with
  | Null => Throw (AssertionFailed "NullDatasource::get(): should never reach here")
  | Fixed o _ _ => Ok o
  | Remote [] => Throw (Undefined "dereference past the end")
  | Remote ((o, _) :: _) => Ok o
  end.

Definition flags (ds : DataSource) : Z :=
  match body ds with
  | Fixed _ _ f => f
  | _ => 0
  end.

(** [advance()]: the datasource afterwards, and the [what()] of the
    exception when [doAdvance()] throws. *)
Definition advance (ds : DataSource) : DataSource * option string :=
  if atEnd ds then (ds, None)
  else
    let pos := wrap 64 (pos_ ds + 1) in
    match body ds with
    | Fixed o _ f => (mkDS (id_ ds) pos (closed_ ds) (Fixed o true f), None)
    | Remote ((_, outcome) :: r) => (mkDS (id_ ds) pos (closed_ ds) (Remote r), outcome)
    | _ => (ds, None)
    end.

Definition close (ds : DataSource) : DataSource :=
  mkDS (id_ ds) (pos_ ds) true (body ds).

(** [FixedDataSource::queryError]. *)
Definition errorDocument (msg : string) : Object := [("$err", VString msg)].

Definition queryError (g_id : Z) (msg : string) : Z * DataSource :=
  construct g_id (Fixed (errorDocument msg) false QUERY_FAILURE).

(** The reply that [feed] writes to the client. *)
Record Reply : Type := mkReply {
  size : Z;
  responseTo : Z;
  replyFlags : Z;
  cursorID : Z;
  startingFrom : Z;
  numberReturned : Z;
  documents : list Object
}.

Definition INF : Z := SIZE_MAX.
Definition MAX_SIZE : Z := 16 * 1024 * 1024.
Definition sizeof_ReplyHeader : Z := 36.

(** The variables that the [while] loop of [feed] changes.  [current] is
    the pointer [datasource]; [isErr] tells that it points to the object
    that [err] owns and no longer to the argument. *)
Record Loop : Type := mkLoop {
  g_id : Z;
  current : DataSource;
  isErr : bool;
  hdrFlags : Z;
  replySize : Z;
  docs : list Object;
  retcnt : Z;
  cnt : Z
}.

(** The loop condition, for a datasource that is not null. *)
Definition goesOn (l : Loop) : result bool :=
  if atEnd (current l) then Ok false
  else
    do o <- get (current l);
    Ok ((replySize l + rawSize o <? MAX_SIZE) && negb (cnt l =? 0)).

(** One turn of the loop: [inl] to go round again, [inr] after [break]. *)
Definition turn (l : Loop) : result (Loop + Loop) :=
  do obj <- get (current l);
  let (ds', thrown) := advance (current l) in
  match thrown with
  | Some what =>
      let (g', e) := queryError (g_id l) what in
      let e := setId e (id_ (current l)) in
      if negb (retcnt l =? 0)
      then Ok (inr (mkLoop g' e true (hdrFlags l) (replySize l) (docs l) (retcnt l) (cnt l)))
      else Ok (inl (mkLoop g' e true (Z.lor (hdrFlags l) (flags e))
                      (replySize l) (docs l) (retcnt l) (cnt l)))
  | None =>
      Ok (inl (mkLoop (g_id l) ds' (isErr l) (hdrFlags l)
                 (replySize l + rawSize obj) (app (docs l) [obj])
                 (wrap 64 (retcnt l + 1))
                 (if negb (cnt l =? INF) then cnt l - 1 else cnt l)))
  end.

(** The loop, for at most [fuel] turns; [None] when they do not
    suffice. *)
Fixpoint while (fuel : nat) (l : Loop) : option (result Loop) :=
  match goesOn l with
  | Throw e => Some (Throw e)
  | Ok false => Some (Ok l)
  | Ok true =>
      match fuel with
      | O => None
      | S fuel' =>
          match turn l with
          | Throw e => Some (Throw e)
          | Ok (inr l') => Some (Ok l')
          | Ok (inl l') => while fuel' l'
          end
      end
  end.

(** How many documents a datasource can still give. *)
Definition remaining (ds : DataSource) : nat :=
  match body ds with
  | Null => O
  | Fixed _ consumed _ => if consumed then O else 1%nat
  | Remote p => List.length p
  end.

(** [size_t cnt = abs(count)] and the two adjustments; [batchSize] is
    [debugOptions().batchSize]. *)
Definition initialCount (batchSize count : Z) : Z :=
  let c := wrap 64 (swrap 32 (Z.abs count)) in
  let c := if c =? 0 then INF else c in
  Z.min c batchSize.

Definition autoCloses (count : Z) : bool := (count =? 1) || (count <? 0).

(** What [feed] hands back: the counter, the reply, the returned pointer
    and whether it differs from the argument. *)
Record Fed : Type := mkFed {
  counter : Z;
  reply : Reply;
  returned : option DataSource;
  replaced : bool
}.

(** [Session::feed]. *)
Definition feed (batchSize : Z) (g : Z) (reqID : Z) (datasource : option DataSource)
    (count : Z) : option (result Fed) :=
  match datasource with
  | None =>
      Some (Ok (mkFed g
                  (mkReply sizeof_ReplyHeader reqID CURSOR_NOT_FOUND 0 0 0 [])
                  None false))
  | Some ds =>
      let l0 := mkLoop g ds false (flags ds) sizeof_ReplyHeader [] 0
                  (initialCount batchSize count) in
      match while (S (2 * remaining ds)) l0 with
      | None => None
      | Some (Throw e) => Some (Throw e)
      | Some (Ok l) =>
          let keep := negb (autoCloses count) && negb (atEnd (current l)) in
          let ds' := if keep then current l else close (current l) in
          Some (Ok (mkFed (g_id l)
                      (mkReply (replySize l) reqID (hdrFlags l)
                         (if keep then id_ (current l) else 0)
                         (wrap 32 (pos_ ds)) (wrap 32 (retcnt l)) (docs l))
                      (Some ds') (isErr l)))
      end
  end.

(** ** The cursor map and the session's use of [feed] *)

Record Session : Type := mkSession {
  s_g_id : Z;
  cursors_ : gmap Z DataSource
}.

(** [CursorMap::find]. *)
Definition cursorFind (m : gmap Z DataSource) (id : Z) : option DataSource :=
  match m !! id with
  | Some ds => if id_ ds =? id then Some ds else None
  | None => None
  end.

Definition cursorInsert (m : gmap Z DataSource) (ds : DataSource) : gmap Z DataSource :=
  <[id_ ds := ds]> m.

Definition cursorErase (m : gmap Z DataSource) (ds : DataSource) : gmap Z DataSource :=
  delete (id_ ds) m.

(** The [QUERY] branch of [Session::run] from the call of [feed] on, for
    the datasource that the query made. *)
Definition answerQuery (batchSize : Z) (s : Session) (reqID : Z) (datasource : DataSource)
    (nToReturn : Z) : option (result (Session * Reply)) :=
  match feed batchSize (s_g_id s) reqID (Some datasource) nToReturn with
  | None => None
  | Some (Throw e) => Some (Throw e)
  | Some (Ok f) =>
      match returned f with
      | None => Some (Ok (mkSession (counter f) (cursors_ s), reply f))
      | Some ds =>
          if negb (closed_ ds)
          then Some (Ok (mkSession (counter f) (cursorInsert (cursors_ s) ds), reply f))
          else Some (Ok (mkSession (counter f) (cursors_ s), reply f))
      end
  end.

(** The [GET_MORE] branch of [Session::run].  [feed] works on the object
    that the map owns: when the cursor is neither closed nor replaced the
    code does nothing, and the map holds the object as [feed] left it. *)
Definition getMore (batchSize : Z) (s : Session) (reqID : Z) (cursor : Z)
    (nToReturn : Z) : option (result (Session * Reply)) :=
  let oldds := cursorFind (cursors_ s) cursor in
  match feed batchSize (s_g_id s) reqID oldds (swrap 32 nToReturn) with
  | None => None
  | Some (Throw e) => Some (Throw e)
  | Some (Ok f) =>
      match returned f with
      | None => Some (Ok (mkSession (counter f) (cursors_ s), reply f))
      | Some newds =>
          if closed_ newds
          then Some (Ok (mkSession (counter f) (cursorErase (cursors_ s) newds), reply f))
          else if replaced f
          then Some (Ok (mkSession (counter f) (cursorInsert (cursors_ s) newds), reply f))
          else Some (Ok (mkSession (counter f) (<[cursor := newds]> (cursors_ s)), reply f))
      end
  end.

End Feed.

(* ================================================================== *)
(** * Reads with a retransmission (read.cpp, parallel.h) *)
(* ================================================================== *)

Module Read.
Import Bson Select Shard.

(** The [Reply] of read.cpp. *)
Record Reply : Type := mkReply {
  objects : list Object;
  cursorID : Z
}.





Inductive TaskId : Type := T1 | T2.







(** [*i = tasks_.back(); tasks_.pop_back();]. *)
Definition take (tasks_ : list TaskId) (i : nat) : list TaskId :=
  List.removelast
    (app (firstn i tasks_) (List.last tasks_ T1 :: skipn (S i) tasks_)).










End Read.

(* ================================================================== *)
(** * The other branches of [Session::run] (session.cpp) *)
(* ================================================================== *)

Module SessionOps.
Import Bson Feed.

(** The [KILL_CURSORS] branch: every cursor of the message that the map
    knows is closed and erased. *)
Definition killCursor (m : gmap Z DataSource) (cursorID : Z) : gmap Z DataSource :=
  match cursorFind m cursorID with
  | Some ds => cursorErase m (close ds)
  | None => m
  end.

Definition killCursors (s : Session) (cursorIDs : list Z) : Session :=
  mkSession (s_g_id s) (fold_left killCursor cursorIDs (cursors_ s)).

End SessionOps.

(* ================================================================== *)
(** * Privileges and authentication (auth.h, auth.cpp, session.cpp) *)
(* ================================================================== *)

Module Auth.
Import Bson.

(** [hex]: two digits for every byte. *)
Definition DIGITS : string := "0123456789abcdef".

Definition digit (d : Z) : ascii :=
  match String.get (Z.to_nat d) DIGITS with
  | Some c => c
  | None => "0"%char
  end.

Fixpoint hex (data : list Z) : string :=
  match data with
  | [] => ""
  | p :: r => String (digit (Z.shiftr p 4)) (String (digit (Z.land p 15)) (hex r))
  end.

(** [md5hex]; [MD5] is OpenSSL's. *)
Definition md5hex (MD5 : list Z -> list Z) (str : string) : string :=
  hex (MD5 (string_bytes str)).

Definition makeDigest (MD5 : list Z -> list Z) (user passwd : string) : string :=
  md5hex MD5 (user ++ ":mongo:" ++ passwd).

Definition makeAuthKey (MD5 : list Z -> list Z) (nonce user digest : string) : string :=
  md5hex MD5 (nonce ++ user ++ digest).

(** [mknonce], from the eight bytes that [/dev/urandom] or [random()]
    gave. *)
Definition mknonce (val : list Z) : string := hex val.

Inductive Privilege : Type :=
| READ | WRITE | DB_ADMIN | USER_ADMIN | CLUSTER_ADMIN.

Definition index (p : Privilege) : Z :=
  match p with
  | READ => 1
  | WRITE => 2
  | DB_ADMIN => 3
  | USER_ADMIN => 4
  | CLUSTER_ADMIN => 5
  end.

(** [1u << static_cast<unsigned>(p)]. *)
Definition makeMask (p : Privilege) : Z := Z.shiftl 1 (index p).

(** [masks_] is a [std::map<std::string, unsigned>]. *)
Record Privileges : Type := mkPrivileges {
  globalMask_ : Z;
  masks_ : gmap string Z
}.

(** [Privileges()]. *)
Definition nobody : Privileges := mkPrivileges 0 ∅.

(** [makeRoot]: [static_cast<unsigned>(-1)]. *)
Definition root : Privileges := mkPrivileges (wrap 32 (-1)) ∅.

Definition authorized (p : Privileges) (db : string) (pr : Privilege) : bool :=
  let bit := makeMask pr in
  if negb (Z.land (globalMask_ p) bit =? 0) then true
  else
    match masks_ p !! db with
    | Some m => negb (Z.land m bit =? 0)
    | None => false
    end.

(** [require]: [Some what] is [errors::Unauthorized(what)] thrown;
    [auth_] is [options().auth]. *)
Definition require (auth_ : bool) (p : Privileges) (db : string) (pr : Privilege)
    : option string :=
  if auth_ && negb (authorized p db pr) then Some "unauthorized" else None.

(** The role that an element of [roles] names; [None] is [continue]. *)
Definition roleOf (elt : string * Value) : result (option string) :=
  match snd elt with
  | VString role => Ok (Some role)
  | VObject o =>
      do localdb <- as_string (get o "db");
      do role <- as_string (get o "role");
      Ok (Some role)
  | _ => Ok None
  end.

(** The loop of [applyRoles] over [newmask] and [newglobal]. *)
Fixpoint gather (db : string) (roles : list (string * Value)) (newmask newglobal : Z)
    : result (Z * Z) :=
  match roles with
  | [] => Ok (newmask, newglobal)
  | elt :: r =>
      do role <- roleOf elt;
      match role with
      | None => gather db r newmask newglobal
      | Some role =>
          let isAdmin := String.eqb db "admin" in
          if String.eqb role "read" then
            gather db r (Z.lor newmask (makeMask READ)) newglobal
          else if String.eqb role "readWrite" then
            gather db r (Z.lor newmask (Z.lor (makeMask READ) (makeMask WRITE))) newglobal
          else if String.eqb role "dbAdmin" then
            gather db r (Z.lor newmask (makeMask DB_ADMIN)) newglobal
          else if String.eqb role "userAdmin" then
            gather db r (Z.lor newmask (makeMask USER_ADMIN)) newglobal
          else if String.eqb role "dbOwner" then
            gather db r
              (Z.lor newmask
                 (Z.lor (Z.lor (Z.lor (makeMask DB_ADMIN) (makeMask USER_ADMIN))
                           (makeMask READ)) (makeMask WRITE)))
              newglobal
          else if isAdmin && String.eqb role "clusterAdmin" then
            gather db r newmask (Z.lor newglobal (makeMask CLUSTER_ADMIN))
          else if isAdmin && String.eqb role "readAnyDatabase" then
            gather db r newmask (Z.lor newglobal (makeMask READ))
          else if isAdmin && String.eqb role "readWriteAnyDatabase" then
            gather db r newmask (Z.lor newglobal (Z.lor (makeMask READ) (makeMask WRITE)))
          else if isAdmin && String.eqb role "userAdminAnyDatabase" then
            gather db r newmask (Z.lor newglobal (makeMask USER_ADMIN))
          else if isAdmin && String.eqb role "dbAdminAnyDatabase" then
            gather db r newmask (Z.lor newglobal (makeMask DB_ADMIN))
          else
            Throw (ShardConfigBroken
                     ("unknown privilege `" ++ role ++ "' for database `" ++ db ++ "'"))
      end
  end.

(** [masks_[db] |= mask]: the entry is made when it is not there. *)
Definition orMask (p : Privileges) (db : string) (mask : Z) : Privileges :=
  mkPrivileges (globalMask_ p)
    (<[db := Z.lor (default 0 (masks_ p !! db)) mask]> (masks_ p)).

(** [Privileges::applyRoles]; nothing is changed when the loop throws. *)
Definition applyRoles (db : string) (roles : list (string * Value)) (p : Privileges)
    : result Privileges :=
  do m <- gather db roles 0 0;
  let p' := orMask p db (fst m) in
  Ok (mkPrivileges (Z.lor (globalMask_ p') (snd m)) (masks_ p')).

(** [Element::operator[]] for a field name. *)
Definition field (e : Element) (key : string) : Element :=
  match e with
  | Some (_, VObject o) => get o key
  | _ => None
  end.

(** [as<std::string>(dfltValue)]. *)
Definition as_string_or (e : Element) (dfltValue : string) : result string :=
  if exists_ e then as_string e else Ok dfltValue.

(** The key that the user document stores. *)
Definition storedKey (user : Object) : result string :=
  if negb (empty user) then
    do key <- as_string_or (field (get user "credentials") "MONGODB-CR") "";
    if String.eqb key "" then as_string_or (get user "pwd") "" else Ok key
  else Ok "".

(** The user document has no [roles]: the privileges of a user of
    MongoDB 2.2. *)
Definition legacyRoles (db : string) (user : Object) (p : Privileges) : Privileges :=
  let p := orMask p db (makeMask READ) in
  let ro := get user "readOnly" in
  let writes :=
    match ro with
    | Some (_, VBool b) => negb b
    | Some (_, VInt32 i) => swrap 32 i =? 0
    | _ => false
    end in
  if writes then orMask p db (makeMask WRITE) else p.

(** The loop over [otherDBRoles]: what has been applied stays applied
    when a later element throws. *)
Fixpoint otherRoles (elts : list (string * Value)) (p : Privileges)
    : Privileges * result unit :=
  match elts with
  | [] => (p, Ok tt)
  | elt :: r =>
      match as_array (Some elt) with
      | Throw e => (p, Throw e)
      | Ok roles =>
          match applyRoles (fst elt) roles p with
          | Throw e => (p, Throw e)
          | Ok p' => otherRoles r p'
          end
      end
  end.

(** [Privileges::auth]: the privileges afterwards, and what it returns
    or throws.  [auth_] is [options().auth], [find] is
    [CredentialsCache::instance().find]. *)
Definition auth (auth_ : bool) (find : string -> string -> Object)
    (MD5 : list Z -> list Z) (db : string) (obj : Object) (p : Privileges)
    : Privileges * result bool :=
  if negb auth_ then (p, Ok true)
  else
    match as_string (get obj "user") with
    | Throw e => (p, Throw e)
    | Ok username =>
        let user := find db username in
        match storedKey user with
        | Throw e => (p, Throw e)
        | Ok key =>
            let denied : result bool :=
              if String.eqb key "" then Ok true
              else
                do given <- as_string_or (get obj "key") "";
                do nonce <- as_string_or (get obj "nonce") "";
                Ok (negb (String.eqb given (makeAuthKey MD5 nonce username key))) in
            match denied with
            | Throw e => (p, Throw e)
            | Ok true => (p, Ok false)
            | Ok false =>
                let applied : result Privileges :=
                  if exists_ (get user "roles")
                  then do roles <- as_array (get user "roles"); applyRoles db roles p
                  else Ok (legacyRoles db user p) in
                match applied with
                | Throw e => (p, Throw e)
                | Ok p1 =>
                    if exists_ (get user "otherDBRoles") then
                      match as_object (get user "otherDBRoles") with
                      | Throw e => (p1, Throw e)
                      | Ok elts =>
                          match otherRoles elts p1 with
                          | (p2, Throw e) => (p2, Throw e)
                          | (p2, Ok _) => (p2, Ok true)
                          end
                      end
                    else (p1, Ok true)
                end
            end
        end
    end.

(** ** The [getnonce] and [authenticate] branches of [Session::command] *)

Record Login : Type := mkLogin {
  nonce_ : string;
  privileges_ : Privileges
}.

(** [success()] and [failure(errcode, msg)]. *)
Definition success (more : Object) : Object := ("ok", VInt32 1) :: more.

Definition failure (errcode : Z) (msg : string) : Object :=
  [("ok", VInt32 0); ("errmsg", VString msg); ("code", VInt32 errcode)].

Definition getnonce (val : list Z) (s : Login) : Login * Object :=
  let n := mknonce val in
  (mkLogin n (privileges_ s), success [("nonce", VString n)]).

Definition authenticate (auth_ : bool) (find : string -> string -> Object)
    (MD5 : list Z -> list Z) (dbname : string) (obj : Object) (s : Login)
    : Login * result Object :=
  if String.eqb (nonce_ s) "" then (s, Ok (failure 18 "nonce mismatch"))
  else
    match as_string (get obj "nonce") with
    | Throw e => (s, Throw e)
    | Ok n =>
        if negb (String.eqb (nonce_ s) n) then (s, Ok (failure 18 "nonce mismatch"))
        else
          match auth auth_ find MD5 dbname obj (privileges_ s) with
          | (p, Throw e) => (mkLogin "" p, Throw e)
          | (p, Ok false) => (mkLogin "" p, Ok (failure 18 "invalid username/password"))
          | (p, Ok true) => (mkLogin "" p, Ok (success []))
          end
    end.

End Auth.

(* ================================================================== *)
(** * Write concerns and the cached acknowledgement
      (write.cpp, operations.h) *)
(* ================================================================== *)

Module Concern.
Import Bson.

(** [tolower] in the C locale. *)
Definition tolower (c : ascii) : ascii :=
  let n := nat_of_ascii c in
  if ((65 <=? n) && (n <=? 90))%nat then ascii_of_nat (n + 32) else c.

Fixpoint lowered (s : string) : string :=
  match s with
  | EmptyString => EmptyString
  | String c r => String (tolower c) (lowered r)
  end.

(** The lambda [eltname]. *)
Definition eltname (elt : string * Value) : string := lowered (fst elt).

(** [std::unordered_map::insert] leaves an existing key alone. *)
Definition seenInsert (seen : gmap string (string * Value)) (name : string)
    (elt : string * Value) : gmap string (string * Value) :=
  match seen !! name with
  | Some _ => seen
  | None => <[name := elt]> seen
  end.

(** The first loop: [None] is [return false]. *)
Fixpoint first (w1 : list (string * Value)) (seen : gmap string (string * Value))
    (c1 : Element) : option (gmap string (string * Value) * Element) :=
  match w1 with
  | [] => Some (seen, c1)
  | elt :: r =>
      let name := eltname elt in
      if String.eqb name "getlasterror" then first r seen c1
      else if String.eqb name "w" then first r seen (Some elt)
      else if String.eqb name "wtimeout" then None
      else first r (seenInsert seen name elt) c1
  end.

(** The second loop. *)
Fixpoint second (w2 : list (string * Value)) (seen : gmap string (string * Value))
    (c2 : Element) : option (gmap string (string * Value) * Element) :=
  match w2 with
  | [] => Some (seen, c2)
  | elt :: r =>
      let name := eltname elt in
      if String.eqb name "getlasterror" then second r seen c2
      else if String.eqb name "w" then second r seen (Some elt)
      else if String.eqb name "wtimeout" then None
      else
        match seen !! name with
        | None => None
        | Some e =>
            if cmpElt not_equal_to (Some e) (Some elt) then None
            else second r (delete name seen) c2
        end
  end.

(** [as<int>(dfltValue)]. *)
Definition as_int_or (e : Element) (dfltValue : Z) : result Z :=
  if exists_ e then as_int e else Ok dfltValue.

(** The [return] statement. *)
Definition finalCheck (seen : gmap string (string * Value)) (c1 c2 : Element) : result bool :=
  if negb (bool_decide (dom seen = (∅ : gset string))) then Ok false
  else
    let strings :=
      match c1, c2 with
      | Some (_, VString a), Some (_, VString b) => String.eqb a b
      | _, _ => false
      end in
    if strings then Ok true
    else if (negb (exists_ c1) || isNumber c1) && (negb (exists_ c2) || isNumber c2) then
      do a <- as_int_or c1 1;
      do b <- as_int_or c2 1;
      Ok (a =? b)
    else Ok false.

(** [WriteOperation::areWriteConcernsEqual]. *)
Definition areWriteConcernsEqual (w1 w2 : Object) : result bool :=
  match first w1 ∅ None with
  | None => Ok false
  | Some (seen, c1) =>
      match second w2 seen None with
      | None => Ok false
      | Some (seen, c2) => finalCheck seen c1 c2
      end
  end.

(** The two fields of a [WriteOperation]. *)
Record Status : Type := mkStatus {
  lastWriteConcern_ : Object;
  lastStatus_ : Object
}.

(** [WriteOperation::acknowledge]: the operation afterwards, what is
    returned, and whether [doAcknowledge] has been called.  [doAcknowledge]
    gives what the backends answer for a write concern, or throws. *)
Definition acknowledge (doAcknowledge : Object -> result Object) (writeConcern : Object)
    (op : Status) : result (Status * Object * bool) :=
  do again <-
    (if exists_ (get writeConcern "wtimeout") then Ok true
     else if empty (lastStatus_ op) then Ok true
     else do eq <- areWriteConcernsEqual writeConcern (lastWriteConcern_ op); Ok (negb eq));
  if again then
    do status <- doAcknowledge writeConcern;
    Ok (mkStatus writeConcern status, status, true)
  else Ok (op, lastStatus_ op, false).

End Concern.

(* ================================================================== *)
(** * The privileges that an operation requires (write.cpp, read.cpp) *)
(* ================================================================== *)

Module Access.
Import Bson Auth.

(** What the checks throw. *)
Inductive refusal : Type :=
| Unauthorized (what : string)
| BadRequest (what : string).

(** [privileges.require(db, p)]: [None] is a normal return. *)
Definition required (auth_ : bool) (p : Privileges) (db : string) (pr : Privilege)
    : option refusal :=
  option_map Unauthorized (require auth_ p db pr).

(** One statement after another. *)
Definition andThen (a b : option refusal) : option refusal :=
  match a with
  | Some r => Some r
  | None => b
  end.

(** [checkPrivileges] of write.cpp, for the namespace [db.collection]. *)
Definition checkPrivileges (auth_ : bool) (p : Privileges) (db collection : string)
    : option refusal :=
  andThen (if String.eqb collection "system.users"
           then required auth_ p db USER_ADMIN else None)
    (andThen (if String.eqb db "config"
              then required auth_ p db CLUSTER_ADMIN else None)
       (andThen (if String.eqb (String.substring 0 7 collection) "system."
                 then required auth_ p db DB_ADMIN else None)
          (required auth_ p db WRITE))).

(** The flags of [messages::Query]. *)
Definition TAILABLE : Z := 2.
Definition SLAVE_OK : Z := 4.
Definition NO_TIMEOUT : Z := 16.
Definition AWAIT_DATA : Z := 32.
Definition EXHAUST : Z := 64.
Definition PARTIAL : Z := 128.

Definition ALLOWED_FLAGS : Z :=
  Z.lor (Z.lor (Z.lor SLAVE_OK EXHAUST) NO_TIMEOUT) PARTIAL.

(** [operations::query] up to the call of [readOp]; [flags] is a
    [uint32_t]. *)
Definition queryChecks (auth_ : bool) (p : Privileges) (flags : Z) (properties : Object)
    (db collection : string) : option refusal :=
  if negb (Z.land flags (wrap 32 (Z.lnot ALLOWED_FLAGS)) =? 0)
  then Some (BadRequest "specified flags are not supported")
  else if exists_ (get properties "$explain")
  then Some (BadRequest "$explain is not supported")
  else if String.eqb collection "system.users"
  then required auth_ p db USER_ADMIN
  else required auth_ p db READ.

(** [aggregation], which [count] and [distinct] go through, up to the
    call of [readOp]: the privilege it requires, and the collection that
    it then reads, which is the value of the first element of the
    command. *)
Definition aggregationChecks (auth_ : bool) (p : Privileges) (db : string)
    : option refusal :=
  required auth_ p db READ.

Definition aggregationCollection (query : Object) : result string :=
  as_string (front query).

End Access.

(* ================================================================== *)
(** * The version of a shard's software (backend.h, shard.h, shard.cpp) *)
(* ================================================================== *)

Module Version.

(** [Backend::SoftwareVersion]: its [v_]. *)
Definition SoftwareVersion : Type := list Z.

(** [SoftwareVersion() = default]. *)
Definition NULL_VERSION : SoftwareVersion := [].

(** [operator ==] of [std::vector<unsigned>]. *)
Fixpoint eq (a b : SoftwareVersion) : bool :=
  match a, b with
  | [], [] => true
  | x :: a', y :: b' => (x =? y) && eq a' b'
  | _, _ => false
  end.

Definition ne (a b : SoftwareVersion) : bool := negb (eq a b).

(** [std::lexicographical_compare]. *)
Fixpoint lexicographical_compare (a b : list Z) : bool :=
  match a, b with
  | x :: a', y :: b' =>
      if x <? y then true
      else if y <? x then false
      else lexicographical_compare a' b'
  | [], _ :: _ => true
  | _, [] => false
  end.

Definition lt (a b : SoftwareVersion) : bool := lexicographical_compare a b.
Definition gt (a b : SoftwareVersion) : bool := lt b a.
Definition le (a b : SoftwareVersion) : bool := eq a b || lt a b.
Definition ge (a b : SoftwareVersion) : bool := eq a b || gt a b.

(** [Shard::softwareVersion], over what [softwareVersion()] of each of
    [backends_] returns. *)
Definition softwareVersion (backends_ : list SoftwareVersion) : SoftwareVersion :=
  fold_left
    (fun ret v => if ne v NULL_VERSION && (eq ret NULL_VERSION || lt ret v) then v else ret)
    backends_ NULL_VERSION.

(** [Shard::supportsWriteCommands]. *)
Definition supportsWriteCommands (backends_ : list SoftwareVersion) : bool :=
  ge (softwareVersion backends_) [2; 6; 0].

End Version.

(* ================================================================== *)
(** * Messages on the wire (proto.h, session.cpp) *)
(* ================================================================== *)

Module Wire.
Import Bson Topology.

(** What reading a message can throw; [UndefinedBehaviour] is not an
    exception but an execution that reads outside the buffer. *)
Inductive error : Type :=
| runtime_error (what : string)
| length_error (what : string)
| BrokenBson (what : string)
| Error (what : string)
| UndefinedBehaviour (what : string).

Inductive read (A : Type) : Type :=
| Got (a : A)
| Fault (e : error).
Arguments Got {A} a.
Arguments Fault {A} e.

Definition andThen {A B : Type} (r : read A) (k : A -> read B) : read B :=
  match r with
  | Got a => k a
  | Fault e => Fault e
  end.

Notation "'take' x <- r ; k" := (andThen r (fun x => k))
  (at level 10, x name, r at level 100, k at level 200).

(** A document as it lies in its storage, from [rawData()] on. *)
Definition Raw : Type := list Z.

(** [Base::rawSize()]: the [int32_t] that the document begins with. *)
Definition rawSize (x : Raw) : Z := swrap 32 (le_value (firstn 4 x)).

Fixpoint bytes_string (bs : list Z) : string :=
  match bs with
  | [] => EmptyString
  | b :: r => String (ascii_of_N (Z.to_N b)) (bytes_string r)
  end.

(** ** [MsgBuilder] *)

Definition MsgBuilder : Type := list Z.

(** [MsgBuilder()]: room for the length. *)
Definition newBuilder : MsgBuilder := [0; 0; 0; 0].

Definition pushPod (n : nat) (b : MsgBuilder) (x : Z) : MsgBuilder := app b (le_bytes n x).
Definition push32 : MsgBuilder -> Z -> MsgBuilder := pushPod 4.
Definition push64 : MsgBuilder -> Z -> MsgBuilder := pushPod 8.

Definition pushString (b : MsgBuilder) (x : string) : MsgBuilder :=
  app b (app (string_bytes x) [0]).

Definition pushObject (b : MsgBuilder) (x : Raw) : MsgBuilder :=
  app b (firstn (Z.to_nat (rawSize x)) x).

(** [finish()] writes the size over the first four bytes. *)
Definition finish (b : MsgBuilder) : list Z :=
  app (le_bytes 4 (wrap 32 (Z.of_nat (List.length b)))) (skipn 4 b).

Definition UPDATE : Z := 2001.
Definition INSERT : Z := 2002.
Definition QUERY : Z := 2004.
Definition GET_MORE : Z := 2005.
Definition DELETE : Z := 2006.
Definition KILL_CURSORS : Z := 2007.

(** ** [Message] *)

Record Message : Type := mkMessage {
  data_ : list Z;
  pos_ : Z
}.

Definition sizeof_Header : Z := 12.

Definition Message_of (data : list Z) : Message := mkMessage data sizeof_Header.

Definition size (m : Message) : Z := Z.of_nat (List.length (data_ m)).

(** [static_cast<size_t>(-1)]. *)
Definition npos : Z := SIZE_MAX.

Definition atEnd (m : Message) : bool := pos_ m =? size m.
Definition good (m : Message) : bool := negb (pos_ m =? npos).

Definition need (m : Message) (len : Z) : read unit :=
  if size m <? wrap 64 (pos_ m + len)
  then Fault (runtime_error "message truncated")
  else Got tt.

(** The [len] bytes at [pos()]; reading them is defined when they lie in
    the buffer. *)
Definition bytesAt (m : Message) (len : Z) : read (list Z) :=
  if pos_ m + len <=? size m
  then Got (firstn (Z.to_nat len) (skipn (Z.to_nat (pos_ m)) (data_ m)))
  else Fault (UndefinedBehaviour "read outside the buffer").

Definition advance (m : Message) (x : Z) : read Message :=
  take _ <- need m x;
  Got (mkMessage (data_ m) (wrap 64 (pos_ m + x))).

Definition fetchPOD (n : Z) (m : Message) : read (Z * Message) :=
  take _ <- need m n;
  take bs <- bytesAt m n;
  take m' <- advance m n;
  Got (le_value bs, m').

Definition fetch_uint32 : Message -> read (Z * Message) := fetchPOD 4.
Definition fetch_uint64 : Message -> read (Z * Message) := fetchPOD 8.

Definition fetch_int32 (m : Message) : read (Z * Message) :=
  take r <- fetchPOD 4 m;
  Got (swrap 32 (fst r), snd r).

(** The bytes before the first NUL. *)
Fixpoint untilNul (bs : list Z) : list Z :=
  match bs with
  | [] => []
  | b :: r => if b =? 0 then [] else b :: untilNul r
  end.

Definition fetch_string (m : Message) : read (string * Message) :=
  if size m <? pos_ m then Fault (UndefinedBehaviour "read outside the buffer")
  else
    let dest := untilNul (skipn (Z.to_nat (pos_ m)) (data_ m)) in
    take m' <- advance m (Z.of_nat (List.length dest) + 1);
    Got (bytes_string dest, m').

(** [explicit Namespace(std::string ns)], with what [REQUIRE] throws. *)
Definition Namespace_from (s : string) : read Namespace :=
  match find_dot s with
  | None => Fault (Error "Assertion failed: dot != std::string::npos")
  | Some dot =>
      Got (mkNamespace (String.substring 0 dot s)
             (String.substring (S dot) (String.length s - S dot) s) s)
  end.

Definition fetch_Namespace (m : Message) : read (Namespace * Message) :=
  take r <- fetch_string m;
  take n <- Namespace_from (fst r);
  Got (n, snd r).

(** [fetch(bson::Object&)], with the test of [Object::construct]. *)
Definition fetch_Object (m : Message) : read (Raw * Message) :=
  take _ <- need m 4;
  take bs <- bytesAt m 4;
  let len := le_value bs in
  take _ <- need m len;
  if len <? 4 then Fault (BrokenBson "BSON object spans past buffer end")
  else
    take obj <- bytesAt m len;
    take m' <- advance m len;
    Got (obj, m').

(** [operator >>]: at the end the message is marked and the variable
    keeps the value [was] that it had. *)
Definition extract {A : Type} (fetch : Message -> read (A * Message)) (was : A)
    (m : Message) : read (A * Message) :=
  if atEnd m then Got (was, mkMessage (data_ m) npos) else fetch m.

(** ** The messages of a client *)

Record UpdateSub : Type := mkUpdateSub {
  u_selector : Raw;
  u_update : Raw;
  upsert : bool;
  multi : bool
}.

Record DeleteSub : Type := mkDeleteSub {
  d_selector : Raw;
  limit : Z
}.

(** [messages::Base<SubopType>]. *)
Record Base (Subop : Type) : Type := mkBase {
  ns : Namespace;
  subops : list Subop;
  ordered : bool;
  writeConcern : Raw
}.
Arguments mkBase {Subop} ns subops ordered writeConcern.
Arguments ns {Subop} b.
Arguments subops {Subop} b.
Arguments ordered {Subop} b.
Arguments writeConcern {Subop} b.

(** [Namespace()] and [bson::Object()]. *)
Definition noNamespace : Namespace := mkNamespace "" "" "".
Definition emptyObject : Raw := [5; 0; 0; 0; 0].

Definition UPSERT : Z := 1.
Definition MULTI_UPDATE : Z := 2.
Definition CONTINUE_ON_ERROR : Z := 1.
Definition SINGLE : Z := 1.

(** [explicit Update(Message& msg)]; a variable that is not initialized
    starts as 0 here, and is not read unless it has been assigned. *)
Definition Update_of (msg : Message) : read (Base UpdateSub) :=
  take z <- extract fetch_int32 0 msg;
  take n <- extract fetch_Namespace noNamespace (snd z);
  take f <- extract fetch_int32 0 (snd n);
  take s <- extract fetch_Object emptyObject (snd f);
  take u <- extract fetch_Object emptyObject (snd s);
  if negb (good (snd u)) then Fault (runtime_error "bad update message")
  else
    Got (mkBase (fst n)
           [mkUpdateSub (fst s) (fst u)
              (negb (Z.land (fst f) UPSERT =? 0))
              (negb (Z.land (fst f) MULTI_UPDATE =? 0))]
           false emptyObject).

(** [explicit Delete(Message& msg)]. *)
Definition Delete_of (msg : Message) : read (Base DeleteSub) :=
  take z <- extract fetch_uint32 0 msg;
  take n <- extract fetch_Namespace noNamespace (snd z);
  take f <- extract fetch_uint32 0 (snd n);
  take s <- extract fetch_Object emptyObject (snd f);
  if negb (good (snd s)) then Fault (runtime_error "bad delete message")
  else
    Got (mkBase (fst n)
           [mkDeleteSub (fst s) (if negb (Z.land (fst f) SINGLE =? 0) then 1 else 0)]
           false emptyObject).

(** The loop [while (msg >> obj)] of [Insert]; every turn moves on by
    four bytes at least. *)
Fixpoint documentsOf (fuel : nat) (msg : Message) (acc : list Raw) : option (read (list Raw)) :=
  match extract fetch_Object emptyObject msg with
  | Fault e => Some (Fault e)
  | Got (obj, msg') =>
      if good msg' then
        match fuel with
        | O => None
        | S fuel' => documentsOf fuel' msg' (app acc [obj])
        end
      else Some (Got acc)
  end.

(** [explicit Insert(Message& msg)]. *)
Definition Insert_of (msg : Message) : option (read (Base Raw)) :=
  match (take f <- extract fetch_uint32 0 msg;
         take n <- extract fetch_Namespace noNamespace (snd f);
         Got (fst f, fst n, snd n)) with
  | Fault e => Some (Fault e)
  | Got (f, n, m) =>
      if negb (good m) then Some (Fault (runtime_error "bad insert message"))
      else
        match documentsOf (List.length (data_ msg)) m [] with
        | None => None
        | Some (Fault e) => Some (Fault e)
        | Some (Got docs) =>
            Some (Got (mkBase n docs (negb (Z.land f CONTINUE_ON_ERROR =? 0)) emptyObject))
        end
  end.

Record GetMore : Type := mkGetMore {
  g_ns : Namespace;
  g_nToReturn : Z;
  g_cursorID : Z
}.

Definition GetMore_of (msg : Message) : read GetMore :=
  take z <- extract fetch_uint32 0 msg;
  take n <- extract fetch_Namespace noNamespace (snd z);
  take r <- extract fetch_uint32 0 (snd n);
  take c <- extract fetch_uint64 0 (snd r);
  if negb (good (snd c)) then Fault (runtime_error "bad get_more message")
  else Got (mkGetMore (fst n) (fst r) (fst c)).

(** The loop [while (count--)] of [KillCursors]. *)
Fixpoint cursorIDsOf (count : nat) (msg : Message) (acc : list Z) : read (list Z) :=
  match count with
  | O => Got acc
  | S count' =>
      take c <- extract fetch_uint32 0 msg;
      if negb (good (snd c)) then Fault (runtime_error "bad kill_cursors message")
      else cursorIDsOf count' (snd c) (app acc [fst c])
  end.

(** [explicit KillCursors(Message& msg)]: the identifiers. *)
Definition KillCursors_of (msg : Message) : read (list Z) :=
  take z <- extract fetch_uint32 0 msg;
  take c <- extract fetch_uint32 0 (snd z);
  if negb (good (snd c)) then Fault (runtime_error "bad kill_cursors message")
  else cursorIDsOf (Z.to_nat (fst c)) (snd c) [].

(** [messages::Query], before [assign] splits [query]. *)
Record Query : Type := mkQuery {
  q_flags : Z;
  q_ns : Namespace;
  q_nToSkip : Z;
  q_nToReturn : Z;
  q_query : Raw;
  q_fieldSelector : Raw
}.

Definition Query_of (msg : Message) : read Query :=
  take f <- extract fetch_uint32 0 msg;
  take n <- extract fetch_Namespace noNamespace (snd f);
  take s <- extract fetch_uint32 0 (snd n);
  take r <- extract fetch_int32 0 (snd s);
  take q <- extract fetch_Object emptyObject (snd r);
  if negb (good (snd q)) then Fault (runtime_error "bad query message")
  else
    take fs <- extract fetch_Object emptyObject (snd q);
    Got (mkQuery (fst f) (fst n) (fst s) (fst r) (fst q) (fst fs)).

(** ** What mongoz writes *)

(** [WriteOpTraits<messages::Update>::pack24], finished. *)
Definition packUpdate (n : Namespace) (u : UpdateSub) : list Z :=
  let b := push32 (push32 (push32 (push32 newBuilder 0) 0) UPDATE) 0 in
  let b := pushString b (Topology.ns n) in
  let b := push32 b (Z.lor (if upsert u then UPSERT else 0)
                           (if multi u then MULTI_UPDATE else 0)) in
  finish (pushObject (pushObject b (u_selector u)) (u_update u)).

(** [WriteOpTraits<messages::Delete>::pack24], finished. *)
Definition packDelete (n : Namespace) (d : DeleteSub) : list Z :=
  let b := push32 (push32 (push32 (push32 newBuilder 0) 0) DELETE) 0 in
  let b := pushString b (Topology.ns n) in
  let b := push32 b (if limit d =? 1 then SINGLE else 0) in
  finish (pushObject b (d_selector d)).

(** The message of [WriteOpTraits<messages::Insert>::makeLocal]. *)
Definition packInsert (n : Namespace) (docs : list Raw) : list Z :=
  let b := push32 (push32 (push32 (push32 newBuilder 0) 0) INSERT) 0 in
  let b := pushString b (Topology.ns n) in
  finish (fold_left pushObject docs b).

(** [QueryComposer]. *)
Record QueryComposer : Type := mkComposer {
  msgid_ : Z;
  flags_ : Z;
  ns_ : Namespace;
  skip_ : Z;
  batchSize_ : Z;
  query_ : Raw;
  fieldSelector_ : Raw
}.

(** [Base::empty()]: [begin() == end()]. *)
Definition isEmpty (x : Raw) : bool := 4 =? rawSize x - 1.

(** [QueryComposer::data()]. *)
Definition composed (q : QueryComposer) : list Z :=
  let batchSize :=
    if (batchSize_ q =? 0) && String.eqb (collection (ns_ q)) "$cmd" then 1
    else wrap 32 (batchSize_ q) in
  let b := push32 (push32 (push32 (push32 newBuilder (msgid_ q)) 0) QUERY) (flags_ q) in
  let b := pushString b (Topology.ns (ns_ q)) in
  let b := pushObject (push32 (push32 b (skip_ q)) batchSize) (query_ q) in
  finish (if negb (isEmpty (fieldSelector_ q)) then pushObject b (fieldSelector_ q) else b).

(** ** [Session::readMsg] *)

(** What [readMsg] makes of the bytes that the stream holds: [None] is
    [return false].  For a length below 4, [len - sizeof(len)] wraps
    around in [size_t] and [std::vector] refuses the size: with
    [std::length_error] in the libstdc++ of today, with [std::bad_alloc]
    in older ones; [length_error] stands for either. *)
Definition readMsg (stream : list Z) : read (option Message) :=
  if (List.length stream <? 4)%nat then Got None
  else
    let len := le_value (firstn 4 stream) in
    if 16 * 1024 * 1024 <? len then Got None
    else if len <? 4 then Fault (length_error "cannot create std::vector larger than max_size()")
    else
      let rest := skipn 4 stream in
      if (List.length rest <? Z.to_nat (len - 4))%nat then Got None
      else Got (Some (Message_of (firstn (Z.to_nat (len - 4)) rest))).

(** [Message::opcode()] reads the header where the buffer should hold
    it. *)
Definition opcode (m : Message) : read Z :=
  if sizeof_Header <=? size m
  then Got (swrap 32 (le_value (firstn 4 (skipn 8 (data_ m)))))
  else Fault (UndefinedBehaviour "read outside the buffer").

End Wire.

(* ================================================================== *)
(** * Writes of several operations (write.h, write.cpp) *)
(* ================================================================== *)

Module Multi.
Import Bson Write.

(** A [WriteOperation] of [ops_]: its address, and what [perform()]
    leaves as its [lastStatus()], or throws. *)
Record Sub : Type := mkSub {
  address : nat;
  performed : result Object
}.

(** [MultiWrite], with the two fields of its [WriteOperation]. *)
Record MultiWrite : Type := mkMultiWrite {
  ops_ : list Sub;
  commenced_ : list nat;
  writeConcern_ : Object;
  merge_ : list Object -> result Object;
  lastWriteConcern_ : Object;
  lastStatus_ : Object
}.

(** [MultiWrite::MultiWrite]. *)
Definition MultiWrite_of (writeConcern : Object) : MultiWrite :=
  mkMultiWrite [] []
    (if empty writeConcern then [("getLastError", VInt32 1)] else writeConcern)
    defaultAckMerger [] [].

Definition add (w : MultiWrite) (op : Sub) : MultiWrite :=
  mkMultiWrite (app (ops_ w) [op]) (commenced_ w) (writeConcern_ w) (merge_ w)
    (lastWriteConcern_ w) (lastStatus_ w).

Definition commence (w : MultiWrite) (op : Sub) : MultiWrite :=
  mkMultiWrite (ops_ w) (app (commenced_ w) [address op]) (writeConcern_ w) (merge_ w)
    (lastWriteConcern_ w) (lastStatus_ w).

(** [WriteOperation::setAcknowledge]. *)
Definition setAcknowledge (w : MultiWrite) (writeConcern status : Object) : MultiWrite :=
  mkMultiWrite (ops_ w) (commenced_ w) (writeConcern_ w) (merge_ w) writeConcern status.

(** [SequentialWrite]; an empty [std::function] is [None]. *)
Record SequentialWrite : Type := mkSequentialWrite {
  multi : MultiWrite;
  stop_ : option (Object -> result bool)
}.

Definition stopAtFirstThat (w : SequentialWrite) (stop : Object -> result bool)
    : SequentialWrite :=
  mkSequentialWrite (multi w) (Some stop).

(** [as<size_t>(dfltValue)]. *)
Definition as_size_t_or (e : Element) (dfltValue : Z) : result Z :=
  if exists_ e then as_size_t e else Ok dfltValue.

(** The predicate that [makeGlobal] gives to [stopAtFirstThat] for a
    limit other than 0. *)
Definition affected (ack : Object) : result bool :=
  do n <- as_size_t_or (get ack "n") 0;
  Ok (negb (n =? 0)).

(** [err.exists() && !err.is<bson::Null>()]. *)
Definition hasErr (ack : Object) : bool :=
  let err := get ack "err" in
  exists_ err && negb (is_null err).

(** The loop of [SequentialWrite::perform] over the operations that are
    left: the object and [acks] when the loop is left, or the object and
    what is thrown. *)
Fixpoint sequence (stop : option (Object -> result bool)) (ops : list Sub)
    (w : MultiWrite) (acks : list Object) : MultiWrite * result (list Object) :=
  match ops with
  | [] => (w, Ok acks)
  | op :: ops' =>
      let w := commence w op in
      match performed op with
      | Throw e => (w, Throw e)
      | Ok ack =>
          let acks := app acks [ack] in
          if hasErr ack then (w, Ok acks)
          else
            match stop with
            | None => sequence stop ops' w acks
            | Some stop_ =>
                match stop_ ack with
                | Throw e => (w, Throw e)
                | Ok true => (w, Ok acks)
                | Ok false => sequence stop ops' w acks
                end
            end
      end
  end.

(** [SequentialWrite::perform]. *)
Definition perform (s : SequentialWrite) : SequentialWrite * result unit :=
  match sequence (stop_ s) (ops_ (multi s)) (multi s) [] with
  | (w, Throw e) => (mkSequentialWrite w (stop_ s), Throw e)
  | (w, Ok acks) =>
      match merge_ w acks with
      | Throw e => (mkSequentialWrite w (stop_ s), Throw e)
      | Ok status =>
          (mkSequentialWrite (setAcknowledge w (writeConcern_ w) status) (stop_ s), Ok tt)
      end
  end.

End Multi.

(* ================================================================== *)
(** * The notions that the statements are made of *)
(* ================================================================== *)

Module HashingNotions.
Import Bson Hashing.

(** The double [d] is exactly the integer [z]. *)
Definition denotes (d : double) (z : Z) : Prop :=
  match d with
  | DFin m e => (0 <= e /\ z = m * 2 ^ e) \/ (e < 0 /\ m = z * 2 ^ (- e))
  | _ => False
  end.

End HashingNotions.

Module PoolNotions.
Import Pool.

(** Neither pool of the endpoint holds more than [connPoolSize]
    connections. *)
Definition bounded (connPoolSize : N) (e : Endpoint) : Prop :=
  (size (conns_ e) <= connPoolSize)%N /\ (size (primaries_ e) <= connPoolSize)%N.

(** The pool that [release] would put a connection into. *)
Definition poolOf (i : Impl) (e : Endpoint) : list Connection :=
  if isPrimary i then primaries_ e else conns_ e.

(** The pool that [release] leaves alone. *)
Definition otherPool (i : Impl) (e : Endpoint) : list Connection :=
  if isPrimary i then conns_ e else primaries_ e.

End PoolNotions.

Module SelectNotions.
Import Select.


End SelectNotions.

Module ShardNotions.
Import Bson Select Shard.

(** A replica set of two healthy members, the first of them primary. *)
Definition node1 : Backend := mkBackend "n1:27017" 1000.
Definition node2 : Backend := mkBackend "n2:27017" 1200.

Definition exampleSet : ReplicaSet :=
  mkReplicaSet (Some node1) [node1; node2] (fun _ => true) (fun _ _ => true)
    (fun _ _ => true).

(** The same members while none of them is primary. *)
Definition orphanSet : ReplicaSet :=
  mkReplicaSet None [node1; node2] (fun _ => true) (fun _ _ => true)
    (fun _ _ => true).

End ShardNotions.

Module WriteNotions.
Import Bson Write.

(** The fields of the sub-acknowledgements, in the order the loop
    visits them. *)
Definition named (nm : string) (elt : string * Value) : bool := String.eqb (fst elt) nm.

(** An [err] that is not null. *)
Definition isError (elt : string * Value) : bool :=
  named "err" elt && negb (is_null (Some elt)).

(** A sub-acknowledgement with such an [err]. *)
Definition hasError (elts : list (string * Value)) : bool := existsb isError elts.

(** The first [err] that is not null, and the first field of a name. *)
Definition firstError (elts : list (string * Value)) : Element := List.find isError elts.

Definition firstNamed (nm : string) (elts : list (string * Value)) : Element :=
  List.find (named nm) elts.

Definition present (nm : string) (elts : list (string * Value)) : bool :=
  existsb (named nm) elts.

Definition countOf (elt : string * Value) : Z :=
  match snd elt with VInt32 z | VInt64 z => z | _ => 0 end.

Definition flagOf (elt : string * Value) : bool :=
  match snd elt with VBool b => b | _ => false end.

(** The sum of the [n] fields. *)
Fixpoint total (elts : list (string * Value)) : Z :=
  match elts with
  | [] => 0
  | elt :: r => (if named "n" elt then countOf elt else 0) + total r
  end.

(** The disjunction of the fields of one name. *)
Definition anyTrue (nm : string) (elts : list (string * Value)) : bool :=
  existsb (fun elt => named nm elt && flagOf elt) elts.

(** The greatest of the fields of one name, 0 when there is none. *)
Fixpoint greatest (nm : string) (elts : list (string * Value)) : Z :=
  match elts with
  | [] => 0
  | elt :: r => Z.max (if named nm elt then countOf elt else 0) (greatest nm r)
  end.

(** An element under another name. *)
Definition renamed (key : string) (elt : Element) : Element :=
  match elt with Some (_, v) => Some (key, v) | None => None end.

(** The shape of the fields the merger converts: counts are integers
    that are not negative, flags are booleans, times are 32-bit integers
    that are not negative. *)
Definition wellTyped (elt : string * Value) : bool :=
  if named "n" elt then
    match snd elt with
    | VInt32 z => (0 <=? z) && (z <=? INT32_MAX)
    | VInt64 z => (0 <=? z) && (z <=? INT64_MAX)
    | _ => false
    end
  else if named "updatedExisting" elt || named "wtimeout" elt then
    match snd elt with VBool _ => true | _ => false end
  else if named "waited" elt || named "wtime" elt then
    match snd elt with
    | VInt32 z => (0 <=? z) && (z <=? INT32_MAX)
    | _ => false
    end
  else true.

(** What the loop leaves in [err]: the first that is not null, and
    failing that the last. *)
Fixpoint errAfter (a : Element) (elts : list (string * Value)) : Element :=
  match elts with
  | [] => a
  | elt :: r =>
      errAfter (if named "err" elt && (negb (exists_ a) || is_null a) then Some elt else a) r
  end.

Definition firstOr (a : Element) (nm : string) (elts : list (string * Value)) : Element :=
  if exists_ a then a else firstNamed nm elts.

Definition lastNamed (nm : string) (elts : list (string * Value)) : Element :=
  firstNamed nm (rev elts).

Definition isErrorElement (a : Element) : bool := exists_ a && negb (is_null a).

(** The document as the list of its fields, those left out being empty
    lists. *)
Definition field (present : bool) (key : string) (v : Value) : Object :=
  if present then [(key, v)] else [].

Definition fieldOf (key : string) (elt : Element) : Object :=
  match elt with Some (_, v) => [(key, v)] | None => [] end.





End WriteNotions.

Module TopologyNotions.
Import Bson Topology.

(** ** The chunks of a topology document *)

(** The documents of the array [chunks]. *)
Definition chunkDocs (obj : Object) : list Object :=
  match get obj "chunks" with
  | Some (_, VArray a) =>
      flat_map (fun el => match snd el with VObject o => [o] | _ => [] end) a
  | _ => []
  end.

Definition valueAt (d : Object) (key : string) : option Value :=
  match get d key with Some (_, v) => Some v | None => None end.

(** The chunk has the namespace, the shard identifier, the epoch and the
    timestamp that the document gives. *)
Definition describes (d : Object) (ch : Chunk) : Prop :=
  valueAt d "ns" = Some (VString (ns (ns_ ch)))
  /\ valueAt d "shard" = Some (VString (shardID_ ch))
  /\ valueAt d "lastmodEpoch" = Some (VObjectID (epoch (version_ ch)))
  /\ valueAt d "lastmod" = Some (VTimestamp (stamp (version_ ch))).

(** ** The (namespace, shard) pairs *)

(** Two chunks of one pair: of the same namespace and on the same
    shard. *)
Definition samePair (c1 c2 : Chunk) : Prop :=
  ns (ns_ c1) = ns (ns_ c2) /\ shard_ c1 = shard_ c2.

(** Two chunks of one pair with different epochs. *)
Definition mixedEpochs (chunks : list Chunk) : Prop :=
  exists c1 c2 : Chunk,
    In c1 chunks /\ In c2 chunks /\ samePair c1 c2
    /\ epoch (version_ c1) <> epoch (version_ c2).

(** [v] is the version of a chunk of the pair of [ch], every chunk of
    the pair has its epoch and none has a greater timestamp. *)
Definition greatestOf (chunks : list Chunk) (ch : Chunk) (v : ChunkVersion) : Prop :=
  (exists c : Chunk, In c chunks /\ samePair c ch /\ version_ c = v)
  /\ (forall c : Chunk, In c chunks -> samePair c ch ->
        epoch (version_ c) = epoch v /\ stamp (version_ c) <= stamp v).

(** ** The map of the constructor's loop *)

(** Two chunks with one key of the map and different epochs. *)
Definition keysClash (chunks : list Chunk) : Prop :=
  exists c1 c2 : Chunk,
    In c1 chunks /\ In c2 chunks /\ groupKey c1 = groupKey c2
    /\ epoch (version_ c1) <> epoch (version_ c2).

(** [v] is the version of a chunk with the key [k] and no chunk with
    that key has a greater timestamp. *)
Definition greatestAt (chunks : list Chunk) (k : string * Z) (v : ChunkVersion) : Prop :=
  (exists c : Chunk, In c chunks /\ groupKey c = k /\ version_ c = v)
  /\ (forall c : Chunk, In c chunks -> groupKey c = k ->
        epoch (version_ c) = epoch v /\ stamp (version_ c) <= stamp v).

(** What the map holds after the chunks [seen]. *)
Definition tracks (versions : gmap (string * Z) ChunkVersion) (seen : list Chunk) : Prop :=
  forall k : string * Z,
    match versions !! k with
    | None => forall c, In c seen -> groupKey c <> k
    | Some v => greatestAt seen k v
    end.

(** A topology document: two replica sets, one sharded collection with
    three chunks, two of them on the first shard. *)
Definition exampleEpoch : list Z := [84; 15; 3; 170; 9; 1; 0; 0; 0; 0; 0; 7].

Definition exampleChunk (mn mx : Object) (ts : Z) (sh : string) : Value :=
  VObject [("ns", VString "db.c"); ("lastmodEpoch", VObjectID exampleEpoch);
           ("lastmod", VTimestamp ts); ("min", VObject mn); ("max", VObject mx);
           ("shard", VString sh)].

Definition exampleTopology : Object :=
  [("shards", VArray
      [("0", VObject [("_id", VString "s1"); ("host", VString "rs1/h1:27018,h2:27018")]);
       ("1", VObject [("_id", VString "s2"); ("host", VString "rs2/h3:27018")])]);
   ("databases", VArray
      [("0", VObject [("_id", VString "db"); ("partitioned", VBool true);
                      ("primary", VString "s1")])]);
   ("collections", VArray
      [("0", VObject [("_id", VString "db.c"); ("dropped", VBool false);
                      ("key", VObject [("userId", VInt32 1)])])]);
   ("chunks", VArray
      [("0", exampleChunk [("userId", VInt32 1000)] [("userId", VInt32 2000)] 7 "s1");
       ("1", exampleChunk [("userId", VInt32 2000)] [("$maxkey", VInt32 1)] 6 "s2");
       ("2", exampleChunk [("$minkey", VInt32 1)] [("userId", VInt32 1000)] 5 "s1")])].

(** The same collection with two chunks on one shard, of different
    epochs, and a gap between them. *)
Definition otherEpoch : list Z := [84; 15; 3; 170; 9; 1; 0; 0; 0; 0; 0; 8].

Definition gappedTopology : Object :=
  [("shards", VArray
      [("0", VObject [("_id", VString "s1"); ("host", VString "rs1/h1:27018,h2:27018")])]);
   ("databases", VArray
      [("0", VObject [("_id", VString "db"); ("partitioned", VBool true);
                      ("primary", VString "s1")])]);
   ("collections", VArray
      [("0", VObject [("_id", VString "db.c"); ("dropped", VBool false);
                      ("key", VObject [("userId", VInt32 1)])])]);
   ("chunks", VArray
      [("0", exampleChunk [("userId", VMinKey)] [("userId", VInt32 1000)] 5 "s1");
       ("1", VObject [("ns", VString "db.c"); ("lastmodEpoch", VObjectID otherEpoch);
                      ("lastmod", VTimestamp 6);
                      ("min", VObject [("userId", VInt32 2000)]);
                      ("max", VObject [("userId", VMaxKey)]);
                      ("shard", VString "s1")])])].

(** The shard pool of the example: one address per connection string. *)
Definition examplePool (id connstr : string) : ShardPtr :=
  if String.eqb connstr "rs1/h1:27018,h2:27018" then 101 else 102.

Definition exampleConnectionString (p : ShardPtr) : string :=
  if p =? 101 then "rs1/h1:27018,h2:27018" else "rs2/h3:27018".

(** The configurations that [Config::Config] makes of the example,
    before and after the versions are unified. *)
Definition emptyConfig : Config := mkConfig 0 [] [] [] [].

Definition exampleLinked : Config :=
  Eval vm_compute in
    match linkAll examplePool 100 exampleTopology with
    | Ok c => c
    | Throw _ => emptyConfig
    end.

Definition exampleConfig : Config :=
  Eval vm_compute in
    match Config_of examplePool exampleConnectionString 100 exampleTopology with
    | Ok c => c
    | Throw _ => emptyConfig
    end.

End TopologyNotions.

Module RouterNotions.
Import Bson Topology.

(** A key whose first field, if there is one, has a name. *)
Definition goodKey (k : Object) : Prop :=
  match k with
  | [] => True
  | (nm, _) :: _ => nm <> ""
  end.

(** The loop of [Config::shards] over the chunks of a collection. *)
Definition collect (l : list Chunk) (m : list (ShardPtr * ChunkVersion)) :=
  fold_left (fun m chunk => map_insert (shard_ chunk) (version_ chunk) m) l m.

(** No field of the sharding key has an empty name, and there is one. *)
Definition keyNamed (key : Object) : bool :=
  negb (empty key) && forallb (fun el => negb (String.eqb (fst el) "")) key.

(** [range_] is what [Collection::link] computes for the namespace. *)
Definition linked (conf : Config) (n : Namespace) (coll : Collection) : bool :=
  (fst (range_ coll) =? lower_bound chunkNs string_lt (chunks_ conf) (ns n))%nat
  && (snd (range_ coll) =? upper_bound chunkNs string_lt (chunks_ conf) (ns n))%nat.

(** A lower bound that gives [MinKey] to every field of the sharding
    key, as the first chunk of a collection does in [config.chunks]. *)
Fixpoint lowest (key mn : Object) : bool :=
  match key, mn with
  | [], [] => true
  | (kn, _) :: kr, (nm, VMinKey) :: mr => String.eqb kn nm && lowest kr mr
  | _, _ => false
  end.

(** The collection has a chunk, and its first chunk has the least lower
    bound: [MinKey] for every field of the sharding key, or the empty
    document that [Chunk::Chunk] makes of a bound named [$minkey]. *)
Definition covered (conf : Config) (coll : Collection) : bool :=
  match nth_error (chunks_ conf) (fst (range_ coll)) with
  | Some c =>
      (fst (range_ coll) <? snd (range_ coll))%nat
      && (empty (min_ c) || lowest (shardingKey_ coll) (min_ c))
  | None => false
  end.

(** A namespace that is not a sharded collection, or a sharded
    collection outside the [config] database whose chunks start at the
    least key and whose sharding key has named fields. *)
Definition routable (conf : Config) (n : Namespace) : bool :=
  match collectionOf conf n with
  | None => true
  | Some coll =>
      negb (String.eqb (db n) "config")
      && covered conf coll && keyNamed (shardingKey_ coll)
  end.

(** The names of the fields that the loop over the sharding key has
    gathered, in the order of the key that [doFind] is given. *)
Definition scanned (st : Scan) : list string :=
  if String.eqb (vectorName st) "" then map fst (headb st)
  else app (map fst (headb st)) (vectorName st :: map fst (tailb st)).

(** What the [assert] of [Config::shards] checks: chunks of one shard
    show one version. *)
Definition uniform (l : list Chunk) : bool :=
  forallb (fun c1 =>
    forallb (fun c2 =>
      negb (shard_ c1 =? shard_ c2) || version_eqb (version_ c1) (version_ c2)) l) l.

(** The chunks of the collection of a namespace are uniform. *)
Definition consistent (conf : Config) (n : Namespace) : bool :=
  match collectionOf conf n with
  | None => true
  | Some coll => uniform (chunksOf conf coll)
  end.

(** The example topology with the bounds as [config.chunks] stores
    them. *)
Definition storedTopology : Object :=
  [("shards", VArray
      [("0", VObject [("_id", VString "s1"); ("host", VString "rs1/h1:27018,h2:27018")]);
       ("1", VObject [("_id", VString "s2"); ("host", VString "rs2/h3:27018")])]);
   ("databases", VArray
      [("0", VObject [("_id", VString "db"); ("partitioned", VBool true);
                      ("primary", VString "s1")])]);
   ("collections", VArray
      [("0", VObject [("_id", VString "db.c"); ("dropped", VBool false);
                      ("key", VObject [("userId", VInt32 1)])])]);
   ("chunks", VArray
      [("0", TopologyNotions.exampleChunk
               [("userId", VInt32 1000)] [("userId", VInt32 2000)] 7 "s1");
       ("1", TopologyNotions.exampleChunk
               [("userId", VInt32 2000)] [("userId", VMaxKey)] 6 "s2");
       ("2", TopologyNotions.exampleChunk
               [("userId", VMinKey)] [("userId", VInt32 1000)] 5 "s1")])].

Definition storedConfig : Config :=
  Eval vm_compute in
    match Config_of TopologyNotions.examplePool TopologyNotions.exampleConnectionString 100
            storedTopology with
    | Ok c => c
    | Throw _ => TopologyNotions.emptyConfig
    end.

(** A query on the example topology that names two values of the
    sharding key, and the shards it is routed to. *)
Definition exampleNs : Namespace := mkNamespace "db" "c" "db.c".

Definition exampleCriteria : Object :=
  [("userId", VObject [("$in", VArray [("0", VInt32 1); ("1", VInt32 3000)])])].

Definition exampleShards : list VersionedShard :=
  [mkVS 101 (mkVersion TopologyNotions.exampleEpoch 7);
   mkVS 102 (mkVersion TopologyNotions.exampleEpoch 6)].

(** A topology in which a collection of the [config] database is
    sharded, as [config.system.sessions] is. *)
Definition sessionsTopology : Object :=
  [("shards", VArray
      [("0", VObject [("_id", VString "s1"); ("host", VString "rs1/h1:27018,h2:27018")])]);
   ("databases", VArray []);
   ("collections", VArray
      [("0", VObject [("_id", VString "config.system.sessions"); ("dropped", VBool false);
                      ("key", VObject [("_id", VInt32 1)])])]);
   ("chunks", VArray
      [("0", VObject [("ns", VString "config.system.sessions");
                      ("lastmodEpoch", VObjectID TopologyNotions.exampleEpoch);
                      ("lastmod", VTimestamp 1);
                      ("min", VObject [("_id", VMinKey)]);
                      ("max", VObject [("_id", VMaxKey)]);
                      ("shard", VString "s1")])])].

Definition sessionsConfig : Config :=
  Eval vm_compute in
    match Config_of TopologyNotions.examplePool TopologyNotions.exampleConnectionString 100
            sessionsTopology with
    | Ok c => c
    | Throw _ => TopologyNotions.emptyConfig
    end.

Definition sessionsNs : Namespace :=
  mkNamespace "config" "system.sessions" "config.system.sessions".

End RouterNotions.

Module FeedNotions.
Import Bson Feed.

(** A run of constructions, threading the counter. *)
Fixpoint constructAll (g : Z) (bodies : list Body) : Z * list DataSource :=
  match bodies with
  | [] => (g, [])
  | b :: r =>
      let (g', ds) := construct g b in
      let (g'', dss) := constructAll g' r in
      (g'', ds :: dss)
  end.

(** Twice the documents that are left, so that the turn that replaces a
    throwing datasource by the error datasource counts as well. *)
Definition measure (l : Loop) : nat :=
  match body (current l) with
  | Null => 0
  | Fixed _ consumed _ => if consumed then 0 else 1
  | Remote p => 2 * List.length p
  end.

(** The datasource that [feed] puts in the place of one that threw. *)
Definition stash (id : Z) (what : string) : DataSource :=
  mkDS id 0 false (Fixed (errorDocument what) false QUERY_FAILURE).

(** A document that [advance()] moves past without throwing. *)
Definition ok (o : Object) : Object * option string := (o, None).

(** The loop condition on sizes, along a list of documents. *)
Fixpoint fits (sz : Z) (l : list Object) : bool :=
  match l with
  | [] => true
  | o :: r => (sz + rawSize o <? MAX_SIZE) && fits (sz + rawSize o) r
  end.

(** Two documents. *)
Definition doc1 : Object := [("a", VInt32 1)].
Definition doc2 : Object := [("a", VInt32 2)].

(** A datasource that gives one document and fails on the way past the
    second. *)
Definition failing : DataSource :=
  mkDS 1 0 false (Remote [(doc1, None); (doc2, Some "connection reset")]).

(** A session without cursors, after one datasource was constructed. *)
Definition session1 : Session := mkSession 1 ∅.

End FeedNotions.

Module ReadNotions.
Import Bson Select Shard Read.
Import ShardNotions.




End ReadNotions.

Module ReplyNotions.
Import Bson Feed.

(** The documents that a datasource has still to give. *)
Definition pendingDocs (ds : DataSource) : list Object :=
  match body ds with
  | Null => []
  | Fixed o consumed _ => if consumed then [] else [o]
  | Remote p => map fst p
  end.

(** No [advance()] of the datasource throws. *)
Definition quiet (ds : DataSource) : bool :=
  match body ds with
  | Remote p => forallb (fun e => match snd e with None => true | Some _ => false end) p
  | _ => true
  end.

(** The bytes of a list of documents. *)
Definition rawSizes (l : list Object) : Z := fold_right (fun o s => rawSize o + s) 0 l.

(** Every cursor of the session is kept under its own identifier, which
    is not 0, and is open. *)
Definition wellKept (m : gmap Z DataSource) : Prop :=
  forall (k : Z) (ds : DataSource),
    m !! k = Some ds -> id_ ds = k /\ k <> 0 /\ closed_ ds = false.

(** What the loop of [feed] keeps true of a datasource of which no fetch
    fails: the documents taken and those still to come are the stream
    [ds] had, and the position and the count follow the documents
    taken. *)
Definition Stream (g : Z) (ds : DataSource) (l : Loop) : Prop :=
  g_id l = g /\ isErr l = false /\ quiet (current l) = true
  /\ app (docs l) (pendingDocs (current l)) = pendingDocs ds
  /\ wrap 64 (pos_ (current l)) = wrap 64 (pos_ ds + Z.of_nat (List.length (docs l)))
  /\ wrap 64 (retcnt l) = wrap 64 (Z.of_nat (List.length (docs l))).

(** The size written so far is the header and the documents taken, stays
    under the maximum, and a limit [c0] is counted down by the documents
    taken. *)
Definition Bounded (c0 : Z) (l : Loop) : Prop :=
  replySize l = sizeof_ReplyHeader + rawSizes (docs l)
  /\ replySize l < MAX_SIZE
  /\ (c0 < INF -> 0 <= cnt l /\ cnt l + Z.of_nat (List.length (docs l)) = c0).

(** The datasource of the loop has the identifier [id] and is open. *)
Definition Open (id : Z) (l : Loop) : Prop :=
  id_ (current l) = id /\ closed_ (current l) = false.

(** A datasource of three documents, and a session that holds it. *)
Definition three : DataSource :=
  mkDS 5 0 false
    (Remote [([("a", VInt32 1)], None); ([("a", VInt32 2)], None); ([("a", VInt32 3)], None)]).

Definition session5 : Session := mkSession 5 (<[5 := three]> ∅).

End ReplyNotions.

Module PoolKinds.
Import Pool.

(** A connection that exists and was made for the given use. *)
Definition ofKind (primary : bool) (c : Connection) : bool :=
  match c with
  | Some i => Bool.eqb (isPrimary i) primary
  | None => false
  end.

(** [conns_] holds connections for any use only, [primaries_] holds
    connections for primary use only, and neither holds an empty one. *)
Definition sorted (e : Endpoint) : bool :=
  forallb (ofKind false) (conns_ e) && forallb (ofKind true) (primaries_ e).

End PoolKinds.

Module SortedNotions.

(** No element of the vector is less than one before it. *)
Fixpoint ascending {T Key : Type} (ext : T -> Key) (lt : Key -> Key -> bool)
    (v : list T) : Prop :=
  match v with
  | [] => True
  | x :: r => (forall y, In y r -> lt (ext y) (ext x) = false) /\ ascending ext lt r
  end.

End SortedNotions.

Module OrderNotions.
Import Bson.

(** What a comparison operator answers for the outcome of a three-way
    comparison; [None] is the outcome of comparing with a NaN. *)
Definition verdict (c : Cmp) (o : option comparison) : bool :=
  match o with
  | Some x => apply c x
  | None => match c with not_equal_to => true | _ => false end
  end.

(** The six operators, asked both ways round, answer for one outcome. *)
Definition coherent (a b : Value) : Prop :=
  exists o : option comparison,
    forall c : Cmp,
      cmpValues c a b = verdict c o
      /\ cmpValues c b a = verdict c (option_map CompOpp o).

(** No NaN anywhere in a value. *)
Fixpoint ordered (v : Value) : bool :=
  match v with
  | VDouble d => negb (isnan d)
  | VObject fs | VArray fs =>
      (fix all (l : list (string * Value)) : bool :=
         match l with
         | [] => true
         | (_, x) :: r => ordered x && all r
         end) fs
  | _ => true
  end.

End OrderNotions.

Module AuthNotions.
Import Bson Auth.

(** The bit of a privilege in a mask. *)
Definition grants (mask : Z) (pr : Privilege) : bool := Z.testbit mask (index pr).

(** Whoever is authorized by [p] is authorized by [p']. *)
Definition atLeast (p p' : Privileges) : Prop :=
  forall (d : string) (pr : Privilege),
    authorized p d pr = true -> authorized p' d pr = true.

(** The client has shown the key of a user of the database: the MD5 of
    the nonce, the user name and the key that the user document stores,
    which is not empty. *)
Definition verified (find : string -> string -> Object) (MD5 : list Z -> list Z)
    (db : string) (obj : Object) : Prop :=
  exists username key nonce : string,
    as_string (get obj "user") = Ok username
    /\ storedKey (find db username) = Ok key
    /\ key <> ""
    /\ as_string_or (get obj "nonce") "" = Ok nonce
    /\ as_string_or (get obj "key") "" = Ok (makeAuthKey MD5 nonce username key).

(** A user of the database [test] who may read and write it, and the
    request that a client sends for that user. *)
Definition exampleUsers (db username : string) : Object :=
  if String.eqb db "test" && String.eqb username "alice"
  then [("user", VString "alice"); ("pwd", VString "0123");
        ("roles", VArray [("0", VString "readWrite")])]
  else [].

Definition exampleMD5 (bytes : list Z) : list Z := firstn 16 (app bytes (repeat 0 16)).

Definition exampleRequest : Object :=
  [("authenticate", VInt32 1); ("user", VString "alice"); ("nonce", VString "6e6f6e6365");
   ("key", VString (makeAuthKey exampleMD5 "6e6f6e6365" "alice" "0123"))].

End AuthNotions.

Module ConcernNotions.
Import Bson Concern OrderNotions.

(** Some element of the document has the name, whatever the case of its
    letters. *)
Definition names (nm : string) (w : Object) : bool :=
  existsb (fun elt => String.eqb (eltname elt) nm) w.

(** The document without its [getLastError] elements. *)
Definition strip (w : Object) : Object :=
  List.filter (fun elt => negb (String.eqb (eltname elt) "getlasterror")) w.

(** The names that the comparison keeps in [seen]. *)
Definition keptElt (elt : string * Value) : bool :=
  negb (String.eqb (eltname elt) "getlasterror") && negb (String.eqb (eltname elt) "w").

Definition kept (w : Object) : list string := map eltname (List.filter keptElt w).

Fixpoint distinct (l : list string) : bool :=
  match l with
  | [] => true
  | x :: r => negb (existsb (String.eqb x) r) && distinct r
  end.

(** The last [w] of the document. *)
Definition lastW (w : Object) : Element :=
  fold_left (fun c elt => if String.eqb (eltname elt) "w" then Some elt else c) w None.

Definition plain (c : Element) : bool :=
  match c with
  | None => true
  | Some (_, VString _) | Some (_, VInt32 _) | Some (_, VInt64 _) => true
  | _ => false
  end.

(** A write concern without [wtimeout], with no name twice, without a
    NaN, and with a [w] that is absent, a string or an integer. *)
Definition tidy (w : Object) : bool :=
  negb (names "wtimeout" w) && distinct (kept w)
  && forallb (fun elt => ordered (snd elt)) w && plain (lastW w).

Definition exampleConcern : Object :=
  [("getLastError", VInt32 1); ("w", VString "majority"); ("j", VBool true)].

End ConcernNotions.

Module AccessNotions.
Import Bson Auth Access.

(** A user of the database [test] with the role [read] only. *)
Definition reader : Privileges := orMask nobody "test" (makeMask READ).

End AccessNotions.

Module WireNotions.
Import Bson Topology Wire.

(** What a message has still to give. *)
Definition rest (m : Message) : list Z := skipn (Z.to_nat (pos_ m)) (data_ m).

(** A document whose storage is as long as its first four bytes say,
    and that long at least. *)
Definition wellFormed (x : Raw) : Prop :=
  le_value (firstn 4 x) = Z.of_nat (List.length x)
  /\ 4 <= Z.of_nat (List.length x) < 2 ^ 31.

(** A namespace that its own name parses to, without a NUL in it. *)
Definition sendable (n : Namespace) : Prop :=
  Namespace_from (Topology.ns n) = Got n
  /\ forallb (fun b => negb (b =? 0)) (string_bytes (Topology.ns n)) = true.

(** The twelve bytes of a header. *)
Definition header (reqID responseTo op : Z) : list Z :=
  app (le_bytes 4 reqID) (app (le_bytes 4 responseTo) (le_bytes 4 op)).

(** The two 32-bit halves of each 64-bit identifier, as they lie in
    memory. *)
Definition halves (ids : list Z) : list Z :=
  flat_map (fun id => [id mod 2 ^ 32; id / 2 ^ 32]) ids.

(** A namespace and two small documents. *)
Definition exampleSpace : Namespace := mkNamespace "db" "c" "db.c".
Definition exampleSelector : Raw := [12; 0; 0; 0; 16; 97; 0; 1; 0; 0; 0; 0].
Definition exampleChange : Raw := [12; 0; 0; 0; 16; 98; 0; 2; 0; 0; 0; 0].

End WireNotions.

Module MultiNotions.
Import Bson Write Multi.

(** An operation after which the loop of [SequentialWrite::perform] goes
    on: it returns, its status has no error, and the predicate to stop
    at, if there is one, returns false for it. *)
Definition quiet (stop : option (Object -> result bool)) (op : Sub) : bool :=
  match performed op with
  | Throw _ => false
  | Ok ack =>
      negb (hasErr ack)
      && match stop with
         | None => true
         | Some stop_ => match stop_ ack with Ok false => true | _ => false end
         end
  end.

(** The statuses of the operations that returned. *)
Definition acksOf (ops : list Sub) : list Object :=
  flat_map (fun op => match performed op with Ok ack => [ack] | Throw _ => [] end) ops.

(** A removal with limit 1 over three shards, of which the second has
    the document. *)
Definition exampleWrite : SequentialWrite :=
  stopAtFirstThat
    (mkSequentialWrite
       (add (add (add (MultiWrite_of [])
                    (mkSub 1 (Ok [("n", VInt32 0); ("err", VNull)])))
               (mkSub 2 (Ok [("n", VInt32 1); ("err", VNull)])))
          (mkSub 3 (Ok [("n", VInt32 1); ("err", VNull)])))
       None)
    affected.

End MultiNotions.

(* ================================================================== *)
(** * Properties of the digest *)
(* ================================================================== *)

Module HashingFacts.
Import Bson Hashing.
Import HashingNotions.

Lemma mul_compare_mono_r (p n m : Z) : 0 < p -> (n * p ?= m * p) = (n ?= m).
Proof. intros H. symmetry. apply Zmult_compare_compat_r. lia. Qed.

Lemma dfin_compare_rebase (m1 e1 m2 e2 e0 : Z) :
  e0 <= e1 -> e0 <= e2 ->
  dfin_compare m1 e1 m2 e2 = (m1 * 2 ^ (e1 - e0) ?= m2 * 2 ^ (e2 - e0)).
Proof.
  intros H1 H2. unfold dfin_compare.
  set (e := Z.min e1 e2).
  assert (He : e0 <= e) by (unfold e; lia).
  assert (He1 : e <= e1) by (unfold e; lia).
  assert (He2 : e <= e2) by (unfold e; lia).
  replace (e1 - e0) with ((e1 - e) + (e - e0)) by lia.
  replace (e2 - e0) with ((e2 - e) + (e - e0)) by lia.
  rewrite !Z.pow_add_r by lia.
  rewrite !Z.mul_assoc.
  symmetry. apply mul_compare_mono_r.
  apply Z.pow_pos_nonneg; lia.
Qed.


Lemma denotes_compare (m e z c ec : Z) :
  denotes (DFin m e) z -> 0 <= ec ->
  dfin_compare m e c ec = (z ?= c * 2 ^ ec).
Proof.
  intros [[He Hz] | [He Hm]] Hec.
  - rewrite (dfin_compare_rebase m e c ec 0) by lia.
    rewrite !Z.sub_0_r. now subst z.
  - rewrite (dfin_compare_rebase m e c ec e) by lia.
    rewrite Z.sub_diag, Z.pow_0_r, Z.mul_1_r. subst m.
    replace (ec - e) with (ec + - e) by lia.
    rewrite Z.pow_add_r by lia. rewrite Z.mul_assoc.
    apply mul_compare_mono_r. apply Z.pow_pos_nonneg; lia.
Qed.

Lemma denotes_trunc (m e z : Z) : denotes (DFin m e) z -> dtrunc m e = z.
Proof.
  intros [[He Hz] | [He Hm]]; unfold dtrunc.
  - destruct (Z.leb_spec 0 e); [now subst | lia].
  - destruct (Z.leb_spec 0 e); [lia |]. subst m.
    apply Z.quot_mul. apply Z.pow_nonzero; lia.
Qed.

Lemma double_path_integral (d : double) (z : Z) :
  INT64_MIN <= z <= INT64_MAX -> denotes d z -> double_path d = Ok z.
Proof.
  intros Hz Hd. destruct d as [| |m e]; try contradiction.
  unfold double_path, dlt, dgt, dlt, INT64_MIN_as_double, INT64_MAX_as_double.
  cbn [isnan dcompare].
  rewrite (denotes_compare m e z _ 11 Hd) by lia.
  assert (Hsym : dfin_compare 4503599627370496 11 m e = CompOpp (z ?= 4503599627370496 * 2 ^ 11)).
  { destruct Hd as [[He Hz'] | [He Hm]].
    - rewrite (dfin_compare_rebase _ 11 m e 0) by lia.
      rewrite !Z.sub_0_r. subst z. now rewrite Z.compare_antisym.
    - rewrite (dfin_compare_rebase _ 11 m e e) by lia.
      rewrite Z.sub_diag, Z.pow_0_r, Z.mul_1_r. subst m.
      replace (11 - e) with (11 + - e) by lia.
      rewrite Z.pow_add_r by lia. rewrite Z.mul_assoc.
      rewrite mul_compare_mono_r by (apply Z.pow_pos_nonneg; lia).
      now rewrite Z.compare_antisym. }
  rewrite Hsym.
  unfold INT64_MIN, INT64_MAX in Hz.
  destruct (Z.compare_spec z (-4503599627370496 * 2 ^ 11)) as [H|H|H]; try lia;
  destruct (Z.compare_spec z (4503599627370496 * 2 ^ 11)) as [H'|H'|H']; try lia; cbn [CompOpp];
  unfold double_to_int; rewrite (denotes_trunc m e z Hd);
  unfold INT64_MIN, INT64_MAX;
  destruct (Z.leb_spec (-9223372036854775808) z); try lia;
  destruct (Z.leb_spec z 9223372036854775807); try lia; reflexivity.
Qed.

Lemma swrap_id (w z : Z) :
  0 < w -> - 2 ^ (w - 1) <= z < 2 ^ (w - 1) -> swrap w z = z.
Proof.
  intros Hw Hz. unfold swrap.
  replace (2 ^ w) with (2 * 2 ^ (w - 1)).
  - rewrite Z.mod_small; lia.
  - rewrite <- Z.pow_succ_r by lia. f_equal. lia.
Qed.

Lemma dcompare_same_value (d : double) (m k : Z) :
  0 <= k -> dcompare d (DFin m k) = dcompare d (DFin (m * 2 ^ k) 0).
Proof.
  intros Hk. destruct d as [| [|] | m1 e1]; try reflexivity.
  cbn [dcompare]. f_equal.
  rewrite (dfin_compare_rebase m1 e1 m k (Z.min e1 0)) by lia.
  rewrite (dfin_compare_rebase m1 e1 (m * 2 ^ k) 0 (Z.min e1 0)) by lia.
  f_equal. replace (k - Z.min e1 0) with (k + (0 - Z.min e1 0)) by lia.
  rewrite Z.pow_add_r by lia. ring.
Qed.

Lemma dcompare_antisym (a b : double) (o : comparison) :
  dcompare a b = Some o -> dcompare b a = Some (CompOpp o).
Proof.
  destruct a as [| [|] | m1 e1], b as [| [|] | m2 e2]; cbn [dcompare];
    intros H; inversion H; subst; try reflexivity.
  f_equal. unfold dfin_compare. rewrite Z.min_comm.
  now rewrite Z.compare_antisym.
Qed.

(** The three numeric paths of the digest coincide. *)
Lemma hash_int32_int64 (MD5 : list Z -> list Z) (n n' : string) (z : Z) :
  hash MD5 (Some (n, VInt32 z)) = hash MD5 (Some (n', VInt64 z)).
Proof. reflexivity. Qed.

Lemma hash_integral_double (MD5 : list Z -> list Z) (n n' : string) (d : double) (z : Z) :
  INT64_MIN <= z <= INT64_MAX -> denotes d z ->
  hash MD5 (Some (n, VDouble d)) = hash MD5 (Some (n', VInt64 z)).
Proof.
  intros Hz Hd. unfold hash, hashInput. cbn [hashValue].
  rewrite (double_path_integral d z Hz Hd). cbn [bind].
  rewrite swrap_id; [reflexivity | lia | unfold INT64_MIN, INT64_MAX in Hz; lia].
Qed.

Lemma hash_nan (MD5 : list Z -> list Z) (n n' : string) :
  hash MD5 (Some (n, VDouble DNaN)) = hash MD5 (Some (n', VInt64 0)).
Proof. reflexivity. Qed.

(** Below the least [int64_t]: the least [int64_t]. *)
Lemma double_path_low (d : double) :
  dcompare d (DFin INT64_MIN 0) = Some Lt -> double_path d = Ok INT64_MIN.
Proof.
  intros H. unfold double_path, dlt, INT64_MIN_as_double.
  rewrite (dcompare_same_value d _ 11) by lia.
  change (-4503599627370496 * 2 ^ 11) with INT64_MIN. rewrite H.
  destruct d; [discriminate H | reflexivity | reflexivity].
Qed.

(** Above [2^63]: the greatest [int64_t]. *)
Lemma double_path_high (d : double) :
  dcompare d (DFin 1 63) = Some Gt -> double_path d = Ok INT64_MAX.
Proof.
  intros H. unfold double_path, dgt, dlt, INT64_MIN_as_double, INT64_MAX_as_double.
  assert (Hmin : dcompare d (DFin (-4503599627370496) 11) <> Some Lt).
  { rewrite (dcompare_same_value d _ 11) by lia.
    rewrite (dcompare_same_value d 1 63) in H by lia.
    destruct d as [| [|] | m e]; cbn [dcompare] in *; try discriminate.
    intros H'. injection H as H1. injection H' as H2.
    rewrite (dfin_compare_rebase m e _ 0 (Z.min e 0)) in H1 by lia.
    rewrite (dfin_compare_rebase m e _ 0 (Z.min e 0)) in H2 by lia.
    rewrite Z.compare_gt_iff in H1. rewrite Z.compare_lt_iff in H2.
    assert (0 < 2 ^ (0 - Z.min e 0)) by (apply Z.pow_pos_nonneg; lia).
    change (1 * 2 ^ 63) with 9223372036854775808 in H1.
    change (-4503599627370496 * 2 ^ 11) with (-9223372036854775808) in H2.
    nia. }
  assert (Hmax : dcompare (DFin 4503599627370496 11) d = Some Lt).
  { apply dcompare_antisym in H.
    rewrite (dcompare_same_value d _ 11) in Hmin by lia.
    destruct d as [| [|] | m e]; cbn [dcompare CompOpp] in *; try discriminate; try reflexivity.
    f_equal. injection H as H1.
    rewrite (dfin_compare_rebase 1 63 m e (Z.min e 0)) in H1 by lia.
    rewrite (dfin_compare_rebase _ 11 m e (Z.min e 0)) by lia.
    rewrite <- H1. f_equal.
    replace (11 - Z.min e 0) with (11 + (0 - Z.min e 0)) by lia.
    replace (63 - Z.min e 0) with (63 + (0 - Z.min e 0)) by lia.
    rewrite !Z.pow_add_r by lia. ring. }
  rewrite Hmax.
  destruct d as [| [|] | m e]; cbn [isnan]; try discriminate H.
  - reflexivity.
  - destruct (dcompare (DFin m e) (DFin (-4503599627370496) 11)) as [[| |]|];
      try reflexivity. now contradiction Hmin.
Qed.

(** Between the greatest [int64_t] and [2^63], where no binary64 value
    lies, truncation gives the greatest [int64_t]. *)
Lemma double_path_between (d : double) :
  dcompare d (DFin INT64_MAX 0) = Some Gt -> dcompare d (DFin 1 63) = Some Lt ->
  double_path d = Ok INT64_MAX.
Proof.
  intros Hlo Hhi.
  destruct d as [| [|] | m e]; cbn [dcompare] in Hlo, Hhi; try discriminate.
  injection Hlo as H1. injection Hhi as H2.
  rewrite (dfin_compare_rebase m e _ 0 (Z.min e 0)) in H1 by lia.
  rewrite (dfin_compare_rebase m e 1 63 (Z.min e 0)) in H2 by lia.
  rewrite Z.compare_gt_iff in H1. rewrite Z.compare_lt_iff in H2.
  replace (63 - Z.min e 0) with (63 + (0 - Z.min e 0)) in H2 by lia.
  rewrite Z.pow_add_r in H2 by lia.
  assert (Hp : 0 < 2 ^ (0 - Z.min e 0)) by (apply Z.pow_pos_nonneg; lia).
  unfold INT64_MAX in H1. change (2 ^ 63) with 9223372036854775808 in H2.
  destruct (Z.leb_spec 0 e) as [He | He].
  - rewrite Z.min_r in H1, H2 by lia. rewrite Z.sub_diag, Z.pow_0_r in H1, H2.
    rewrite Z.sub_0_r in H1, H2. lia.
  - rewrite Z.min_l in H1, H2, Hp by lia.
    rewrite Z.sub_diag, Z.pow_0_r, Z.mul_1_r in H1, H2.
    replace (0 - e) with (- e) in H1, H2, Hp by lia.
    assert (Ht : dtrunc m e = INT64_MAX).
    { unfold dtrunc. destruct (Z.leb_spec 0 e); [lia |].
      rewrite Z.quot_div_nonneg by lia.
      symmetry. apply (Z.div_unique_pos m (2 ^ (- e)) INT64_MAX (m - INT64_MAX * 2 ^ (- e)));
        unfold INT64_MAX; lia. }
    unfold double_path, dlt, dgt, dlt, INT64_MIN_as_double, INT64_MAX_as_double.
    cbn [isnan dcompare].
    rewrite (dfin_compare_rebase m e _ 11 e) by lia.
    rewrite (dfin_compare_rebase _ 11 m e e) by lia.
    rewrite Z.sub_diag, Z.pow_0_r, !Z.mul_1_r.
    replace (11 - e) with (11 + - e) by lia. rewrite Z.pow_add_r by lia.
    change (2 ^ 11) with 2048.
    destruct (Z.compare_spec m (-4503599627370496 * (2048 * 2 ^ (- e)))); try lia.
    destruct (Z.compare_spec (4503599627370496 * (2048 * 2 ^ (- e))) m); try lia.
    unfold double_to_int. rewrite Ht. reflexivity.
Qed.

(** Every double above the greatest [int64_t] other than [2^63] itself
    takes the path of the greatest [int64_t]. *)
Lemma double_path_above (d : double) :
  dcompare d (DFin INT64_MAX 0) = Some Gt -> dcompare d (DFin 1 63) <> Some Eq ->
  double_path d = Ok INT64_MAX.
Proof.
  intros Hlo Hne.
  destruct (dcompare d (DFin 1 63)) as [[| |]|] eqn:E.
  - now contradiction Hne.
  - now apply double_path_between.
  - now apply double_path_high.
  - destruct d as [| [|] |]; discriminate.
Qed.

(** C6, the boundary: [2^63] is a binary64 value above the greatest
    [int64_t], [(double) INT64_MAX] rounds up to it, so [v > (double)
    INT64_MAX] is false for it and the conversion that follows is not
    defined; the digest is not that of the greatest [int64_t]. *)
Theorem hash_double_two_pow_63 :
  let v := DFin 1 63 in
  is_binary64 v = true
  /\ dcompare v (DFin INT64_MAX 0) = Some Gt
  /\ dcompare v INT64_MAX_as_double = Some Eq
  /\ double_path v = Throw (Undefined "floating-integral conversion out of range")
  /\ forall (MD5 : list Z -> list Z) (n n' : string),
       hash MD5 (Some (n, VDouble v)) <> hash MD5 (Some (n', VInt64 INT64_MAX)).
Proof.
  cbv zeta. repeat split; try reflexivity.
  intros MD5 n n'. unfold hash, hashInput. cbn [hashValue].
  change (double_path (DFin 1 63))
    with (@Throw Z (Undefined "floating-integral conversion out of range")).
  cbn [bind]. discriminate.
Qed.

End HashingFacts.

(* ================================================================== *)
(** * Properties of the connection pools *)
(* ================================================================== *)

Module PoolFacts.
Import Pool.
Import PoolNotions.

Lemma size_removelast (v : list Connection) : (size (removelast v) <= size v)%N.
Proof.
  unfold size. induction v as [| c [| c' r] IH]; cbn [removelast List.length] in *; lia.
Qed.

Lemma size_pop (v : list Connection) : (size (snd (pop v)) <= size v)%N.
Proof.
  destruct v as [| c r]; [cbn; lia |]. unfold pop. cbn [snd].
  apply size_removelast.
Qed.

Lemma size_push (v : list Connection) (c : Connection) :
  size (app v [c]) = (size v + 1)%N.
Proof. unfold size. rewrite length_app. cbn [List.length]. lia. Qed.

Lemma get_bounded (cps : N) (primary : bool) (e : Endpoint) :
  bounded cps e -> bounded cps (snd (get primary e)).
Proof.
  intros [Hc Hp]. unfold get.
  destruct primary.
  - pose proof (size_pop (primaries_ e)) as H.
    destruct (pop (primaries_ e)) as [ret v'] eqn:E. cbn [snd] in H.
    destruct (exists_ ret); split; cbn [snd conns_ primaries_]; lia.
  - pose proof (size_pop (conns_ e)) as H.
    destruct (pop (conns_ e)) as [ret v'] eqn:E. cbn [snd] in H.
    destruct (exists_ ret); split; cbn [snd conns_ primaries_]; lia.
Qed.

Lemma release_bounded (cps : N) (c : Connection) (e : Endpoint) :
  bounded cps e -> bounded cps (release cps c e).
Proof.
  intros [Hc Hp]. unfold release.
  destruct c as [i |]; [| now split].
  destruct (isPrimary i).
  - destruct (N.ltb_spec (size (primaries_ e)) cps); split; cbn [conns_ primaries_];
      rewrite ?size_push; lia.
  - destruct (N.ltb_spec (size (conns_ e)) cps); split; cbn [conns_ primaries_];
      rewrite ?size_push; lia.
Qed.

Lemma step_bounded (cps : N) (e : Endpoint) (o : Op) :
  bounded cps e -> bounded cps (step cps e o).
Proof.
  intros H. destruct o as [| | [|] | | c]; cbn [step].
  - now apply get_bounded.
  - now apply get_bounded.
  - destruct H as [Hc Hp]. split; cbn [conns_ primaries_]; [lia |].
    pose proof (size_pop (primaries_ e)). lia.
  - destruct H as [Hc Hp]. split; cbn [conns_ primaries_]; [| lia].
    pose proof (size_pop (conns_ e)). lia.
  - split; unfold flush, size; cbn [conns_ primaries_ List.length]; lia.
  - now apply release_bounded.
Qed.

Lemma run_bounded (cps : N) (ops : list Op) (e : Endpoint) :
  bounded cps e -> bounded cps (run cps e ops).
Proof.
  revert e. unfold run.
  induction ops as [| o r IH]; intros e H; cbn [fold_left]; [assumption |].
  apply IH. now apply step_bounded.
Qed.


(** C8: [release] pushes the connection onto its own pool exactly when
    that pool holds fewer than [connPoolSize] connections and leaves both
    pools alone otherwise (the connection is then destroyed), and after
    any sequence of get, pop, flush and release on a new endpoint neither
    pool holds more than [connPoolSize]. *)
Theorem pools_never_exceed_connPoolSize (connPoolSize : N) :
  (forall (e : Endpoint) (i : Impl),
      otherPool i (release connPoolSize (Some i) e) = otherPool i e
      /\ ((size (poolOf i e) < connPoolSize)%N ->
          poolOf i (release connPoolSize (Some i) e) = app (poolOf i e) [Some i])
      /\ (~ (size (poolOf i e) < connPoolSize)%N ->
          release connPoolSize (Some i) e = e))
  /\ (forall ops : list Op,
      (size (conns_ (run connPoolSize fresh ops)) <= connPoolSize)%N
      /\ (size (primaries_ (run connPoolSize fresh ops)) <= connPoolSize)%N).
Proof.
  split.
  - intros e i. unfold release, poolOf, otherPool.
    destruct (isPrimary i) eqn:Hp.
    + destruct (N.ltb_spec (size (primaries_ e)) connPoolSize) as [H | H];
        cbn [conns_ primaries_]; repeat split; intros; try reflexivity; lia.
    + destruct (N.ltb_spec (size (conns_ e)) connPoolSize) as [H | H];
        cbn [conns_ primaries_]; repeat split; intros; try reflexivity; lia.
  - intros ops. apply (run_bounded connPoolSize ops fresh).
    split; unfold fresh, size; cbn [conns_ primaries_ List.length]; lia.
Qed.

End PoolFacts.

(* ================================================================== *)
(** * Properties of the local-threshold selection *)
(* ================================================================== *)

Module SelectFacts.
Import Select.
Import SelectNotions.










(** With a positive threshold and no overflow the fastest candidate is
    itself below the threshold, so the prefix is never empty and the
    selection is never widened. *)
Lemma fastest_in_prefix (front : Backend) (rest : list Backend) (localThreshold : Z) :
  0 < localThreshold ->
  INT64_MIN <= roundtrip front + 1000 * localThreshold <= INT64_MAX ->
  advance (thresholdOf front localThreshold) (front :: rest) <> O
  /\ range (front :: rest) localThreshold
     = advance (thresholdOf front localThreshold) (front :: rest).
Proof.
  intros Hlt Hov.
  assert (Ht : thresholdOf front localThreshold = roundtrip front + 1000 * localThreshold).
  { unfold thresholdOf. apply HashingFacts.swrap_id; [lia |].
    unfold INT64_MIN, INT64_MAX in Hov. change (2 ^ (64 - 1)) with 9223372036854775808. lia. }
  assert (Hne : advance (thresholdOf front localThreshold) (front :: rest) <> O).
  { cbn [advance]. rewrite Ht.
    destruct (Z.ltb_spec (roundtrip front) (roundtrip front + 1000 * localThreshold)); lia. }
  split; [exact Hne |]. unfold range.
  destruct (Nat.eqb_spec (advance (thresholdOf front localThreshold) (front :: rest)) 0);
    [contradiction | reflexivity].
Qed.


End SelectFacts.

(* ================================================================== *)
(** * Properties of the choice of a backend to read from *)
(* ================================================================== *)

Module ShardFacts.
Import Bson Select Shard.
Import ShardNotions.

(** What [selectLocal] returns is a candidate. *)
Lemma selectLocal_accepts (RAND_MAX : Z) (pred : Backend -> bool) (byrt : list Backend)
    (localThreshold rand : Z) (b : Backend) :
  selectLocal RAND_MAX pred byrt localThreshold rand = Some b -> pred b = true.
Proof.
  unfold selectLocal, candidatesOf.
  destruct (List.filter pred byrt) as [| f r] eqn:Hc; [discriminate |].
  intros H. apply nth_error_In in H. rewrite <- Hc in H.
  apply List.filter_In in H. apply H.
Qed.

(** [ReplicaSet::readOp] gives a connection of [getAny()] only to a
    backend that [selectLocal] accepted, which is not the excluded one. *)
Lemma ReplicaSet_readOp_any (RAND_MAX localThreshold rand : Z) (rs : ReplicaSet)
    (queryFlags : Z) (readPref : Object) (exclude : BackendPtr) (b : Backend) :
  ReplicaSet_readOp RAND_MAX localThreshold rand rs queryFlags readPref exclude
  = Ok (Some (b, FromAny)) ->
  same b exclude = false.
Proof.
  unfold ReplicaSet_readOp.
  destruct (modeOf queryFlags readPref) as [[mode tags] | e]; cbn [bind]; [| discriminate].
  destruct ((String.eqb mode "primary" || String.eqb mode "primaryPreferred")
            && (String.eqb mode "primary" || otherPrimary rs tags exclude)).
  - destruct (primary_ rs); discriminate.
  - destruct (selectLocal RAND_MAX _ (byRoundtrip rs) localThreshold rand) as [c |] eqn:Hs;
      [| discriminate].
    intros H. injection H as <-. apply selectLocal_accepts in Hs.
    apply andb_prop in Hs. destruct Hs as [Hs _].
    apply andb_prop in Hs. destruct Hs as [_ Hs].
    apply negb_true_iff in Hs. exact Hs.
Qed.

(** With the read preference [primary], stated or by default,
    [ReplicaSet::readOp] gives the primary and does not look at the
    excluded backend. *)
Lemma ReplicaSet_readOp_primary (RAND_MAX localThreshold rand : Z) (rs : ReplicaSet)
    (queryFlags : Z) (p : Backend) (exclude : BackendPtr) :
  primary_ rs = Some p ->
  ReplicaSet_readOp RAND_MAX localThreshold rand rs queryFlags
    [("mode", VString "primary")] exclude
  = Ok (Some (p, FromPrimary))
  /\ (Z.land queryFlags SLAVE_OK = 0 ->
      ReplicaSet_readOp RAND_MAX localThreshold rand rs queryFlags [] exclude
      = Ok (Some (p, FromPrimary))).
Proof.
  intros Hp. unfold ReplicaSet_readOp, modeOf. split.
  - cbn. rewrite Hp. reflexivity.
  - intros Hf. cbn [empty negb]. rewrite Hf, Hp. reflexivity.
Qed.

Lemma Sync_readOp_other (RAND_MAX localThreshold rand : Z) (byrt : list Backend)
    (exclude : BackendPtr) (b : Backend) (k : Pooled) :
  Sync_readOp RAND_MAX byrt localThreshold rand exclude = Some (b, k) ->
  same b exclude = false.
Proof.
  unfold Sync_readOp.
  destruct (selectLocal RAND_MAX _ byrt localThreshold rand) as [c |] eqn:Hs;
    [| discriminate].
  intros H. injection H as <- _. apply selectLocal_accepts in Hs.
  apply negb_true_iff in Hs. exact Hs.
Qed.

Lemma Single_readOp_other (backend : Backend) (alive : bool) (exclude : BackendPtr)
    (b : Backend) (k : Pooled) :
  Single_readOp backend alive exclude = Some (b, k) ->
  same b exclude = false.
Proof.
  unfold Single_readOp. destruct alive; cbn [andb]; [| discriminate].
  destruct (same backend exclude) eqn:Hs; cbn [negb]; [discriminate |].
  intros H. injection H as <- _. exact Hs.
Qed.

(** The backend that a read is retried on.  [Single::readOp],
    [Sync::readOp] and [ReplicaSet::readOp] when it goes through
    [selectLocal], whatever the replica set, the flags and the read
    preference are, never give a connection to the excluded backend.
    With the read preference [primary], stated or by default, a replica
    set that has a primary gives a connection to it whatever backend is
    excluded. *)
Theorem readOp_and_the_excluded_backend (RAND_MAX localThreshold rand : Z) :
  (forall (rs : ReplicaSet) (queryFlags : Z) (readPref : Object) (exclude : BackendPtr)
          (b : Backend),
     ReplicaSet_readOp RAND_MAX localThreshold rand rs queryFlags readPref exclude
     = Ok (Some (b, FromAny)) ->
     same b exclude = false)
  /\ (forall (byrt : list Backend) (exclude : BackendPtr) (b : Backend) (k : Pooled),
        Sync_readOp RAND_MAX byrt localThreshold rand exclude = Some (b, k) ->
        same b exclude = false)
  /\ (forall (backend : Backend) (alive : bool) (exclude : BackendPtr) (b : Backend)
             (k : Pooled),
        Single_readOp backend alive exclude = Some (b, k) ->
        same b exclude = false)
  /\ (forall (rs : ReplicaSet) (queryFlags : Z) (p : Backend) (exclude : BackendPtr),
        primary_ rs = Some p ->
        ReplicaSet_readOp RAND_MAX localThreshold rand rs queryFlags
          [("mode", VString "primary")] exclude
        = Ok (Some (p, FromPrimary))
        /\ (Z.land queryFlags SLAVE_OK = 0 ->
            ReplicaSet_readOp RAND_MAX localThreshold rand rs queryFlags [] exclude
            = Ok (Some (p, FromPrimary)))).
Proof.
  repeat apply conj.
  - intros rs queryFlags readPref exclude b. apply ReplicaSet_readOp_any.
  - intros byrt exclude b k. apply Sync_readOp_other.
  - intros backend alive exclude b k. apply Single_readOp_other.
  - intros rs queryFlags p exclude. apply ReplicaSet_readOp_primary.
Qed.

(** A replica set without a primary, read with [SLAVE_OK]; the same set
    with its first member primary, read by default; a sync group; a
    single backend. *)
Lemma readOp_and_the_excluded_backend_witness :
  (ReplicaSet_readOp 2147483647 15000 0 orphanSet SLAVE_OK [] (Some node1)
   = Ok (Some (node2, FromAny))
   /\ same node2 (Some node1) = false)
  /\ (Sync_readOp 2147483647 [node1; node2] 15000 0 (Some node1) = Some (node2, FromAny)
      /\ same node2 (Some node1) = false)
  /\ (Single_readOp node2 true (Some node1) = Some (node2, FromPrimary)
      /\ same node2 (Some node1) = false)
  /\ (ReplicaSet_readOp 2147483647 15000 0 exampleSet 0 [] (Some node1)
      = Ok (Some (node1, FromPrimary))
      /\ same node1 (Some node1) = true).
Proof.
  destruct (readOp_and_the_excluded_backend 2147483647 15000 0) as (H1 & H2 & H3 & H4).
  repeat apply conj.
  - reflexivity.
  - apply (H1 orphanSet SLAVE_OK [] (Some node1) node2). reflexivity.
  - reflexivity.
  - apply (H2 [node1; node2] (Some node1) node2 FromAny). reflexivity.
  - reflexivity.
  - apply (H3 node2 true (Some node1) node2 FromPrimary). reflexivity.
  - apply (H4 exampleSet 0 node1 (Some node1) eq_refl). reflexivity.
  - reflexivity.
Defined.

End ShardFacts.

(* ================================================================== *)
(** * Properties of the acknowledgement merger *)
(* ================================================================== *)

Module WriteFacts.
Import Bson Write.
Import WriteNotions.

(** ** The loop *)

Lemma wrap_small (x : Z) : 0 <= x <= INT64_MAX -> wrap 64 x = x.
Proof.
  intros H. unfold wrap. apply Z.mod_small. unfold INT64_MAX in H.
  change (2 ^ 64) with 18446744073709551616. lia.
Qed.

Lemma swrap32_small (x : Z) : 0 <= x <= INT32_MAX -> swrap 32 x = x.
Proof.
  intros H. apply HashingFacts.swrap_id; [lia |].
  unfold INT32_MAX in H. change (2 ^ (32 - 1)) with 2147483648. lia.
Qed.

Lemma total_nonneg (elts : list (string * Value)) :
  forallb wellTyped elts = true -> 0 <= total elts.
Proof.
  induction elts as [| elt r IH]; cbn [forallb total]; [lia |].
  intros H. apply andb_prop in H as [He Hr]. specialize (IH Hr).
  unfold wellTyped in He. destruct (named "n" elt); [| lia].
  unfold countOf. destruct (snd elt); try discriminate; lia.
Qed.

Lemma greatest_nonneg (nm : string) (elts : list (string * Value)) : 0 <= greatest nm elts.
Proof. induction elts as [| elt r IH]; cbn [greatest]; lia. Qed.

(** One turn of the loop on a well-typed element. *)
Lemma visit_spec (m : Merge) (nm : string) (v : Value) :
  wellTyped (nm, v) = true ->
  0 <= n m -> n m + (if named "n" (nm, v) then countOf (nm, v) else 0) <= INT64_MAX ->
  0 <= waited m -> 0 <= wtime m ->
  visit m (Some (nm, v)) =
  Ok (mkMerge
        (if named "err" (nm, v) && (negb (exists_ (err m)) || is_null (err m))
         then Some (nm, v) else err m)
        (if named "code" (nm, v) && negb (exists_ (code m)) then Some (nm, v) else code m)
        (n m + (if named "n" (nm, v) then countOf (nm, v) else 0))
        (hasUpdatedExisting m || named "updatedExisting" (nm, v))
        (updatedExisting m || (named "updatedExisting" (nm, v) && flagOf (nm, v)))
        (if named "upserted" (nm, v) && negb (exists_ (upserted m)) then Some (nm, v)
         else upserted m)
        (wtimeout m || (named "wtimeout" (nm, v) && flagOf (nm, v)))
        (Z.max (waited m) (if named "waited" (nm, v) then countOf (nm, v) else 0))
        (Z.max (wtime m) (if named "wtime" (nm, v) then countOf (nm, v) else 0))).
Proof.
  intros Hwt Hn0 Hn Hwa0 Hwt0. destruct m as [e c k hu u up w wa wt].
  cbn [err code n hasUpdatedExisting updatedExisting upserted wtimeout waited wtime] in *.
  unfold wellTyped, named in *. cbn [fst snd] in *. unfold visit. cbn [name].
  destruct (String.eqb_spec nm "err") as [-> | Herr].
  { cbn. destruct (negb (exists_ e) || is_null e); cbn;
      rewrite ?Z.add_0_r, ?orb_false_r, ?Z.max_l by lia;
      rewrite ?Z.max_l by lia; reflexivity. }
  destruct (String.eqb_spec nm "code") as [-> | Hcode].
  { cbn. destruct (negb (exists_ c)); cbn;
      rewrite ?Z.add_0_r, ?orb_false_r, ?Z.max_l by lia; rewrite ?Z.max_l by lia;
      reflexivity. }
  destruct (String.eqb_spec nm "n") as [-> | Hnn].
  { cbn. cbn in Hwt, Hn. unfold countOf in *. cbn [snd] in *.
    destruct v as [| | | | | | | | | z | | z | |]; try discriminate Hwt;
      cbn [as_size_t asNumber bind];
      apply andb_prop in Hwt as [H1 H2]; apply Z.leb_le in H1, H2;
      rewrite (wrap_small z) by (unfold INT32_MAX, INT64_MAX in *; lia);
      rewrite (wrap_small (k + z)) by (unfold INT32_MAX, INT64_MAX in *; lia);
      rewrite ?orb_false_r, ?Z.max_l by lia; rewrite ?Z.max_l by lia; reflexivity. }
  destruct (String.eqb_spec nm "updatedExisting") as [-> | Hue].
  { cbn. cbn in Hwt. destruct v; try discriminate Hwt. unfold or_as_bool, flagOf. cbn.
    destruct u; cbn; rewrite ?Z.add_0_r, ?orb_true_r, ?orb_false_r, ?Z.max_l by lia;
      rewrite ?Z.max_l by lia; reflexivity. }
  destruct (String.eqb_spec nm "upserted") as [-> | Hup].
  { cbn. destruct (negb (exists_ up)); cbn;
      rewrite ?Z.add_0_r, ?orb_false_r, ?Z.max_l by lia; rewrite ?Z.max_l by lia;
      reflexivity. }
  destruct (String.eqb_spec nm "wtimeout") as [-> | Hwto].
  { cbn. cbn in Hwt. destruct v; try discriminate Hwt. unfold or_as_bool, flagOf. cbn.
    destruct w; cbn; rewrite ?Z.add_0_r, ?orb_true_r, ?orb_false_r, ?Z.max_l by lia;
      rewrite ?Z.max_l by lia; reflexivity. }
  destruct (String.eqb_spec nm "waited") as [-> | Hwa].
  { cbn. cbn in Hwt. unfold countOf. cbn [snd].
    destruct v; try discriminate Hwt. cbn [as_int asNumber bind].
    apply andb_prop in Hwt as [H1 H2]; apply Z.leb_le in H1, H2.
    rewrite swrap32_small by lia.
    rewrite ?Z.add_0_r, ?orb_false_r, ?(Z.max_l _ 0) by lia. rewrite ?(Z.max_l _ 0) by lia.
    reflexivity. }
  destruct (String.eqb_spec nm "wtime") as [-> | Hwti].
  { cbn. cbn in Hwt. unfold countOf. cbn [snd].
    destruct v; try discriminate Hwt. cbn [as_int asNumber bind].
    apply andb_prop in Hwt as [H1 H2]; apply Z.leb_le in H1, H2.
    rewrite swrap32_small by lia.
    rewrite ?Z.add_0_r, ?orb_false_r, ?(Z.max_l _ 0) by lia. rewrite ?(Z.max_l _ 0) by lia.
    reflexivity. }
  cbn. rewrite ?Z.add_0_r, ?orb_false_r, ?Z.max_l by lia. rewrite ?Z.max_l by lia.
  reflexivity.
Qed.

Lemma firstOr_step (a : Element) (nm : string) (elt : string * Value)
    (r : list (string * Value)) :
  firstOr (if named nm elt && negb (exists_ a) then Some elt else a) nm r
  = firstOr a nm (elt :: r).
Proof.
  unfold firstOr, firstNamed. cbn [List.find].
  destruct a as [x |]; cbn [exists_ negb]; rewrite ?andb_false_r; [reflexivity |].
  rewrite andb_true_r. destruct (named nm elt); reflexivity.
Qed.

(** The whole loop on well-typed elements. *)
Lemma visitAll_spec (elts : list (string * Value)) (m : Merge) :
  forallb wellTyped elts = true ->
  0 <= n m -> n m + total elts <= INT64_MAX -> 0 <= waited m -> 0 <= wtime m ->
  visitAll m elts =
  Ok (mkMerge (errAfter (err m) elts) (firstOr (code m) "code" elts)
        (n m + total elts)
        (hasUpdatedExisting m || present "updatedExisting" elts)
        (updatedExisting m || anyTrue "updatedExisting" elts)
        (firstOr (upserted m) "upserted" elts)
        (wtimeout m || anyTrue "wtimeout" elts)
        (Z.max (waited m) (greatest "waited" elts))
        (Z.max (wtime m) (greatest "wtime" elts))).
Proof.
  revert m. induction elts as [| [nm v] r IH]; intros m Hwt Hn0 Hn Hwa Hwti.
  - cbn [visitAll errAfter total present anyTrue greatest existsb].
    unfold firstOr, firstNamed. cbn [List.find].
    rewrite Z.add_0_r, !orb_false_r, !Z.max_l by lia.
    destruct m as [e c k hu u up w wa wt]. cbn.
    destruct c, up; reflexivity.
  - cbn [forallb] in Hwt. apply andb_prop in Hwt as [He Hr].
    pose proof (total_nonneg r Hr) as Htr.
    cbn [total] in Hn.
    assert (Hc0 : 0 <= (if named "n" (nm, v) then countOf (nm, v) else 0)).
    { unfold wellTyped in He. destruct (named "n" (nm, v)); [| lia].
      unfold countOf. destruct (snd (nm, v)); try discriminate;
        apply andb_prop in He as [H1 _]; apply Z.leb_le in H1; exact H1. }
    cbn [visitAll].
    rewrite (visit_spec m nm v He Hn0) by lia. cbn [bind].
    rewrite IH; cbn [err code n hasUpdatedExisting updatedExisting upserted wtimeout
                       waited wtime]; try assumption; try lia.
    rewrite !firstOr_step.
    cbn [errAfter total present anyTrue greatest existsb].
    rewrite <- !orb_assoc, <- !Z.max_assoc, Z.add_assoc. reflexivity.
Qed.

(** ** What [err] holds after the loop *)

Lemma errAfter_stays (elts : list (string * Value)) (a : Element) :
  isErrorElement a = true -> errAfter a elts = a.
Proof.
  intros H. induction elts as [| elt r IH]; [reflexivity |].
  cbn [errAfter]. unfold isErrorElement in H. apply andb_prop in H as [H1 H2].
  rewrite H1. apply negb_true_iff in H2. rewrite H2. cbn [negb orb].
  rewrite andb_false_r. exact IH.
Qed.

Lemma find_app_l {A : Type} (f : A -> bool) (l1 l2 : list A) :
  List.find f (app l1 l2)
  = match List.find f l1 with Some x => Some x | None => List.find f l2 end.
Proof.
  induction l1 as [| x r IH]; [reflexivity |]. cbn [app List.find].
  destruct (f x); [reflexivity | exact IH].
Qed.

Lemma lastNamed_cons (nm : string) (elt : string * Value) (r : list (string * Value)) :
  lastNamed nm (elt :: r)
  = match lastNamed nm r with
    | Some x => Some x
    | None => if named nm elt then Some elt else None
    end.
Proof.
  unfold lastNamed, firstNamed. cbn [rev]. rewrite find_app_l. cbn [List.find]. reflexivity.
Qed.

Lemma errAfter_char (elts : list (string * Value)) (a : Element) :
  isErrorElement a = false ->
  errAfter a elts
  = if hasError elts then firstError elts
    else match lastNamed "err" elts with Some e => Some e | None => a end.
Proof.
  revert a. induction elts as [| elt r IH]; intros a Ha; [reflexivity |].
  cbn [errAfter]. unfold hasError, firstError in *. cbn [existsb List.find].
  rewrite lastNamed_cons.
  assert (Hopen : negb (exists_ a) || is_null a = true).
  { unfold isErrorElement in Ha. destruct (exists_ a); [| reflexivity].
    cbn in Ha. apply negb_false_iff in Ha. rewrite Ha. reflexivity. }
  rewrite Hopen, andb_true_r.
  unfold isError. destruct (named "err" elt) eqn:En; cbn [andb orb].
  - destruct (is_null (Some elt)) eqn:Enull; cbn [negb orb].
    + rewrite IH by (unfold isErrorElement; rewrite Enull; apply andb_false_r).
      destruct (existsb _ r); [reflexivity |].
      destruct (lastNamed "err" r); reflexivity.
    + apply errAfter_stays. unfold isErrorElement. rewrite Enull. reflexivity.
  - rewrite IH by exact Ha. destruct (existsb _ r); [reflexivity |].
    destruct (lastNamed "err" r); reflexivity.
Qed.

Lemma errAfter_isError (elts : list (string * Value)) :
  isErrorElement (errAfter None elts) = hasError elts.
Proof.
  rewrite errAfter_char by reflexivity.
  destruct (hasError elts) eqn:E.
  - unfold hasError in E. unfold firstError.
    destruct (List.find isError elts) as [x |] eqn:F.
    + apply find_some in F as [_ F]. unfold isError in F. apply andb_prop in F as [_ F].
      unfold isErrorElement. cbn [exists_]. exact F.
    + apply existsb_exists in E as [x [Hin Hx]].
      now rewrite (find_none _ _ F x Hin) in Hx.
  - destruct (lastNamed "err" elts) as [x |] eqn:L; [| reflexivity].
    unfold lastNamed, firstNamed in L. apply find_some in L as [Hin Hn].
    apply in_rev in Hin.
    unfold hasError in E.
    assert (Hx : isError x = false).
    { destruct (isError x) eqn:Ex; [| reflexivity].
      assert (existsb isError elts = true) by (apply existsb_exists; eauto). congruence. }
    unfold isError in Hx. rewrite Hn in Hx. cbn [andb] in Hx.
    unfold isErrorElement. cbn [exists_ andb]. exact Hx.
Qed.

(** ** The fields of the document built *)

Lemma build_eq (m : Merge) :
  build m =
  concat
    [ [("ok", VInt32 (if isErrorElement (err m) then 0 else 1))];
      fieldOf "err" (err m);
      fieldOf "code" (code m);
      [("n", if INT32_MAX <? n m then VInt64 (swrap 64 (n m)) else VInt32 (swrap 32 (n m)))];
      field (hasUpdatedExisting m) "updatedExisting" (VBool (updatedExisting m));
      fieldOf "upserted" (upserted m);
      field (wtimeout m) "wtimeout" (VBool true);
      field (negb (waited m =? 0)) "waited" (VInt32 (waited m));
      field (negb (wtime m =? 0)) "wtime" (VInt32 (wtime m)) ].
Proof.
  destruct m as [e c k hu u up w wa wt].
  unfold build, isErrorElement, field, fieldOf.
  cbn [err code n hasUpdatedExisting updatedExisting upserted wtimeout waited wtime].
  destruct e as [[en ev] |], c as [[cn cv] |], up as [[un uv] |];
    cbn [exists_ putElement andb];
    destruct (INT32_MAX <? k), hu, w, (wa =? 0), (wt =? 0); reflexivity.
Qed.

Lemma get_app (a b : Object) (key : string) :
  get (app a b) key = match get a key with Some e => Some e | None => get b key end.
Proof.
  induction a as [| [nm v] r IH]; [reflexivity |]. cbn [app get].
  destruct (String.eqb nm key); [reflexivity | exact IH].
Qed.

Lemma get_field (present : bool) (nm : string) (v : Value) (key : string) :
  get (field present nm v) key
  = if present && String.eqb nm key then Some (nm, v) else None.
Proof. destruct present; cbn; [destruct (String.eqb nm key) |]; reflexivity. Qed.

Lemma get_fieldOf (nm : string) (elt : Element) (key : string) :
  get (fieldOf nm elt) key = if String.eqb nm key then renamed nm elt else None.
Proof.
  destruct elt as [[en ev] |]; cbn; destruct (String.eqb nm key); reflexivity.
Qed.

Lemma build_fields (m : Merge) :
  get (build m) "ok" = Some ("ok", VInt32 (if isErrorElement (err m) then 0 else 1))
  /\ get (build m) "err" = renamed "err" (err m)
  /\ get (build m) "code" = renamed "code" (code m)
  /\ get (build m) "n"
     = Some ("n", if INT32_MAX <? n m then VInt64 (swrap 64 (n m))
                  else VInt32 (swrap 32 (n m)))
  /\ get (build m) "updatedExisting"
     = (if hasUpdatedExisting m then Some ("updatedExisting", VBool (updatedExisting m))
        else None)
  /\ get (build m) "upserted" = renamed "upserted" (upserted m)
  /\ get (build m) "wtimeout" = (if wtimeout m then Some ("wtimeout", VBool true) else None)
  /\ get (build m) "waited"
     = (if waited m =? 0 then None else Some ("waited", VInt32 (waited m)))
  /\ get (build m) "wtime"
     = (if wtime m =? 0 then None else Some ("wtime", VInt32 (wtime m)))
  /\ (forall key : string,
        key <> "ok" -> key <> "err" -> key <> "code" -> key <> "n" ->
        key <> "updatedExisting" -> key <> "upserted" -> key <> "wtimeout" ->
        key <> "waited" -> key <> "wtime" -> get (build m) key = None).
Proof.
  rewrite build_eq. cbn [concat].
  repeat apply conj;
    try (intros key H1 H2 H3 H4 H5 H6 H7 H8 H9);
    rewrite !get_app, !get_field, !get_fieldOf; cbn [get].
  10: { repeat match goal with
          | |- context [String.eqb ?a key] =>
              destruct (String.eqb_spec a key); [congruence |]
          end.
        rewrite !andb_false_r. reflexivity. }
  all: repeat (progress (cbn -[renamed]; rewrite ?andb_false_r, ?andb_true_r)).
  all: try (destruct (waited m =? 0); cbn [negb]).
  all: try (destruct (wtime m =? 0); cbn [negb]).
  all: repeat match goal with
         | |- context [match ?x with _ => _ end] => destruct x
         end; reflexivity.
Qed.

Lemma existsb_concat {A : Type} (f : A -> bool) (ls : list (list A)) :
  existsb f (concat ls) = existsb (existsb f) ls.
Proof.
  induction ls as [| l r IH]; [reflexivity |].
  cbn [concat existsb]. now rewrite existsb_app, IH.
Qed.

Lemma merged_fields (rets : list Object) :
  (2 <= List.length rets)%nat ->
  forallb wellTyped (concat rets) = true ->
  total (concat rets) <= INT64_MAX ->
  exists doc : Object,
    defaultAckMerger rets = Ok doc
    /\ get doc "ok" = Some ("ok", VInt32 (if existsb hasError rets then 0 else 1))
    /\ get doc "err"
       = renamed "err" (if existsb hasError rets then firstError (concat rets)
                        else lastNamed "err" (concat rets))
    /\ get doc "code" = renamed "code" (firstNamed "code" (concat rets))
    /\ get doc "n"
       = Some ("n", if INT32_MAX <? total (concat rets) then VInt64 (total (concat rets))
                    else VInt32 (total (concat rets)))
    /\ get doc "updatedExisting"
       = (if present "updatedExisting" (concat rets)
          then Some ("updatedExisting", VBool (anyTrue "updatedExisting" (concat rets)))
          else None)
    /\ get doc "upserted" = renamed "upserted" (firstNamed "upserted" (concat rets))
    /\ get doc "wtimeout"
       = (if anyTrue "wtimeout" (concat rets) then Some ("wtimeout", VBool true) else None)
    /\ get doc "waited"
       = (if greatest "waited" (concat rets) =? 0 then None
          else Some ("waited", VInt32 (greatest "waited" (concat rets))))
    /\ get doc "wtime"
       = (if greatest "wtime" (concat rets) =? 0 then None
          else Some ("wtime", VInt32 (greatest "wtime" (concat rets))))
    /\ (forall key : string,
          key <> "ok" -> key <> "err" -> key <> "code" -> key <> "n" ->
          key <> "updatedExisting" -> key <> "upserted" -> key <> "wtimeout" ->
          key <> "waited" -> key <> "wtime" -> get doc key = None).
Proof.
  intros Hlen Hwt Htot.
  pose proof (total_nonneg _ Hwt) as Hnn.
  pose proof (greatest_nonneg "waited" (concat rets)) as Hw1.
  pose proof (greatest_nonneg "wtime" (concat rets)) as Hw2.
  destruct rets as [| r1 [| r2 rs]]; cbn [List.length] in Hlen; try lia.
  unfold defaultAckMerger.
  rewrite (visitAll_spec _ merge0 Hwt) by (cbn [n waited wtime merge0]; lia).
  cbn [bind]. eexists. split; [reflexivity |].
  set (elts := concat (r1 :: r2 :: rs)) in *.
  replace (existsb hasError (r1 :: r2 :: rs)) with (hasError elts)
    by (unfold elts, hasError; apply existsb_concat).
  set (m' := mkMerge (errAfter (err merge0) elts) (firstOr (code merge0) "code" elts)
                 (n merge0 + total elts)
                 (hasUpdatedExisting merge0 || present "updatedExisting" elts)
                 (updatedExisting merge0 || anyTrue "updatedExisting" elts)
                 (firstOr (upserted merge0) "upserted" elts)
                 (wtimeout merge0 || anyTrue "wtimeout" elts)
                 (Z.max (waited merge0) (greatest "waited" elts))
                 (Z.max (wtime merge0) (greatest "wtime" elts))).
  destruct (build_fields m') as (F1 & F2 & F3 & F4 & F5 & F6 & F7 & F8 & F9 & F10).
  rewrite F1, F2, F3, F4, F5, F6, F7, F8, F9. clear F1 F2 F3 F4 F5 F6 F7 F8 F9.
  revert F10.
  unfold m'.
  cbn [err code n hasUpdatedExisting updatedExisting upserted wtimeout waited wtime
       merge0 orb].
  unfold firstOr. cbn [exists_].
  rewrite Z.add_0_l, !Z.max_r by lia.
  rewrite errAfter_isError.
  rewrite errAfter_char by reflexivity.
  intros F10.
  repeat apply conj; try reflexivity; try exact F10.
  - destruct (hasError elts); [reflexivity |].
    destruct (lastNamed "err" elts); reflexivity.
  - destruct (Z.ltb_spec INT32_MAX (total elts)) as [H | H].
    + rewrite HashingFacts.swrap_id; [reflexivity | lia |].
      unfold INT64_MAX in Htot. change (2 ^ (64 - 1)) with 9223372036854775808. lia.
    + rewrite swrap32_small by lia. reflexivity.
Qed.


(** C4: for two or more well-typed sub-acknowledgements whose counts add
    up within 63 bits, the merger returns a document with [ok] 1 exactly
    when no sub-acknowledgement has an [err] that is not null, otherwise 0
    with the first such [err]; with the first [code]; with [n] the sum of
    the [n] fields, as a 64-bit integer when it exceeds [INT32_MAX] and a
    32-bit one otherwise; with [updatedExisting] and [wtimeout] the
    disjunctions, [upserted] the first present, [waited] and [wtime] the
    greatest (a field that would be false or zero is left out). *)
Theorem defaultAckMerger_fields (rets : list Object) :
  (2 <= List.length rets)%nat ->
  forallb wellTyped (concat rets) = true ->
  total (concat rets) <= INT64_MAX ->
  exists doc : Object,
    defaultAckMerger rets = Ok doc
    /\ get doc "ok" = Some ("ok", VInt32 (if existsb hasError rets then 0 else 1))
    /\ get doc "err"
       = renamed "err" (if existsb hasError rets then firstError (concat rets)
                        else lastNamed "err" (concat rets))
    /\ get doc "code" = renamed "code" (firstNamed "code" (concat rets))
    /\ get doc "n"
       = Some ("n", if INT32_MAX <? total (concat rets) then VInt64 (total (concat rets))
                    else VInt32 (total (concat rets)))
    /\ get doc "updatedExisting"
       = (if present "updatedExisting" (concat rets)
          then Some ("updatedExisting", VBool (anyTrue "updatedExisting" (concat rets)))
          else None)
    /\ get doc "upserted" = renamed "upserted" (firstNamed "upserted" (concat rets))
    /\ get doc "wtimeout"
       = (if anyTrue "wtimeout" (concat rets) then Some ("wtimeout", VBool true) else None)
    /\ get doc "waited"
       = (if greatest "waited" (concat rets) =? 0 then None
          else Some ("waited", VInt32 (greatest "waited" (concat rets))))
    /\ get doc "wtime"
       = (if greatest "wtime" (concat rets) =? 0 then None
          else Some ("wtime", VInt32 (greatest "wtime" (concat rets)))).
Proof.
  intros Hlen Hwt Htot.
  destruct (merged_fields rets Hlen Hwt Htot)
    as (doc & Hd & F1 & F2 & F3 & F4 & F5 & F6 & F7 & F8 & F9 & _).
  exists doc. repeat apply conj; assumption.
Qed.

Lemma defaultAckMerger_fields_witness :
  let a1 : Object := [("ok", VInt32 1); ("err", VNull); ("n", VInt32 2);
                      ("updatedExisting", VBool true)] in
  let a2 : Object := [("ok", VInt32 1); ("err", VString "E11000 duplicate key");
                      ("code", VInt32 11000); ("n", VInt32 2147483647);
                      ("waited", VInt32 5)] in
  (2 <= List.length [a1; a2])%nat
  /\ forallb wellTyped (concat [a1; a2]) = true
  /\ total (concat [a1; a2]) <= INT64_MAX
  /\ exists doc : Object,
       defaultAckMerger [a1; a2] = Ok doc
       /\ get doc "ok" = Some ("ok", VInt32 0)
       /\ get doc "err" = Some ("err", VString "E11000 duplicate key")
       /\ get doc "n" = Some ("n", VInt64 2147483649)
       /\ get doc "waited" = Some ("waited", VInt32 5).
Proof.
  cbv zeta.
  assert (H1 : (2 <= 2)%nat) by lia.
  split; [exact H1 |]. split; [reflexivity |]. split; [vm_compute; discriminate |].
  destruct (defaultAckMerger_fields
              [[("ok", VInt32 1); ("err", VNull); ("n", VInt32 2);
                ("updatedExisting", VBool true)];
               [("ok", VInt32 1); ("err", VString "E11000 duplicate key");
                ("code", VInt32 11000); ("n", VInt32 2147483647);
                ("waited", VInt32 5)]]
              H1 eq_refl ltac:(vm_compute; discriminate))
    as (doc & Hd & F1 & F2 & _ & F4 & _ & _ & _ & F8 & _).
  exists doc. repeat apply conj; assumption.
Defined.

(** ** Merging with the acknowledgement of a null write *)






















End WriteFacts.


(* ================================================================== *)
(** * Properties of the topology snapshot *)
(* ================================================================== *)

Module TopologyFacts.
Import Bson Topology.
Import TopologyNotions.

(** ** The versions of a (namespace, shard) pair *)

Lemma lex_compare_eq (a b : list Z) : lex_compare a b = Eq <-> a = b.
Proof.
  revert b. induction a as [| x a IH]; intros [| y b]; cbn [lex_compare];
    try (split; [discriminate | congruence]); [tauto |].
  destruct (Z.compare_spec x y) as [-> | H | H].
  - rewrite IH. split; congruence.
  - split; [discriminate | intros E; inversion E; lia].
  - split; [discriminate | intros E; inversion E; lia].
Qed.

Lemma oid_eqb_eq (a b : list Z) : oid_eqb a b = true <-> a = b.
Proof.
  unfold oid_eqb. rewrite <- lex_compare_eq.
  destruct (lex_compare a b); split; congruence.
Qed.


Lemma tracks_empty : tracks ∅ [].
Proof. intros k. rewrite lookup_empty. intros c []. Qed.

Lemma greatestAt_more (seen : list Chunk) (ch : Chunk) (k : string * Z) (v : ChunkVersion) :
  greatestAt seen k v -> groupKey ch <> k -> greatestAt (app seen [ch]) k v.
Proof.
  intros [(c & Hin & Hk & Hv) Hall] Hne. split.
  - exists c. rewrite in_app_iff. auto.
  - intros c' Hin' Hk'. apply in_app_iff in Hin' as [Hin' | [<- | []]]; [auto | contradiction].
Qed.

Lemma collectVersions_spec (connectionString : ShardPtr -> string)
    (rest seen : list Chunk) (versions : gmap (string * Z) ChunkVersion) :
  tracks versions seen ->
  match collectVersions connectionString versions rest with
  | Ok versions' => tracks versions' (app seen rest)
  | Throw e => (exists what, e = ShardConfigBroken what) /\ keysClash (app seen rest)
  end.
Proof.
  revert seen versions. induction rest as [| ch r IH]; intros seen versions Ht.
  - cbn [collectVersions]. now rewrite app_nil_r.
  - cbn [collectVersions].
    replace (app seen (ch :: r)) with (app (app seen [ch]) r)
      by (rewrite <- app_assoc; reflexivity).
    pose proof (Ht (groupKey ch)) as Hk.
    destruct (versions !! groupKey ch) as [v |] eqn:E.
    + destruct Hk as [(c & Hin & Hck & Hcv) Hall].
      destruct (oid_eqb (epoch v) (epoch (version_ ch))) eqn:Eo; cbn [negb].
      * apply oid_eqb_eq in Eo.
        destruct (Z.ltb_spec (stamp v) (stamp (version_ ch))) as [Hlt | Hge].
        -- apply IH. intros k. destruct (decide (groupKey ch = k)) as [<- | Hne].
           ++ rewrite lookup_insert_eq. split.
              ** exists ch. rewrite in_app_iff. cbn. auto.
              ** intros c' Hin' Hk'. apply in_app_iff in Hin' as [Hin' | [<- | []]].
                 --- destruct (Hall c' Hin' Hk') as [He Hs]. split; [congruence | lia].
                 --- split; [reflexivity | lia].
           ++ rewrite lookup_insert_ne by exact Hne.
              pose proof (Ht k) as Hk'. destruct (versions !! k) as [v' |].
              ** now apply greatestAt_more.
              ** intros c' Hin'. apply in_app_iff in Hin' as [Hin' | [<- | []]]; auto.
        -- apply IH. intros k. destruct (decide (groupKey ch = k)) as [<- | Hne].
           ++ rewrite E. split.
              ** exists c. rewrite in_app_iff. auto.
              ** intros c' Hin' Hk'. apply in_app_iff in Hin' as [Hin' | [<- | []]].
                 --- now apply Hall.
                 --- split; [congruence | lia].
           ++ pose proof (Ht k) as Hk'. destruct (versions !! k) as [v' |].
              ** now apply greatestAt_more.
              ** intros c' Hin'. apply in_app_iff in Hin' as [Hin' | [<- | []]]; auto.
      * split; [eauto |]. exists c, ch. rewrite !in_app_iff. cbn.
        repeat split; auto.
        intros Heq. rewrite Hcv in Heq. apply oid_eqb_eq in Heq. congruence.
    + apply IH. intros k. destruct (decide (groupKey ch = k)) as [<- | Hne].
      * rewrite lookup_insert_eq. split.
        -- exists ch. rewrite in_app_iff. cbn. auto.
        -- intros c' Hin' Hk'. apply in_app_iff in Hin' as [Hin' | [<- | []]].
           ++ now contradiction (Hk c' Hin').
           ++ split; [reflexivity | lia].
      * rewrite lookup_insert_ne by exact Hne.
        pose proof (Ht k) as Hk'. destruct (versions !! k) as [v' |].
        -- now apply greatestAt_more.
        -- intros c' Hin'. apply in_app_iff in Hin' as [Hin' | [<- | []]]; auto.
Qed.

Lemma tracks_not_mixed (versions : gmap (string * Z) ChunkVersion) (chunks : list Chunk) :
  tracks versions chunks -> ~ keysClash chunks.
Proof.
  intros Ht (c1 & c2 & H1 & H2 & Hk & Hne).
  pose proof (Ht (groupKey c1)) as Hg.
  destruct (versions !! groupKey c1) as [v |].
  - destruct Hg as [_ Hall].
    destruct (Hall c1 H1 eq_refl) as [E1 _].
    destruct (Hall c2 H2 (eq_sym Hk)) as [E2 _]. congruence.
  - now apply (Hg c1 H1).
Qed.

(** What [unifyVersions] does, for any chunks. *)
Lemma unifyVersions_spec (connectionString : ShardPtr -> string) (chunks : list Chunk) :
  match unifyVersions connectionString chunks with
  | Throw e => (exists what, e = ShardConfigBroken what) /\ keysClash chunks
  | Ok chunks' =>
      ~ keysClash chunks
      /\ Forall2 (fun ch ch' => ch' = setVersion ch (version_ ch')
                                /\ greatestAt chunks (groupKey ch) (version_ ch'))
           chunks chunks'
      /\ (forall c1 c2, In c1 chunks' -> In c2 chunks' ->
            groupKey c1 = groupKey c2 -> version_ c1 = version_ c2)
  end.
Proof.
  unfold unifyVersions.
  pose proof (collectVersions_spec connectionString chunks [] ∅ tracks_empty) as H.
  cbn [app] in H.
  destruct (collectVersions connectionString ∅ chunks) as [versions | e]; cbn [bind];
    [| exact H].
  split; [now apply (tracks_not_mixed versions) |].
  assert (Hlook : forall ch, In ch chunks ->
            exists v, versions !! groupKey ch = Some v /\ greatestAt chunks (groupKey ch) v).
  { intros ch Hin. pose proof (H (groupKey ch)) as Hk.
    destruct (versions !! groupKey ch) as [v |]; [eauto |].
    now contradiction (Hk ch Hin). }
  split.
  - unfold applyVersions.
    assert (Hsub : forall l, incl l chunks ->
              Forall2 (fun ch ch' => ch' = setVersion ch (version_ ch')
                                     /\ greatestAt chunks (groupKey ch) (version_ ch'))
                l (map (fun ch => setVersion ch
                                    (default (version_ ch) (versions !! groupKey ch))) l)).
    { induction l as [| ch r IHr]; intros Hincl; cbn [map]; constructor.
      - destruct (Hlook ch (Hincl ch (or_introl eq_refl))) as (v & Hv & Hg).
        rewrite Hv. cbn. auto.
      - apply IHr. intros x Hx. apply Hincl. now right. }
    apply Hsub. apply incl_refl.
  - intros c1 c2 H1 H2 Hk. unfold applyVersions in H1, H2.
    apply in_map_iff in H1 as (d1 & <- & Hd1). apply in_map_iff in H2 as (d2 & <- & Hd2).
    cbn in Hk |- *. unfold groupKey in Hk. cbn in Hk.
    change (groupKey d1 = groupKey d2) in Hk. rewrite Hk.
    destruct (Hlook d2 Hd2) as (v & Hv & _). rewrite Hv. cbn.
    destruct (Hlook d1 Hd1) as (v1 & Hv1 & _). rewrite Hk in Hv1. congruence.
Qed.


(** ** The pairs and the keys of the map *)

Lemma samePair_key (c1 c2 : Chunk) : samePair c1 c2 <-> groupKey c1 = groupKey c2.
Proof.
  unfold samePair, groupKey. split; [intros [-> ->]; reflexivity |].
  intros H. injection H as H1 H2. split; assumption.
Qed.

Lemma mixedEpochs_keys (chunks : list Chunk) : mixedEpochs chunks <-> keysClash chunks.
Proof.
  split; intros (c1 & c2 & H1 & H2 & Hk & Hne); exists c1, c2;
    (split; [exact H1 | split; [exact H2 | split; [apply samePair_key, Hk | exact Hne]]]).
Qed.

Lemma greatestOf_key (chunks : list Chunk) (ch : Chunk) (v : ChunkVersion) :
  greatestAt chunks (groupKey ch) v -> greatestOf chunks ch v.
Proof.
  intros [(c & Hin & Hk & Hv) Hall]. split.
  - exists c. split; [exact Hin | split; [apply samePair_key, Hk | exact Hv]].
  - intros c' Hin' Hk'. apply Hall; [exact Hin' | apply samePair_key, Hk'].
Qed.

(** ** The chunks of the document and the chunks of the configuration *)

Lemma insert_sorted_members {T Key : Type} (extractor_ : T -> Key)
    (lt : Key -> Key -> bool) (x y : T) (v : list T) :
  In y (insert_sorted extractor_ lt x v) <-> y = x \/ In y v.
Proof.
  induction v as [| z r IH]; cbn [insert_sorted In]; [intuition congruence |].
  destruct (lt (extractor_ x) (extractor_ z)); cbn [In]; [intuition congruence |].
  rewrite IH. intuition congruence.
Qed.

Lemma finish_members {T Key : Type} (extractor_ : T -> Key) (lt : Key -> Key -> bool)
    (v : list T) (y : T) :
  In y (finish extractor_ lt v) <-> In y v.
Proof.
  unfold finish.
  assert (H : forall acc, In y (fold_left (fun acc x => insert_sorted extractor_ lt x acc) v acc)
                          <-> In y v \/ In y acc).
  { induction v as [| x r IH]; intros acc; cbn [fold_left In]; [tauto |].
    rewrite IH, insert_sorted_members. intuition congruence. }
  rewrite H. cbn [In]. tauto.
Qed.

Lemma valueAt_string (d : Object) (key s : string) :
  as_string (get d key) = Ok s -> valueAt d key = Some (VString s).
Proof.
  unfold valueAt. destruct (get d key) as [[nm v] |]; [| discriminate].
  destruct v; try discriminate. intros H. injection H as ->. reflexivity.
Qed.

(** What [Chunk::Chunk] reads is what the document gives. *)
Lemma Chunk_of_describes (d : Object) (ch : Chunk) :
  Chunk_of d = Ok ch -> describes d ch.
Proof.
  unfold Chunk_of, describes.
  destruct (as_string (get d "ns")) as [nss |] eqn:Hn; cbn [bind]; [| discriminate].
  unfold Namespace_of.
  destruct (find_dot nss) as [dot |]; cbn [bind]; [| discriminate].
  destruct (get d "lastmodEpoch") as [[n1 v1] |] eqn:He; try discriminate.
  destruct v1; try discriminate. cbn [bind].
  destruct (get d "lastmod") as [[n2 v2] |] eqn:Ht; try discriminate.
  destruct v2; try discriminate. cbn [bind].
  destruct (as_object (get d "min")) as [mn |]; cbn [bind]; [| discriminate].
  destruct (as_object (get d "max")) as [mx |]; cbn [bind]; [| discriminate].
  destruct (as_string (get d "shard")) as [sh |] eqn:Hs; cbn [bind]; [| discriminate].
  intros H. injection H as <-. cbn [ns_ ns shardID_ version_ epoch stamp].
  unfold valueAt at 3 4. rewrite He, Ht.
  repeat split; apply valueAt_string; assumption.
Qed.

Lemma emplace_all_docs (arr : list (string * Value)) (v : list Chunk) :
  emplace_all Chunk_of arr = Ok v ->
  Forall2 (fun d ch => Chunk_of d = Ok ch)
    (flat_map (fun el => match snd el with VObject o => [o] | _ => [] end) arr) v.
Proof.
  revert v. induction arr as [| [nm x] r IH]; intros v H; cbn [emplace_all] in H.
  - injection H as <-. constructor.
  - destruct x; try discriminate. cbn [as_object bind] in H.
    destruct (Chunk_of fields) as [c |] eqn:Hc; cbn [bind] in H; [| discriminate].
    destruct (emplace_all Chunk_of r) as [cs |]; cbn [bind] in H; [| discriminate].
    injection H as <-. cbn [flat_map snd app]. constructor; [exact Hc | apply IH; reflexivity].
Qed.

Lemma Chunk_link_all (configShard : ShardPtr) (shards : list (string * ShardPtr))
    (v v' : list Chunk) :
  mapM (Chunk_link configShard shards) v = Ok v' ->
  Forall2 (fun c c' => Chunk_link configShard shards c = Ok c') v v'.
Proof.
  revert v'. induction v as [| c r IH]; intros v' H; cbn [mapM] in H.
  - injection H as <-. constructor.
  - destruct (Chunk_link configShard shards c) as [c' |] eqn:Hc; cbn [bind] in H;
      [| discriminate].
    destruct (mapM (Chunk_link configShard shards) r) as [cs |]; cbn [bind] in H;
      [| discriminate].
    injection H as <-. constructor; [exact Hc | apply IH; reflexivity].
Qed.

Lemma Forall2_right {A B : Type} (R : A -> B -> Prop) (l : list A) (l' : list B) :
  Forall2 R l l' ->
  (forall a, In a l -> exists b, In b l' /\ R a b)
  /\ (forall b, In b l' -> exists a, In a l /\ R a b).
Proof.
  induction 1 as [| a b l l' Hab _ [IH1 IH2]]; [split; intros ? [] |].
  split.
  - intros x [<- | Hx]; [exists b; cbn; auto |].
    destruct (IH1 x Hx) as (y & Hy & Hr). exists y. cbn. auto.
  - intros y [<- | Hy]; [exists a; cbn; auto |].
    destruct (IH2 y Hy) as (x & Hx & Hr). exists x. cbn. auto.
Qed.

(** The chunks that [Config::Config] has linked are the chunks of the
    document, each with the shard that its identifier names. *)
Lemma linkAll_chunks (pool : string -> string -> ShardPtr) (configShard : ShardPtr)
    (obj : Object) (linked : Config) :
  linkAll pool configShard obj = Ok linked ->
  (forall d, In d (chunkDocs obj) -> exists ch, In ch (chunks_ linked) /\ describes d ch)
  /\ (forall ch, In ch (chunks_ linked) ->
        (exists d, In d (chunkDocs obj) /\ describes d ch)
        /\ shardByName configShard (shards_ linked) (shardID_ ch) = Ok (shard_ ch)).
Proof.
  unfold linkAll. intros H.
  destruct (populate fst string_lt ShardConf_of (get obj "shards")) as [shards |];
    cbn [bind] in H; [| discriminate].
  unfold populate at 1 in H.
  destruct (as_array (get obj "chunks")) as [arr |] eqn:Ha; cbn [bind] in H; [| discriminate].
  destruct (emplace_all Chunk_of arr) as [v |] eqn:Hv; cbn [bind] in H; [| discriminate].
  destruct (populate collectionKey string_lt Collection_of (get obj "collections"))
    as [colls |]; cbn [bind] in H; [| discriminate].
  destruct (populate name_ string_lt Database_of (get obj "databases")) as [dbs |];
    cbn [bind] in H; [| discriminate].
  set (shards_0 := map (fun s => (fst s, pool (fst s) (snd s))) shards) in *.
  destruct (mapM (Chunk_link configShard shards_0) (finish chunkKey pair_lt v))
    as [chunks |] eqn:Hl; cbn [bind] in H; [| discriminate].
  destruct (mapM (Collection_link chunks) colls) as [colls' |]; cbn [bind] in H;
    [| discriminate].
  destruct (mapM (Database_link configShard shards_0) dbs) as [dbs' |]; cbn [bind] in H;
    [| discriminate].
  injection H as <-. cbn [chunks_ shards_].
  assert (Hd : chunkDocs obj
               = flat_map (fun el => match snd el with VObject o => [o] | _ => [] end) arr).
  { unfold chunkDocs. destruct (get obj "chunks") as [[nm x] |]; [| discriminate].
    destruct x; try discriminate. cbn in Ha. injection Ha as ->. reflexivity. }
  rewrite Hd.
  destruct (Forall2_right _ _ _ (emplace_all_docs arr v Hv)) as [D1 D2].
  destruct (Forall2_right _ _ _ (Chunk_link_all configShard shards_0 _ _ Hl)) as [L1 L2].
  assert (Hlink : forall c c', Chunk_link configShard shards_0 c = Ok c' ->
            (forall d, describes d c -> describes d c')
            /\ shardByName configShard shards_0 (shardID_ c') = Ok (shard_ c')).
  { intros c c'. unfold Chunk_link.
    destruct (shardByName configShard shards_0 (shardID_ c)) as [p |] eqn:Hp;
      cbn [bind]; [| discriminate].
    intros E. injection E as <-. cbn [shardID_ shard_]. split; [| exact Hp].
    intros d Hdc. exact Hdc. }
  split.
  - intros d Hin. destruct (D1 d Hin) as (c & Hc & Hof).
    apply (proj2 (finish_members chunkKey pair_lt v c)) in Hc.
    destruct (L1 c Hc) as (c' & Hc' & Hk). exists c'. split; [exact Hc' |].
    apply (Hlink c c' Hk), Chunk_of_describes, Hof.
  - intros c' Hc'. destruct (L2 c' Hc') as (c & Hc & Hk).
    apply (proj1 (finish_members chunkKey pair_lt v c)) in Hc.
    destruct (D2 c Hc) as (d & Hin & Hof). split; [| apply (Hlink c c' Hk)].
    exists d. split; [exact Hin |]. apply (Hlink c c' Hk), Chunk_of_describes, Hof.
Qed.

(** C2, as the code has it.  For a document whose tables are parsed and
    linked, the chunks that are linked are the chunks of the document,
    each on the shard that its identifier names.  [Config::Config] throws
    [ShardConfigBroken] when two of them, of one namespace and on one
    shard, have different epochs; otherwise it succeeds and every chunk
    carries the version of a chunk of its (namespace, shard) pair whose
    timestamp is the greatest of the pair, so that all chunks of a pair
    show one version. *)
Theorem Config_unifies_versions (pool : string -> string -> ShardPtr)
    (connectionString : ShardPtr -> string) (configShard : ShardPtr)
    (obj : Object) (linked : Config) :
  linkAll pool configShard obj = Ok linked ->
  (forall d, In d (chunkDocs obj) -> exists ch, In ch (chunks_ linked) /\ describes d ch)
  /\ (forall ch, In ch (chunks_ linked) ->
        (exists d, In d (chunkDocs obj) /\ describes d ch)
        /\ shardByName configShard (shards_ linked) (shardID_ ch) = Ok (shard_ ch))
  /\ (mixedEpochs (chunks_ linked) ->
      exists what : string,
        Config_of pool connectionString configShard obj = Throw (ShardConfigBroken what))
  /\ (~ mixedEpochs (chunks_ linked) ->
      exists conf : Config,
        Config_of pool connectionString configShard obj = Ok conf
        /\ Forall2 (fun ch ch' => ch' = setVersion ch (version_ ch')
                                  /\ greatestOf (chunks_ linked) ch (version_ ch'))
             (chunks_ linked) (chunks_ conf)
        /\ (forall c1 c2 : Chunk, In c1 (chunks_ conf) -> In c2 (chunks_ conf) ->
              samePair c1 c2 -> version_ c1 = version_ c2)).
Proof.
  intros Hl. destruct (linkAll_chunks pool configShard obj linked Hl) as [D1 D2].
  split; [exact D1 |]. split; [exact D2 |].
  unfold Config_of. rewrite Hl. cbn [bind].
  pose proof (unifyVersions_spec connectionString (chunks_ linked)) as H.
  destruct (unifyVersions connectionString (chunks_ linked)) as [chunks' | e]; cbn [bind].
  - destruct H as (Hnm & Hall & Hu).
    split; [intros Hm; apply mixedEpochs_keys in Hm; contradiction |].
    intros _. eexists. split; [reflexivity |]. cbn [chunks_]. split.
    + eapply Forall2_impl; [exact Hall |]. cbv beta.
      intros ch ch' [E G]. split; [exact E | apply greatestOf_key, G].
    + intros c1 c2 H1 H2 Hk. apply (Hu c1 c2 H1 H2), samePair_key, Hk.
  - destruct H as [[what ->] Hm]. split; [intros _; eauto |].
    intros Hn. apply mixedEpochs_keys in Hm. contradiction.
Qed.

Lemma example_not_mixed : ~ mixedEpochs (chunks_ exampleLinked).
Proof.
  intros (c1 & c2 & H1 & H2 & [Hn Hs] & Hne). cbn in H1, H2.
  destruct H1 as [<- | [<- | [<- | []]]], H2 as [<- | [<- | [<- | []]]];
    cbn in Hn, Hs, Hne; congruence.
Qed.

Lemma Config_unifies_versions_witness :
  linkAll examplePool 100 exampleTopology = Ok exampleLinked
  /\ (forall d, In d (chunkDocs exampleTopology) ->
        exists ch, In ch (chunks_ exampleLinked) /\ describes d ch)
  /\ exists conf : Config,
       Config_of examplePool exampleConnectionString 100 exampleTopology = Ok conf
       /\ (forall c1 c2 : Chunk, In c1 (chunks_ conf) -> In c2 (chunks_ conf) ->
             samePair c1 c2 -> version_ c1 = version_ c2).
Proof.
  assert (Hl : linkAll examplePool 100 exampleTopology = Ok exampleLinked)
    by (vm_compute; reflexivity).
  split; [exact Hl |].
  destruct (Config_unifies_versions examplePool exampleConnectionString 100
              exampleTopology exampleLinked Hl) as (D1 & _ & _ & H).
  split; [exact D1 |].
  destruct (H example_not_mixed) as (conf & Hc & _ & Hu).
  exists conf. split; assumption.
Defined.

(** C2 as the specification words it fails for a document that does not
    link: two chunks of one namespace on one shard have different
    epochs, and a gap lies between them; the constructor reports the gap
    and never comes to the epochs. *)
Lemma mixed_epochs_behind_a_gap :
  (exists d1 d2 : Object,
     In d1 (chunkDocs gappedTopology) /\ In d2 (chunkDocs gappedTopology)
     /\ valueAt d1 "ns" = valueAt d2 "ns" /\ valueAt d1 "shard" = valueAt d2 "shard"
     /\ valueAt d1 "lastmodEpoch" <> valueAt d2 "lastmodEpoch")
  /\ Config_of examplePool exampleConnectionString 100 gappedTopology
     = Throw (RuntimeError "gap in partition of collection db.c").
Proof.
  split; [| vm_compute; reflexivity].
  eexists. eexists. split; [left; reflexivity |]. split; [right; left; reflexivity |].
  repeat split; try reflexivity. vm_compute. discriminate.
Qed.

End TopologyFacts.

(* ================================================================== *)
(** * Facts about the router, [Config::find] and [Config::shards] *)
(* ================================================================== *)

Module RouterFacts.
Import Bson Topology.
Import RouterNotions.

(** ** The two bounds of a key in [chunks_] *)

Lemma string_lt_asym (a b : string) : string_lt a b = true -> string_lt b a = false.
Proof.
  unfold string_lt, String.ltb. rewrite (String.compare_antisym a b).
  destruct (String.compare b a); cbn; congruence.
Qed.

(** No element before [upper_bound] is greater than the key. *)
Lemma upper_bound_before {T Key : Type} (ext : T -> Key) (lt : Key -> Key -> bool)
    (v : list T) (k : Key) (j : nat) (x : T) :
  (j < upper_bound ext lt v k)%nat -> nth_error v j = Some x -> lt k (ext x) = false.
Proof.
  revert j. induction v as [| y r IH]; intros j Hj Hx; cbn in Hj; [lia |].
  destruct (lt k (ext y)) eqn:Hy; [lia |].
  destruct j as [| j]; cbn in Hx.
  - congruence.
  - apply (IH j); [lia | exact Hx].
Qed.

Lemma upper_bound_length {T Key : Type} (ext : T -> Key) (lt : Key -> Key -> bool)
    (v : list T) (k : Key) :
  (upper_bound ext lt v k <= List.length v)%nat.
Proof.
  induction v as [| y r IH]; cbn; [lia |]. destruct (lt k (ext y)); lia.
Qed.

(** The chunk that [upper_bound] of (ns, k) stops at is not beyond the
    chunks of the namespace. *)
Lemma upper_bound_pair_le (chunks : list Chunk) (nsn : string) (k : Object) :
  (upper_bound chunkKey pair_lt chunks (nsn, k)
   <= upper_bound chunkNs string_lt chunks nsn)%nat.
Proof.
  induction chunks as [| x r IH]; cbn [upper_bound]; [lia |].
  unfold pair_lt at 1. cbn [fst snd chunkKey]. fold (chunkNs x).
  destruct (string_lt nsn (chunkNs x)); cbn [orb]; [lia |].
  destruct (negb (string_lt (chunkNs x) nsn) && cmp less k (lowerBound x)); lia.
Qed.

(** It is beyond the first chunk of the namespace when the key is not
    below that chunk's lower bound. *)
Lemma lower_bound_lt_pair (chunks : list Chunk) (nsn : string) (k : Object) (c : Chunk) :
  nth_error chunks (lower_bound chunkNs string_lt chunks nsn) = Some c ->
  string_lt nsn (chunkNs c) = false ->
  cmp less k (min_ c) = false ->
  (lower_bound chunkNs string_lt chunks nsn
   < upper_bound chunkKey pair_lt chunks (nsn, k))%nat.
Proof.
  induction chunks as [| x r IH]; cbn [upper_bound lower_bound nth_error]; [discriminate |].
  unfold pair_lt at 1. cbn [fst snd chunkKey]. fold (chunkNs x).
  destruct (string_lt (chunkNs x) nsn) eqn:Hx.
  - cbn [nth_error]. intros Hc Hn Hk. rewrite (string_lt_asym _ _ Hx).
    cbn [orb andb negb]. specialize (IH Hc Hn Hk). lia.
  - cbn [nth_error]. intros Hc Hn Hk. injection Hc as ->.
    rewrite Hn. unfold lowerBound. rewrite Hk. cbn [orb andb negb]. lia.
Qed.

(** ** Keys whose first name is not empty *)

Lemma compare_empty_r (s : string) : s <> "" -> String.compare s "" = Gt.
Proof. destruct s; [congruence | reflexivity]. Qed.

(** Such a key is not less than the empty document. *)
Lemma cmp_less_empty (k : Object) : goodKey k -> cmp less k [] = false.
Proof.
  destruct k as [| [nm v] r]; intros H; [reflexivity |].
  cbn in H. unfold cmp. cbn. unfold cmpElement.
  rewrite (compare_empty_r nm H). reflexivity.
Qed.

Lemma goodKey_put (b : Object) (nm : string) (v : Value) :
  goodKey b -> nm <> "" -> goodKey (put b nm v).
Proof. destruct b as [| [n0 v0] r]; cbn; auto. Qed.

Lemma goodKey_app (b t : Object) (nm : string) (v : Value) :
  goodKey b -> nm <> "" -> goodKey (app b (app [(nm, v)] t)).
Proof. destruct b as [| [n0 v0] r]; cbn; auto. Qed.

(** ** The map and the set of [shards] and [find] *)

Lemma map_insert_keeps (k : ShardPtr) (v : ChunkVersion) (m : list (ShardPtr * ChunkVersion))
    (p : ShardPtr * ChunkVersion) :
  In p m -> In p (map_insert k v m).
Proof.
  induction m as [| [k' v'] r IH]; cbn; [tauto |].
  intros H. destruct (k <? k'); [right; exact H |].
  destruct (k' <? k); [| exact H].
  destruct H as [H | H]; [left; exact H | right; auto].
Qed.

Lemma map_insert_has (k : ShardPtr) (v : ChunkVersion) (m : list (ShardPtr * ChunkVersion)) :
  exists v', In (k, v') (map_insert k v m).
Proof.
  induction m as [| [k' v'] r IH]; cbn; [eauto |].
  destruct (k <? k') eqn:H1; [exists v; left; reflexivity |].
  destruct (k' <? k) eqn:H2.
  - destruct IH as [w Hw]. exists w. right. exact Hw.
  - exists v'. left. f_equal. lia.
Qed.

Lemma map_insert_from (k : ShardPtr) (v : ChunkVersion) (m : list (ShardPtr * ChunkVersion))
    (p : ShardPtr * ChunkVersion) :
  In p (map_insert k v m) -> p = (k, v) \/ In p m.
Proof.
  induction m as [| [k' v'] r IH]; cbn; [intuition congruence |].
  destruct (k <? k'); [cbn; intuition congruence |].
  destruct (k' <? k); [| cbn; tauto].
  cbn. intros [H | H]; [tauto |]. destruct (IH H); tauto.
Qed.


Lemma collect_keeps (l : list Chunk) (m : list (ShardPtr * ChunkVersion))
    (p : ShardPtr * ChunkVersion) :
  In p m -> In p (collect l m).
Proof.
  revert m. induction l as [| c r IH]; intros m H; cbn; [exact H |].
  apply IH, map_insert_keeps, H.
Qed.

Lemma collect_has (l : list Chunk) (m : list (ShardPtr * ChunkVersion)) (ch : Chunk) :
  In ch l -> exists v, In (shard_ ch, v) (collect l m).
Proof.
  revert m. induction l as [| c r IH]; intros m H; cbn in *; [tauto |].
  destruct H as [-> | H]; [| apply IH, H].
  destruct (map_insert_has (shard_ ch) (version_ ch) m) as [w Hw].
  exists w. apply collect_keeps, Hw.
Qed.

Lemma collect_from (l : list Chunk) (m : list (ShardPtr * ChunkVersion))
    (p : ShardPtr * ChunkVersion) :
  In p (collect l m) ->
  In p m \/ exists c, In c l /\ p = (shard_ c, version_ c).
Proof.
  revert m. induction l as [| c r IH]; intros m H; cbn in *; [tauto |].
  destruct (IH _ H) as [H1 | (c' & Hc' & ->)].
  - destruct (map_insert_from _ _ _ _ H1) as [-> | H2]; [right; eauto | tauto].
  - right. eauto.
Qed.

Lemma set_insert_from (x y : VersionedShard) (s : list VersionedShard) :
  In y (set_insert x s) -> y = x \/ In y s.
Proof.
  induction s as [| z r IH]; cbn; [intuition congruence |].
  destruct (shard x <? shard z); [cbn; intuition congruence |].
  destruct (shard z <? shard x); [| cbn; tauto].
  cbn. intros [H | H]; [tauto |]. destruct (IH H); tauto.
Qed.

(** ** Configurations the router can be trusted on *)

Lemma version_eqb_eq (a b : ChunkVersion) : version_eqb a b = true -> a = b.
Proof.
  destruct a as [ea sa], b as [eb sb]. unfold version_eqb. cbn [epoch stamp].
  intros H. apply andb_prop in H. destruct H as [He Hs].
  apply TopologyFacts.oid_eqb_eq in He. apply Z.eqb_eq in Hs. congruence.
Qed.

Lemma uniform_spec (l : list Chunk) (c1 c2 : Chunk) :
  uniform l = true -> In c1 l -> In c2 l -> shard_ c1 = shard_ c2 ->
  version_ c1 = version_ c2.
Proof.
  unfold uniform. intros H H1 H2 Hs.
  rewrite forallb_forall in H. specialize (H c1 H1).
  rewrite forallb_forall in H. specialize (H c2 H2).
  rewrite Hs, Z.eqb_refl in H. cbn [negb orb] in H.
  apply version_eqb_eq, H.
Qed.

Lemma keyNamed_cons (nm : string) (v : Value) (r : Object) :
  forallb (fun el => negb (String.eqb (fst el) "")) ((nm, v) :: r) = true ->
  nm <> "" /\ forallb (fun el => negb (String.eqb (fst el) "")) r = true.
Proof.
  cbn [forallb fst]. intros H. apply andb_prop in H. destruct H as [H1 H2].
  split; [| exact H2]. intros ->. discriminate.
Qed.

(** ** The chunk a key is routed to *)

(** A chunk at a position of the range of a linked collection is one
    of its chunks. *)
Lemma chunksOf_at (conf : Config) (coll : Collection) (j : nat) (ch : Chunk) :
  (fst (range_ coll) <= j < snd (range_ coll))%nat ->
  nth_error (chunks_ conf) j = Some ch ->
  In ch (chunksOf conf coll).
Proof.
  intros Hj Hch. unfold chunksOf.
  apply nth_error_In with (n := (j - fst (range_ coll))%nat).
  rewrite nth_error_firstn, nth_error_skipn.
  replace (fst (range_ coll) + (j - fst (range_ coll)))%nat with j by lia.
  destruct (Nat.ltb_spec (j - fst (range_ coll)) (snd (range_ coll) - fst (range_ coll)));
    [exact Hch | lia].
Qed.

Lemma compare_same (s : string) : String.compare s s = Eq.
Proof.
  induction s as [| c r IH]; [reflexivity |]. cbn [String.compare].
  unfold Ascii.compare. rewrite N.compare_refl. exact IH.
Qed.

(** A key with the names of the sharding key is not below a bound that
    gives [MinKey] to each of them. *)
Lemma cmp_less_lowest (key : Object) :
  forall k mn : Object,
    map fst k = map fst key -> lowest key mn = true -> cmp less k mn = false.
Proof.
  induction key as [| [kn kv] kr IH]; intros k mn Hn Hl.
  - destruct k; [| discriminate]. destruct mn; [reflexivity | discriminate].
  - destruct k as [| [kn' v] k']; [discriminate |].
    cbn [map fst] in Hn. injection Hn as -> Hn.
    destruct mn as [| [nm mv] mr]; [discriminate |]. cbn [lowest] in Hl.
    destruct mv; try discriminate. apply andb_prop in Hl as [He Hl].
    apply String.eqb_eq in He. subst nm.
    specialize (IH k' mr Hn Hl). unfold cmp in *.
    cbn [cmpValues]. unfold cmpElement. rewrite compare_same.
    destruct v; cbn [type_of Z.eqb Z.compare apply cmpValues Pos.eqb]; try reflexivity.
    exact IH.
Qed.

Lemma names_goodKey (key k : Object) :
  map fst k = map fst key ->
  forallb (fun el => negb (String.eqb (fst el) "")) key = true ->
  goodKey k.
Proof.
  destruct k as [| [nm v] r]; [intros _ _; exact I |].
  destruct key as [| [kn kv] kr]; [discriminate |].
  cbn [map fst]. intros Hn Hk. injection Hn as -> _.
  apply keyNamed_cons in Hk. cbn. apply Hk.
Qed.

Lemma not_below (key k mn : Object) :
  map fst k = map fst key ->
  forallb (fun el => negb (String.eqb (fst el) "")) key = true ->
  empty mn || lowest key mn = true ->
  cmp less k mn = false.
Proof.
  intros Hn Hk Hm. apply orb_prop in Hm. destruct Hm as [Hm | Hm].
  - destruct mn; [| discriminate]. apply cmp_less_empty. eapply names_goodKey; eassumption.
  - eapply cmp_less_lowest; eassumption.
Qed.

Section Find.
Variable MD5 : list Z -> list Z.
Variable conf : Config.
Variable n : Namespace.
Variable coll : Collection.
Variable first : Chunk.
Hypothesis Hlinked : linked conf n coll = true.
Hypothesis Hfirst : nth_error (chunks_ conf) (fst (range_ coll)) = Some first.
Hypothesis Hsome : (fst (range_ coll) < snd (range_ coll))%nat.

Lemma locate_in (k : Object) (vs : VersionedShard) :
  cmp less k (min_ first) = false ->
  match upper_bound chunkKey pair_lt (chunks_ conf) (ns n, k) with
  | O => Throw (AssertionFailed "Assertion failed: i != chunks_.begin()")
  | S i' =>
      match nth_error (chunks_ conf) i' with
      | Some ch =>
          if contains ch k then Ok (mkVS (shard_ ch) (version_ ch))
          else Throw (AssertionFailed "Assertion failed: i->contains(k)")
      | None => Throw (Undefined "dereference past the end")
      end
  end = Ok vs ->
  exists ch, In ch (chunksOf conf coll) /\ vs = mkVS (shard_ ch) (version_ ch).
Proof.
  intros Hk.
  pose proof (upper_bound_pair_le (chunks_ conf) (ns n) k) as Hle.
  unfold linked in Hlinked. apply andb_prop in Hlinked. destruct Hlinked as [Hlo Hhi].
  apply Nat.eqb_eq in Hlo. apply Nat.eqb_eq in Hhi.
  assert (Hns : string_lt (ns n) (chunkNs first) = false).
  { apply (upper_bound_before chunkNs string_lt (chunks_ conf) (ns n) (fst (range_ coll))
             first); [lia | exact Hfirst]. }
  assert (Hgt : (fst (range_ coll)
                 < upper_bound chunkKey pair_lt (chunks_ conf) (ns n, k))%nat).
  { rewrite Hlo. apply (lower_bound_lt_pair (chunks_ conf) (ns n) k first).
    - rewrite <- Hlo. exact Hfirst.
    - exact Hns.
    - exact Hk. }
  destruct (upper_bound chunkKey pair_lt (chunks_ conf) (ns n, k)) as [| i']; [lia |].
  destruct (nth_error (chunks_ conf) i') as [ch |] eqn:Hch; [| discriminate].
  destruct (contains ch k); [| discriminate].
  intros H. injection H as <-. exists ch. split; [| reflexivity].
  apply (chunksOf_at conf coll i' ch); [lia | exact Hch].
Qed.

Lemma doFind_in (hashedField : string) (key : Object) (vs : VersionedShard) :
  (hashedField = "" -> cmp less key (min_ first) = false) ->
  (hashedField <> "" ->
   forall h, cmp less [(hashedField, VInt64 h)] (min_ first) = false) ->
  doFind MD5 conf n hashedField key = Ok vs ->
  exists ch, In ch (chunksOf conf coll) /\ vs = mkVS (shard_ ch) (version_ ch).
Proof.
  intros Hk Hh'. unfold doFind.
  destruct (String.eqb hashedField "") eqn:Hh.
  - apply String.eqb_eq in Hh. cbn [bind]. apply locate_in, Hk, Hh.
  - apply String.eqb_neq in Hh.
    destruct (Hashing.hash MD5 (get key hashedField)) as [h | e]; cbn [bind];
      [| discriminate].
    apply locate_in, Hh', Hh.
Qed.

Lemma findEach_in (hashedField : string) (st : Scan) (values : list (string * Value))
    (ret l : list VersionedShard) :
  (hashedField = "" ->
   forall v, cmp less (app (headb st) (app [(vectorName st, v)] (tailb st))) (min_ first)
             = false) ->
  (hashedField <> "" ->
   forall h, cmp less [(hashedField, VInt64 h)] (min_ first) = false) ->
  findEach MD5 conf n hashedField st values ret = Ok l ->
  forall vs, In vs l ->
    In vs ret \/ exists ch, In ch (chunksOf conf coll) /\ vs = mkVS (shard_ ch) (version_ ch).
Proof.
  intros Hk Hh. revert ret.
  induction values as [| [nm v] r IH]; intros ret H vs Hvs; cbn [findEach] in H.
  - injection H as <-. left. exact Hvs.
  - destruct (doFind MD5 conf n hashedField
                (app (headb st) (app [(vectorName st, v)] (tailb st)))) as [x | e] eqn:Hx;
      cbn [bind] in H; [| discriminate].
    destruct (IH _ H vs Hvs) as [Hin | Hin]; [| right; exact Hin].
    destruct (set_insert_from _ _ _ Hin) as [-> | Hr]; [| left; exact Hr].
    right. eapply doFind_in; [| exact Hh | exact Hx].
    intros E. apply Hk, E.
Qed.

End Find.

(** The loop over the sharding key gathers the names of the key, in
    their order. *)
Lemma scanKey_names (criteria : Object) (key : list (string * Value)) :
  forall st st' : Scan,
    forallb (fun el => negb (String.eqb (fst el) "")) key = true ->
    (vectorName st = "" -> tailb st = []) ->
    scanKey criteria key st = Ok (Some st') ->
    scanned st' = app (scanned st) (map fst key)
    /\ (vectorName st' = "" -> tailb st' = []).
Proof.
  induction key as [| [kname kv] r IH]; intros st st' Hn Ht H.
  - cbn in H. injection H as <-. cbn [map]. rewrite app_nil_r. split; [reflexivity | exact Ht].
  - apply keyNamed_cons in Hn. destruct Hn as [Hk Hr].
    cbn [scanKey] in H. cbn [map fst].
    destruct (get criteria kname) as [[nm v] |]; [| discriminate].
    destruct (negb match v with
                   | VObject o => starts_with_dollar (name (front o))
                   | _ => false
                   end).
    + destruct (String.eqb (vectorName st) "") eqn:Hv.
      * apply (IH _ _ Hr) in H; [| cbn [vectorName tailb]; exact Ht].
        destruct H as [H1 H2]. split; [| exact H2].
        rewrite H1. unfold scanned. cbn [vectorName headb tailb]. rewrite Hv.
        unfold put. rewrite map_app.
        repeat first [rewrite <- app_assoc | progress cbn [app map fst]]. reflexivity.
      * apply (IH _ _ Hr) in H;
          [| cbn [vectorName tailb]; intros E; rewrite E in Hv; discriminate].
        destruct H as [H1 H2]. split; [| exact H2].
        rewrite H1. unfold scanned. cbn [vectorName headb tailb]. rewrite Hv.
        unfold put. rewrite map_app.
        repeat first [rewrite <- app_assoc | progress cbn [app map fst]]. reflexivity.
    + destruct (as_object (Some (nm, v))) as [o | e]; cbn [bind] in H; [| discriminate].
      destruct (String.eqb (name (front o)) "$in"); [| discriminate].
      destruct (String.eqb (vectorName st) "") eqn:Hv; [| discriminate].
      destruct (as_array (front o)) as [vals | e]; cbn [bind] in H; [| discriminate].
      apply String.eqb_eq in Hv.
      apply (IH _ _ Hr) in H; [| cbn [vectorName tailb]; intros E; contradiction].
      destruct H as [H1 H2]. split; [| exact H2].
      rewrite H1. unfold scanned. cbn [vectorName headb tailb].
      rewrite Hv, (Ht Hv). cbn [String.eqb map].
      replace (String.eqb kname "") with false by (symmetry; apply String.eqb_neq, Hk).
      repeat first [rewrite <- app_assoc | progress cbn [app map fst]]. reflexivity.
Qed.

(** The one field of a hashed sharding key. *)
Lemma hashedFieldOf_names (key : Object) :
  hashedFieldOf key <> "" -> map fst key = [hashedFieldOf key].
Proof.
  unfold hashedFieldOf. intros H.
  destruct key as [| [nm v] r]; [exfalso; apply H; reflexivity |].
  destruct v; try (exfalso; apply H; destruct r; reflexivity).
  destruct r as [| p r].
  - do 7 (try (destruct s as [| [[] [] [] [] [] [] [] []] s];
               try (exfalso; apply H; reflexivity))).
    reflexivity.
  - exfalso. apply H.
    do 7 (try (destruct s as [| [[] [] [] [] [] [] [] []] s]; try reflexivity)).
Qed.

(** Every chunk of the collection has its shard in [shards(ns)], with
    its own version when the chunks are uniform. *)
Lemma shardsOf_has (conf : Config) (n : Namespace) (coll : Collection) (ch : Chunk) :
  String.eqb (db n) "config" = false ->
  collectionOf conf n = Some coll ->
  In ch (chunksOf conf coll) ->
  In (shard_ ch) (map shard (shardsOf conf n))
  /\ (uniform (chunksOf conf coll) = true ->
      In (mkVS (shard_ ch) (version_ ch)) (shardsOf conf n)).
Proof.
  intros Hdb Hc Hin. unfold shardsOf. rewrite Hdb, Hc.
  fold (collect (chunksOf conf coll) []).
  destruct (collect_has (chunksOf conf coll) [] ch Hin) as [v Hv].
  split.
  - rewrite map_map. cbn [shard].
    change (shard_ ch) with (fst (shard_ ch, v)). apply in_map, Hv.
  - intros Hu.
    destruct (collect_from _ _ _ Hv) as [[] | (c & Hcin & Heq)].
    injection Heq as Hs ->.
    rewrite (uniform_spec _ ch c Hu Hin Hcin Hs).
    change (mkVS (shard_ ch) (version_ c))
      with ((fun s => mkVS (fst s) (snd s)) (shard_ ch, version_ c)).
    apply in_map, Hv.
Qed.

(** ** [Config::Config] links every collection *)

Lemma lower_bound_setVersion (f : Chunk -> ChunkVersion) (l : list Chunk) (k : string) :
  lower_bound chunkNs string_lt (map (fun ch => setVersion ch (f ch)) l) k
  = lower_bound chunkNs string_lt l k.
Proof.
  induction l as [| x r IH]; [reflexivity |].
  cbn [map lower_bound]. rewrite IH. reflexivity.
Qed.

Lemma upper_bound_setVersion (f : Chunk -> ChunkVersion) (l : list Chunk) (k : string) :
  upper_bound chunkNs string_lt (map (fun ch => setVersion ch (f ch)) l) k
  = upper_bound chunkNs string_lt l k.
Proof.
  induction l as [| x r IH]; [reflexivity |].
  cbn [map upper_bound]. rewrite IH. reflexivity.
Qed.

Lemma Collection_link_all (chunks : list Chunk) (cs cs' : list Collection) :
  mapM (Collection_link chunks) cs = Ok cs' ->
  forall c, In c cs' ->
    range_ c = equal_range chunkNs string_lt chunks (ns (cns_ c)).
Proof.
  revert cs'. induction cs as [| x r IH]; intros cs' H c Hc; cbn [mapM] in H.
  - injection H as <-. destruct Hc.
  - unfold Collection_link at 1 in H.
    destruct (has_gap _); cbn [bind] in H; [discriminate |].
    destruct (mapM (Collection_link chunks) r) as [bs | e]; cbn [bind] in H; [| discriminate].
    injection H as <-. destruct Hc as [<- | Hc]; [reflexivity |].
    apply (IH bs); [reflexivity | exact Hc].
Qed.

Lemma collectionOf_found (conf : Config) (n : Namespace) (coll : Collection) :
  collectionOf conf n = Some coll ->
  In coll (collections_ conf) /\ ns (cns_ coll) = ns n.
Proof.
  unfold collectionOf, findPtr, find_.
  destruct (nth_error (collections_ conf)
              (lower_bound collectionKey string_lt (collections_ conf) (ns n)))
    as [x |] eqn:Hx; [| discriminate].
  destruct (String.eqb (collectionKey x) (ns n)) eqn:He; [| discriminate].
  rewrite Hx. intros H. injection H as <-.
  split; [apply (nth_error_In _ _ Hx) | apply String.eqb_eq, He].
Qed.

Lemma Config_of_linked (pool : string -> string -> ShardPtr)
    (connectionString : ShardPtr -> string) (configShard : ShardPtr) (obj : Object)
    (conf : Config) (n : Namespace) (coll : Collection) :
  Config_of pool connectionString configShard obj = Ok conf ->
  collectionOf conf n = Some coll ->
  linked conf n coll = true.
Proof.
  unfold Config_of. intros H Hc.
  destruct (linkAll pool configShard obj) as [l0 | e] eqn:Hl; cbn [bind] in H; [| discriminate].
  unfold unifyVersions in H.
  destruct (collectVersions connectionString ∅ (chunks_ l0)) as [vs | e];
    cbn [bind] in H; [| discriminate].
  injection H as <-.
  apply collectionOf_found in Hc. cbn [collections_] in Hc. destruct Hc as [Hin Hns].
  assert (Hr : range_ coll = equal_range chunkNs string_lt (chunks_ l0) (ns (cns_ coll))).
  { unfold linkAll in Hl.
    repeat match type of Hl with
           | bind ?r _ = Ok _ => destruct r eqn:?; cbn [bind] in Hl; [| discriminate]
           end.
    injection Hl as <-. cbn [chunks_ collections_] in *.
    eapply Collection_link_all; eassumption. }
  unfold linked, applyVersions. cbn [chunks_].
  rewrite lower_bound_setVersion, upper_bound_setVersion, Hr, Hns.
  cbn [equal_range fst snd]. rewrite !Nat.eqb_refl. reflexivity.
Qed.

(** ** The shards of a criteria document are shards of the namespace *)

(** Where C3 holds.  For a configuration that [Config::Config] has
    built, and a namespace that is not a sharded collection, or that is
    a sharded collection outside the [config] database which has a
    chunk, whose first chunk has the least lower bound and whose sharding
    key has named fields: every shard that [Config::find] returns for a
    criteria document is a shard of [Config::shards] of the namespace
    (with the same version when the chunks of one shard show one
    version), and [find] with empty criteria returns [shards] of the
    namespace. *)
Theorem find_within_shards (MD5 : list Z -> list Z) (pool : string -> string -> ShardPtr)
    (connectionString : ShardPtr -> string) (configShard : ShardPtr) (obj : Object)
    (conf : Config) (n : Namespace) (criteria : Object) (l : list VersionedShard) :
  Config_of pool connectionString configShard obj = Ok conf ->
  routable conf n = true ->
  find MD5 conf n criteria = Ok l ->
  (forall vs : VersionedShard, In vs l ->
     In (shard vs) (map shard (shardsOf conf n))
     /\ (consistent conf n = true -> In vs (shardsOf conf n)))
  /\ find MD5 conf n [] = Ok (shardsOf conf n).
Proof.
  intros Hconf.
  pose proof (fun coll => Config_of_linked pool connectionString configShard obj conf n coll
                           Hconf) as Hlinked.
  unfold routable, consistent, find.
  destruct (collectionOf conf n) as [coll |] eqn:Hcoll.
  - specialize (Hlinked coll eq_refl). intros Hr.
    apply andb_prop in Hr. destruct Hr as [Hr Hkey].
    apply andb_prop in Hr. destruct Hr as [Hdb Hcov].
    apply negb_true_iff in Hdb.
    unfold keyNamed in Hkey. apply andb_prop in Hkey. destruct Hkey as [Hne Hnamed].
    unfold covered in Hcov.
    destruct (nth_error (chunks_ conf) (fst (range_ coll))) as [first |] eqn:Hfirst;
      [| discriminate].
    apply andb_prop in Hcov. destruct Hcov as [Hsome Hmin]. apply Nat.ltb_lt in Hsome.
    assert (Hch : forall ch, In ch (chunksOf conf coll) ->
              In (shard_ ch) (map shard (shardsOf conf n))
              /\ (uniform (chunksOf conf coll) = true ->
                  In (mkVS (shard_ ch) (version_ ch)) (shardsOf conf n)))
      by (intros ch; apply shardsOf_has; assumption).
    assert (Hhashed : hashedFieldOf (shardingKey_ coll) <> "" ->
              forall h, cmp less [(hashedFieldOf (shardingKey_ coll), VInt64 h)]
                          (min_ first) = false).
    { intros Hh h. apply (not_below (shardingKey_ coll)); [| exact Hnamed | exact Hmin].
      rewrite (hashedFieldOf_names _ Hh). reflexivity. }
    intros H. split.
    + destruct (scanKey criteria (shardingKey_ coll) (mkScan "" [] [] []))
        as [[st |] | e] eqn:Hs; cbn [bind] in H; [| | discriminate].
      * destruct (scanKey_names criteria (shardingKey_ coll) (mkScan "" [] [] []) st Hnamed
                    (fun _ => eq_refl) Hs)
          as [Hnames Htail].
        change (scanned (mkScan "" [] [] [])) with (@nil string) in Hnames.
        cbn [app] in Hnames. unfold scanned in Hnames.
        destruct (String.eqb (vectorName st) "") eqn:Hv.
        -- destruct (doFind MD5 conf n (hashedFieldOf (shardingKey_ coll)) (headb st))
             as [x | e] eqn:Hx; cbn [bind] in H; [| discriminate].
           injection H as <-. intros vs [<- | []].
           destruct (doFind_in MD5 conf n coll first Hlinked Hfirst Hsome _ _ x
                       (fun _ => not_below _ _ _ Hnames Hnamed Hmin) Hhashed Hx)
             as (ch & Hin & ->).
           apply Hch, Hin.
        -- intros vs Hvs.
           assert (Hn' : forall v,
                     map fst (app (headb st) (app [(vectorName st, v)] (tailb st)))
                     = map fst (shardingKey_ coll))
             by (intros v; rewrite !map_app; exact Hnames).
           destruct (findEach_in MD5 conf n coll first Hlinked Hfirst Hsome _ st _ [] l
                       (fun _ v => not_below (shardingKey_ coll) _ _ (Hn' v) Hnamed Hmin)
                       Hhashed H vs Hvs) as [[] | (ch & Hin & ->)].
           apply Hch, Hin.
      * injection H as <-. intros vs Hvs. split; [apply in_map, Hvs | intros _; exact Hvs].
    + destruct (shardingKey_ coll) as [| [kname kv] r]; [discriminate |].
      reflexivity.
  - intros _ H. injection H as <-. split; [| reflexivity].
    intros vs Hvs. split; [apply in_map, Hvs | intros _; exact Hvs].
Qed.

Lemma find_within_shards_witness :
  (forall vs : VersionedShard, In vs exampleShards ->
     In (shard vs) (map shard (shardsOf storedConfig exampleNs))
     /\ (consistent storedConfig exampleNs = true ->
         In vs (shardsOf storedConfig exampleNs)))
  /\ find (fun _ => []) storedConfig exampleNs []
     = Ok (shardsOf storedConfig exampleNs).
Proof.
  apply (find_within_shards (fun _ => []) TopologyNotions.examplePool
           TopologyNotions.exampleConnectionString 100 storedTopology storedConfig
           exampleNs exampleCriteria exampleShards); vm_compute; reflexivity.
Defined.

(** C3 fails on a sharded collection of the [config] database:
    [Config::shards] answers for the whole database with the config
    shard, and [Config::find] looks the collection up without that test.
    A criteria document that fixes the sharding key is routed to the
    shard of the chunk, while empty criteria give the config shard
    alone. *)
Theorem sharded_config_collection_routes_elsewhere :
  Config_of TopologyNotions.examplePool TopologyNotions.exampleConnectionString 100
    sessionsTopology = Ok sessionsConfig
  /\ find (fun _ => []) sessionsConfig sessionsNs [("_id", VInt32 5)]
     = Ok [mkVS 101 (mkVersion TopologyNotions.exampleEpoch 1)]
  /\ find (fun _ => []) sessionsConfig sessionsNs [] = Ok [mkVS 100 zeroVersion]
  /\ shardsOf sessionsConfig sessionsNs = [mkVS 100 zeroVersion]
  /\ ~ In 101 (map shard [mkVS 100 zeroVersion]).
Proof.
  repeat apply conj; try (vm_compute; reflexivity).
  cbn. intros [H | []]. discriminate.
Qed.

End RouterFacts.

(* ================================================================== *)
(** * Facts about datasources and the reply loop *)
(* ================================================================== *)

Module FeedFacts.
Import Bson Feed.
Import FeedNotions.

(** ** Identifiers *)

Lemma generateID_next (g : Z) : 0 <= g < SIZE_MAX -> generateID g = g + 1.
Proof.
  unfold generateID, wrap, SIZE_MAX. intros H. apply Z.mod_small. lia.
Qed.

Lemma constructAll_ids (bodies : list Body) (g : Z) :
  0 <= g -> g + Z.of_nat (List.length bodies) <= SIZE_MAX ->
  let r := constructAll g bodies in
  fst r = g + Z.of_nat (List.length bodies)
  /\ Forall (fun ds => g < id_ ds <= g + Z.of_nat (List.length bodies)) (snd r)
  /\ List.NoDup (map id_ (snd r)).
Proof.
  revert g. induction bodies as [| b r IH]; intros g H0 Hm.
  - cbn. repeat split; [lia | constructor | constructor].
  - cbn [constructAll construct List.length] in *.
    rewrite generateID_next by lia.
    specialize (IH (g + 1) ltac:(lia) ltac:(lia)).
    destruct (constructAll (g + 1) r) as [g'' dss]. cbn [fst snd] in *.
    destruct IH as (Hg & Hall & Hnd). repeat split.
    + lia.
    + constructor; [cbn [id_]; lia |].
      apply List.Forall_forall. intros ds Hd.
      rewrite List.Forall_forall in Hall. specialize (Hall ds Hd). lia.
    + cbn [map id_]. constructor; [| exact Hnd].
      intros Hin. apply in_map_iff in Hin. destruct Hin as (ds & He & Hin).
      rewrite List.Forall_forall in Hall. specialize (Hall ds Hin). lia.
Qed.

(** ** The loop terminates *)

Lemma goesOn_atEnd (l : Loop) : measure l = 0%nat -> goesOn l = Ok false.
Proof.
  unfold measure, goesOn, atEnd.
  destruct (body (current l)) as [| o c f | [| p r]]; try reflexivity.
  - destruct c; [reflexivity | discriminate].
  - cbn [List.length]. lia.
Qed.

Lemma goesOn_total (l : Loop) : exists b, goesOn l = Ok b.
Proof.
  unfold goesOn, atEnd, get.
  destruct (body (current l)) as [| o c f | [| [o out] r]]; cbn [bind]; eauto.
  destruct c; cbn [bind]; eauto.
Qed.

Lemma turn_measure (l : Loop) :
  goesOn l = Ok true ->
  (exists l', turn l = Ok (inl l') /\ (measure l' < measure l)%nat
              /\ id_ (current l') = id_ (current l))
  \/ (exists l', turn l = Ok (inr l') /\ id_ (current l') = id_ (current l)).
Proof.
  unfold goesOn, turn, advance, atEnd, get, measure.
  destruct l as [g [id pos cl b] ie hf rs ds rc c]. cbn [current body g_id id_ pos_ closed_].
  destruct b as [| o co f | [| [o out] r]]; try discriminate.
  - destruct co; [discriminate |]. intros _. cbn [bind]. left.
    eexists. split; [reflexivity |]. cbn. split; [lia | reflexivity].
  - intros _. cbn [bind]. destruct out as [what |].
    + unfold queryError, construct, setId.
      cbn [id_ pos_ closed_ body retcnt cnt hdrFlags replySize docs isErr g_id current].
      destruct (negb (rc =? 0)).
      * right. eexists. split; [reflexivity | reflexivity].
      * left. eexists. split; [reflexivity |]. cbn [current body id_ List.length].
        split; [lia | reflexivity].
    + left. eexists. split; [reflexivity |]. cbn [current body id_ List.length].
      split; [lia | reflexivity].
Qed.

Lemma while_total (fuel : nat) (l : Loop) :
  (measure l <= fuel)%nat ->
  exists l', while fuel l = Some (Ok l') /\ id_ (current l') = id_ (current l).
Proof.
  revert l. induction fuel as [| fuel IH]; intros l Hm.
  - cbn [while]. rewrite goesOn_atEnd by lia. eauto.
  - cbn [while]. destruct (goesOn_total l) as [[|] Hg]; rewrite Hg; [| eauto].
    destruct (turn_measure l Hg) as [(l' & Ht & Hlt & Hid) | (l' & Ht & Hid)]; rewrite Ht.
    + destruct (IH l' ltac:(lia)) as (l'' & Hw & Hid'').
      exists l''. split; [exact Hw | congruence].
    + eauto.
Qed.

(** [feed] returns, with a datasource that has the identifier of the
    given one. *)
Lemma feed_returns (batchSize g reqID : Z) (ds : DataSource) (count : Z) :
  exists f ds',
    feed batchSize g reqID (Some ds) count = Some (Ok f)
    /\ returned f = Some ds'
    /\ id_ ds' = id_ ds
    /\ (cursorID (reply f) = 0 \/ cursorID (reply f) = id_ ds)
    /\ (closed_ ds' = false -> cursorID (reply f) = id_ ds).
Proof.
  unfold feed.
  destruct (while_total (S (2 * remaining ds))
              (mkLoop g ds false (flags ds) sizeof_ReplyHeader [] 0
                 (initialCount batchSize count))) as (l & Hw & Hid).
  { unfold measure, remaining. cbn [current].
    destruct (body ds) as [| o c f | p]; [lia | destruct c; lia | lia]. }
  rewrite Hw. cbn [current] in Hid.
  destruct (negb (autoCloses count) && negb (atEnd (current l)));
    eexists; eexists; (split; [reflexivity |]); cbn [returned reply cursorID];
    (split; [reflexivity |]).
  - split; [exact Hid |]. split; [right; exact Hid |]. intros _. exact Hid.
  - unfold close. cbn [id_ closed_].
    split; [exact Hid |]. split; [left; reflexivity | discriminate].
Qed.

(** ** One turn of the loop *)

Lemma turn_emit (l : Loop) (o : Object) (p : list (Object * option string)) :
  body (current l) = Remote ((o, None) :: p) ->
  replySize l + rawSize o < MAX_SIZE ->
  cnt l <> 0 ->
  goesOn l = Ok true
  /\ turn l = Ok (inl (mkLoop (g_id l)
                        (mkDS (id_ (current l)) (wrap 64 (pos_ (current l) + 1))
                           (closed_ (current l)) (Remote p))
                        (isErr l) (hdrFlags l) (replySize l + rawSize o)
                        (app (docs l) [o]) (wrap 64 (retcnt l + 1))
                        (if negb (cnt l =? INF) then cnt l - 1 else cnt l))).
Proof.
  intros Hb Hs Hc. unfold goesOn, turn, advance, atEnd, get. rewrite Hb. cbn [bind].
  split; [| reflexivity].
  apply Z.ltb_lt in Hs. apply Z.eqb_neq in Hc. rewrite Hs, Hc. reflexivity.
Qed.

Lemma turn_fixed (l : Loop) (o : Object) (f : Z) :
  body (current l) = Fixed o false f ->
  replySize l + rawSize o < MAX_SIZE ->
  cnt l <> 0 ->
  goesOn l = Ok true
  /\ turn l = Ok (inl (mkLoop (g_id l)
                        (mkDS (id_ (current l)) (wrap 64 (pos_ (current l) + 1))
                           (closed_ (current l)) (Fixed o true f))
                        (isErr l) (hdrFlags l) (replySize l + rawSize o)
                        (app (docs l) [o]) (wrap 64 (retcnt l + 1))
                        (if negb (cnt l =? INF) then cnt l - 1 else cnt l))).
Proof.
  intros Hb Hs Hc. unfold goesOn, turn, advance, atEnd, get. rewrite Hb. cbn [bind].
  split; [| reflexivity].
  apply Z.ltb_lt in Hs. apply Z.eqb_neq in Hc. rewrite Hs, Hc. reflexivity.
Qed.


Lemma turn_throw (l : Loop) (d : Object) (what : string)
    (p : list (Object * option string)) :
  body (current l) = Remote ((d, Some what) :: p) ->
  replySize l + rawSize d < MAX_SIZE ->
  cnt l <> 0 ->
  goesOn l = Ok true
  /\ turn l =
     Ok (if negb (retcnt l =? 0)
         then inr (mkLoop (generateID (g_id l)) (stash (id_ (current l)) what) true
                     (hdrFlags l) (replySize l) (docs l) (retcnt l) (cnt l))
         else inl (mkLoop (generateID (g_id l)) (stash (id_ (current l)) what) true
                     (Z.lor (hdrFlags l) QUERY_FAILURE)
                     (replySize l) (docs l) (retcnt l) (cnt l))).
Proof.
  intros Hb Hs Hc. unfold goesOn, turn, advance, atEnd, get. rewrite Hb. cbn [bind].
  split.
  - apply Z.ltb_lt in Hs. apply Z.eqb_neq in Hc. rewrite Hs, Hc. reflexivity.
  - unfold queryError, construct, setId, stash, flags. cbn [id_ pos_ closed_ body].
    destruct (negb (retcnt l =? 0)); reflexivity.
Qed.

(** ** A run of documents that arrive *)

Lemma while_emit (good : list Object) :
  forall (l : Loop) (tail : list (Object * option string)) (more : list Object)
         (fuel : nat),
  body (current l) = Remote (app (map ok good) tail) ->
  fits (replySize l) (app good more) = true ->
  cnt l <= INF -> Z.of_nat (List.length good) <= cnt l ->
  0 <= retcnt l -> retcnt l + Z.of_nat (List.length good) < 2 ^ 64 ->
  exists l',
    while (List.length good + fuel) l = while fuel l'
    /\ body (current l') = Remote tail
    /\ id_ (current l') = id_ (current l)
    /\ g_id l' = g_id l /\ isErr l' = isErr l /\ hdrFlags l' = hdrFlags l
    /\ fits (replySize l') more = true
    /\ docs l' = app (docs l) good
    /\ retcnt l' = retcnt l + Z.of_nat (List.length good)
    /\ (cnt l' = cnt l /\ cnt l = INF
        \/ cnt l' = cnt l - Z.of_nat (List.length good) /\ cnt l < INF).
Proof.
  induction good as [| o r IH]; intros l tail more fuel Hb Hf Hi Hc Hr0 Hr.
  - exists l. cbn [List.length map app Nat.add] in *.
    rewrite app_nil_r, Z.add_0_r, Z.sub_0_r.
    repeat (split; [first [reflexivity | assumption] |]). lia.
  - cbn [List.length map app] in *. cbn [fits] in Hf.
    apply andb_prop in Hf. destruct Hf as [Hs Hf]. apply Z.ltb_lt in Hs.
    destruct (turn_emit l o (app (map ok r) tail) Hb Hs ltac:(lia)) as [Hg Ht].
    cbn [Nat.add while]. rewrite Hg, Ht.
    set (l1 := mkLoop _ _ _ _ _ _ _ _).
    assert (Hw : wrap 64 (retcnt l + 1) = retcnt l + 1)
      by (unfold wrap; apply Z.mod_small; lia).
    destruct (IH l1 tail more fuel) as (l' & H1 & H2 & H3 & H4 & H5 & H6 & H7 & H8 & H9 & H10);
      subst l1; cbn [current body replySize cnt retcnt id_ g_id isErr hdrFlags docs] in *.
    + reflexivity.
    + exact Hf.
    + destruct (cnt l =? INF); cbn [negb]; lia.
    + destruct (Z.eqb_spec (cnt l) INF); cbn [negb]; [unfold INF, SIZE_MAX in *|]; lia.
    + rewrite Hw. lia.
    + rewrite Hw. lia.
    + exists l'. rewrite H1, H8, <- app_assoc, H9, Hw.
      repeat (split; [first [reflexivity | assumption] |]).
      split; [lia |].
      destruct (Z.eqb_spec (cnt l) INF); cbn [negb] in H10; lia.
Qed.

(** ** The count of a batch *)

Lemma initialCount_le (batchSize count : Z) : initialCount batchSize count <= INF.
Proof.
  unfold initialCount, INF, SIZE_MAX.
  pose proof (Z.mod_pos_bound (swrap 32 (Z.abs count)) (2 ^ 64) ltac:(lia)) as Hb.
  fold (wrap 64 (swrap 32 (Z.abs count))) in Hb.
  destruct (wrap 64 (swrap 32 (Z.abs count)) =? 0); lia.
Qed.

Lemma initialCount_pos (batchSize count : Z) :
  0 < batchSize -> 0 < initialCount batchSize count.
Proof.
  unfold initialCount, INF, SIZE_MAX. intros Hb.
  pose proof (Z.mod_pos_bound (swrap 32 (Z.abs count)) (2 ^ 64) ltac:(lia)) as Hw.
  fold (wrap 64 (swrap 32 (Z.abs count))) in Hw.
  destruct (Z.eqb_spec (wrap 64 (swrap 32 (Z.abs count))) 0); lia.
Qed.

Lemma initialCount_batch (batchSize count : Z) :
  initialCount batchSize count <= batchSize.
Proof. unfold initialCount. lia. Qed.

(** ** [feed] on the error datasource *)

Lemma feed_stash (batchSize g reqID id : Z) (what : string) (count : Z) :
  0 < batchSize ->
  sizeof_ReplyHeader + rawSize (errorDocument what) < MAX_SIZE ->
  exists f ds',
    feed batchSize g reqID (Some (stash id what)) count = Some (Ok f)
    /\ documents (reply f) = [errorDocument what]
    /\ replyFlags (reply f) = QUERY_FAILURE
    /\ cursorID (reply f) = 0
    /\ returned f = Some ds' /\ closed_ ds' = true /\ id_ ds' = id.
Proof.
  intros Hb Hs. pose proof (initialCount_pos batchSize count Hb) as Hc.
  unfold feed. cbn [remaining stash body Nat.mul Nat.add while].
  set (l0 := mkLoop _ _ _ _ _ _ _ _).
  destruct (turn_fixed l0 (errorDocument what) QUERY_FAILURE) as [Hg Ht];
    [reflexivity | exact Hs | subst l0; cbn [cnt]; lia |].
  rewrite Hg, Ht. subst l0. cbn [current id_ pos_ closed_ g_id isErr hdrFlags replySize
                                  docs retcnt cnt flags body].
  unfold goesOn at 1. unfold atEnd at 1. cbn [current body].
  eexists. eexists. split; [reflexivity |].
  cbn [reply documents replyFlags cursorID returned current atEnd body].
  rewrite andb_false_r. cbn [close closed_ id_ app]. repeat split; reflexivity.
Qed.

(** ** [feed] on a datasource that throws *)

Section Throws.
Variables (batchSize g reqID : Z) (ds : DataSource).
Variables (good : list Object) (d : Object) (what : string).
Variable rest : list (Object * option string).
Variable count : Z.
Hypothesis Hbody : body ds = Remote (app (map ok good) ((d, Some what) :: rest)).
Hypothesis Hfits : fits sizeof_ReplyHeader (app good [d]) = true.
Hypothesis Hcount : Z.of_nat (List.length good) < initialCount batchSize count.

(** After at least one document: the batch stops and the error
    datasource is handed back, closed when the cursor closes by itself. *)
Lemma feed_throw_later :
  good <> [] ->
  exists sz,
    feed batchSize g reqID (Some ds) count
    = Some (Ok (mkFed (generateID g)
                  (mkReply sz reqID 0 (if autoCloses count then 0 else id_ ds)
                     (wrap 32 (pos_ ds)) (wrap 32 (Z.of_nat (List.length good))) good)
                  (Some (if autoCloses count then close (stash (id_ ds) what)
                         else stash (id_ ds) what))
                  true)).
Proof.
  intros Hne. pose proof (initialCount_le batchSize count) as Hle.
  unfold feed.
  assert (Hrem : S (2 * remaining ds)
                 = (List.length good + S (List.length good + 2 * S (List.length rest)))%nat).
  { unfold remaining. rewrite Hbody, length_app, length_map. cbn [List.length]. lia. }
  rewrite Hrem.
  set (l0 := mkLoop _ _ _ _ _ _ _ _).
  destruct (while_emit good l0 ((d, Some what) :: rest) [d]
              (S (List.length good + 2 * S (List.length rest))))
    as (l' & H1 & H2 & H3 & H4 & H5 & H6 & H7 & H8 & H9 & H10);
    subst l0; cbn [current replySize cnt retcnt id_ g_id isErr hdrFlags docs] in *;
    try assumption; try lia.
  { unfold INF, SIZE_MAX in Hle. lia. }
  rewrite H1. cbn [fits] in H7. rewrite andb_true_r in H7. apply Z.ltb_lt in H7.
  assert (Hlen : (0 < List.length good)%nat) by (destruct good; [congruence | cbn; lia]).
  destruct (turn_throw l' d what rest H2 H7) as [Hg Ht]; [lia |].
  cbn [while]. rewrite Hg, Ht.
  assert (Hr : (retcnt l' =? 0) = false) by (apply Z.eqb_neq; lia).
  rewrite Hr. cbn [negb current atEnd stash body andb id_ g_id replySize hdrFlags
                     docs retcnt isErr app].
  rewrite H3, H4, H6, H8, H9. unfold flags. rewrite Hbody. cbn [app Z.add].
  exists (replySize l').
  destruct (autoCloses count); reflexivity.
Qed.

(** Before any document: the error document goes into this reply. *)
Lemma feed_throw_first :
  good = [] ->
  sizeof_ReplyHeader + rawSize (errorDocument what) < MAX_SIZE ->
  exists sz ds',
    feed batchSize g reqID (Some ds) count
    = Some (Ok (mkFed (generateID g)
                  (mkReply sz reqID QUERY_FAILURE 0 (wrap 32 (pos_ ds)) 1
                     [errorDocument what])
                  (Some ds') true))
    /\ closed_ ds' = true /\ id_ ds' = id_ ds.
Proof.
  intros Hg0 Hs. rewrite Hg0 in *. cbn [map app List.length fits] in *.
  rewrite andb_true_r in Hfits. apply Z.ltb_lt in Hfits.
  unfold feed, remaining. rewrite Hbody. cbn [List.length Nat.mul Nat.add].
  rewrite Nat.add_succ_r.
  destruct (turn_throw (mkLoop g ds false (flags ds) sizeof_ReplyHeader [] 0
                          (initialCount batchSize count)) d what rest Hbody Hfits)
    as [Hg Ht]; [cbn [cnt]; lia |].
  cbn [retcnt Z.eqb negb current g_id hdrFlags replySize docs cnt] in Ht.
  cbn [while]. rewrite Hg, Ht.
  destruct (turn_fixed (mkLoop (generateID g) (stash (id_ ds) what) true
                          (Z.lor (flags ds) QUERY_FAILURE) sizeof_ReplyHeader [] 0
                          (initialCount batchSize count))
              (errorDocument what) QUERY_FAILURE) as [Hg1 Ht1];
    [reflexivity | exact Hs | cbn [cnt]; lia |].
  cbn [current id_ pos_ closed_ g_id isErr hdrFlags replySize docs retcnt cnt stash app]
    in Ht1.
  rewrite Hg1, Ht1.
  assert (Hend : forall l, body (current l) = Fixed (errorDocument what) true QUERY_FAILURE ->
                   goesOn l = Ok false)
    by (intros l Hl; unfold goesOn, atEnd; rewrite Hl; reflexivity).
  rewrite Hend by reflexivity.
  cbn [current atEnd body andb id_ g_id replySize hdrFlags docs retcnt isErr].
  rewrite andb_false_r. unfold flags. rewrite Hbody.
  eexists. eexists. split; [reflexivity |]. split; reflexivity.
Qed.

End Throws.

(** ** Errors while a reply is filled, and the identifiers of cursors *)

(** C7: when [advance()] throws while the reply is being filled, the
    session answers the query as follows.  Before any document, the
    error document with the [QUERY_FAILURE] flag is the reply.  After
    at least one document, the reply carries those documents; when the
    cursor does not close by itself the error datasource is kept under
    the same identifier and the next [GET_MORE] returns the error
    document; when the cursor closes by itself (a count of 1 or below
    0) the reply has cursor 0, nothing is kept and the next [GET_MORE]
    finds no cursor, so that the error is lost. *)
Theorem error_while_feeding (batchSize : Z) (s : Session) (reqID : Z)
    (ds : DataSource) (good : list Object) (d : Object) (what : string)
    (rest : list (Object * option string)) (count : Z) :
  body ds = Remote (app (map ok good) ((d, Some what) :: rest)) ->
  fits sizeof_ReplyHeader (app good [d]) = true ->
  Z.of_nat (List.length good) < initialCount batchSize count ->
  sizeof_ReplyHeader + rawSize (errorDocument what) < MAX_SIZE ->
  cursors_ s !! id_ ds = None ->
  exists (s1 : Session) (r1 : Reply),
    answerQuery batchSize s reqID ds count = Some (Ok (s1, r1))
    /\ (good = [] ->
        documents r1 = [errorDocument what] /\ replyFlags r1 = QUERY_FAILURE
        /\ cursorID r1 = 0)
    /\ (good <> [] ->
        documents r1 = good /\ replyFlags r1 = 0
        /\ (autoCloses count = false ->
            cursorID r1 = id_ ds
            /\ forall reqID' n' : Z, exists (s2 : Session) (r2 : Reply),
                 getMore batchSize s1 reqID' (id_ ds) n' = Some (Ok (s2, r2))
                 /\ documents r2 = [errorDocument what]
                 /\ replyFlags r2 = QUERY_FAILURE)
        /\ (autoCloses count = true ->
            cursorID r1 = 0 /\ cursors_ s1 = cursors_ s
            /\ forall reqID' n' : Z, exists (s2 : Session) (r2 : Reply),
                 getMore batchSize s1 reqID' (id_ ds) n' = Some (Ok (s2, r2))
                 /\ documents r2 = [] /\ replyFlags r2 = CURSOR_NOT_FOUND)).
Proof.
  intros Hbody Hfits Hcount Hsize Hfresh.
  assert (Hbatch : 0 < batchSize)
    by (pose proof (initialCount_batch batchSize count); lia).
  unfold answerQuery.
  destruct good as [| g0 gs].
  - destruct (feed_throw_first batchSize (s_g_id s) reqID ds [] d what rest count
                Hbody Hfits Hcount eq_refl Hsize) as (sz & ds' & Hf & Hcl & Hid).
    rewrite Hf. cbn [returned reply]. rewrite Hcl. cbn [negb].
    eexists. eexists. split; [reflexivity |].
    split; [intros _; repeat split | intros H; congruence].
  - destruct (feed_throw_later batchSize (s_g_id s) reqID ds (g0 :: gs) d what rest count
                Hbody Hfits Hcount ltac:(discriminate)) as (sz & Hf).
    rewrite Hf. cbn [returned reply counter].
    destruct (autoCloses count) eqn:Hauto; cbn [close closed_ stash negb].
    + eexists. eexists. split; [reflexivity |].
      split; [discriminate |]. intros _. cbn [documents replyFlags cursorID cursors_].
      split; [reflexivity |]. split; [reflexivity |]. split; [discriminate |].
      intros _. split; [reflexivity |]. split; [reflexivity |].
      intros reqID' n'. unfold getMore, cursorFind. cbn [cursors_ s_g_id].
      rewrite Hfresh. cbn [feed returned reply].
      eexists. eexists. split; [reflexivity |]. split; reflexivity.
    + eexists. eexists. split; [reflexivity |].
      split; [discriminate |]. intros _. cbn [documents replyFlags cursorID cursors_].
      split; [reflexivity |]. split; [reflexivity |]. split; [| discriminate].
      intros _. split; [reflexivity |].
      intros reqID' n'. unfold getMore, cursorFind, cursorInsert.
      cbn [cursors_ s_g_id id_]. rewrite lookup_insert_eq. cbn [id_]. rewrite Z.eqb_refl.
      destruct (feed_stash batchSize (generateID (s_g_id s)) reqID' (id_ ds) what
                  (swrap 32 n') Hbatch Hsize) as (f & ds' & Hf' & Hd & Hfl & _ & Hr & Hcl & _).
      fold (stash (id_ ds) what). rewrite Hf', Hr, Hcl.
      eexists. eexists. split; [reflexivity |]. split; assumption.
Qed.

Lemma error_while_feeding_witness :
  exists (s1 : Session) (r1 : Reply),
    answerQuery SIZE_MAX session1 7 failing (-2) = Some (Ok (s1, r1))
    /\ documents r1 = [doc1] /\ replyFlags r1 = 0 /\ cursorID r1 = 0
    /\ cursors_ s1 = ∅
    /\ forall reqID' n' : Z, exists (s2 : Session) (r2 : Reply),
         getMore SIZE_MAX s1 reqID' 1 n' = Some (Ok (s2, r2))
         /\ documents r2 = [] /\ replyFlags r2 = CURSOR_NOT_FOUND.
Proof.
  destruct (error_while_feeding SIZE_MAX session1 7 failing [doc1] doc2
              "connection reset" [] (-2))
    as (s1 & r1 & H & _ & Hlater);
    [reflexivity | vm_compute; reflexivity | vm_compute; reflexivity
     | vm_compute; reflexivity | reflexivity |].
  exists s1, r1. split; [exact H |].
  destruct (Hlater ltac:(discriminate)) as (Hd & Hf & _ & Hauto).
  destruct (Hauto eq_refl) as (Hc & Hm & Hg).
  repeat split; assumption.
Defined.

(** C10, as amended: while fewer than 2^64 datasources have been
    constructed, the identifiers given at construction are not 0 and
    differ from one another; [feed] hands back a datasource with the
    identifier of the one it was given, and the cursor written into the
    reply of a datasource that stays open is that identifier. *)
Theorem datasource_ids (g : Z) (bodies : list Body) :
  0 <= g -> g + Z.of_nat (List.length bodies) <= SIZE_MAX ->
  let dss := snd (constructAll g bodies) in
  Forall (fun ds => id_ ds <> 0) dss
  /\ List.NoDup (map id_ dss)
  /\ forall (batchSize g' reqID : Z) (ds : DataSource) (count : Z),
       In ds dss ->
       exists (f : Fed) (ds' : DataSource),
         feed batchSize g' reqID (Some ds) count = Some (Ok f)
         /\ returned f = Some ds'
         /\ id_ ds' = id_ ds
         /\ (closed_ ds' = false ->
             cursorID (reply f) = id_ ds /\ cursorID (reply f) <> 0).
Proof.
  intros H0 Hm dss.
  destruct (constructAll_ids bodies g H0 Hm) as (_ & Hall & Hnd). fold dss in Hall, Hnd.
  assert (Hnz : Forall (fun ds => id_ ds <> 0) dss).
  { apply List.Forall_forall. intros ds Hin.
    rewrite List.Forall_forall in Hall. specialize (Hall ds Hin). lia. }
  split; [exact Hnz |]. split; [exact Hnd |].
  intros batchSize g' reqID ds count Hin.
  destruct (feed_returns batchSize g' reqID ds count) as (f & ds' & Hf & Hr & Hid & _ & Hc).
  exists f, ds'. repeat (split; [assumption |]).
  intros Hopen. rewrite (Hc Hopen). split; [reflexivity |].
  rewrite List.Forall_forall in Hnz. apply Hnz, Hin.
Qed.

Lemma datasource_ids_witness :
  let dss := snd (constructAll 0 [Null; body failing]) in
  Forall (fun ds => id_ ds <> 0) dss /\ List.NoDup (map id_ dss).
Proof.
  destruct (datasource_ids 0 [Null; body failing]) as (H1 & H2 & _);
    [lia | vm_compute; discriminate |].
  split; assumption.
Defined.

(** C10, as the specification states it, fails: the error datasource
    that [feed] makes is a second datasource, for which the counter
    moves from 1 to 2, with the identifier 1 of the datasource it
    stands in for; and the counter comes back to 0. *)
Lemma error_datasource_shares_id :
  construct 0 (body failing) = (1, failing)
  /\ (exists (f : Fed) (e : DataSource),
        feed SIZE_MAX 1 7 (Some failing) 0 = Some (Ok f)
        /\ returned f = Some e /\ replaced f = true /\ counter f = 2
        /\ id_ e = id_ failing /\ body e <> body failing)
  /\ generateID SIZE_MAX = 0.
Proof.
  split; [reflexivity |]. split; [| reflexivity].
  eexists. eexists. split; [vm_compute; reflexivity |].
  cbn. repeat split; try reflexivity. discriminate.
Qed.

End FeedFacts.

(* ================================================================== *)
(** * Properties of reads with a retransmission *)
(* ================================================================== *)

Module ReadFacts.
Import Bson Select Shard Read.
Import ShardNotions ReadNotions.









End ReadFacts.

(* ================================================================== *)
(** * What a reply holds, and the cursors that a session keeps *)
(* ================================================================== *)

Module ReplyFacts.
Import Bson Feed.
Import FeedNotions ReplyNotions.

(** A property that every turn keeps holds when the loop is left. *)
Lemma while_ind (P : Loop -> Prop) :
  (forall l l', P l -> goesOn l = Ok true -> turn l = Ok (inl l') -> P l') ->
  (forall l l', P l -> goesOn l = Ok true -> turn l = Ok (inr l') -> P l') ->
  forall (fuel : nat) (l l' : Loop), P l -> while fuel l = Some (Ok l') -> P l'.
Proof.
  intros Hl Hr. induction fuel as [| fuel IH]; intros l l' HP Hw; cbn [while] in Hw.
  - destruct (goesOn l) as [[|] | e]; [discriminate | | discriminate].
    injection Hw as <-. exact HP.
  - destruct (goesOn l) as [[|] | e] eqn:Hg; [| | discriminate].
    + destruct (turn l) as [[l1 | l1] | e] eqn:Ht; [| | discriminate].
      * exact (IH l1 l' (Hl l l1 HP Hg Ht) Hw).
      * injection Hw as <-. exact (Hr l l1 HP Hg Ht).
    + injection Hw as <-. exact HP.
Qed.

Lemma feed_loop (batchSize g reqID : Z) (ds : DataSource) (count : Z) :
  exists l,
    while (S (2 * remaining ds))
      (mkLoop g ds false (flags ds) sizeof_ReplyHeader [] 0 (initialCount batchSize count))
    = Some (Ok l).
Proof.
  destruct (FeedFacts.while_total (S (2 * remaining ds))
              (mkLoop g ds false (flags ds) sizeof_ReplyHeader [] 0
                 (initialCount batchSize count))) as (l & Hw & _).
  { unfold measure, remaining. cbn [current].
    destruct (body ds) as [| o c f | p]; [lia | destruct c; lia | lia]. }
  eauto.
Qed.

Lemma wrap_32_64 (x : Z) : wrap 32 (wrap 64 x) = wrap 32 x.
Proof.
  unfold wrap. apply Z.mod_mod_divide. exists (2 ^ 32). reflexivity.
Qed.

Lemma wrap_succ (x y k : Z) :
  wrap 64 x = wrap 64 (y + k) -> wrap 64 (wrap 64 (x + 1)) = wrap 64 (y + (k + 1)).
Proof.
  unfold wrap. intros H. rewrite Z.mod_mod by lia.
  rewrite <- (Z.add_mod_idemp_l x) by lia. rewrite H.
  rewrite Z.add_mod_idemp_l by lia. f_equal. lia.
Qed.

Lemma wrap_succ0 (x k : Z) :
  wrap 64 x = wrap 64 k -> wrap 64 (wrap 64 (x + 1)) = wrap 64 (k + 1).
Proof. intros H. apply (wrap_succ x 0 k H). Qed.

(** ** The stream of documents *)

Lemma Stream_turn (g : Z) (ds : DataSource) (l : Loop) :
  Stream g ds l -> goesOn l = Ok true ->
  exists l', turn l = Ok (inl l') /\ Stream g ds l'.
Proof.
  unfold Stream, goesOn, turn, advance, atEnd, get, quiet, pendingDocs.
  destruct l as [g0 [id pos cl b] ie hf rs dl rc c].
  cbn [current body g_id id_ pos_ closed_ isErr docs retcnt].
  intros (Hg & He & Hq & Hd & Hp & Hr).
  destruct b as [| o co f | [| [o out] r]]; try discriminate.
  - destruct co; [discriminate |]. intros _. cbn [bind]. eexists. split; [reflexivity |].
    cbn [current body g_id id_ pos_ closed_ isErr docs retcnt].
    rewrite <- Hd, <- app_assoc, List.length_app, Nat2Z.inj_add. cbn [List.length app].
    change (Z.of_nat 1) with 1.
    repeat split; try assumption; try reflexivity.
    + apply wrap_succ, Hp.
    + apply wrap_succ0, Hr.
  - intros _. cbn [bind]. cbn [forallb snd] in Hq. destruct out as [what |]; [discriminate |].
    cbn [andb] in Hq. eexists. split; [reflexivity |].
    cbn [current body g_id id_ pos_ closed_ isErr docs retcnt].
    rewrite <- Hd, <- app_assoc, List.length_app, Nat2Z.inj_add. cbn [List.length app map fst].
    change (Z.of_nat 1) with 1.
    repeat split; try assumption; try reflexivity.
    + apply wrap_succ, Hp.
    + apply wrap_succ0, Hr.
Qed.

Lemma Stream_while (g : Z) (ds : DataSource) (fuel : nat) (l l' : Loop) :
  Stream g ds l -> while fuel l = Some (Ok l') -> Stream g ds l'.
Proof.
  apply (while_ind (Stream g ds)).
  - intros l0 l1 HP Hg Ht. destruct (Stream_turn g ds l0 HP Hg) as (l2 & Ht2 & HP2).
    congruence.
  - intros l0 l1 HP Hg Ht. destruct (Stream_turn g ds l0 HP Hg) as (l2 & Ht2 & HP2).
    congruence.
Qed.

(** [Session::feed] on a datasource of which no fetch fails: the
    documents of the reply, followed by those that the returned datasource
    has still to give, are the documents that the given one had to give,
    in their order.  The datasource is not replaced, no identifier is
    drawn, and the next reply starts, modulo 2^32, at [startingFrom +
    numberReturned]. *)
Theorem feed_hands_on_the_stream (batchSize g reqID : Z) (ds : DataSource) (count : Z) :
  quiet ds = true ->
  exists f ds',
    feed batchSize g reqID (Some ds) count = Some (Ok f)
    /\ returned f = Some ds'
    /\ replaced f = false
    /\ counter f = g
    /\ app (documents (reply f)) (pendingDocs ds') = pendingDocs ds
    /\ quiet ds' = true
    /\ startingFrom (reply f) = wrap 32 (pos_ ds)
    /\ numberReturned (reply f) = wrap 32 (Z.of_nat (List.length (documents (reply f))))
    /\ wrap 32 (pos_ ds') = wrap 32 (startingFrom (reply f) + numberReturned (reply f)).
Proof.
  intros Hq. destruct (feed_loop batchSize g reqID ds count) as (l & Hw).
  assert (HS : Stream g ds l).
  { apply (Stream_while g ds _ _ l) in Hw; [exact Hw |].
    unfold Stream. cbn [g_id isErr current docs retcnt app List.length].
    rewrite Z.add_0_r. repeat split; try reflexivity. exact Hq. }
  destruct HS as (Hg & He & Hq' & Hd & Hp & Hr).
  unfold feed. rewrite Hw.
  exists (mkFed (g_id l)
            (mkReply (replySize l) reqID (hdrFlags l)
               (if negb (autoCloses count) && negb (atEnd (current l))
                then id_ (current l) else 0)
               (wrap 32 (pos_ ds)) (wrap 32 (retcnt l)) (docs l))
            (Some (if negb (autoCloses count) && negb (atEnd (current l))
                   then current l else close (current l))) (isErr l)).
  exists (if negb (autoCloses count) && negb (atEnd (current l))
          then current l else close (current l)).
  cbn [returned replaced counter reply documents startingFrom numberReturned].
  assert (Hc : forall x, pendingDocs (close x) = pendingDocs x) by reflexivity.
  assert (Hc' : forall x, quiet (close x) = quiet x) by reflexivity.
  assert (Hc'' : forall x, pos_ (close x) = pos_ x) by reflexivity.
  assert (Hn : wrap 32 (retcnt l) = wrap 32 (Z.of_nat (List.length (docs l)))).
  { rewrite <- (wrap_32_64 (retcnt l)), Hr. apply wrap_32_64. }
  assert (Hpos : wrap 32 (pos_ (current l))
                 = wrap 32 (wrap 32 (pos_ ds) + wrap 32 (retcnt l))).
  { rewrite <- (wrap_32_64 (pos_ (current l))), Hp, wrap_32_64, Hn.
    unfold wrap. rewrite <- Z.add_mod by lia. reflexivity. }
  repeat split; try assumption; try reflexivity;
    destruct (negb (autoCloses count) && negb (atEnd (current l)));
    rewrite ?Hc, ?Hc', ?Hc''; assumption.
Qed.

Lemma feed_hands_on_the_stream_witness :
  exists f ds',
    feed 100 5 1 (Some three) 2 = Some (Ok f)
    /\ returned f = Some ds'
    /\ replaced f = false
    /\ counter f = 5
    /\ app (documents (reply f)) (pendingDocs ds') = pendingDocs three
    /\ quiet ds' = true
    /\ startingFrom (reply f) = wrap 32 (pos_ three)
    /\ numberReturned (reply f) = wrap 32 (Z.of_nat (List.length (documents (reply f))))
    /\ wrap 32 (pos_ ds') = wrap 32 (startingFrom (reply f) + numberReturned (reply f)).
Proof.
  apply (feed_hands_on_the_stream 100 5 1 three 2). reflexivity.
Defined.

(** ** The size of a reply *)

Lemma rawSizes_app (a : list Object) (o : Object) :
  rawSizes (app a [o]) = rawSizes a + rawSize o.
Proof.
  induction a as [| x r IH]; cbn [app rawSizes fold_right] in *; [lia |].
  fold (rawSizes (app r [o])). fold (rawSizes r). lia.
Qed.

Lemma Bounded_turn (c0 : Z) (l : Loop) (t : Loop + Loop) :
  Bounded c0 l -> goesOn l = Ok true -> turn l = Ok t ->
  Bounded c0 (match t with inl l' => l' | inr l' => l' end).
Proof.
  unfold Bounded, goesOn, turn, advance, atEnd, get, queryError, construct, setId.
  destruct l as [g0 [id pos cl b] ie hf rs dl rc c].
  cbn [current body g_id id_ pos_ closed_ isErr docs retcnt replySize cnt].
  intros (Hs & Hm & Hc).
  assert (Hemit : forall o : Object,
            (rs + rawSize o <? MAX_SIZE) && negb (c =? 0) = true ->
            rs + rawSize o = sizeof_ReplyHeader + rawSizes (app dl [o])
            /\ rs + rawSize o < MAX_SIZE
            /\ (c0 < INF ->
                0 <= (if negb (c =? INF) then c - 1 else c)
                /\ (if negb (c =? INF) then c - 1 else c)
                   + Z.of_nat (List.length (app dl [o])) = c0)).
  { intros o Hg. apply andb_prop in Hg. destruct Hg as [Hlt Hne].
    apply Z.ltb_lt in Hlt. apply negb_true_iff, Z.eqb_neq in Hne.
    rewrite rawSizes_app, List.length_app, Nat2Z.inj_add. cbn [List.length].
    split; [lia |]. split; [exact Hlt |]. intros Hi. specialize (Hc Hi).
    destruct (Z.eqb_spec c INF) as [-> | Hn]; cbn [negb]; lia. }
  destruct b as [| o co f | [| [o out] r]]; try discriminate.
  - destruct co; [discriminate |]. cbn [bind]. intros Hg Ht.
    injection Hg as Hg. injection Ht as <-.
    cbn [replySize docs cnt]. exact (Hemit o Hg).
  - cbn [bind]. intros Hg Ht. injection Hg as Hg. destruct out as [what |].
    + destruct (negb (rc =? 0)); injection Ht as <-; cbn [replySize docs cnt];
        repeat split; first [assumption | apply Hc; assumption].
    + injection Ht as <-. cbn [replySize docs cnt]. exact (Hemit o Hg).
Qed.

Lemma Bounded_while (c0 : Z) (fuel : nat) (l l' : Loop) :
  Bounded c0 l -> while fuel l = Some (Ok l') -> Bounded c0 l'.
Proof.
  apply (while_ind (Bounded c0)).
  - intros l0 l1 HP Hg Ht. exact (Bounded_turn c0 l0 (inl l1) HP Hg Ht).
  - intros l0 l1 HP Hg Ht. exact (Bounded_turn c0 l0 (inr l1) HP Hg Ht).
Qed.

(** [Session::feed] answers for every datasource; the reply is the
    36 byte header and its documents, stays under 16 MiB, and, when the
    limit [min(|count|, batchSize)] is set, has no more documents than
    that. *)
Theorem feed_reply_is_bounded (batchSize g reqID : Z) (ds : DataSource) (count : Z) :
  0 <= batchSize ->
  exists f,
    feed batchSize g reqID (Some ds) count = Some (Ok f)
    /\ size (reply f) = sizeof_ReplyHeader + rawSizes (documents (reply f))
    /\ size (reply f) < MAX_SIZE
    /\ (initialCount batchSize count < INF ->
        Z.of_nat (List.length (documents (reply f))) <= initialCount batchSize count)
    /\ (count <> 0 -> - 2 ^ 31 < count < 2 ^ 31 ->
        Z.of_nat (List.length (documents (reply f))) <= Z.abs count).
Proof.
  intros Hb. destruct (feed_loop batchSize g reqID ds count) as (l & Hw).
  assert (HB : Bounded (initialCount batchSize count) l).
  { apply (Bounded_while (initialCount batchSize count) _ _ l) in Hw; [exact Hw |].
    unfold Bounded. cbn [replySize docs cnt rawSizes fold_right List.length].
    split; [reflexivity |]. split; [reflexivity |]. intros Hi. split; [| lia].
    unfold initialCount in *.
    destruct (wrap 64 (swrap 32 (Z.abs count)) =? 0) eqn:E.
    - unfold INF, SIZE_MAX in *. lia.
    - assert (0 <= wrap 64 (swrap 32 (Z.abs count))) by (unfold wrap; apply Z.mod_pos_bound; lia).
      lia. }
  destruct HB as (Hs & Hm & Hc).
  unfold feed. rewrite Hw. eexists. split; [reflexivity |].
  cbn [reply size documents]. split; [exact Hs |]. split; [exact Hm |].
  split; [intros Hi; specialize (Hc Hi); lia |].
  intros Hn Hr.
  assert (Hi : initialCount batchSize count <= Z.abs count).
  { unfold initialCount.
    assert (E : wrap 64 (swrap 32 (Z.abs count)) = Z.abs count).
    { unfold swrap, wrap.
      rewrite (Z.mod_small (Z.abs count + 2 ^ (32 - 1))) by lia.
      replace (Z.abs count + 2 ^ (32 - 1) - 2 ^ (32 - 1)) with (Z.abs count) by lia.
      apply Z.mod_small. lia. }
    rewrite E. destruct (Z.eqb_spec (Z.abs count) 0); [lia |]. lia. }
  assert (Hlt : initialCount batchSize count < INF).
  { unfold INF, SIZE_MAX. lia. }
  specialize (Hc Hlt). lia.
Qed.

Lemma feed_reply_is_bounded_witness :
  exists f,
    feed 100 5 1 (Some three) (-2) = Some (Ok f)
    /\ size (reply f) = sizeof_ReplyHeader + rawSizes (documents (reply f))
    /\ size (reply f) < MAX_SIZE
    /\ (initialCount 100 (-2) < INF ->
        Z.of_nat (List.length (documents (reply f))) <= initialCount 100 (-2))
    /\ (-2 <> 0 -> - 2 ^ 31 < -2 < 2 ^ 31 ->
        Z.of_nat (List.length (documents (reply f))) <= Z.abs (-2)).
Proof.
  apply (feed_reply_is_bounded 100 5 1 three (-2)). lia.
Defined.

End ReplyFacts.

(* ================================================================== *)
(** * The cursor map *)
(* ================================================================== *)

Module CursorFacts.
Import Bson Feed SessionOps.
Import FeedNotions ReplyNotions.

Lemma Open_turn (id : Z) (l : Loop) (t : Loop + Loop) :
  Open id l -> turn l = Ok t -> Open id (match t with inl l' => l' | inr l' => l' end).
Proof.
  unfold Open, turn, advance, atEnd, get, queryError, construct, setId.
  destruct l as [g0 [i pos cl b] ie hf rs dl rc c].
  cbn [current body g_id id_ pos_ closed_ isErr docs retcnt replySize cnt].
  intros (Hi & Hc).
  destruct b as [| o co f | [| [o out] r]]; try discriminate; cbn [bind].
  - destruct co; intros Ht; injection Ht as <-; cbn [current id_ closed_]; auto.
  - destruct out as [what |]; [destruct (negb (rc =? 0)) |];
      intros Ht; injection Ht as <-; cbn [current id_ closed_]; auto.
Qed.

Lemma Open_while (id : Z) (fuel : nat) (l l' : Loop) :
  Open id l -> while fuel l = Some (Ok l') -> Open id l'.
Proof.
  apply (ReplyFacts.while_ind (Open id)).
  - intros l0 l1 HP _ Ht. exact (Open_turn id l0 (inl l1) HP Ht).
  - intros l0 l1 HP _ Ht. exact (Open_turn id l0 (inr l1) HP Ht).
Qed.

(** What [feed] does to an open datasource: the reply names the cursor
    exactly when the returned datasource is still open. *)
Lemma feed_open (batchSize g reqID : Z) (ds : DataSource) (count : Z) :
  closed_ ds = false ->
  exists f ds',
    feed batchSize g reqID (Some ds) count = Some (Ok f)
    /\ returned f = Some ds'
    /\ id_ ds' = id_ ds
    /\ (closed_ ds' = true /\ cursorID (reply f) = 0
        \/ closed_ ds' = false /\ cursorID (reply f) = id_ ds).
Proof.
  intros Hc. destruct (ReplyFacts.feed_loop batchSize g reqID ds count) as (l & Hw).
  assert (HO : Open (id_ ds) l).
  { apply (Open_while (id_ ds) _ _ l) in Hw; [exact Hw |]. split; [reflexivity | exact Hc]. }
  destruct HO as (Hi & Hcl).
  unfold feed. rewrite Hw.
  destruct (negb (autoCloses count) && negb (atEnd (current l)));
    eexists; eexists; (split; [reflexivity |]); cbn [returned reply cursorID];
    (split; [reflexivity |]).
  - split; [exact Hi |]. right. split; assumption.
  - unfold close. cbn [id_ closed_]. split; [exact Hi |]. left. split; reflexivity.
Qed.

Lemma wellKept_find (m : gmap Z DataSource) (k : Z) :
  wellKept m -> cursorFind m k = m !! k.
Proof.
  intros Hk. unfold cursorFind. destruct (m !! k) as [ds |] eqn:E; [| reflexivity].
  destruct (Hk k ds E) as (Hi & _). rewrite Hi, Z.eqb_refl. reflexivity.
Qed.

Lemma wellKept_insert (m : gmap Z DataSource) (ds : DataSource) :
  wellKept m -> id_ ds <> 0 -> closed_ ds = false -> wellKept (<[id_ ds := ds]> m).
Proof.
  intros Hk Hi Hc k d Hl. destruct (Z.eq_dec (id_ ds) k) as [<- | Hn].
  - rewrite lookup_insert_eq in Hl. injection Hl as <-. auto.
  - rewrite lookup_insert_ne in Hl by exact Hn. exact (Hk k d Hl).
Qed.

Lemma wellKept_delete (m : gmap Z DataSource) (k : Z) :
  wellKept m -> wellKept (delete k m).
Proof.
  intros Hk j d Hl. destruct (Z.eq_dec k j) as [<- | Hn].
  - rewrite lookup_delete_eq in Hl. discriminate.
  - rewrite lookup_delete_ne in Hl by exact Hn. exact (Hk j d Hl).
Qed.

(** The [GET_MORE] branch of [Session::run] answers every request, and
    keeps the map in order: every cursor is stored under its own
    identifier, which is not 0, and is open.  No other cursor is touched;
    the reply names the asked cursor exactly when the session still holds
    it afterwards, and names cursor 0 when it does not. *)
Theorem getMore_keeps_the_cursors (batchSize : Z) (s : Session) (reqID cursor nToReturn : Z) :
  wellKept (cursors_ s) ->
  exists s' r,
    getMore batchSize s reqID cursor nToReturn = Some (Ok (s', r))
    /\ wellKept (cursors_ s')
    /\ (forall k, k <> cursor -> cursors_ s' !! k = cursors_ s !! k)
    /\ (cursorID r = 0 /\ cursors_ s' !! cursor = None
        \/ cursorID r = cursor /\ cursor <> 0
           /\ exists ds', cursors_ s' !! cursor = Some ds').
Proof.
  intros Hk. unfold getMore. rewrite (wellKept_find _ cursor Hk).
  destruct (cursors_ s !! cursor) as [ds |] eqn:E.
  - destruct (Hk cursor ds E) as (Hi & Hn & Hc).
    destruct (feed_open batchSize (s_g_id s) reqID ds (swrap 32 nToReturn) Hc)
      as (f & ds' & Hf & Hr & Hi' & Hcase).
    rewrite Hf, Hr. rewrite Hi in *.
    destruct Hcase as [(Hcl & Hcur) | (Hcl & Hcur)]; rewrite Hcl.
    + eexists. eexists. split; [reflexivity |]. unfold cursorErase. cbn [cursors_].
      rewrite Hi'. split; [apply wellKept_delete, Hk |].
      split; [intros k Hne; apply lookup_delete_ne; congruence |].
      left. split; [exact Hcur | apply lookup_delete_eq].
    + assert (HW : wellKept (<[cursor := ds']> (cursors_ s))).
      { rewrite <- Hi'. apply wellKept_insert; [exact Hk | congruence | exact Hcl]. }
      destruct (replaced f); eexists; eexists; (split; [reflexivity |]);
        unfold cursorInsert; cbn [cursors_]; rewrite ?Hi';
        (split; [exact HW |]);
        (split; [intros k Hne; apply lookup_insert_ne; congruence |]);
        right; (split; [exact Hcur |]); (split; [exact Hn |]);
        exists ds'; apply lookup_insert_eq.
  - cbn [feed returned counter reply cursors_ cursorID].
    eexists. eexists. split; [reflexivity |]. cbn [cursors_].
    split; [exact Hk |]. split; [reflexivity |]. left. split; [reflexivity | exact E].
Qed.

Lemma wellKept_session5 : wellKept (cursors_ session5).
Proof.
  intros k ds. unfold session5. cbn [cursors_]. intros H.
  destruct (Z.eq_dec 5 k) as [<- | Hn].
  - rewrite lookup_insert_eq in H. injection H as <-. cbn. repeat split. lia.
  - rewrite lookup_insert_ne in H by exact Hn. rewrite lookup_empty in H. discriminate.
Defined.

Lemma getMore_keeps_the_cursors_witness :
  exists s' r,
    getMore 100 session5 1 5 2 = Some (Ok (s', r))
    /\ wellKept (cursors_ s')
    /\ (forall k, k <> 5 -> cursors_ s' !! k = cursors_ session5 !! k)
    /\ (cursorID r = 0 /\ cursors_ s' !! 5 = None
        \/ cursorID r = 5 /\ 5 <> 0
           /\ exists ds', cursors_ s' !! 5 = Some ds').
Proof.
  apply (getMore_keeps_the_cursors 100 session5 1 5 2). exact wellKept_session5.
Defined.

(** The [QUERY] branch from the call of [feed] on, for an open datasource
    with an identifier other than 0: it answers, the map stays in order,
    no other cursor is touched, and the session stores the datasource
    exactly when the reply names its cursor; when the reply names cursor
    0 the map is as before. *)
Theorem answerQuery_keeps_the_cursors (batchSize : Z) (s : Session) (reqID : Z)
    (ds : DataSource) (nToReturn : Z) :
  wellKept (cursors_ s) -> closed_ ds = false -> id_ ds <> 0 ->
  exists s' r,
    answerQuery batchSize s reqID ds nToReturn = Some (Ok (s', r))
    /\ wellKept (cursors_ s')
    /\ (forall k, k <> id_ ds -> cursors_ s' !! k = cursors_ s !! k)
    /\ (cursorID r = 0 /\ cursors_ s' = cursors_ s
        \/ cursorID r = id_ ds
           /\ exists ds', cursors_ s' !! id_ ds = Some ds').
Proof.
  intros Hk Hc Hn. unfold answerQuery.
  destruct (feed_open batchSize (s_g_id s) reqID ds nToReturn Hc)
    as (f & ds' & Hf & Hr & Hi' & Hcase).
  rewrite Hf, Hr.
  destruct Hcase as [(Hcl & Hcur) | (Hcl & Hcur)]; rewrite Hcl; cbn [negb];
    eexists; eexists; (split; [reflexivity |]); cbn [cursors_].
  - split; [exact Hk |]. split; [reflexivity |]. left. split; [exact Hcur | reflexivity].
  - unfold cursorInsert. rewrite Hi'.
    split; [rewrite <- Hi'; apply wellKept_insert; [exact Hk | congruence | exact Hcl] |].
    split; [intros k Hne; apply lookup_insert_ne; congruence |].
    right. split; [exact Hcur |]. exists ds'. apply lookup_insert_eq.
Qed.

Lemma answerQuery_keeps_the_cursors_witness :
  exists s' r,
    answerQuery 100 (mkSession 5 ∅) 1 three 2 = Some (Ok (s', r))
    /\ wellKept (cursors_ s')
    /\ (forall k, k <> id_ three -> cursors_ s' !! k = cursors_ (mkSession 5 ∅) !! k)
    /\ (cursorID r = 0 /\ cursors_ s' = cursors_ (mkSession 5 ∅)
        \/ cursorID r = id_ three
           /\ exists ds', cursors_ s' !! id_ three = Some ds').
Proof.
  apply (answerQuery_keeps_the_cursors 100 (mkSession 5 ∅) 1 three 2).
  - intros k d H. cbn [cursors_] in H. rewrite lookup_empty in H. discriminate.
  - reflexivity.
  - cbn. lia.
Defined.

(** ** [KILL_CURSORS] *)

Lemma killCursor_spec (m : gmap Z DataSource) (id k : Z) :
  cursorFind (killCursor m id) k = if k =? id then None else cursorFind m k.
Proof.
  unfold killCursor. destruct (cursorFind m id) as [ds |] eqn:E.
  - assert (Hi : id_ ds = id).
    { unfold cursorFind in E. destruct (m !! id) as [d |]; [| discriminate].
      destruct (Z.eqb_spec (id_ d) id); [| discriminate]. injection E as <-. assumption. }
    unfold cursorErase, close. cbn [id_]. rewrite Hi. unfold cursorFind.
    destruct (Z.eqb_spec k id) as [-> | Hn].
    + rewrite lookup_delete_eq. reflexivity.
    + rewrite lookup_delete_ne by congruence. reflexivity.
  - destruct (Z.eqb_spec k id) as [-> | Hn]; [exact E | reflexivity].
Qed.

Lemma killCursors_spec (ids : list Z) (m : gmap Z DataSource) (k : Z) :
  cursorFind (fold_left killCursor ids m) k
  = if existsb (Z.eqb k) ids then None else cursorFind m k.
Proof.
  revert m. induction ids as [| id r IH]; intros m; cbn [fold_left existsb]; [reflexivity |].
  rewrite IH, killCursor_spec. destruct (k =? id), (existsb (Z.eqb k) r); reflexivity.
Qed.

(** After [KILL_CURSORS] the session finds none of the named cursors, so
    that a [GET_MORE] for one of them is answered with the
    [CURSOR_NOT_FOUND] flag, cursor 0 and no document, and changes
    nothing; what the session finds for any other identifier is what it
    found before. *)
Theorem killCursors_forgets (batchSize : Z) (s : Session) (ids : list Z) :
  let s' := killCursors s ids in
  (forall id reqID n, In id ids ->
     cursorFind (cursors_ s') id = None
     /\ getMore batchSize s' reqID id n
        = Some (Ok (s', mkReply sizeof_ReplyHeader reqID CURSOR_NOT_FOUND 0 0 0 [])))
  /\ (forall k, ~ In k ids -> cursorFind (cursors_ s') k = cursorFind (cursors_ s) k).
Proof.
  cbn zeta. split.
  - intros id reqID n Hin.
    assert (Hf : cursorFind (cursors_ (killCursors s ids)) id = None).
    { unfold killCursors. cbn [cursors_]. rewrite killCursors_spec.
      replace (existsb (Z.eqb id) ids) with true; [reflexivity |].
      symmetry. apply existsb_exists. exists id. split; [exact Hin | apply Z.eqb_refl]. }
    split; [exact Hf |]. unfold getMore. rewrite Hf. reflexivity.
  - intros k Hn. unfold killCursors. cbn [cursors_]. rewrite killCursors_spec.
    destruct (existsb (Z.eqb k) ids) eqn:E; [| reflexivity].
    apply existsb_exists in E. destruct E as (x & Hx & He).
    apply Z.eqb_eq in He. subst x. contradiction.
Qed.

End CursorFacts.

(* ================================================================== *)
(** * The two pools of an endpoint are kept apart *)
(* ================================================================== *)

Module PoolKindFacts.
Import Pool.
Import PoolNotions PoolKinds.

Lemma forallb_removelast (f : Connection -> bool) (v : list Connection) :
  forallb f v = true -> forallb f (removelast v) = true.
Proof.
  induction v as [| c [| c' r] IH]; cbn [removelast forallb] in *; [auto | auto |].
  intros H. apply andb_prop in H. destruct H as [Hc H].
  rewrite Hc. cbn [andb]. exact (IH H).
Qed.

Lemma forallb_last (f : Connection -> bool) (v : list Connection) (d : Connection) :
  v <> [] -> forallb f v = true -> f (List.last v d) = true.
Proof.
  induction v as [| c [| c' r] IH]; cbn [List.last forallb] in *; [congruence | |].
  - intros _ H. apply andb_prop in H. tauto.
  - intros _ H. apply andb_prop in H. destruct H as [_ H]. apply IH; [discriminate | exact H].
Qed.

Lemma forallb_push (f : Connection -> bool) (v : list Connection) (c : Connection) :
  forallb f v = true -> f c = true -> forallb f (app v [c]) = true.
Proof.
  intros Hv Hc. rewrite forallb_app, Hv. cbn [forallb]. rewrite Hc. reflexivity.
Qed.

Lemma pop_sorted (p : bool) (v : list Connection) :
  forallb (ofKind p) v = true ->
  forallb (ofKind p) (snd (pop v)) = true
  /\ (fst (pop v) = None \/ ofKind p (fst (pop v)) = true).
Proof.
  intros H. destruct v as [| c r]; [cbn; auto |]. unfold pop. cbn [fst snd]. split.
  - apply forallb_removelast, H.
  - right. apply forallb_last; [discriminate | exact H].
Qed.

Lemma get_sorted (p : bool) (e : Endpoint) :
  sorted e = true ->
  sorted (snd (get p e)) = true /\ ofKind p (fst (get p e)) = true.
Proof.
  unfold sorted. intros H. apply andb_prop in H. destruct H as [Hc Hp].
  unfold get. destruct p.
  - destruct (pop_sorted true (primaries_ e) Hp) as [Hs Hf].
    destruct (pop (primaries_ e)) as [ret v']. cbn [fst snd] in *.
    destruct ret as [i |]; cbn [exists_ fst snd conns_ primaries_];
      rewrite Hc, Hs; split; try reflexivity.
    destruct Hf as [Hf | Hf]; [discriminate | exact Hf].
  - destruct (pop_sorted false (conns_ e) Hc) as [Hs Hf].
    destruct (pop (conns_ e)) as [ret v']. cbn [fst snd] in *.
    destruct ret as [i |]; cbn [exists_ fst snd conns_ primaries_];
      rewrite Hp, Hs; split; try reflexivity.
    destruct Hf as [Hf | Hf]; [discriminate | exact Hf].
Qed.

Lemma release_sorted (cps : N) (c : Connection) (e : Endpoint) :
  sorted e = true -> sorted (release cps c e) = true.
Proof.
  unfold sorted. intros H. pose proof H as H0. apply andb_prop in H. destruct H as [Hc Hp].
  unfold release. destruct c as [i |]; [| exact H0].
  destruct (isPrimary i) eqn:E.
  - destruct (size (primaries_ e) <? cps)%N; [| exact H0]. cbn [conns_ primaries_].
    rewrite Hc. cbn [andb]. apply forallb_push; [exact Hp |]. cbn [ofKind]. now rewrite E.
  - destruct (size (conns_ e) <? cps)%N; [| exact H0]. cbn [conns_ primaries_].
    rewrite Hp, andb_true_r. apply forallb_push; [exact Hc |]. cbn [ofKind]. now rewrite E.
Qed.

Lemma step_sorted (cps : N) (e : Endpoint) (o : Op) :
  sorted e = true -> sorted (step cps e o) = true.
Proof.
  intros H. destruct o as [| | [|] | | c]; cbn [step].
  - apply (get_sorted false e H).
  - apply (get_sorted true e H).
  - unfold sorted in *. apply andb_prop in H. destruct H as [Hc Hp]. cbn [conns_ primaries_].
    rewrite Hc. apply (pop_sorted true _ Hp).
  - unfold sorted in *. apply andb_prop in H. destruct H as [Hc Hp]. cbn [conns_ primaries_].
    rewrite Hp, andb_true_r. apply (pop_sorted false _ Hc).
  - reflexivity.
  - apply release_sorted, H.
Qed.

Lemma run_sorted (cps : N) (ops : list Op) (e : Endpoint) :
  sorted e = true -> sorted (run cps e ops) = true.
Proof.
  revert e. unfold run.
  induction ops as [| o r IH]; intros e H; cbn [fold_left]; [assumption |].
  apply IH, step_sorted, H.
Qed.

(** Whatever has been got, popped, flushed and released on an endpoint,
    in any order and with any connections given back, its pools stay
    apart: [getPrimary] hands out a connection that exists and was made
    for primary use, [getAny] one that exists and was not. *)
Theorem pools_keep_their_kinds (connPoolSize : N) (ops : list Op) :
  let e := run connPoolSize fresh ops in
  (exists i, fst (getPrimary e) = Some i /\ isPrimary i = true)
  /\ (exists i, fst (getAny e) = Some i /\ isPrimary i = false).
Proof.
  cbn zeta. pose proof (run_sorted connPoolSize ops fresh eq_refl) as H.
  split.
  - destruct (get_sorted true _ H) as [_ Hk]. unfold getPrimary.
    destruct (fst (get true (run connPoolSize fresh ops))) as [i |]; [| discriminate].
    exists i. split; [reflexivity |]. cbn [ofKind] in Hk. now apply Bool.eqb_prop in Hk.
  - destruct (get_sorted false _ H) as [_ Hk]. unfold getAny.
    destruct (fst (get false (run connPoolSize fresh ops))) as [i |]; [| discriminate].
    exists i. split; [reflexivity |]. cbn [ofKind] in Hk. now apply Bool.eqb_prop in Hk.
Qed.

Lemma pop_push (v : list Connection) (c : Connection) : pop (app v [c]) = (c, v).
Proof.
  unfold pop. destruct (app v [c]) eqn:E.
  - destruct v; discriminate.
  - rewrite <- E. rewrite List.last_last, List.removelast_last. reflexivity.
Qed.

(** A connection given back to a pool that has room is the next one the
    pool of its kind hands out, authenticated or not as it was, and the
    endpoint is then as before the release; given back to a full pool, it
    is dropped and the next [get] takes what the pool held. *)
Theorem released_connection_is_reused (connPoolSize : N) (e : Endpoint) (i : Impl) :
  ((size (poolOf i e) < connPoolSize)%N ->
   get (isPrimary i) (release connPoolSize (Some i) e) = (Some i, e))
  /\ (~ (size (poolOf i e) < connPoolSize)%N ->
      get (isPrimary i) (release connPoolSize (Some i) e) = get (isPrimary i) e).
Proof.
  unfold poolOf, release, get. destruct e as [cs ps]. cbn [conns_ primaries_].
  destruct (isPrimary i) eqn:E; split; intros H.
  - apply N.ltb_lt in H. rewrite H. cbn [conns_ primaries_]. rewrite pop_push. reflexivity.
  - apply N.ltb_nlt in H. rewrite H. reflexivity.
  - apply N.ltb_lt in H. rewrite H. cbn [conns_ primaries_]. rewrite pop_push. reflexivity.
  - apply N.ltb_nlt in H. rewrite H. reflexivity.
Qed.

End PoolKindFacts.

(* ================================================================== *)
(** * What [Config::Config] has linked when it returns *)
(* ================================================================== *)

Module ConfigFacts.
Import Bson Topology.
Import TopologyNotions RouterNotions.

Lemma mapM_each {A B : Type} (f : A -> result B) (l : list A) (l' : list B) :
  mapM f l = Ok l' -> forall b, In b l' -> exists a, In a l /\ f a = Ok b.
Proof.
  revert l'. induction l as [| x r IH]; intros l' H b Hb; cbn [mapM] in H.
  - injection H as <-. destruct Hb.
  - destruct (f x) as [y | e] eqn:Hx; cbn [bind] in H; [| discriminate].
    destruct (mapM f r) as [ys | e]; cbn [bind] in H; [| discriminate].
    injection H as <-. destruct Hb as [<- | Hb].
    + exists x. split; [left; reflexivity | exact Hx].
    + destruct (IH ys eq_refl b Hb) as (a & Ha & Hf). exists a. split; [right |]; assumption.
Qed.

Lemma Collection_link_no_gap (chunks : list Chunk) (c c' : Collection) :
  Collection_link chunks c = Ok c' ->
  has_gap (firstn (snd (range_ c') - fst (range_ c')) (skipn (fst (range_ c')) chunks)) = false.
Proof.
  unfold Collection_link.
  destruct (has_gap _) eqn:E; [discriminate |]. intros H. injection H as <-.
  cbn [range_]. exact E.
Qed.

Lemma has_gap_setVersion (f : Chunk -> ChunkVersion) (l : list Chunk) :
  has_gap (map (fun ch => setVersion ch (f ch)) l) = has_gap l.
Proof.
  induction l as [| x [| y r] IH]; [reflexivity | reflexivity |].
  cbn [map has_gap] in *. rewrite IH. reflexivity.
Qed.

Lemma firstn_map' {A B : Type} (f : A -> B) (n : nat) (l : list A) :
  firstn n (map f l) = map f (firstn n l).
Proof.
  revert l. induction n as [| n IH]; intros [| x r]; cbn [firstn map]; try reflexivity.
  now rewrite IH.
Qed.

Lemma skipn_map' {A B : Type} (f : A -> B) (n : nat) (l : list A) :
  skipn n (map f l) = map f (skipn n l).
Proof.
  revert l. induction n as [| n IH]; intros [| x r]; cbn [skipn map]; try reflexivity.
  apply IH.
Qed.

(** A configuration that [Config::Config] has built is linked all
    through: every chunk and every database points to the shard that its
    identifier names (the configuration shard for ["config"]), the range
    of every collection is the run of the chunks of its namespace, and
    within that run every chunk begins where the one before it ends.  A
    document for which one of these fails makes no configuration. *)
Theorem Config_is_linked (pool : string -> string -> ShardPtr)
    (connectionString : ShardPtr -> string) (configShard : ShardPtr) (obj : Object)
    (conf : Config) :
  Config_of pool connectionString configShard obj = Ok conf ->
  configShard_ conf = configShard
  /\ (forall ch, In ch (chunks_ conf) ->
        shardByName configShard (shards_ conf) (shardID_ ch) = Ok (shard_ ch))
  /\ (forall d, In d (databases_ conf) ->
        shardByName configShard (shards_ conf) (primaryID_ d) = Ok (primary_ d))
  /\ (forall coll, In coll (collections_ conf) ->
        range_ coll = equal_range chunkNs string_lt (chunks_ conf) (ns (cns_ coll))
        /\ has_gap (chunksOf conf coll) = false).
Proof.
  unfold Config_of. intros H.
  destruct (linkAll pool configShard obj) as [l0 | e] eqn:Hl; cbn [bind] in H; [| discriminate].
  unfold unifyVersions in H.
  destruct (collectVersions connectionString ∅ (chunks_ l0)) as [vs | e];
    cbn [bind] in H; [| discriminate].
  injection H as <-.
  unfold linkAll in Hl.
  destruct (populate fst string_lt ShardConf_of (get obj "shards")) as [shards | e];
    cbn [bind] in Hl; [| discriminate].
  destruct (populate chunkKey pair_lt Chunk_of (get obj "chunks")) as [chunks | e];
    cbn [bind] in Hl; [| discriminate].
  destruct (populate collectionKey string_lt Collection_of (get obj "collections"))
    as [collections | e]; cbn [bind] in Hl; [| discriminate].
  destruct (populate name_ string_lt Database_of (get obj "databases")) as [databases | e];
    cbn [bind] in Hl; [| discriminate].
  set (shards' := map (fun s => (fst s, pool (fst s) (snd s))) shards) in *.
  destruct (mapM (Chunk_link configShard shards') chunks) as [chunks' | e] eqn:Hch;
    cbn [bind] in Hl; [| discriminate].
  destruct (mapM (Collection_link chunks') collections) as [collections' | e] eqn:Hco;
    cbn [bind] in Hl; [| discriminate].
  destruct (mapM (Database_link configShard shards') databases) as [databases' | e] eqn:Hdb;
    cbn [bind] in Hl; [| discriminate].
  injection Hl as <-. cbn [configShard_ shards_ chunks_ collections_ databases_].
  split; [reflexivity |]. split; [| split].
  - intros ch Hin. unfold applyVersions in Hin. apply in_map_iff in Hin.
    destruct Hin as (c0 & <- & Hin). cbn [setVersion shardID_ shard_].
    destruct (mapM_each _ _ _ Hch c0 Hin) as (a & _ & Ha).
    unfold Chunk_link in Ha.
    destruct (shardByName configShard shards' (shardID_ a)) as [p | e] eqn:Hs;
      cbn [bind] in Ha; [| discriminate].
    injection Ha as <-. cbn [shardID_ shard_]. exact Hs.
  - intros d Hin. destruct (mapM_each _ _ _ Hdb d Hin) as (a & _ & Ha).
    unfold Database_link in Ha.
    destruct (shardByName configShard shards' (primaryID_ a)) as [p | e] eqn:Hs;
      cbn [bind] in Ha; [| discriminate].
    injection Ha as <-. cbn [primaryID_ primary_]. exact Hs.
  - intros coll Hin. destruct (mapM_each _ _ _ Hco coll Hin) as (a & _ & Ha).
    pose proof (Collection_link_no_gap _ _ _ Ha) as Hg.
    unfold applyVersions, chunksOf. cbn [chunks_]. split.
    + unfold equal_range.
      rewrite RouterFacts.lower_bound_setVersion, RouterFacts.upper_bound_setVersion.
      unfold Collection_link in Ha. destruct (has_gap _); [discriminate |].
      injection Ha as <-. reflexivity.
    + rewrite skipn_map', firstn_map', has_gap_setVersion. exact Hg.
Qed.

Lemma Config_is_linked_witness :
  configShard_ exampleConfig = 100
  /\ (forall ch, In ch (chunks_ exampleConfig) ->
        shardByName 100 (shards_ exampleConfig) (shardID_ ch) = Ok (shard_ ch))
  /\ (forall d, In d (databases_ exampleConfig) ->
        shardByName 100 (shards_ exampleConfig) (primaryID_ d) = Ok (primary_ d))
  /\ (forall coll, In coll (collections_ exampleConfig) ->
        range_ coll = equal_range chunkNs string_lt (chunks_ exampleConfig) (ns (cns_ coll))
        /\ has_gap (chunksOf exampleConfig coll) = false).
Proof.
  apply (Config_is_linked examplePool exampleConnectionString 100 exampleTopology).
  vm_compute. reflexivity.
Defined.

End ConfigFacts.

(* ================================================================== *)
(** * Looking up a sorted vector (sorted_vector.h) *)
(* ================================================================== *)

Module SortedVectorFacts.
Import Bson Topology.
Import SortedNotions.

(** ** The order of [std::string] *)

Lemma ascii_lt_trans (a b c : ascii) :
  Ascii.compare a b = Lt -> Ascii.compare b c = Lt -> Ascii.compare a c = Lt.
Proof.
  unfold Ascii.compare. rewrite !N.compare_lt_iff. lia.
Qed.

Lemma string_compare_trans (a : string) :
  forall b c, String.compare a b = Lt -> String.compare b c = Lt -> String.compare a c = Lt.
Proof.
  induction a as [| x a IH]; intros [| y b] [| z c]; cbn [String.compare];
    try discriminate; try reflexivity.
  destruct (Ascii.compare x y) eqn:Exy; [| | discriminate].
  - apply Ascii.compare_eq_iff in Exy. subst y.
    destruct (Ascii.compare x z); [apply IH | reflexivity | discriminate].
  - destruct (Ascii.compare y z) eqn:Eyz; [| | discriminate].
    + apply Ascii.compare_eq_iff in Eyz. subst z. rewrite Exy. reflexivity.
    + rewrite (ascii_lt_trans x y z Exy Eyz). reflexivity.
Qed.

Lemma string_lt_trans (a b c : string) :
  string_lt a b = true -> string_lt b c = true -> string_lt a c = true.
Proof.
  unfold string_lt, String.ltb. intros H1 H2.
  destruct (String.compare a b) eqn:E1; try discriminate.
  destruct (String.compare b c) eqn:E2; try discriminate.
  now rewrite (string_compare_trans a b c E1 E2).
Qed.

Lemma string_lt_irrefl (a : string) : string_lt a a = false.
Proof.
  unfold string_lt, String.ltb. pose proof (String.compare_antisym a a) as H.
  destruct (String.compare a a); try reflexivity. discriminate.
Qed.

Lemma string_lt_total (a b : string) :
  string_lt a b = false -> string_lt b a = false -> a = b.
Proof.
  unfold string_lt, String.ltb. intros H1 H2. apply String.compare_eq_iff.
  rewrite (String.compare_antisym a b) in *.
  destruct (String.compare b a); try discriminate; reflexivity.
Qed.

(** ** A vector with keys in a strict total order *)

Section Ordered.
Context {T Key : Type}.
Variable ext : T -> Key.
Variable lt : Key -> Key -> bool.
Variable eq : Key -> Key -> bool.
Hypothesis lt_irrefl : forall a, lt a a = false.
Hypothesis lt_trans : forall a b c, lt a b = true -> lt b c = true -> lt a c = true.
Hypothesis lt_total : forall a b, lt a b = false -> lt b a = false -> a = b.
Hypothesis eq_spec : forall a b, eq a b = true <-> a = b.

Lemma lt_asym (a b : Key) : lt a b = true -> lt b a = false.
Proof.
  intros H. destruct (lt b a) eqn:E; [| reflexivity].
  pose proof (lt_trans a b a H E) as C. rewrite lt_irrefl in C. discriminate.
Qed.

Lemma le_lt_trans (a b c : Key) : lt b a = false -> lt b c = true -> lt a c = true.
Proof.
  intros H1 H2. destruct (lt a b) eqn:E.
  - exact (lt_trans a b c E H2).
  - now rewrite (lt_total a b E H1).
Qed.

Lemma le_trans (a b c : Key) : lt b a = false -> lt c b = false -> lt c a = false.
Proof.
  intros H1 H2. destruct (lt c a) eqn:E; [| reflexivity].
  rewrite (le_lt_trans b c a H2 E) in H1. discriminate.
Qed.

Lemma insert_sorted_In (x y : T) (v : list T) :
  In y (insert_sorted ext lt x v) <-> y = x \/ In y v.
Proof.
  induction v as [| z r IH]; cbn [insert_sorted In]; [intuition congruence |].
  destruct (lt (ext x) (ext z)); cbn [In]; [| rewrite IH]; intuition congruence.
Qed.

Lemma insert_sorted_ascending (x : T) (v : list T) :
  ascending ext lt v -> ascending ext lt (insert_sorted ext lt x v).
Proof.
  induction v as [| z r IH]; cbn [insert_sorted ascending].
  - intros _. split; [intros y [] | exact I].
  - intros [Hz Hr]. destruct (lt (ext x) (ext z)) eqn:E; cbn [ascending].
    + split; [| split; assumption].
      intros y [<- | Hy]; [apply lt_asym, E |].
      apply (le_trans _ (ext z)); [apply lt_asym, E | apply Hz, Hy].
    + split; [| apply IH, Hr].
      intros y Hy. apply insert_sorted_In in Hy. destruct Hy as [-> | Hy]; [exact E | apply Hz, Hy].
Qed.

Lemma finish_from (v acc : list T) (y : T) :
  In y (fold_left (fun acc x => insert_sorted ext lt x acc) v acc) <-> In y v \/ In y acc.
Proof.
  revert acc. induction v as [| x r IH]; intros acc; cbn [fold_left In]; [tauto |].
  rewrite IH, insert_sorted_In. intuition congruence.
Qed.

Lemma finish_In (v : list T) (y : T) : In y (finish ext lt v) <-> In y v.
Proof. unfold finish. rewrite finish_from. cbn [In]. tauto. Qed.

Lemma finish_ascending (v : list T) : ascending ext lt (finish ext lt v).
Proof.
  unfold finish. assert (H : ascending ext lt []) by exact I. revert H.
  generalize (@nil T). induction v as [| x r IH]; intros acc H; cbn [fold_left]; [exact H |].
  apply IH, insert_sorted_ascending, H.
Qed.

Lemma finish_length (v : list T) : List.length (finish ext lt v) = List.length v.
Proof.
  unfold finish.
  assert (H : forall acc, List.length (fold_left (fun acc x => insert_sorted ext lt x acc) v acc)
                          = (List.length v + List.length acc)%nat).
  { induction v as [| x r IH]; intros acc; cbn [fold_left List.length]; [reflexivity |].
    rewrite IH. assert (L : forall w, List.length (insert_sorted ext lt x w) = S (List.length w)).
    { induction w as [| z w IHw]; cbn [insert_sorted List.length]; [reflexivity |].
      destruct (lt (ext x) (ext z)); cbn [List.length]; [reflexivity | now rewrite IHw]. }
    rewrite L. lia. }
  rewrite H. cbn [List.length]. lia.
Qed.

(** [find] on an ascending vector. *)
Lemma findPtr_ascending (v : list T) (k : Key) :
  ascending ext lt v ->
  match findPtr ext lt eq v k with
  | Some x => In x v /\ ext x = k
  | None => forall y, In y v -> ext y <> k
  end.
Proof.
  unfold findPtr, find_. induction v as [| x r IH]; cbn [lower_bound ascending].
  - intros _. cbn [nth_error]. intros y [].
  - intros [Hx Hr]. specialize (IH Hr). destruct (lt (ext x) k) eqn:E.
    + cbn [nth_error].
      destruct (nth_error r (lower_bound ext lt r k)) as [z |] eqn:Hn.
      * destruct (eq (ext z) k) eqn:Ez.
        -- cbn [nth_error]. rewrite Hn in *. destruct IH as [Hi Hk]. split; [right |]; assumption.
        -- intros y [<- | Hy]; [| apply IH, Hy].
           intros Hk. rewrite Hk, lt_irrefl in E. discriminate.
      * intros y [<- | Hy]; [| apply IH, Hy].
        intros Hk. rewrite Hk, lt_irrefl in E. discriminate.
    + cbn [nth_error]. destruct (eq (ext x) k) eqn:Ex.
      * cbn [nth_error]. split; [left; reflexivity | apply eq_spec, Ex].
      * intros y [<- | Hy].
        -- intros Hk. apply eq_spec in Hk. congruence.
        -- intros Hk. specialize (Hx y Hy). rewrite <- Hk in E.
           assert (He : ext x = ext y) by (apply lt_total; assumption).
           rewrite Hk in He. apply eq_spec in He. congruence.
Qed.

End Ordered.

(** A [SortedVector] with [std::string] keys, after [finish()]: [find]
    gives an element of the vector that has the key when there is one,
    and [end()] only when there is none, so that [findRef] throws
    [std::out_of_range] exactly for a key that no element has.  [finish]
    loses and adds nothing. *)
Theorem find_after_finish {T : Type} (extractor_ : T -> string) (v : list T) (k : string) :
  let sv := finish extractor_ string_lt v in
  (forall x, In x sv <-> In x v)
  /\ List.length sv = List.length v
  /\ match findPtr extractor_ string_lt String.eqb sv k with
     | Some x => In x v /\ extractor_ x = k
                 /\ findRef extractor_ string_lt String.eqb sv k = Ok x
     | None => (forall y, In y v -> extractor_ y <> k)
               /\ findRef extractor_ string_lt String.eqb sv k
                  = Throw (OutOfRange "key not found")
     end.
Proof.
  cbn zeta. split; [intros x; apply finish_In |]. split; [apply finish_length |].
  assert (Ha : ascending extractor_ string_lt (finish extractor_ string_lt v)).
  { apply finish_ascending;
      [exact string_lt_irrefl | exact string_lt_trans | exact string_lt_total]. }
  assert (H := Ha). apply (findPtr_ascending extractor_ string_lt String.eqb) with (k := k) in H;
    [| exact string_lt_irrefl | exact string_lt_total | exact String.eqb_eq].
  unfold findRef.
  destruct (findPtr extractor_ string_lt String.eqb (finish extractor_ string_lt v) k) as [x |].
  - destruct H as [Hi Hk]. split; [apply finish_In in Hi; exact Hi |]. split; [exact Hk | reflexivity].
  - split; [| reflexivity]. intros y Hy. apply H, finish_In, Hy.
Qed.

End SortedVectorFacts.

(* ================================================================== *)
(** * Looking up the tables of a configuration (config.h) *)
(* ================================================================== *)

Module LookupFacts.
Import Bson Topology.
Import TopologyNotions SortedNotions.

Lemma ascending_keys {T U Key : Type} (e1 : T -> Key) (e2 : U -> Key)
    (lt : Key -> Key -> bool) (v : list T) :
  forall w : list U, map e1 v = map e2 w -> ascending e1 lt v -> ascending e2 lt w.
Proof.
  induction v as [| x r IH]; intros [| y w] He; try discriminate; cbn [ascending map] in *.
  - auto.
  - injection He as Hx Hr. intros [Hh Ht]. split; [| exact (IH w Hr Ht)].
    intros z Hz. assert (Hi : In (e2 z) (map e1 r)) by (rewrite Hr; apply in_map, Hz).
    apply in_map_iff in Hi. destruct Hi as (z' & Hk & Hz').
    rewrite <- Hk, <- Hx. apply Hh, Hz'.
Qed.

Lemma mapM_keys {A B Key : Type} (f : A -> result B) (k1 : A -> Key) (k2 : B -> Key)
    (l : list A) :
  (forall a b, f a = Ok b -> k2 b = k1 a) ->
  forall l', mapM f l = Ok l' -> map k1 l = map k2 l'.
Proof.
  intros Hf. induction l as [| x r IH]; intros l' H; cbn [mapM] in H.
  - injection H as <-. reflexivity.
  - destruct (f x) as [y | e] eqn:Hx; cbn [bind] in H; [| discriminate].
    destruct (mapM f r) as [ys | e]; cbn [bind] in H; [| discriminate].
    injection H as <-. cbn [map]. rewrite (Hf x y Hx), (IH ys eq_refl). reflexivity.
Qed.

Lemma populate_ascending {T : Type} (ext : T -> string) (make : Object -> result T)
    (arr : Element) (v : list T) :
  populate ext string_lt make arr = Ok v -> ascending ext string_lt v.
Proof.
  unfold populate. destruct (as_array arr) as [a | e]; cbn [bind]; [| discriminate].
  destruct (emplace_all make a) as [l | e]; cbn [bind]; [| discriminate].
  intros H. injection H as <-.
  apply SortedVectorFacts.finish_ascending;
    [exact SortedVectorFacts.string_lt_irrefl | exact SortedVectorFacts.string_lt_trans
     | exact SortedVectorFacts.string_lt_total].
Qed.

Lemma findPtr_strings {T : Type} (ext : T -> string) (v : list T) (k : string) :
  ascending ext string_lt v ->
  match findPtr ext string_lt String.eqb v k with
  | Some x => In x v /\ ext x = k
  | None => forall y, In y v -> ext y <> k
  end.
Proof.
  apply SortedVectorFacts.findPtr_ascending;
    [exact SortedVectorFacts.string_lt_irrefl | exact SortedVectorFacts.string_lt_total
     | exact String.eqb_eq].
Qed.

(** In a configuration that [Config::Config] has built, the lookups by
    name are exact: [database] and [collection] give an entry of their
    table that has the name when the table has one and a null pointer
    only when it has none, and [shard], for a name other than ["config"],
    gives the shard of an entry with that identifier and throws
    [std::out_of_range] only when no entry has it. *)
Theorem Config_lookups_are_exact (pool : string -> string -> ShardPtr)
    (connectionString : ShardPtr -> string) (configShard : ShardPtr) (obj : Object)
    (conf : Config) :
  Config_of pool connectionString configShard obj = Ok conf ->
  (forall nm,
     match database conf nm with
     | Some d => In d (databases_ conf) /\ name_ d = nm
     | None => forall d, In d (databases_ conf) -> name_ d <> nm
     end)
  /\ (forall n,
        match collectionOf conf n with
        | Some c => In c (collections_ conf) /\ ns (cns_ c) = ns n
        | None => forall c, In c (collections_ conf) -> ns (cns_ c) <> ns n
        end)
  /\ (forall nm, nm <> "config" ->
        match shardByName configShard (shards_ conf) nm with
        | Ok p => In (nm, p) (shards_ conf)
        | Throw e => e = OutOfRange "key not found"
                     /\ forall p, ~ In (nm, p) (shards_ conf)
        end).
Proof.
  unfold Config_of. intros H.
  destruct (linkAll pool configShard obj) as [l0 | e] eqn:Hl; cbn [bind] in H; [| discriminate].
  unfold unifyVersions in H.
  destruct (collectVersions connectionString ∅ (chunks_ l0)) as [vs | e];
    cbn [bind] in H; [| discriminate].
  injection H as <-.
  unfold linkAll in Hl.
  destruct (populate fst string_lt ShardConf_of (get obj "shards")) as [shards | e] eqn:Hsh;
    cbn [bind] in Hl; [| discriminate].
  destruct (populate chunkKey pair_lt Chunk_of (get obj "chunks")) as [chunks | e];
    cbn [bind] in Hl; [| discriminate].
  destruct (populate collectionKey string_lt Collection_of (get obj "collections"))
    as [collections | e] eqn:Hcs; cbn [bind] in Hl; [| discriminate].
  destruct (populate name_ string_lt Database_of (get obj "databases"))
    as [databases | e] eqn:Hds; cbn [bind] in Hl; [| discriminate].
  set (shards' := map (fun s => (fst s, pool (fst s) (snd s))) shards) in *.
  destruct (mapM (Chunk_link configShard shards') chunks) as [chunks' | e];
    cbn [bind] in Hl; [| discriminate].
  destruct (mapM (Collection_link chunks') collections) as [collections' | e] eqn:Hco;
    cbn [bind] in Hl; [| discriminate].
  destruct (mapM (Database_link configShard shards') databases) as [databases' | e] eqn:Hdb;
    cbn [bind] in Hl; [| discriminate].
  injection Hl as <-. unfold database, collectionOf.
  cbn [configShard_ shards_ chunks_ collections_ databases_].
  split; [| split].
  - intros nm. apply findPtr_strings.
    apply (ascending_keys name_ name_ string_lt databases); [| exact (populate_ascending _ _ _ _ Hds)].
    apply (mapM_keys (Database_link configShard shards') name_ name_ databases);
      [| exact Hdb].
    intros a b Hab. unfold Database_link in Hab.
    destruct (shardByName configShard shards' (primaryID_ a)); cbn [bind] in Hab; [| discriminate].
    injection Hab as <-. reflexivity.
  - intros n. apply findPtr_strings.
    apply (ascending_keys collectionKey collectionKey string_lt collections);
      [| exact (populate_ascending _ _ _ _ Hcs)].
    apply (mapM_keys (Collection_link chunks') collectionKey collectionKey collections);
      [| exact Hco].
    intros a b Hab. unfold Collection_link in Hab.
    destruct (has_gap _); [discriminate |]. injection Hab as <-. reflexivity.
  - intros nm Hn. unfold shardByName, findRef.
    replace (String.eqb nm "config") with false
      by (symmetry; apply String.eqb_neq, Hn).
    assert (Ha : ascending fst string_lt shards').
    { apply (ascending_keys fst fst string_lt shards); [| exact (populate_ascending _ _ _ _ Hsh)].
      unfold shards'. rewrite map_map. reflexivity. }
    pose proof (findPtr_strings fst shards' nm Ha) as Hf.
    destruct (findPtr fst string_lt String.eqb shards' nm) as [[i p] |]; cbn [bind].
    + destruct Hf as [Hi Hk]. cbn [fst snd] in *. subst i. exact Hi.
    + split; [reflexivity |]. intros p Hp. exact (Hf (nm, p) Hp eq_refl).
Qed.

Lemma Config_lookups_are_exact_witness :
  (forall nm,
     match database exampleConfig nm with
     | Some d => In d (databases_ exampleConfig) /\ name_ d = nm
     | None => forall d, In d (databases_ exampleConfig) -> name_ d <> nm
     end)
  /\ (forall n,
        match collectionOf exampleConfig n with
        | Some c => In c (collections_ exampleConfig) /\ ns (cns_ c) = ns n
        | None => forall c, In c (collections_ exampleConfig) -> ns (cns_ c) <> ns n
        end)
  /\ (forall nm, nm <> "config" ->
        match shardByName 100 (shards_ exampleConfig) nm with
        | Ok p => In (nm, p) (shards_ exampleConfig)
        | Throw e => e = OutOfRange "key not found"
                     /\ forall p, ~ In (nm, p) (shards_ exampleConfig)
        end).
Proof.
  apply (Config_lookups_are_exact examplePool exampleConnectionString 100 exampleTopology).
  vm_compute. reflexivity.
Defined.

End LookupFacts.

(* ================================================================== *)
(** * The comparison operators of documents (bson.h) *)
(* ================================================================== *)

Module OrderFacts.
Import Bson.
Import OrderNotions.

Lemma Value_nested_ind (P : Value -> Prop) :
  (forall fs, (forall n v, In (n, v) fs -> P v) -> P (VObject fs)) ->
  (forall fs, (forall n v, In (n, v) fs -> P v) -> P (VArray fs)) ->
  (forall v, match v with VObject _ | VArray _ => True | _ => P v end) ->
  forall v, P v.
Proof.
  intros HO HA HS. fix IH 1. intros v.
  destruct v as [d | s | fs | fs | st bs | bs | b | t | | i | ts | i | |];
    try (match goal with |- P ?x => exact (HS x) end).
  - apply HO. induction fs as [| [n x] r IHr]; intros n' v' Hin; [destruct Hin |].
    destruct Hin as [E | Hin]; [| exact (IHr n' v' Hin)].
    injection E as _ <-. apply IH.
  - apply HA. induction fs as [| [n x] r IHr]; intros n' v' Hin; [destruct Hin |].
    destruct Hin as [E | Hin]; [| exact (IHr n' v' Hin)].
    injection E as _ <-. apply IH.
Qed.

Lemma verdict_opp (c : Cmp) (o : option comparison) :
  verdict c (option_map CompOpp (option_map CompOpp o)) = verdict c o.
Proof. destruct o as [[| |] |]; reflexivity. Qed.

Lemma lex_compare_antisym (a : list Z) : forall b, lex_compare b a = CompOpp (lex_compare a b).
Proof.
  induction a as [| x a IH]; intros [| y b]; cbn [lex_compare]; try reflexivity.
  rewrite (Z.compare_antisym x y). destruct (x ?= y); cbn [CompOpp]; auto.
Qed.

Lemma dcompare_converse (x y : double) : dcompare y x = option_map CompOpp (dcompare x y).
Proof.
  destruct x as [| [|] | m1 e1], y as [| [|] | m2 e2]; try reflexivity.
  cbn [dcompare option_map]. unfold dfin_compare. rewrite (Z.min_comm e2 e1).
  now rewrite Z.compare_antisym.
Qed.

(** One element against another, given what their values answer. *)
Lemma cmpElement_coherent (na nb : string) (ta tb : Z) (va vb : Cmp -> bool)
    (o : option comparison) :
  (ta = tb -> ta <> 0 ->
   forall c, va c = verdict c o /\ vb c = verdict c (option_map CompOpp o)) ->
  exists o' : option comparison,
    forall c : Cmp,
      cmpElement c na ta nb tb (va c) = verdict c o'
      /\ cmpElement c nb tb na ta (vb c) = verdict c (option_map CompOpp o').
Proof.
  intros Hv. unfold cmpElement. rewrite (String.compare_antisym nb na).
  destruct (String.compare na nb) eqn:En; cbn [CompOpp].
  - destruct (Z.eqb_spec ta tb) as [-> | Hne].
    + rewrite Z.eqb_refl. destruct (Z.eqb_spec tb 0) as [Hz | Hz].
      * exists (Some Eq). intros c. split; reflexivity.
      * exists o. intros c. exact (Hv eq_refl Hz c).
    + replace (tb =? ta) with false by (symmetry; apply Z.eqb_neq; congruence).
      exists (Some (ta ?= tb)). intros c. cbn [verdict option_map].
      rewrite (Z.compare_antisym ta tb). destruct (ta ?= tb); split; reflexivity.
  - exists (Some Lt). intros c. split; reflexivity.
  - exists (Some Gt). intros c. split; reflexivity.
Qed.

Lemma type_of_not_0 (v : Value) : type_of v <> 0.
Proof. destruct v; cbn; lia. Qed.

Section Fields.
Variable wrapv : list (string * Value) -> Value.
Hypothesis wrap_nil_nil : forall c, cmpValues c (wrapv []) (wrapv []) = cmpElement c "" 0 "" 0 false.
Hypothesis wrap_cons_nil : forall c na va ra,
  cmpValues c (wrapv ((na, va) :: ra)) (wrapv []) = cmpElement c na (type_of va) "" 0 false.
Hypothesis wrap_nil_cons : forall c nb vb rb,
  cmpValues c (wrapv []) (wrapv ((nb, vb) :: rb)) = cmpElement c "" 0 nb (type_of vb) false.
Hypothesis wrap_cons_cons : forall c na va ra nb vb rb,
  cmpValues c (wrapv ((na, va) :: ra)) (wrapv ((nb, vb) :: rb))
  = if cmpElement not_equal_to na (type_of va) nb (type_of vb) (cmpValues not_equal_to va vb)
    then cmpElement c na (type_of va) nb (type_of vb) (cmpValues c va vb)
    else cmpValues c (wrapv ra) (wrapv rb).

Lemma coherent_fields (fa : list (string * Value)) :
  (forall n v, In (n, v) fa -> forall b, type_of v = type_of b -> coherent v b) ->
  forall fb, coherent (wrapv fa) (wrapv fb).
Proof.
  induction fa as [| [na va] ra IH]; intros Hall [| [nb vb] rb].
  - exists (Some Eq). intros c. rewrite wrap_nil_nil. split; reflexivity.
  - destruct (cmpElement_coherent "" nb 0 (type_of vb) (fun _ => false) (fun _ => false) None)
      as (o & Ho); [intros H; pose proof (type_of_not_0 vb); congruence |].
    exists o. intros c. rewrite wrap_nil_cons, wrap_cons_nil. exact (Ho c).
  - destruct (cmpElement_coherent na "" (type_of va) 0 (fun _ => false) (fun _ => false) None)
      as (o & Ho); [intros H; pose proof (type_of_not_0 va); congruence |].
    exists o. intros c. rewrite wrap_nil_cons, wrap_cons_nil. exact (Ho c).
  - assert (Hel : exists o : option comparison, forall c : Cmp,
              cmpElement c na (type_of va) nb (type_of vb) (cmpValues c va vb) = verdict c o
              /\ cmpElement c nb (type_of vb) na (type_of va) (cmpValues c vb va)
                 = verdict c (option_map CompOpp o)).
    { destruct (Z.eq_dec (type_of va) (type_of vb)) as [Ht | Ht].
      - destruct (Hall na va (or_introl eq_refl) vb Ht) as (o & Ho).
        apply (cmpElement_coherent na nb _ _ (fun c => cmpValues c va vb)
                 (fun c => cmpValues c vb va) o).
        intros _ _ c. exact (Ho c).
      - apply (cmpElement_coherent na nb _ _ (fun c => cmpValues c va vb)
                 (fun c => cmpValues c vb va) None).
        intros H. contradiction. }
    destruct Hel as (o & Ho).
    destruct (IH (fun n v H => Hall n v (or_intror H)) rb) as (o' & Ho').
    exists (match o with Some Eq => o' | _ => o end). intros c.
    rewrite !wrap_cons_cons.
    rewrite (proj1 (Ho not_equal_to)), (proj2 (Ho not_equal_to)), (proj1 (Ho c)), (proj2 (Ho c)).
    destruct o as [[| |] |]; cbn [verdict option_map CompOpp apply]; try (split; reflexivity).
    exact (Ho' c).
Qed.

End Fields.

Lemma coherent_same_type (a : Value) :
  forall b, type_of a = type_of b -> coherent a b.
Proof.
  revert a.
  apply (Value_nested_ind (fun a => forall b, type_of a = type_of b -> coherent a b)).
  - intros fa IH [ ] Ht; try discriminate Ht.
    apply (coherent_fields VObject); try (intros; reflexivity). exact IH.
  - intros fa IH [ ] Ht; try discriminate Ht.
    apply (coherent_fields VArray); try (intros; reflexivity). exact IH.
  - intros a. destruct a as [x | x | fs | fs | st x | x | x | x | | x | x | x | |]; [| | exact I | exact I | | | | | | | | | |];
      intros [y | y | gs | gs | st' y | y | y | y | | y | y | y | |] Ht; try discriminate Ht.
    + exists (dcompare x y). intros c. cbn [cmpValues]. unfold apply_double.
      rewrite (dcompare_converse x y). destruct (dcompare x y); split; reflexivity.
    + exists (Some (String.compare x y)). intros c. cbn [cmpValues verdict option_map].
      rewrite (String.compare_antisym y x). split; reflexivity.
    + exists (Some (lex_compare (map schar x) (map schar y))). intros c.
      cbn [cmpValues verdict option_map]. rewrite (lex_compare_antisym (map schar x)).
      split; reflexivity.
    + exists (Some (lex_compare x y)). intros c. cbn [cmpValues verdict option_map].
      rewrite (lex_compare_antisym x). split; reflexivity.
    + exists (Some (Z.b2z x ?= Z.b2z y)). intros c. cbn [cmpValues verdict option_map].
      rewrite (Z.compare_antisym (Z.b2z x)). split; reflexivity.
    + exists (Some (x ?= y)). intros c. cbn [cmpValues verdict option_map].
      rewrite (Z.compare_antisym x). split; reflexivity.
    + exists (Some Eq). intros c. split; reflexivity.
    + exists (Some (x ?= y)). intros c. cbn [cmpValues verdict option_map].
      rewrite (Z.compare_antisym x). split; reflexivity.
    + exists (Some (x ?= y)). intros c. cbn [cmpValues verdict option_map].
      rewrite (Z.compare_antisym x). split; reflexivity.
    + exists (Some (x ?= y)). intros c. cbn [cmpValues verdict option_map].
      rewrite (Z.compare_antisym x). split; reflexivity.
    + exists (Some Eq). intros c. split; reflexivity.
    + exists (Some Eq). intros c. split; reflexivity.
Qed.

(** The operators of [bson::Object] agree with each other, whatever the
    documents hold: [!=] is the negation of [==]; [>] and [>=] are [<] and
    [<=] the other way round and [==] does not depend on the side; of
    [<], [==] and [>] at most one holds; [<=] is [<] or [==]; and no
    document is less than itself. *)
Theorem operators_agree (a b : Object) :
  cmp not_equal_to a b = negb (cmp equal_to a b)
  /\ cmp greater a b = cmp less b a
  /\ cmp greater_equal a b = cmp less_equal b a
  /\ cmp equal_to a b = cmp equal_to b a
  /\ cmp less_equal a b = (cmp less a b || cmp equal_to a b)
  /\ (cmp less a b = true -> cmp greater a b = false /\ cmp equal_to a b = false)
  /\ (cmp equal_to a b = true -> cmp less a b = false /\ cmp greater a b = false)
  /\ cmp less a a = false.
Proof.
  unfold cmp.
  destruct (coherent_same_type (VObject a) (VObject b) eq_refl) as (o & Ho).
  destruct (coherent_same_type (VObject a) (VObject a) eq_refl) as (o' & Ho').
  rewrite (proj1 (Ho not_equal_to)), (proj1 (Ho equal_to)), (proj1 (Ho greater)),
    (proj1 (Ho less)), (proj1 (Ho greater_equal)), (proj1 (Ho less_equal)),
    (proj2 (Ho less)), (proj2 (Ho less_equal)), (proj2 (Ho equal_to)).
  pose proof (proj1 (Ho' less)) as H1. pose proof (proj2 (Ho' less)) as H2.
  rewrite H1 in *.
  assert (Hs : verdict less o' = false).
  { destruct o' as [[| |] |]; cbn in *; congruence. }
  rewrite Hs.
  destruct o as [[| |] |]; cbn [verdict apply option_map CompOpp negb orb];
    repeat split; intros; try reflexivity; discriminate.
Qed.

(** ** A document and itself *)

Lemma string_compare_refl (s : string) : String.compare s s = Eq.
Proof.
  pose proof (String.compare_antisym s s) as H. destruct (String.compare s s); try reflexivity;
    discriminate.
Qed.

Lemma lex_compare_refl (a : list Z) : lex_compare a a = Eq.
Proof.
  induction a as [| x a IH]; cbn [lex_compare]; [reflexivity |].
  now rewrite Z.compare_refl.
Qed.

Lemma cmpElement_self (c : Cmp) (n : string) (v : Value) (vals : bool) :
  cmpElement c n (type_of v) n (type_of v) vals = vals.
Proof.
  unfold cmpElement. rewrite string_compare_refl, Z.eqb_refl.
  pose proof (type_of_not_0 v) as H. apply Z.eqb_neq in H. now rewrite H.
Qed.

Section Self.
Variable wrapv : list (string * Value) -> Value.
Hypothesis wrap_nil_nil : forall c, cmpValues c (wrapv []) (wrapv []) = cmpElement c "" 0 "" 0 false.
Hypothesis wrap_cons_cons : forall c na va ra nb vb rb,
  cmpValues c (wrapv ((na, va) :: ra)) (wrapv ((nb, vb) :: rb))
  = if cmpElement not_equal_to na (type_of va) nb (type_of vb) (cmpValues not_equal_to va vb)
    then cmpElement c na (type_of va) nb (type_of vb) (cmpValues c va vb)
    else cmpValues c (wrapv ra) (wrapv rb).
Hypothesis ordered_nil : ordered (wrapv []) = true.
Hypothesis ordered_cons : forall n v r,
  ordered (wrapv ((n, v) :: r)) = ordered v && ordered (wrapv r).

Lemma self_fields (fs : list (string * Value)) :
  (forall n v, In (n, v) fs ->
     cmpValues equal_to v v = ordered v /\ cmpValues not_equal_to v v = negb (ordered v)) ->
  cmpValues equal_to (wrapv fs) (wrapv fs) = ordered (wrapv fs)
  /\ cmpValues not_equal_to (wrapv fs) (wrapv fs) = negb (ordered (wrapv fs)).
Proof.
  induction fs as [| [n v] r IH]; intros Hall.
  - rewrite !wrap_nil_nil, ordered_nil. split; reflexivity.
  - rewrite !wrap_cons_cons, !cmpElement_self, ordered_cons.
    destruct (Hall n v (or_introl eq_refl)) as [He Hn]. rewrite He, Hn.
    destruct (ordered v); cbn [negb andb]; [| split; reflexivity].
    apply IH. intros n' v' H. apply (Hall n' v'). right. exact H.
Qed.

End Self.

Lemma self_all (v : Value) :
  cmpValues equal_to v v = ordered v /\ cmpValues not_equal_to v v = negb (ordered v).
Proof.
  revert v.
  apply (Value_nested_ind (fun v => cmpValues equal_to v v = ordered v
                                    /\ cmpValues not_equal_to v v = negb (ordered v))).
  - intros fs IH. apply (self_fields VObject); try (intros; reflexivity). exact IH.
  - intros fs IH. apply (self_fields VArray); try (intros; reflexivity). exact IH.
  - intros [x | x | fs | fs | st x | x | x | x | | x | x | x | |]; try exact I;
      cbn [cmpValues ordered];
      rewrite ?string_compare_refl, ?lex_compare_refl, ?Z.compare_refl; try (split; reflexivity).
    unfold apply_double. destruct x as [| [|] | m e]; cbn [dcompare isnan negb];
      try (split; reflexivity).
    unfold dfin_compare. rewrite Z.compare_refl. split; reflexivity.
Qed.

(** A document is equal to itself exactly when it holds no NaN, at any
    depth; with a NaN in it, [==] answers false and [!=] true for the
    document and itself. *)
Theorem equal_to_itself (a : Object) :
  cmp equal_to a a = ordered (VObject a)
  /\ cmp not_equal_to a a = negb (ordered (VObject a)).
Proof. unfold cmp. apply self_all. Qed.

End OrderFacts.

(* ================================================================== *)
(** * Properties of privileges and authentication *)
(* ================================================================== *)

Module AuthFacts.
Import Bson Auth.
Import AuthNotions.

Lemma land_bit (m k : Z) : 0 <= k -> (Z.land m (Z.shiftl 1 k) =? 0) = negb (Z.testbit m k).
Proof.
  intros Hk. rewrite Z.shiftl_1_l.
  destruct (Z.testbit m k) eqn:E; cbn [negb].
  - apply Z.eqb_neq. intros H.
    assert (Hb : Z.testbit (Z.land m (2 ^ k)) k = true).
    { rewrite Z.land_spec, E, Z.pow2_bits_true by exact Hk. reflexivity. }
    rewrite H, Z.bits_0 in Hb. discriminate.
  - apply Z.eqb_eq. apply Z.bits_inj'. intros n Hn.
    rewrite Z.land_spec, Z.bits_0, Z.pow2_bits_eqb by exact Hk.
    destruct (Z.eqb_spec k n) as [<- | Hne]; [now rewrite E | apply andb_false_r].
Qed.

Lemma index_nonneg (pr : Privilege) : 0 <= index pr.
Proof. destruct pr; cbn; lia. Qed.

Lemma authorized_grants (p : Privileges) (db : string) (pr : Privilege) :
  authorized p db pr
  = grants (globalMask_ p) pr
    || match masks_ p !! db with Some m => grants m pr | None => false end.
Proof.
  unfold authorized, makeMask, grants. rewrite land_bit by apply index_nonneg.
  rewrite negb_involutive. destruct (Z.testbit (globalMask_ p) (index pr)); cbn [orb]; [reflexivity |].
  destruct (masks_ p !! db) as [m |]; [| reflexivity].
  rewrite land_bit by apply index_nonneg. apply negb_involutive.
Qed.

(** What the loop of [applyRoles] adds to its two masks. *)
Lemma gather_adds (db : string) (roles : list (string * Value)) :
  forall nm ng m, gather db roles nm ng = Ok m ->
  exists a b : Z,
    fst m = Z.lor nm a /\ snd m = Z.lor ng b
    /\ Z.testbit a (index CLUSTER_ADMIN) = false
    /\ (db <> "admin" -> b = 0).
Proof.
  assert (Hadm : db <> "admin" -> String.eqb db "admin" = false)
    by (intros H; apply String.eqb_neq, H).
  assert (Hm : forall nm ng x r m,
            (forall nm ng m, gather db r nm ng = Ok m ->
               exists a b : Z, fst m = Z.lor nm a /\ snd m = Z.lor ng b
                 /\ Z.testbit a (index CLUSTER_ADMIN) = false /\ (db <> "admin" -> b = 0)) ->
            Z.testbit x (index CLUSTER_ADMIN) = false ->
            gather db r (Z.lor nm x) ng = Ok m ->
            exists a b : Z, fst m = Z.lor nm a /\ snd m = Z.lor ng b
              /\ Z.testbit a (index CLUSTER_ADMIN) = false /\ (db <> "admin" -> b = 0)).
  { intros nm ng x r m IH Hx H. destruct (IH _ _ _ H) as (a & b & H1 & H2 & H3 & H4).
    exists (Z.lor x a), b. rewrite H1, H2, Z.lor_assoc, Z.lor_spec, Hx, H3. auto. }
  assert (Hg : forall nm ng x r m,
            (forall nm ng m, gather db r nm ng = Ok m ->
               exists a b : Z, fst m = Z.lor nm a /\ snd m = Z.lor ng b
                 /\ Z.testbit a (index CLUSTER_ADMIN) = false /\ (db <> "admin" -> b = 0)) ->
            String.eqb db "admin" = true ->
            gather db r nm (Z.lor ng x) = Ok m ->
            exists a b : Z, fst m = Z.lor nm a /\ snd m = Z.lor ng b
              /\ Z.testbit a (index CLUSTER_ADMIN) = false /\ (db <> "admin" -> b = 0)).
  { intros nm ng x r m IH Ha H. destruct (IH _ _ _ H) as (a & b & H1 & H2 & H3 & H4).
    exists a, (Z.lor x b). rewrite H1, H2, Z.lor_assoc. repeat split; try assumption.
    intros Hn. rewrite (Hadm Hn) in Ha. discriminate. }
  induction roles as [| elt r IH]; intros nm ng m H; cbn [gather] in H.
  - injection H as <-. exists 0, 0. cbn [fst snd]. rewrite !Z.lor_0_r. auto.
  - destruct (roleOf elt) as [[role |] | e]; cbn [bind] in H; [| exact (IH _ _ _ H) | discriminate].
    repeat match type of H with
           | (if String.eqb role ?s then _ else _) = _ =>
               destruct (String.eqb role s);
               [apply (Hm _ _ _ _ _ IH) in H; [exact H | reflexivity] |]
           end.
    destruct (String.eqb db "admin") eqn:Ea; cbn [andb] in H; [| discriminate].
    repeat match type of H with
           | (if String.eqb role ?s then _ else _) = _ =>
               destruct (String.eqb role s);
               [apply (Hg _ _ _ _ _ IH eq_refl) in H; exact H |]
           end.
    discriminate.
Qed.

Lemma applyRoles_spec (db : string) (roles : list (string * Value)) (p p' : Privileges) :
  applyRoles db roles p = Ok p' ->
  exists a b : Z,
    globalMask_ p' = Z.lor (globalMask_ p) b
    /\ masks_ p' = <[db := Z.lor (default 0 (masks_ p !! db)) a]> (masks_ p)
    /\ Z.testbit a (index CLUSTER_ADMIN) = false
    /\ (db <> "admin" -> b = 0).
Proof.
  unfold applyRoles. destruct (gather db roles 0 0) as [m | e] eqn:Hg; cbn [bind]; [| discriminate].
  intros H. injection H as <-.
  destruct (gather_adds db roles 0 0 m Hg) as (a & b & H1 & H2 & H3 & H4).
  exists a, b. unfold orMask. cbn [globalMask_ masks_]. rewrite H1, H2, !Z.lor_0_l. auto.
Qed.

Lemma applyRoles_atLeast (db : string) (roles : list (string * Value)) (p p' : Privileges) :
  applyRoles db roles p = Ok p' -> atLeast p p'.
Proof.
  intros H d pr. destruct (applyRoles_spec db roles p p' H) as (a & b & Hg & Hm & _ & _).
  rewrite !authorized_grants, Hg, Hm. unfold grants. rewrite Z.lor_spec.
  intros Hx. apply orb_true_iff in Hx. destruct Hx as [Hx | Hx].
  - rewrite Hx. reflexivity.
  - apply orb_true_iff. right.
    destruct (String.eq_dec db d) as [<- | Hn].
    + rewrite lookup_insert_eq. destruct (masks_ p !! db) as [m |]; [| discriminate].
      unfold default. cbn [from_option id]. rewrite Z.lor_spec, Hx. reflexivity.
    + rewrite lookup_insert_ne by exact Hn. exact Hx.
Qed.

(** [applyRoles] only adds, and what it adds for a database other than
    [admin] stays in that database: whoever was authorized still is; no
    privilege on another database changes, and the privilege of a
    cluster administrator changes on no database at all. *)
Theorem applyRoles_stays_in_its_database (db : string) (roles : list (string * Value))
    (p p' : Privileges) :
  applyRoles db roles p = Ok p' ->
  atLeast p p'
  /\ (db <> "admin" ->
      forall (d : string) (pr : Privilege),
        d <> db \/ pr = CLUSTER_ADMIN -> authorized p' d pr = authorized p d pr).
Proof.
  intros H. split; [exact (applyRoles_atLeast db roles p p' H) |].
  intros Hn d pr Hd. destruct (applyRoles_spec db roles p p' H) as (a & b & Hg & Hm & Ha & Hb).
  rewrite !authorized_grants, Hg, Hm, (Hb Hn), Z.lor_0_r. f_equal.
  destruct (String.eq_dec db d) as [<- | Hne].
  - destruct Hd as [Hd | ->]; [congruence |].
    rewrite lookup_insert_eq. unfold grants. rewrite Z.lor_spec, Ha, orb_false_r.
    destruct (masks_ p !! db); unfold default; cbn [from_option id]; [reflexivity | apply Z.bits_0].
  - rewrite lookup_insert_ne by exact Hne. reflexivity.
Qed.

Lemma applyRoles_stays_in_its_database_witness :
  atLeast nobody (orMask nobody "test" 6)
  /\ ("test" <> "admin" ->
      forall (d : string) (pr : Privilege),
        d <> "test" \/ pr = CLUSTER_ADMIN ->
        authorized (orMask nobody "test" 6) d pr = authorized nobody d pr).
Proof.
  apply (applyRoles_stays_in_its_database "test" [("0", VString "readWrite")] nobody).
  vm_compute. reflexivity.
Defined.

(** ** [Privileges::auth] *)

Lemma atLeast_refl (p : Privileges) : atLeast p p.
Proof. intros d pr H. exact H. Qed.

Lemma atLeast_trans (p q r : Privileges) : atLeast p q -> atLeast q r -> atLeast p r.
Proof. intros H1 H2 d pr H. apply H2, H1, H. Qed.

Lemma orMask_atLeast (p : Privileges) (db : string) (mask : Z) : atLeast p (orMask p db mask).
Proof.
  intros d pr. rewrite !authorized_grants. unfold orMask, grants. cbn [globalMask_ masks_].
  intros Hx. apply orb_true_iff in Hx. destruct Hx as [Hx | Hx].
  - rewrite Hx. reflexivity.
  - apply orb_true_iff. right.
    destruct (String.eq_dec db d) as [<- | Hn].
    + rewrite lookup_insert_eq. destruct (masks_ p !! db) as [m |]; [| discriminate].
      unfold default. cbn [from_option id]. rewrite Z.lor_spec, Hx. reflexivity.
    + rewrite lookup_insert_ne by exact Hn. exact Hx.
Qed.

Lemma legacyRoles_atLeast (db : string) (user : Object) (p : Privileges) :
  atLeast p (legacyRoles db user p).
Proof.
  unfold legacyRoles.
  destruct (match get user "readOnly" with
            | Some (_, VBool b) => negb b
            | Some (_, VInt32 i) => swrap 32 i =? 0
            | _ => false
            end).
  - eapply atLeast_trans; apply orMask_atLeast.
  - apply orMask_atLeast.
Qed.

Lemma otherRoles_atLeast (elts : list (string * Value)) :
  forall p, atLeast p (fst (otherRoles elts p)).
Proof.
  induction elts as [| elt r IH]; intros p; cbn [otherRoles].
  - apply atLeast_refl.
  - destruct (as_array (Some elt)) as [roles | e]; [| apply atLeast_refl].
    destruct (applyRoles (fst elt) roles p) as [p' | e] eqn:Ha; [| apply atLeast_refl].
    eapply atLeast_trans; [exact (applyRoles_atLeast _ _ _ _ Ha) | apply IH].
Qed.

(** [Privileges::auth] never takes a privilege away.  When it returns
    false the privileges are as before; they change, and with
    authentication switched on [auth] returns true, only for a request
    that carries the MD5 of the nonce, the user name and the non-empty key
    stored for that user of the database. *)
Theorem auth_needs_the_key (auth_ : bool) (find : string -> string -> Object)
    (MD5 : list Z -> list Z) (db : string) (obj : Object) (p : Privileges) :
  let p' := fst (auth auth_ find MD5 db obj p) in
  let r := snd (auth auth_ find MD5 db obj p) in
  atLeast p p'
  /\ (r = Ok false -> p' = p)
  /\ (p' <> p -> auth_ = true /\ verified find MD5 db obj)
  /\ (auth_ = true -> r = Ok true -> verified find MD5 db obj).
Proof.
  cbn zeta. unfold auth.
  destruct auth_; cbn [negb fst snd].
  2: { split; [apply atLeast_refl |]. split; [reflexivity |].
       split; [congruence | discriminate]. }
  destruct (as_string (get obj "user")) as [username | e] eqn:Hu; cbn [fst snd].
  2: { split; [apply atLeast_refl |]. split; [reflexivity |].
       split; [congruence | discriminate]. }
  destruct (storedKey (find db username)) as [key | e] eqn:Hk; cbn [fst snd].
  2: { split; [apply atLeast_refl |]. split; [reflexivity |].
       split; [congruence | discriminate]. }
  destruct (String.eqb_spec key "") as [Hke | Hke]; cbn [fst snd].
  { split; [apply atLeast_refl |]. split; [reflexivity |].
    split; [congruence | discriminate]. }
  destruct (as_string_or (get obj "key") "") as [given | e] eqn:Hg; cbn [bind fst snd].
  2: { split; [apply atLeast_refl |]. split; [reflexivity |].
       split; [congruence | discriminate]. }
  destruct (as_string_or (get obj "nonce") "") as [nonce | e] eqn:Hn; cbn [bind fst snd].
  2: { split; [apply atLeast_refl |]. split; [reflexivity |].
       split; [congruence | discriminate]. }
  destruct (String.eqb_spec given (makeAuthKey MD5 nonce username key)) as [He | He];
    cbn [negb fst snd].
  2: { split; [apply atLeast_refl |]. split; [reflexivity |].
       split; [congruence | discriminate]. }
  assert (Hv : verified find MD5 db obj).
  { exists username, key, nonce. subst given. auto. }
  set (applied := if exists_ (get (find db username) "roles") then _ else _).
  assert (Ha : forall p1, applied = Ok p1 -> atLeast p p1).
  { intros p1. unfold applied. destruct (exists_ (get (find db username) "roles")).
    - destruct (as_array (get (find db username) "roles")) as [roles | e]; cbn [bind];
        [| discriminate]. apply applyRoles_atLeast.
    - intros H. injection H as <-. apply legacyRoles_atLeast. }
  destruct applied as [p1 | e]; cbn [fst snd].
  2: { split; [apply atLeast_refl |]. split; [discriminate |]. split; [congruence | discriminate]. }
  specialize (Ha p1 eq_refl).
  destruct (exists_ (get (find db username) "otherDBRoles")); cbn [fst snd].
  2: { split; [exact Ha |]. split; [discriminate |]. auto. }
  destruct (as_object (get (find db username) "otherDBRoles")) as [elts | e]; cbn [fst snd].
  2: { split; [exact Ha |]. split; [discriminate |]. split; [auto | discriminate]. }
  pose proof (otherRoles_atLeast elts p1) as Ho.
  destruct (otherRoles elts p1) as [p2 [[] | e]]; cbn [fst snd] in *.
  - split; [exact (atLeast_trans _ _ _ Ha Ho) |]. split; [discriminate |]. auto.
  - split; [exact (atLeast_trans _ _ _ Ha Ho) |]. split; [discriminate |].
    split; [auto | discriminate].
Qed.

(** ** The nonce of a session *)

(** An [authenticate] command changes the session only when it names
    the nonce that the session holds, which is not empty; the nonce is
    then used up, whether the user is let in or not, and every further
    [authenticate] is answered with "nonce mismatch" and changes nothing
    until [getnonce] makes a new one. *)
Theorem nonce_is_used_once (auth_ : bool) (find : string -> string -> Object)
    (MD5 : list Z -> list Z) (dbname : string) (obj : Object) (s : Login) :
  let s' := fst (authenticate auth_ find MD5 dbname obj s) in
  (s' <> s -> nonce_ s <> "" /\ as_string (get obj "nonce") = Ok (nonce_ s) /\ nonce_ s' = "")
  /\ (nonce_ s <> "" -> as_string (get obj "nonce") = Ok (nonce_ s) ->
      nonce_ s' = ""
      /\ forall (dbname2 : string) (obj2 : Object),
           authenticate auth_ find MD5 dbname2 obj2 s'
           = (s', Ok (failure 18 "nonce mismatch"))).
Proof.
  intros s'.
  assert (H : (s' = s /\ ~ (nonce_ s <> "" /\ as_string (get obj "nonce") = Ok (nonce_ s)))
              \/ (nonce_ s <> "" /\ as_string (get obj "nonce") = Ok (nonce_ s)
                  /\ nonce_ s' = "")).
  { unfold s', authenticate.
    destruct (String.eqb_spec (nonce_ s) "") as [He | He]; cbn [fst]; [left; tauto |].
    destruct (as_string (get obj "nonce")) as [n | e]; cbn [fst];
      [| left; split; [reflexivity | intros [_ H]; discriminate]].
    destruct (String.eqb_spec (nonce_ s) n) as [Hn | Hn]; cbn [negb fst];
      [| left; split; [reflexivity | intros [_ H]; congruence]].
    right. split; [exact He |]. split; [congruence |].
    destruct (auth auth_ find MD5 dbname obj (privileges_ s)) as [p [[|] | e]]; reflexivity. }
  destruct H as [[Hs Hno] | (H1 & H2 & H3)].
  - split; [congruence | intros; tauto].
  - split; [auto |]. intros _ _. split; [exact H3 |]. intros dbname2 obj2.
    unfold authenticate. rewrite H3. reflexivity.
Qed.

Lemma hex_length (data : list Z) : String.length (hex data) = (2 * List.length data)%nat.
Proof.
  induction data as [| b r IH]; cbn [hex String.length List.length]; [reflexivity |].
  rewrite IH. lia.
Qed.

(** A session whose client asks for a nonce and then authenticates with
    it gets past the nonce check: its privileges become what
    [Privileges::auth] makes of them, the answer is [ok: 1] when [auth]
    returns true and "invalid username/password" with code 18 when it
    returns false, and the nonce is gone either way. *)
Theorem getnonce_then_authenticate (auth_ : bool) (find : string -> string -> Object)
    (MD5 : list Z -> list Z) (dbname : string) (obj : Object) (s : Login)
    (val : list Z) :
  val <> [] ->
  as_string (get obj "nonce") = Ok (mknonce val) ->
  let s1 := fst (getnonce val s) in
  let s2 := fst (authenticate auth_ find MD5 dbname obj s1) in
  let r := snd (authenticate auth_ find MD5 dbname obj s1) in
  privileges_ s1 = privileges_ s
  /\ nonce_ s2 = ""
  /\ privileges_ s2 = fst (auth auth_ find MD5 dbname obj (privileges_ s))
  /\ match snd (auth auth_ find MD5 dbname obj (privileges_ s)) with
     | Ok true => r = Ok (success [])
     | Ok false => r = Ok (failure 18 "invalid username/password")
     | Throw e => r = Throw e
     end.
Proof.
  intros Hv Hn. cbn zeta. unfold getnonce. cbn [fst privileges_].
  unfold authenticate. cbn [nonce_ privileges_].
  assert (Hne : String.eqb (mknonce val) "" = false).
  { apply String.eqb_neq. intros H. pose proof (hex_length val) as Hl.
    unfold mknonce in H. rewrite H in Hl. destruct val; [congruence | cbn in Hl; lia]. }
  rewrite Hne, Hn, String.eqb_refl. cbn [negb].
  destruct (auth auth_ find MD5 dbname obj (privileges_ s)) as [p [[|] | e]];
    cbn [fst snd nonce_ privileges_] in *; repeat split; auto.
Qed.

Lemma getnonce_then_authenticate_witness :
  let s1 := fst (getnonce [110; 111; 110; 99; 101] (mkLogin "" nobody)) in
  let s2 := fst (authenticate true exampleUsers exampleMD5 "test" exampleRequest s1) in
  let r := snd (authenticate true exampleUsers exampleMD5 "test" exampleRequest s1) in
  privileges_ s1 = privileges_ (mkLogin "" nobody)
  /\ nonce_ s2 = ""
  /\ privileges_ s2
     = fst (auth true exampleUsers exampleMD5 "test" exampleRequest
              (privileges_ (mkLogin "" nobody)))
  /\ match snd (auth true exampleUsers exampleMD5 "test" exampleRequest
                  (privileges_ (mkLogin "" nobody))) with
     | Ok true => r = Ok (success [])
     | Ok false => r = Ok (failure 18 "invalid username/password")
     | Throw e => r = Throw e
     end.
Proof.
  apply (getnonce_then_authenticate true exampleUsers exampleMD5 "test" exampleRequest
           (mkLogin "" nobody) [110; 111; 110; 99; 101]).
  - discriminate.
  - reflexivity.
Defined.

(** The user of the example is let in, and may then write to [test] and
    to nothing else. *)
Example alice_is_let_in :
  let s1 := fst (getnonce [110; 111; 110; 99; 101] (mkLogin "" nobody)) in
  let out := authenticate true exampleUsers exampleMD5 "test" exampleRequest s1 in
  snd out = Ok (success [])
  /\ authorized (privileges_ (fst out)) "test" WRITE = true
  /\ authorized (privileges_ (fst out)) "other" READ = false
  /\ authorized (privileges_ (fst out)) "test" DB_ADMIN = false.
Proof. vm_compute. repeat split. Qed.

End AuthFacts.

(* ================================================================== *)
(** * Properties of the comparison of write concerns *)
(* ================================================================== *)

Module ConcernFacts.
Import Bson Concern.
Import OrderNotions ConcernNotions.

#[local] Set Warnings "-clear-no-such-hyp".

(** ** [wtimeout] *)

Lemma first_wtimeout (w : Object) :
  names "wtimeout" w = true -> forall seen c, first w seen c = None.
Proof.
  unfold names. induction w as [| elt r IH]; cbn [existsb first]; [discriminate |].
  intros H seen c.
  destruct (String.eqb_spec (eltname elt) "getlasterror") as [E1 | E1].
  { rewrite E1 in H. cbn in H. apply IH, H. }
  destruct (String.eqb_spec (eltname elt) "w") as [E2 | E2].
  { rewrite E2 in H. cbn in H. apply IH, H. }
  destruct (String.eqb_spec (eltname elt) "wtimeout") as [E3 | E3]; [reflexivity |].
  cbn [orb] in H. apply IH, H.
Qed.

Lemma second_wtimeout (w : Object) :
  names "wtimeout" w = true -> forall seen c, second w seen c = None.
Proof.
  unfold names. induction w as [| elt r IH]; cbn [existsb second]; [discriminate |].
  intros H seen c.
  destruct (String.eqb_spec (eltname elt) "getlasterror") as [E1 | E1].
  { rewrite E1 in H. cbn in H. apply IH, H. }
  destruct (String.eqb_spec (eltname elt) "w") as [E2 | E2].
  { rewrite E2 in H. cbn in H. apply IH, H. }
  destruct (String.eqb_spec (eltname elt) "wtimeout") as [E3 | E3]; [reflexivity |].
  cbn [orb] in H. destruct (seen !! eltname elt) as [e |]; [| reflexivity].
  destruct (cmpElt not_equal_to (Some e) (Some elt)); [reflexivity |]. apply IH, H.
Qed.

Lemma get_names (w : Object) (nm : string) :
  exists_ (get w nm) = true -> names (lowered nm) w = true.
Proof.
  unfold names. induction w as [| [n v] r IH]; cbn [get existsb exists_]; [discriminate |].
  destruct (String.eqb_spec n nm) as [-> | Hn].
  - intros _. unfold eltname. cbn [fst]. rewrite String.eqb_refl. reflexivity.
  - intros H. rewrite (IH H). apply orb_true_r.
Qed.

(** A write concern with a [wtimeout], in whatever case, is equal to no
    write concern, and [acknowledge] asks the backends for it every time,
    whatever it has stored. *)
Theorem wtimeout_is_always_asked (doAcknowledge : Object -> result Object)
    (writeConcern other : Object) (op : Status) :
  names "wtimeout" writeConcern = true ->
  areWriteConcernsEqual writeConcern other = Ok false
  /\ areWriteConcernsEqual other writeConcern = Ok false
  /\ acknowledge doAcknowledge writeConcern op
     = (do status <- doAcknowledge writeConcern;
        Ok (mkStatus writeConcern status, status, true)).
Proof.
  intros H.
  assert (Hfst : forall o, areWriteConcernsEqual writeConcern o = Ok false).
  { intros o. unfold areWriteConcernsEqual. now rewrite (first_wtimeout _ H). }
  split; [apply Hfst |]. split.
  - unfold areWriteConcernsEqual. destruct (first other ∅ None) as [[seen c1] |]; [| reflexivity].
    now rewrite (second_wtimeout _ H).
  - unfold acknowledge. destruct (exists_ (get writeConcern "wtimeout")); [reflexivity |].
    destruct (empty (lastStatus_ op)); [reflexivity |]. rewrite Hfst. reflexivity.
Qed.

Lemma wtimeout_is_always_asked_witness :
  areWriteConcernsEqual [("wTimeout", VInt32 100)] [] = Ok false
  /\ areWriteConcernsEqual [] [("wTimeout", VInt32 100)] = Ok false
  /\ acknowledge (fun _ => Ok [("ok", VInt32 1)]) [("wTimeout", VInt32 100)]
       (mkStatus [] [("ok", VInt32 1)])
     = (do status <- Ok [("ok", VInt32 1)];
        Ok (mkStatus [("wTimeout", VInt32 100)] status, status, true)).
Proof.
  apply (wtimeout_is_always_asked (fun _ => Ok [("ok", VInt32 1)])
           [("wTimeout", VInt32 100)] [] (mkStatus [] [("ok", VInt32 1)])).
  reflexivity.
Defined.

(** ** What does not matter *)

Lemma first_strip (w : Object) : forall seen c, first (strip w) seen c = first w seen c.
Proof.
  unfold strip. induction w as [| elt r IH]; intros seen c; cbn [List.filter first];
    [reflexivity |].
  destruct (String.eqb (eltname elt) "getlasterror") eqn:E; cbn [negb]; [apply IH |].
  cbn [first]. rewrite E, !IH. reflexivity.
Qed.

Lemma second_strip (w : Object) : forall seen c, second (strip w) seen c = second w seen c.
Proof.
  unfold strip. induction w as [| elt r IH]; intros seen c; cbn [List.filter second];
    [reflexivity |].
  destruct (String.eqb (eltname elt) "getlasterror") eqn:E; cbn [negb]; [apply IH |].
  cbn [second]. rewrite E, !IH. reflexivity.
Qed.

Lemma first_keeps_c (w : Object) :
  names "w" w = false ->
  forall seen c, match first w seen c with Some (_, c') => c' = c | None => True end.
Proof.
  unfold names. induction w as [| elt r IH]; cbn [existsb first]; [reflexivity |].
  intros H seen c. apply orb_false_iff in H. destruct H as [E H].
  rewrite E. destruct (String.eqb (eltname elt) "getlasterror"); [apply IH, H |].
  destruct (String.eqb (eltname elt) "wtimeout"); [exact I | apply IH, H].
Qed.

Lemma second_keeps_c (w : Object) :
  names "w" w = false ->
  forall seen c, match second w seen c with Some (_, c') => c' = c | None => True end.
Proof.
  unfold names. induction w as [| elt r IH]; cbn [existsb second]; [reflexivity |].
  intros H seen c. apply orb_false_iff in H. destruct H as [E H].
  rewrite E. destruct (String.eqb (eltname elt) "getlasterror"); [apply IH, H |].
  destruct (String.eqb (eltname elt) "wtimeout"); [exact I |].
  destruct (seen !! eltname elt) as [e |]; [| exact I].
  destruct (cmpElt not_equal_to (Some e) (Some elt)); [exact I | apply IH, H].
Qed.

Lemma first_app_w (w : Object) (v : Value) :
  forall seen c,
    first (app w [("w", v)]) seen c
    = match first w seen c with
      | Some (seen', _) => Some (seen', Some ("w", v))
      | None => None
      end.
Proof.
  induction w as [| elt r IH]; intros seen c; cbn [app first]; [reflexivity |].
  destruct (String.eqb (eltname elt) "getlasterror"); [apply IH |].
  destruct (String.eqb (eltname elt) "w"); [apply IH |].
  destruct (String.eqb (eltname elt) "wtimeout"); [reflexivity | apply IH].
Qed.

Lemma second_app_w (w : Object) (v : Value) :
  forall seen c,
    second (app w [("w", v)]) seen c
    = match second w seen c with
      | Some (seen', _) => Some (seen', Some ("w", v))
      | None => None
      end.
Proof.
  induction w as [| elt r IH]; intros seen c; cbn [app second]; [reflexivity |].
  destruct (String.eqb (eltname elt) "getlasterror"); [apply IH |].
  destruct (String.eqb (eltname elt) "w"); [apply IH |].
  destruct (String.eqb (eltname elt) "wtimeout"); [reflexivity |].
  destruct (seen !! eltname elt) as [e |]; [| reflexivity].
  destruct (cmpElt not_equal_to (Some e) (Some elt)); [reflexivity | apply IH].
Qed.

Lemma finalCheck_w1_l (seen : gmap string (string * Value)) (c : Element) :
  finalCheck seen (Some ("w", VInt32 1)) c = finalCheck seen None c.
Proof.
  unfold finalCheck. destruct (negb (bool_decide (dom seen = ∅))); [reflexivity |].
  destruct c as [[n [ ]] |]; reflexivity.
Qed.

Lemma finalCheck_w1_r (seen : gmap string (string * Value)) (c : Element) :
  finalCheck seen c (Some ("w", VInt32 1)) = finalCheck seen c None.
Proof.
  unfold finalCheck. destruct (negb (bool_decide (dom seen = ∅))); [reflexivity |].
  destruct c as [[n [ ]] |]; reflexivity.
Qed.

(** What the comparison of write concerns disregards: the
    [getLastError] elements of either side, in whatever case, and a [w: 1]
    added to a side that has no [w]. *)
Theorem getlasterror_and_default_w (w1 w2 : Object) :
  areWriteConcernsEqual (strip w1) (strip w2) = areWriteConcernsEqual w1 w2
  /\ (names "w" w1 = false ->
      areWriteConcernsEqual (app w1 [("w", VInt32 1)]) w2 = areWriteConcernsEqual w1 w2)
  /\ (names "w" w2 = false ->
      areWriteConcernsEqual w1 (app w2 [("w", VInt32 1)]) = areWriteConcernsEqual w1 w2).
Proof.
  unfold areWriteConcernsEqual. split; [| split].
  - rewrite first_strip. destruct (first w1 ∅ None) as [[seen c1] |]; [| reflexivity].
    rewrite second_strip. reflexivity.
  - intros H. rewrite first_app_w. pose proof (first_keeps_c w1 H ∅ None) as Hc.
    destruct (first w1 ∅ None) as [[seen c1] |]; [| reflexivity]. subst c1.
    destruct (second w2 seen None) as [[seen' c2] |]; [| reflexivity].
    apply finalCheck_w1_l.
  - intros H. destruct (first w1 ∅ None) as [[seen c1] |]; [| reflexivity].
    rewrite second_app_w. pose proof (second_keeps_c w2 H seen None) as Hc.
    destruct (second w2 seen None) as [[seen' c2] |]; [| reflexivity]. subst c2.
    apply finalCheck_w1_r.
Qed.

(** ** A write concern and itself *)

Lemma kept_cons (elt : string * Value) (r : Object) :
  kept (elt :: r) = if keptElt elt then eltname elt :: kept r else kept r.
Proof. unfold kept. cbn [List.filter]. now destruct (keptElt elt). Qed.

Lemma kept_In (w : Object) (elt : string * Value) :
  In elt w -> keptElt elt = true -> In (eltname elt) (kept w).
Proof.
  intros Hi Hk. unfold kept. apply in_map. apply List.filter_In. split; assumption.
Qed.

Lemma existsb_eqb_In (x : string) (l : list string) :
  existsb (String.eqb x) l = false -> ~ In x l.
Proof.
  intros H Hin. assert (Ht : existsb (String.eqb x) l = true).
  { apply existsb_exists. exists x. split; [exact Hin | apply String.eqb_refl]. }
  congruence.
Qed.

Lemma lastW_from (w : Object) (c : Element) :
  fold_left (fun c elt => if String.eqb (eltname elt) "w" then Some elt else c) w c
  = match lastW w with Some e => Some e | None => c end.
Proof.
  unfold lastW. revert c. induction w as [| elt r IH]; intros c; [reflexivity |].
  cbn [fold_left].
  match goal with
  | |- fold_left _ r ?a = match fold_left _ r ?b with _ => _ end =>
      rewrite (IH a), (IH b)
  end.
  destruct (fold_left _ r None); [reflexivity |]. now destruct (String.eqb (eltname elt) "w").
Qed.

Lemma first_ok (w : Object) :
  names "wtimeout" w = false -> distinct (kept w) = true ->
  forall seen c,
    (forall elt, In elt w -> keptElt elt = true -> seen !! eltname elt = None) ->
    exists seen',
      first w seen c
      = Some (seen', fold_left (fun c elt => if String.eqb (eltname elt) "w"
                                             then Some elt else c) w c)
      /\ dom seen' = dom seen ∪ list_to_set (kept w)
      /\ (forall k e, seen !! k = Some e -> seen' !! k = Some e)
      /\ (forall elt, In elt w -> keptElt elt = true -> seen' !! eltname elt = Some elt).
Proof.
  unfold names. induction w as [| elt r IH]; intros Hw Hd seen c Hfresh.
  - exists seen. cbn [first fold_left kept List.filter map list_to_set].
    split; [reflexivity |]. split; [set_solver |]. split; [auto |]. intros elt [].
  - cbn [existsb] in Hw. apply orb_false_iff in Hw. destruct Hw as [Ht Hw].
    rewrite kept_cons in Hd. cbn [first fold_left]. rewrite kept_cons. unfold keptElt in *.
    destruct (String.eqb (eltname elt) "getlasterror") eqn:E1; cbn [negb andb] in *.
    { destruct (IH Hw Hd seen c (fun e Hi => Hfresh e (or_intror Hi)))
        as (seen' & Hfst & Hdom & Hkeep & Hhas).
      exists seen'. replace (String.eqb (eltname elt) "w") with false
        by (symmetry; apply String.eqb_neq; intros E; apply String.eqb_eq in E1;
            rewrite E in E1; discriminate).
      split; [exact Hfst |]. split; [exact Hdom |]. split; [exact Hkeep |].
      intros e [<- | Hi] Hk; [rewrite E1 in Hk; cbn in Hk; discriminate | exact (Hhas e Hi Hk)]. }
    destruct (String.eqb (eltname elt) "w") eqn:E2; cbn [negb andb] in *.
    { destruct (IH Hw Hd seen (Some elt) (fun e Hi => Hfresh e (or_intror Hi)))
        as (seen' & Hfst & Hdom & Hkeep & Hhas).
      exists seen'. split; [exact Hfst |]. split; [exact Hdom |]. split; [exact Hkeep |].
      intros e [<- | Hi] Hk; [rewrite E2, ?andb_false_r in Hk; cbn in Hk; discriminate | exact (Hhas e Hi Hk)]. }
    rewrite Ht. apply andb_prop in Hd. destruct Hd as [Hn Hd].
    apply negb_true_iff, existsb_eqb_In in Hn.
    assert (Hf0 : seen !! eltname elt = None).
    { apply Hfresh; [left; reflexivity |]. rewrite E1, E2. reflexivity. }
    unfold seenInsert. rewrite Hf0.
    destruct (IH Hw Hd (<[eltname elt := elt]> seen) c) as (seen' & Hfst & Hdom & Hkeep & Hhas).
    { intros e Hi Hk. rewrite lookup_insert_ne.
      - apply Hfresh; [right; exact Hi | exact Hk].
      - intros Heq. apply Hn. rewrite Heq. apply kept_In; assumption. }
    exists seen'. split; [exact Hfst |]. split; [rewrite Hdom; set_solver |]. split.
    + intros k e Hl. apply Hkeep. rewrite lookup_insert_ne; [exact Hl |].
      intros <-. congruence.
    + intros e [<- | Hi] Hk; [| exact (Hhas e Hi Hk)].
      apply Hkeep. apply lookup_insert_eq.
Qed.

Lemma cmpElt_self (elt : string * Value) :
  ordered (snd elt) = true -> cmpElt not_equal_to (Some elt) (Some elt) = false.
Proof.
  destruct elt as [n v]. cbn [snd cmpElt]. intros H.
  rewrite OrderFacts.cmpElement_self. rewrite (proj2 (OrderFacts.self_all v)), H. reflexivity.
Qed.

Lemma second_ok (w : Object) :
  names "wtimeout" w = false -> distinct (kept w) = true ->
  forallb (fun elt => ordered (snd elt)) w = true ->
  forall seen c,
    (forall elt, In elt w -> keptElt elt = true -> seen !! eltname elt = Some elt) ->
    exists seen',
      second w seen c
      = Some (seen', fold_left (fun c elt => if String.eqb (eltname elt) "w"
                                             then Some elt else c) w c)
      /\ dom seen' = dom seen ∖ list_to_set (kept w).
Proof.
  unfold names. induction w as [| elt r IH]; intros Hw Hd Ho seen c Hin.
  - exists seen. cbn [second fold_left kept List.filter map list_to_set].
    split; [reflexivity | set_solver].
  - cbn [existsb] in Hw. apply orb_false_iff in Hw. destruct Hw as [Ht Hw].
    cbn [forallb] in Ho. apply andb_prop in Ho. destruct Ho as [Ho1 Ho].
    rewrite kept_cons in Hd. cbn [second fold_left]. rewrite kept_cons. unfold keptElt in *.
    destruct (String.eqb (eltname elt) "getlasterror") eqn:E1; cbn [negb andb] in *.
    { replace (String.eqb (eltname elt) "w") with false
        by (symmetry; apply String.eqb_neq; intros E; apply String.eqb_eq in E1;
            rewrite E in E1; discriminate).
      apply (IH Hw Hd Ho). intros e Hi. apply Hin. right. exact Hi. }
    destruct (String.eqb (eltname elt) "w") eqn:E2; cbn [negb andb] in *.
    { apply (IH Hw Hd Ho). intros e Hi. apply Hin. right. exact Hi. }
    rewrite Ht. apply andb_prop in Hd. destruct Hd as [Hn Hd].
    apply negb_true_iff, existsb_eqb_In in Hn.
    rewrite (Hin elt (or_introl eq_refl)) by (rewrite E1, E2; reflexivity).
    rewrite (cmpElt_self elt Ho1).
    destruct (IH Hw Hd Ho (delete (eltname elt) seen) c) as (seen' & Hfst & Hdom).
    { intros e Hi Hk. rewrite lookup_delete_ne.
      - apply Hin; [right; exact Hi | exact Hk].
      - intros Heq. apply Hn. rewrite Heq. apply kept_In; assumption. }
    exists seen'. split; [exact Hfst |]. rewrite Hdom. set_solver.
Qed.

Lemma areWriteConcernsEqual_refl (w : Object) :
  tidy w = true -> areWriteConcernsEqual w w = Ok true.
Proof.
  unfold tidy. intros H. apply andb_prop in H. destruct H as [H Hp].
  apply andb_prop in H. destruct H as [H Ho]. apply andb_prop in H. destruct H as [Hw Hd].
  apply negb_true_iff in Hw.
  unfold areWriteConcernsEqual.
  destruct (first_ok w Hw Hd ∅ None) as (seen & Hfst & Hdom & _ & Hhas).
  { intros elt _ _. apply lookup_empty. }
  rewrite Hfst.
  destruct (second_ok w Hw Hd Ho seen None Hhas) as (seen' & Hsnd & Hdom2).
  rewrite Hsnd. rewrite lastW_from.
  unfold finalCheck.
  assert (He : dom seen' = (∅ : gset string)) by (rewrite Hdom2, Hdom; set_solver).
  rewrite (bool_decide_eq_true_2 _ He). cbn [negb].
  destruct (lastW w) as [[n [ ]] |]; try discriminate Hp;
    cbn [exists_ isNumber is_int32 is_int64 is_double negb orb andb as_int_or as_int asNumber bind];
    rewrite ?String.eqb_refl, ?Z.eqb_refl; reflexivity.
Qed.

(** The acknowledgement is cached: after [acknowledge] has answered for
    a tidy write concern (no [wtimeout], no name twice, no NaN, [w] absent,
    a string or an integer) with a status that is not empty, the same
    write concern again gets the same status without the backends being
    asked, and the operation stays as it is. *)
Theorem acknowledge_asks_once (doAcknowledge : Object -> result Object)
    (writeConcern : Object) (op op' : Status) (status : Object) (asked : bool) :
  tidy writeConcern = true ->
  acknowledge doAcknowledge writeConcern op = Ok (op', status, asked) ->
  empty status = false ->
  areWriteConcernsEqual writeConcern writeConcern = Ok true
  /\ acknowledge doAcknowledge writeConcern op' = Ok (op', status, false).
Proof.
  intros Ht Ha He. pose proof (areWriteConcernsEqual_refl writeConcern Ht) as Hr.
  split; [exact Hr |].
  assert (Hnw : exists_ (get writeConcern "wtimeout") = false).
  { destruct (exists_ (get writeConcern "wtimeout")) eqn:E; [| reflexivity].
    apply get_names in E. change (lowered "wtimeout") with "wtimeout" in E.
    unfold tidy in Ht.
    rewrite E in Ht. discriminate. }
  unfold acknowledge in *. rewrite Hnw in *.
  destruct (empty (lastStatus_ op)) eqn:E0; cbn [bind] in Ha.
  - destruct (doAcknowledge writeConcern) as [st | e]; cbn [bind] in Ha; [| discriminate].
    injection Ha as <- <- <-. cbn [lastStatus_ lastWriteConcern_]. rewrite He, Hr. reflexivity.
  - destruct (areWriteConcernsEqual writeConcern (lastWriteConcern_ op)) as [[|] | e] eqn:E1;
      cbn [bind negb] in Ha; [| | discriminate].
    + injection Ha as <- <- <-. rewrite E0, E1. reflexivity.
    + destruct (doAcknowledge writeConcern) as [st | e]; cbn [bind] in Ha; [| discriminate].
      injection Ha as <- <- <-. cbn [lastStatus_ lastWriteConcern_]. rewrite He, Hr. reflexivity.
Qed.

Lemma acknowledge_asks_once_witness :
  areWriteConcernsEqual exampleConcern exampleConcern = Ok true
  /\ acknowledge (fun _ => Ok [("ok", VInt32 1); ("n", VInt32 1)]) exampleConcern
       (mkStatus exampleConcern [("ok", VInt32 1); ("n", VInt32 1)])
     = Ok (mkStatus exampleConcern [("ok", VInt32 1); ("n", VInt32 1)],
           [("ok", VInt32 1); ("n", VInt32 1)], false).
Proof.
  apply (acknowledge_asks_once (fun _ => Ok [("ok", VInt32 1); ("n", VInt32 1)])
           exampleConcern (mkStatus [] []) _ _ true).
  - reflexivity.
  - reflexivity.
  - reflexivity.
Defined.

End ConcernFacts.

(* ================================================================== *)
(** * Properties of the privilege checks *)
(* ================================================================== *)

Module AccessFacts.
Import Bson Auth Access.
Import AuthNotions AccessNotions.

Lemma required_spec (p : Privileges) (db : string) (pr : Privilege) :
  required true p db pr
  = if authorized p db pr then None else Some (Unauthorized "unauthorized").
Proof. unfold required, require. now destruct (authorized p db pr). Qed.

Lemma andThen_refused (a b : option refusal) (r : refusal) :
  (a = None \/ a = Some r) -> b = Some r -> andThen a b = Some r.
Proof. intros [-> | ->] ->; reflexivity. Qed.

(** With authentication switched on, roles applied for a database other
    than [admin] never open the [config] database to writes: whoever
    was not a cluster administrator on [config] before is refused, with
    [Unauthorized], every write to a collection of [config] afterwards,
    whatever the roles were, also roles given on [config] itself. *)
Theorem config_is_closed_to_other_databases (db : string) (roles : list (string * Value))
    (p p' : Privileges) (collection : string) :
  db <> "admin" ->
  applyRoles db roles p = Ok p' ->
  authorized p "config" CLUSTER_ADMIN = false ->
  checkPrivileges true p' "config" collection = Some (Unauthorized "unauthorized").
Proof.
  intros Hn Ha Hc.
  assert (Hc' : authorized p' "config" CLUSTER_ADMIN = false).
  { destruct (AuthFacts.applyRoles_spec db roles p p' Ha) as (a & b & Hg & Hm & Hbit & Hb).
    rewrite AuthFacts.authorized_grants in *. rewrite Hg, Hm, (Hb Hn), Z.lor_0_r.
    apply orb_false_iff in Hc. destruct Hc as [Hc1 Hc2]. rewrite Hc1. cbn [orb].
    destruct (String.eq_dec db "config") as [-> | Hne].
    - rewrite lookup_insert_eq. unfold grants. rewrite Z.lor_spec, Hbit, orb_false_r.
      destruct (masks_ p !! "config"); unfold default; cbn [from_option id];
        [exact Hc2 | apply Z.bits_0].
    - rewrite lookup_insert_ne by exact Hne. exact Hc2. }
  unfold checkPrivileges. rewrite !required_spec, Hc'. cbn [String.eqb Ascii.eqb].
  apply andThen_refused.
  - destruct (String.eqb collection "system.users"); [| left; reflexivity].
    destruct (authorized p' "config" USER_ADMIN); [left | right]; reflexivity.
  - reflexivity.
Qed.

Lemma config_is_closed_to_other_databases_witness :
  checkPrivileges true
    (mkPrivileges (Z.lor 0 0)
       (<["config" := Z.lor (default 0 ((∅ : gmap string Z) !! "config")) 30]> ∅))
    "config" "chunks"
  = Some (Unauthorized "unauthorized").
Proof.
  apply (config_is_closed_to_other_databases "config" [("0", VString "dbOwner")] nobody).
  - discriminate.
  - reflexivity.
  - reflexivity.
Defined.

(** What guards [system.users] depends on the operation.  A query on
    the collection requires [USER_ADMIN], and so does a write, which
    requires [DB_ADMIN] and [WRITE] as well; [count] and [distinct]
    require [READ] whatever collection their command names.  So whoever
    may read a database but is no administrator of its users is refused
    the query and is let through to [count] and [distinct] on
    [system.users]. *)
Theorem users_are_guarded_by_operation (p : Privileges) (db : string) (flags : Z)
    (properties query : Object) :
  authorized p db READ = true ->
  authorized p db USER_ADMIN = false ->
  Z.land flags (wrap 32 (Z.lnot ALLOWED_FLAGS)) = 0 ->
  exists_ (get properties "$explain") = false ->
  front query = Some ("distinct", VString "system.users") ->
  queryChecks true p flags properties db "system.users" = Some (Unauthorized "unauthorized")
  /\ checkPrivileges true p db "system.users" = Some (Unauthorized "unauthorized")
  /\ aggregationChecks true p db = None
  /\ aggregationCollection query = Ok "system.users".
Proof.
  intros Hr Hu Hf He Hq. unfold queryChecks, checkPrivileges, aggregationChecks,
    aggregationCollection.
  rewrite Hf, He, Hq, !required_spec, Hr, Hu. cbn. repeat split.
Qed.

Lemma users_are_guarded_by_operation_witness :
  queryChecks true reader SLAVE_OK [] "test" "system.users"
  = Some (Unauthorized "unauthorized")
  /\ checkPrivileges true reader "test" "system.users" = Some (Unauthorized "unauthorized")
  /\ aggregationChecks true reader "test" = None
  /\ aggregationCollection [("distinct", VString "system.users"); ("key", VString "pwd")]
     = Ok "system.users".
Proof.
  apply (users_are_guarded_by_operation reader "test" SLAVE_OK []
           [("distinct", VString "system.users"); ("key", VString "pwd")]);
    reflexivity.
Defined.

End AccessFacts.

(* ================================================================== *)
(** * Properties of the version of a shard *)
(* ================================================================== *)

Module VersionFacts.
Import Version.

Lemma eq_spec (a b : SoftwareVersion) : eq a b = true <-> a = b.
Proof.
  revert b. induction a as [| x a IH]; intros [| y b]; cbn [eq];
    try (split; [discriminate | congruence]); [tauto |].
  rewrite andb_true_iff, Z.eqb_eq, IH. split; [intros [-> ->]; reflexivity |].
  intros E. injection E as -> ->. tauto.
Qed.

Lemma lt_irreflexive (a : SoftwareVersion) : lt a a = false.
Proof.
  unfold lt. induction a as [| x a IH]; [reflexivity |].
  cbn [lexicographical_compare]. now rewrite Z.ltb_irrefl.
Qed.

Lemma lt_transitive (a : SoftwareVersion) :
  forall b c, lt a b = true -> lt b c = true -> lt a c = true.
Proof.
  unfold lt. induction a as [| x a IH]; intros [| y b] [| z c];
    cbn [lexicographical_compare]; try discriminate; try reflexivity.
  destruct (x <? y) eqn:Exy, (y <? x) eqn:Eyx, (y <? z) eqn:Eyz, (z <? y) eqn:Ezy,
    (x <? z) eqn:Exz, (z <? x) eqn:Ezx; try discriminate; try reflexivity; try lia;
    try (intros; exfalso; lia).
  apply IH.
Qed.

Lemma lt_total (a : SoftwareVersion) :
  forall b, lt a b = false -> a = b \/ lt b a = true.
Proof.
  unfold lt. induction a as [| x a IH]; intros [| y b];
    cbn [lexicographical_compare]; try discriminate; auto.
  destruct (x <? y) eqn:Exy, (y <? x) eqn:Eyx; try discriminate; auto.
  intros H. destruct (IH b H) as [-> | H']; [left | right; exact H'].
  f_equal. lia.
Qed.

Lemma le_transitive (a b c : SoftwareVersion) :
  le a b = true -> le b c = true -> le a c = true.
Proof.
  unfold le. rewrite !orb_true_iff, !eq_spec.
  intros [-> | H1] [-> | H2]; auto. right. exact (lt_transitive a b c H1 H2).
Qed.

Lemma le_reflexive (a : SoftwareVersion) : le a a = true.
Proof. unfold le. now rewrite (proj2 (eq_spec a a) eq_refl). Qed.

Lemma eq_null (a : SoftwareVersion) : eq a NULL_VERSION = true <-> a = [].
Proof. apply eq_spec. Qed.

(** What the loop of [softwareVersion] keeps, from any [ret] on. *)
Lemma softwareVersion_loop (vs : list SoftwareVersion) :
  forall ret,
    let r := fold_left
               (fun ret v =>
                  if ne v NULL_VERSION && (eq ret NULL_VERSION || lt ret v) then v else ret)
               vs ret in
    (r = ret \/ (In r vs /\ r <> []))
    /\ (ret <> [] -> le ret r = true)
    /\ (forall v, In v vs -> v <> [] -> le v r = true).
Proof.
  induction vs as [| v vs IH]; intros ret; cbn [fold_left].
  - repeat split; [left; reflexivity | intros _; apply le_reflexive | intros v []].
  - set (ret' := if ne v NULL_VERSION && (eq ret NULL_VERSION || lt ret v) then v else ret).
    destruct (IH ret') as (H1 & H2 & H3). cbv zeta in *.
    set (r := fold_left _ vs ret') in *.
    assert (Hr' : (ret' = ret /\ (v <> [] -> ret <> [] /\ le v ret = true))
                  \/ (ret' = v /\ v <> [] /\ (ret <> [] -> le ret v = true))).
    { unfold ret', ne. destruct (eq v NULL_VERSION) eqn:Ev; cbn [negb andb].
      - left. split; [reflexivity |]. intros Hv. apply eq_null in Ev. contradiction.
      - assert (Hv : v <> []) by (intros ->; discriminate).
        destruct (eq ret NULL_VERSION) eqn:Er; cbn [orb].
        + right. apply eq_null in Er. repeat split; [exact Hv | intros C; contradiction].
        + assert (Hret : ret <> []) by (intros ->; discriminate).
          destruct (lt ret v) eqn:El.
          * right. repeat split; [exact Hv |]. intros _. unfold le. rewrite El.
            apply orb_true_r.
          * left. split; [reflexivity |]. intros _. split; [exact Hret |].
            unfold le. destruct (lt_total ret v El) as [-> | Hl];
              [apply le_reflexive | rewrite Hl; apply orb_true_r]. }
    repeat split.
    + destruct H1 as [H1 | [H1 Hn]]; [| right; split; [right; exact H1 | exact Hn]].
      destruct Hr' as [[E _] | (E & Hv & _)]; [left; congruence |].
      right. split; [left; congruence | congruence].
    + intros Hret. destruct Hr' as [[E _] | (E & Hv & Hle)].
      * rewrite <- E. apply H2. congruence.
      * apply (le_transitive ret v r); [apply Hle, Hret | rewrite <- E; apply H2; congruence].
    + intros w [<- | Hw] Hne; [| apply H3; assumption].
      destruct Hr' as [[E Hle] | (E & Hv & _)].
      * destruct (Hle Hne) as [Hret Hl].
        apply (le_transitive v ret r); [exact Hl | rewrite <- E; apply H2; congruence].
      * rewrite <- E. apply H2. congruence.
Qed.

(** [Shard::softwareVersion] returns the greatest of the versions that
    the backends report: the null version only if every backend reports
    the null version, and else a version that a backend reports and that
    no version of a backend exceeds.  So a shard supports write commands
    exactly when one of its backends reports 2.6.0 or more, whatever the
    others report. *)
Theorem softwareVersion_is_the_greatest (backends_ : list SoftwareVersion) :
  let r := softwareVersion backends_ in
  (r = NULL_VERSION <-> forall v, In v backends_ -> v = NULL_VERSION)
  /\ (r <> NULL_VERSION -> In r backends_)
  /\ (forall v, In v backends_ -> le v r = true)
  /\ (supportsWriteCommands backends_ = true
      <-> exists v, In v backends_ /\ ge v [2; 6; 0] = true).
Proof.
  cbv zeta. unfold supportsWriteCommands.
  pose proof (softwareVersion_loop backends_ NULL_VERSION) as H. cbv zeta in H.
  fold (softwareVersion backends_) in H. destruct H as (H1 & _ & H3).
  unfold NULL_VERSION in *.
  set (r := softwareVersion backends_) in *.
  assert (Hle : forall v, In v backends_ -> le v r = true).
  { intros v Hv. destruct v as [| x v]; [| apply H3; [exact Hv | discriminate]].
    destruct r; reflexivity. }
  assert (Hin : r <> [] -> In r backends_) by (destruct H1 as [H1 | [H1 _]]; tauto).
  repeat split.
  - intros Hr v Hv. specialize (Hle v Hv). rewrite Hr in Hle.
    destruct v; [reflexivity | discriminate].
  - intros Hall. destruct H1 as [H1 | [H1 Hn]]; [exact H1 |]. elim Hn. apply Hall, H1.
  - exact Hin.
  - exact Hle.
  - intros Hs. exists r. split; [| exact Hs]. apply Hin. intros E. rewrite E in Hs.
    discriminate.
  - intros (v & Hv & Hs).
    assert (G : forall a, ge a [2; 6; 0] = le [2; 6; 0] a).
    { intros a. unfold ge, le, gt. f_equal.
      destruct (eq a [2; 6; 0]) eqn:E1, (eq [2; 6; 0] a) eqn:E2; try reflexivity.
      - apply eq_spec in E1. subst. discriminate.
      - apply eq_spec in E2. subst. discriminate. }
    rewrite G in *. apply (le_transitive _ v r); [exact Hs | apply Hle, Hv].
Qed.

End VersionFacts.

(* ================================================================== *)
(** * Properties of the messages on the wire *)
(* ================================================================== *)

Module WireFacts.
Import Bson Topology Wire.
Import WireNotions.

(** ** Bytes *)

Lemma le_bytes_length (n : nat) (x : Z) : List.length (le_bytes n x) = n.
Proof. revert x. induction n as [| n IH]; intros x; cbn [le_bytes List.length]; auto. Qed.

Lemma le_value_le_bytes (n : nat) (x : Z) :
  0 <= x < 256 ^ Z.of_nat n -> le_value (le_bytes n x) = x.
Proof.
  revert x. induction n as [| n IH]; intros x Hx; cbn [le_bytes le_value].
  - cbn in Hx. lia.
  - rewrite IH.
    + pose proof (Z.div_mod x 256). lia.
    + rewrite Nat2Z.inj_succ, Z.pow_succ_r in Hx by lia.
      split; [apply Z.div_pos; lia | apply Z.div_lt_upper_bound; lia].
Qed.

Lemma le_value_le_bytes_mod (n : nat) (x : Z) :
  le_value (le_bytes n x) = x mod 256 ^ Z.of_nat n.
Proof.
  revert x. induction n as [| n IH]; intros x; cbn [le_bytes le_value].
  - cbn. now rewrite Z.mod_1_r.
  - rewrite IH, Nat2Z.inj_succ, Z.pow_succ_r by lia.
    rewrite (Z.mul_comm 256), Z.rem_mul_r by lia. lia.
Qed.

Lemma bytes_string_bytes (s : string) : bytes_string (string_bytes s) = s.
Proof.
  induction s as [| c r IH]; cbn [string_bytes bytes_string]; [reflexivity |].
  rewrite N2Z.id, ascii_N_embedding, IH. reflexivity.
Qed.

Lemma untilNul_string (bs post : list Z) :
  forallb (fun b => negb (b =? 0)) bs = true ->
  untilNul (app bs (0 :: post)) = bs.
Proof.
  induction bs as [| b r IH]; cbn [forallb app untilNul]; [reflexivity |].
  intros H. apply andb_prop in H. destruct H as [Hb Hr].
  apply negb_true_iff in Hb. rewrite Hb, (IH Hr). reflexivity.
Qed.

(** ** One extraction after another *)

Lemma rest_step (m : Message) (item post : list Z) :
  rest m = app item post -> 0 <= pos_ m -> (0 < List.length item)%nat ->
  pos_ m + Z.of_nat (List.length item) <= size m
  /\ firstn (List.length item) (rest m) = item
  /\ rest (mkMessage (data_ m) (pos_ m + Z.of_nat (List.length item))) = post.
Proof.
  unfold rest, size. intros H Hp Hi. cbn [data_ pos_].
  assert (Hl : List.length (skipn (Z.to_nat (pos_ m)) (data_ m))
               = (List.length item + List.length post)%nat)
    by (rewrite H; apply List.length_app).
  rewrite List.length_skipn in Hl. split; [lia |]. split.
  - rewrite H, List.firstn_app, Nat.sub_diag, List.firstn_all, List.firstn_O.
    apply app_nil_r.
  - rewrite Z2Nat.inj_add; [| exact Hp | apply Nat2Z.is_nonneg]. rewrite Nat2Z.id.
    rewrite Nat.add_comm, <- List.skipn_skipn, H.
    rewrite List.skipn_app, List.skipn_all, Nat.sub_diag. reflexivity.
Qed.

Lemma not_atEnd (m : Message) (item post : list Z) :
  rest m = app item post -> 0 <= pos_ m -> (0 < List.length item)%nat -> atEnd m = false.
Proof.
  intros H Hp Hi. destruct (rest_step m item post H Hp Hi) as (Hle & _).
  unfold atEnd. apply Z.eqb_neq. lia.
Qed.

Lemma wrap64_small (x : Z) : 0 <= x < 2 ^ 64 -> wrap 64 x = x.
Proof. intros H. unfold wrap. apply Z.mod_small, H. Qed.

Lemma extract_pod (n : nat) (m : Message) (x was : Z) (post : list Z) :
  rest m = app (le_bytes n x) post -> (0 < n)%nat -> 0 <= pos_ m -> size m < 2 ^ 62 ->
  extract (fetchPOD (Z.of_nat n)) was m
  = Got (x mod 256 ^ Z.of_nat n, mkMessage (data_ m) (pos_ m + Z.of_nat n))
  /\ rest (mkMessage (data_ m) (pos_ m + Z.of_nat n)) = post.
Proof.
  intros H Hn Hp Hs.
  destruct (rest_step m _ _ H Hp) as (Hle & Hf & Hr); [rewrite le_bytes_length; exact Hn |].
  rewrite le_bytes_length in *. split; [| exact Hr].
  unfold extract, atEnd. replace (pos_ m =? size m) with false by (symmetry; apply Z.eqb_neq; lia).
  unfold fetchPOD, need, advance, need, bytesAt.
  rewrite wrap64_small by lia.
  replace (size m <? pos_ m + Z.of_nat n) with false by (symmetry; apply Z.ltb_ge; lia).
  replace (pos_ m + Z.of_nat n <=? size m) with true by (symmetry; apply Z.leb_le; lia).
  cbn [andThen]. rewrite Nat2Z.id. fold (rest m). rewrite Hf, le_value_le_bytes_mod.
  reflexivity.
Qed.

Lemma extract_uint32 (m : Message) (x was : Z) (post : list Z) :
  rest m = app (le_bytes 4 x) post -> 0 <= x < 2 ^ 32 -> 0 <= pos_ m -> size m < 2 ^ 62 ->
  extract fetch_uint32 was m = Got (x, mkMessage (data_ m) (pos_ m + 4))
  /\ rest (mkMessage (data_ m) (pos_ m + 4)) = post.
Proof.
  intros H Hx Hp Hs. destruct (extract_pod 4 m x was post H ltac:(lia) Hp Hs) as [He Hr].
  split; [| exact Hr]. unfold fetch_uint32. change 4 with (Z.of_nat 4) at 1. rewrite He.
  f_equal. f_equal. apply Z.mod_small. change (256 ^ Z.of_nat 4) with (2 ^ 32). exact Hx.
Qed.

Lemma extract_uint64 (m : Message) (x was : Z) (post : list Z) :
  rest m = app (le_bytes 8 x) post -> 0 <= x < 2 ^ 64 -> 0 <= pos_ m -> size m < 2 ^ 62 ->
  extract fetch_uint64 was m = Got (x, mkMessage (data_ m) (pos_ m + 8))
  /\ rest (mkMessage (data_ m) (pos_ m + 8)) = post.
Proof.
  intros H Hx Hp Hs. destruct (extract_pod 8 m x was post H ltac:(lia) Hp Hs) as [He Hr].
  split; [| exact Hr]. unfold fetch_uint64. change 8 with (Z.of_nat 8) at 1. rewrite He.
  f_equal. f_equal. apply Z.mod_small. change (256 ^ Z.of_nat 8) with (2 ^ 64). exact Hx.
Qed.

Lemma extract_int32 (m : Message) (x was : Z) (post : list Z) :
  rest m = app (le_bytes 4 x) post -> - 2 ^ 31 <= x < 2 ^ 31 -> 0 <= pos_ m ->
  size m < 2 ^ 62 ->
  extract fetch_int32 was m = Got (x, mkMessage (data_ m) (pos_ m + 4))
  /\ rest (mkMessage (data_ m) (pos_ m + 4)) = post.
Proof.
  intros H Hx Hp Hs. destruct (extract_pod 4 m x 0 post H ltac:(lia) Hp Hs) as [He Hr].
  split; [| exact Hr]. unfold extract in *.
  rewrite (not_atEnd m _ _ H Hp) in * by (rewrite le_bytes_length; lia).
  unfold fetch_int32. change 4 with (Z.of_nat 4) at 1. rewrite He. cbn [andThen fst snd].
  f_equal. f_equal. unfold swrap. change (256 ^ Z.of_nat 4) with (2 ^ 32).
  change (2 ^ (32 - 1)) with (2 ^ 31).
  rewrite Zplus_mod_idemp_l. rewrite Z.mod_small by lia. lia.
Qed.

Lemma extract_Namespace (m : Message) (n was : Namespace) (post : list Z) :
  rest m = app (string_bytes (Topology.ns n)) (0 :: post) -> sendable n ->
  0 <= pos_ m -> size m < 2 ^ 62 ->
  let pos' := pos_ m + (Z.of_nat (List.length (string_bytes (Topology.ns n))) + 1) in
  extract fetch_Namespace was m = Got (n, mkMessage (data_ m) pos')
  /\ rest (mkMessage (data_ m) pos') = post.
Proof.
  intros H [Hn Hz] Hp Hs pos'.
  assert (H' : rest m = app (app (string_bytes (Topology.ns n)) [0]) post)
    by (rewrite <- app_assoc; exact H).
  destruct (rest_step m _ _ H' Hp) as (Hle & _ & Hr);
    [rewrite List.length_app; cbn [List.length]; lia |].
  rewrite List.length_app, Nat2Z.inj_add in Hle, Hr. cbn [List.length] in Hle, Hr.
  change (Z.of_nat 1) with 1 in *. split; [| exact Hr].
  unfold extract, atEnd. replace (pos_ m =? size m) with false by (symmetry; apply Z.eqb_neq; lia).
  unfold fetch_Namespace, fetch_string.
  replace (size m <? pos_ m) with false by (symmetry; apply Z.ltb_ge; lia).
  fold (rest m). rewrite H, (untilNul_string _ _ Hz).
  unfold advance, need. rewrite wrap64_small by lia.
  replace (size m <? _) with false by (symmetry; apply Z.ltb_ge; lia).
  cbn [andThen fst snd]. rewrite bytes_string_bytes, Hn. reflexivity.
Qed.

Lemma wellFormed_rawSize (x : Raw) :
  wellFormed x -> rawSize x = Z.of_nat (List.length x).
Proof.
  intros [Hl Hr]. unfold rawSize, swrap. rewrite Hl.
  change (2 ^ (32 - 1)) with (2 ^ 31). rewrite Z.mod_small by lia. lia.
Qed.

Lemma pushObject_wellFormed (b : MsgBuilder) (x : Raw) :
  wellFormed x -> pushObject b x = app b x.
Proof.
  intros H. unfold pushObject. rewrite (wellFormed_rawSize x H), Nat2Z.id, List.firstn_all.
  reflexivity.
Qed.

Lemma extract_Object (m : Message) (x was : Raw) (post : list Z) :
  rest m = app x post -> wellFormed x -> 0 <= pos_ m -> size m < 2 ^ 62 ->
  extract fetch_Object was m
  = Got (x, mkMessage (data_ m) (pos_ m + Z.of_nat (List.length x)))
  /\ rest (mkMessage (data_ m) (pos_ m + Z.of_nat (List.length x))) = post.
Proof.
  intros H Hw Hp Hs. pose proof Hw as [Hl Hr].
  destruct (rest_step m _ _ H Hp) as (Hle & Hf & Hrest); [lia |].
  split; [| exact Hrest].
  unfold extract, atEnd. replace (pos_ m =? size m) with false by (symmetry; apply Z.eqb_neq; lia).
  unfold fetch_Object, need, advance, need, bytesAt.
  rewrite wrap64_small by lia.
  replace (size m <? pos_ m + 4) with false by (symmetry; apply Z.ltb_ge; lia).
  replace (pos_ m + 4 <=? size m) with true by (symmetry; apply Z.leb_le; lia).
  cbn [andThen]. fold (rest m).
  assert (H4 : firstn (Z.to_nat 4) (rest m) = firstn 4 x).
  { rewrite H. change (Z.to_nat 4) with 4%nat. rewrite List.firstn_app.
    replace (4 - List.length x)%nat with 0%nat by lia. rewrite List.firstn_O. apply app_nil_r. }
  rewrite H4, Hl. rewrite wrap64_small by lia.
  replace (size m <? pos_ m + Z.of_nat (List.length x)) with false
    by (symmetry; apply Z.ltb_ge; lia).
  replace (Z.of_nat (List.length x) <? 4) with false by (symmetry; apply Z.ltb_ge; lia).
  replace (pos_ m + Z.of_nat (List.length x) <=? size m) with true
    by (symmetry; apply Z.leb_le; lia).
  cbn [andThen]. rewrite Nat2Z.id, Hf. reflexivity.
Qed.

Lemma extract_at_end {A : Type} (fetch : Message -> read (A * Message)) (was : A)
    (m : Message) :
  rest m = [] -> 0 <= pos_ m <= size m ->
  extract fetch was m = Got (was, mkMessage (data_ m) npos).
Proof.
  unfold rest, extract, atEnd, size. intros H Hp.
  assert (Hl : List.length (skipn (Z.to_nat (pos_ m)) (data_ m)) = 0%nat) by now rewrite H.
  rewrite List.length_skipn in Hl.
  replace (pos_ m =? Z.of_nat (List.length (data_ m))) with true
    by (symmetry; apply Z.eqb_eq; lia).
  reflexivity.
Qed.

(** ** [readMsg] and [finish] *)

Lemma readMsg_finish (body : list Z) :
  Z.of_nat (List.length body) + 4 <= 16 * 1024 * 1024 ->
  readMsg (finish (app newBuilder body)) = Got (Some (Message_of body)).
Proof.
  intros Hs. unfold finish, newBuilder.
  change (skipn 4 (app [0; 0; 0; 0] body)) with body. cbn [app].
  set (L := Z.of_nat (List.length (0 :: 0 :: 0 :: 0 :: body))).
  assert (HL : L = Z.of_nat (List.length body) + 4) by (unfold L; cbn [List.length]; lia).
  unfold readMsg. rewrite List.length_app, le_bytes_length.
  replace (4 + List.length body <? 4)%nat with false by (symmetry; apply Nat.ltb_ge; lia).
  assert (Hf : firstn 4 (app (le_bytes 4 (wrap 32 L)) body) = le_bytes 4 (wrap 32 L)).
  { rewrite List.firstn_app, le_bytes_length, Nat.sub_diag, List.firstn_O, app_nil_r.
    rewrite <- (le_bytes_length 4 (wrap 32 L)) at 1. apply List.firstn_all. }
  rewrite Hf. unfold wrap. rewrite (Z.mod_small L) by lia.
  rewrite le_value_le_bytes by (change (256 ^ Z.of_nat 4) with (2 ^ 32); lia).
  replace (16 * 1024 * 1024 <? L) with false by (symmetry; apply Z.ltb_ge; lia).
  replace (L <? 4) with false by (symmetry; apply Z.ltb_ge; lia).
  assert (Hk : skipn 4 (app (le_bytes 4 L) body) = body).
  { rewrite List.skipn_app, le_bytes_length, Nat.sub_diag.
    rewrite <- (le_bytes_length 4 L) at 1. rewrite List.skipn_all. reflexivity. }
  rewrite Hk. replace (Z.to_nat (L - 4)) with (List.length body) by lia.
  rewrite Nat.ltb_irrefl, List.firstn_all. reflexivity.
Qed.

Lemma finished_length (body : list Z) :
  List.length (finish (app newBuilder body)) = (4 + List.length body)%nat.
Proof.
  unfold finish, newBuilder. change (skipn 4 (app [0; 0; 0; 0] body)) with body.
  rewrite List.length_app, le_bytes_length. reflexivity.
Qed.

Lemma opcode_of (reqID responseTo op : Z) (payload : list Z) :
  - 2 ^ 31 <= op < 2 ^ 31 ->
  opcode (Message_of (app (header reqID responseTo op) payload)) = Got op.
Proof.
  intros Ho. unfold opcode, Message_of, size, header. cbn [data_].
  rewrite <- !app_assoc, !List.length_app, !le_bytes_length.
  replace (sizeof_Header <=? _) with true
    by (symmetry; apply Z.leb_le; unfold sizeof_Header; lia).
  assert (Hk : firstn 4 (skipn 8 (app (le_bytes 4 reqID)
                 (app (le_bytes 4 responseTo) (app (le_bytes 4 op) payload))))
               = le_bytes 4 op) by reflexivity.
  rewrite Hk, le_value_le_bytes_mod. change (256 ^ Z.of_nat 4) with (2 ^ 32).
  f_equal. unfold swrap. change (2 ^ (32 - 1)) with (2 ^ 31).
  rewrite Zplus_mod_idemp_l, Z.mod_small by lia. lia.
Qed.

Lemma rest_after_header (reqID responseTo op : Z) (payload : list Z) :
  rest (Message_of (app (header reqID responseTo op) payload)) = payload.
Proof. reflexivity. Qed.

(** ** What mongoz packs, mongoz parses *)

(** An update and a delete that mongoz sends to a shard in the format of
    MongoDB 2.4 are messages that mongoz itself accepts and reads back:
    [readMsg] takes the whole of it, the opcode is the one written, and
    [messages::Update] finds the namespace, the selector, the update and
    the two flags that were packed.  [messages::Delete] finds the
    namespace and the selector, and the limit 1 for a limit of 1 and 0
    for any other limit. *)
Theorem pack24_is_read_back (n : Namespace) (u : UpdateSub) (d : DeleteSub) :
  sendable n ->
  wellFormed (u_selector u) -> wellFormed (u_update u) -> wellFormed (d_selector d) ->
  Z.of_nat (List.length (packUpdate n u)) <= 16 * 1024 * 1024 ->
  Z.of_nat (List.length (packDelete n d)) <= 16 * 1024 * 1024 ->
  (exists m,
     readMsg (packUpdate n u) = Got (Some m)
     /\ opcode m = Got UPDATE
     /\ Update_of m = Got (mkBase n [u] false emptyObject))
  /\ (exists m,
        readMsg (packDelete n d) = Got (Some m)
        /\ opcode m = Got DELETE
        /\ Delete_of m
           = Got (mkBase n [mkDeleteSub (d_selector d) (if limit d =? 1 then 1 else 0)]
                    false emptyObject)).
Proof.
  intros Hn Hs Hu Hd Hlu Hld. split.
  - set (flags := Z.lor (if upsert u then UPSERT else 0) (if multi u then MULTI_UPDATE else 0)).
    set (payload := app (le_bytes 4 0)
                      (app (string_bytes (Topology.ns n))
                         (0 :: app (le_bytes 4 flags) (app (u_selector u) (u_update u))))).
    assert (Hp : packUpdate n u = finish (app newBuilder (app (header 0 0 UPDATE) payload))).
    { unfold packUpdate, push32, pushPod, pushString, header, payload. fold flags.
      rewrite !pushObject_wellFormed by assumption. rewrite <- !app_assoc. reflexivity. }
    rewrite Hp in *. rewrite finished_length in Hlu.
    exists (Message_of (app (header 0 0 UPDATE) payload)).
    split; [apply readMsg_finish; lia |].
    split; [apply opcode_of; unfold UPDATE; lia |].
    set (m := Message_of (app (header 0 0 UPDATE) payload)) in *.
    assert (Hsz : size m < 2 ^ 62) by (unfold size, m, Message_of; cbn [data_]; lia).
    assert (Hr0 : rest m = payload) by apply rest_after_header.
    assert (Hpos : pos_ m = 12) by reflexivity.
    assert (Hf : 0 <= flags < 4)
      by (unfold flags, UPSERT, MULTI_UPDATE; destruct (upsert u), (multi u);
          vm_compute; (split; [discriminate | reflexivity])).
    unfold Update_of.
    destruct (extract_int32 m 0 0 _ Hr0 ltac:(lia) ltac:(cbn [pos_]; lia) Hsz) as [E1 R1].
    rewrite E1. cbn [andThen snd fst].
    destruct (extract_Namespace _ n noNamespace _ R1 Hn ltac:(cbn [pos_]; lia) Hsz) as [E2 R2].
    rewrite E2. cbn [andThen snd fst].
    pose proof (Nat2Z.is_nonneg (List.length (string_bytes (Topology.ns n)))) as Hnn.
    destruct (extract_int32 _ flags 0 _ R2 ltac:(lia) ltac:(cbn [pos_]; lia) Hsz) as [E3 R3].
    rewrite E3. cbn [andThen snd fst].
    destruct (extract_Object _ (u_selector u) emptyObject _ R3 Hs ltac:(cbn [pos_]; lia) Hsz)
      as [E4 R4].
    rewrite E4. cbn [andThen snd fst].
    rewrite <- (app_nil_r (u_update u)) in R4.
    destruct (extract_Object _ (u_update u) emptyObject _ R4 Hu ltac:(cbn [pos_]; lia) Hsz)
      as [E5 R5].
    rewrite E5. cbn [andThen snd fst].
    unfold good, npos, SIZE_MAX. cbn [pos_].
    match goal with
    | |- context [negb (negb (?p =? ?q))] =>
        replace (p =? q) with false
          by (symmetry; apply Z.eqb_neq; unfold payload in Hlu;
              rewrite !List.length_app in Hlu; cbn [List.length] in Hlu;
              destruct Hs as [_ Hs'], Hu as [_ Hu']; lia)
    end.
    cbn [negb]. destruct u as [sel upd [|] [|]]; reflexivity.
  - set (flags := if limit d =? 1 then SINGLE else 0).
    set (payload := app (le_bytes 4 0)
                      (app (string_bytes (Topology.ns n))
                         (0 :: app (le_bytes 4 flags) (d_selector d)))).
    assert (Hp : packDelete n d = finish (app newBuilder (app (header 0 0 DELETE) payload))).
    { unfold packDelete, push32, pushPod, pushString, header, payload. fold flags.
      rewrite !pushObject_wellFormed by assumption. rewrite <- !app_assoc. reflexivity. }
    rewrite Hp in *. rewrite finished_length in Hld.
    exists (Message_of (app (header 0 0 DELETE) payload)).
    split; [apply readMsg_finish; lia |].
    split; [apply opcode_of; unfold DELETE; lia |].
    set (m := Message_of (app (header 0 0 DELETE) payload)) in *.
    assert (Hsz : size m < 2 ^ 62) by (unfold size, m, Message_of; cbn [data_]; lia).
    assert (Hr0 : rest m = payload) by apply rest_after_header.
    assert (Hpos : pos_ m = 12) by reflexivity.
    assert (Hf : 0 <= flags < 2) by (unfold flags, SINGLE; destruct (limit d =? 1); lia).
    unfold Delete_of.
    destruct (extract_uint32 m 0 0 _ Hr0 ltac:(lia) ltac:(cbn [pos_]; lia) Hsz) as [E1 R1].
    rewrite E1. cbn [andThen snd fst].
    destruct (extract_Namespace _ n noNamespace _ R1 Hn ltac:(cbn [pos_]; lia) Hsz) as [E2 R2].
    rewrite E2. cbn [andThen snd fst].
    pose proof (Nat2Z.is_nonneg (List.length (string_bytes (Topology.ns n)))) as Hnn.
    destruct (extract_uint32 _ flags 0 _ R2 ltac:(lia) ltac:(cbn [pos_]; lia) Hsz) as [E3 R3].
    rewrite E3. cbn [andThen snd fst].
    rewrite <- (app_nil_r (d_selector d)) in R3.
    destruct (extract_Object _ (d_selector d) emptyObject _ R3 Hd ltac:(cbn [pos_]; lia) Hsz)
      as [E4 R4].
    rewrite E4. cbn [andThen snd fst].
    unfold good, npos, SIZE_MAX. cbn [pos_].
    match goal with
    | |- context [negb (negb (?p =? ?q))] =>
        replace (p =? q) with false
          by (symmetry; apply Z.eqb_neq; unfold payload in Hld;
              rewrite !List.length_app in Hld; cbn [List.length] in Hld;
              destruct Hd as [_ Hd']; lia)
    end.
    cbn [negb]. unfold flags, SINGLE. destruct (limit d =? 1); reflexivity.
Qed.

Lemma pack24_is_read_back_witness :
  (exists m,
     readMsg (packUpdate exampleSpace (mkUpdateSub exampleSelector exampleChange false true))
     = Got (Some m)
     /\ opcode m = Got UPDATE
     /\ Update_of m
        = Got (mkBase exampleSpace [mkUpdateSub exampleSelector exampleChange false true]
                 false emptyObject))
  /\ (exists m,
        readMsg (packDelete exampleSpace (mkDeleteSub exampleSelector 1)) = Got (Some m)
        /\ opcode m = Got DELETE
        /\ Delete_of m
           = Got (mkBase exampleSpace
                    [mkDeleteSub (d_selector (mkDeleteSub exampleSelector 1))
                       (if limit (mkDeleteSub exampleSelector 1) =? 1 then 1 else 0)]
                    false emptyObject)).
Proof.
  apply (pack24_is_read_back exampleSpace
           (mkUpdateSub exampleSelector exampleChange false true)
           (mkDeleteSub exampleSelector 1)).
  - split; reflexivity.
  - split; [reflexivity | vm_compute; split; [discriminate | reflexivity]].
  - split; [reflexivity | vm_compute; split; [discriminate | reflexivity]].
  - split; [reflexivity | vm_compute; split; [discriminate | reflexivity]].
  - vm_compute. discriminate.
  - vm_compute. discriminate.
Defined.

(** ** [KILL_CURSORS] *)

Lemma le_bytes_split (n m : nat) :
  forall x, le_bytes (n + m) x
            = app (le_bytes n (x mod 256 ^ Z.of_nat n)) (le_bytes m (x / 256 ^ Z.of_nat n)).
Proof.
  induction n as [| n IH]; intros x.
  - cbn [Nat.add le_bytes app]. change (256 ^ Z.of_nat 0) with 1. now rewrite Z.div_1_r.
  - cbn [Nat.add le_bytes app]. rewrite IH, Nat2Z.inj_succ, Z.pow_succ_r by lia.
    set (P := 256 ^ Z.of_nat n).
    assert (Hp : 0 < P) by (apply Z.pow_pos_nonneg; lia).
    assert (Ha : (x mod (256 * P)) mod 256 = x mod 256)
      by (apply Z.mod_mod_divide; exists P; lia).
    assert (Hb : (x mod (256 * P)) / 256 = (x / 256) mod P).
    { rewrite Z.rem_mul_r by lia. rewrite (Z.mul_comm 256 ((x / 256) mod P)).
      rewrite Z.div_add by lia. rewrite Z.div_small by (apply Z.mod_pos_bound; lia). lia. }
    assert (Hc : x / (256 * P) = x / 256 / P) by (rewrite Z.div_div by lia; reflexivity).
    rewrite Ha, Hb, Hc. reflexivity.
Qed.

Lemma le_bytes_8_halves (id : Z) :
  le_bytes 8 id = app (le_bytes 4 (id mod 2 ^ 32)) (le_bytes 4 (id / 2 ^ 32)).
Proof. apply (le_bytes_split 4 4 id). Qed.

Lemma words_of_halves (ids : list Z) :
  flat_map (le_bytes 8) ids = flat_map (le_bytes 4) (halves ids).
Proof.
  unfold halves. induction ids as [| id r IH]; [reflexivity |].
  cbn [flat_map app]. rewrite le_bytes_8_halves, IH, <- app_assoc. reflexivity.
Qed.

Lemma cursorIDsOf_words (ws : list Z) :
  forall (count : nat) (m : Message) (post : list Z) (acc : list Z),
    rest m = app (flat_map (le_bytes 4) ws) post ->
    Forall (fun w => 0 <= w < 2 ^ 32) ws ->
    (count <= List.length ws)%nat ->
    0 <= pos_ m -> size m < 2 ^ 62 ->
    cursorIDsOf count m acc = Got (app acc (firstn count ws)).
Proof.
  induction ws as [| w r IH]; intros count m post acc Hr Hw Hc Hp Hs.
  - destruct count; [| cbn [List.length] in Hc; lia].
    cbn [cursorIDsOf firstn]. now rewrite app_nil_r.
  - destruct count as [| count]; [cbn [cursorIDsOf firstn]; now rewrite app_nil_r |].
    cbn [cursorIDsOf firstn]. cbn [flat_map] in Hr. rewrite <- app_assoc in Hr.
    inversion Hw as [| ? ? Hw1 Hw2]; subst.
    destruct (extract_uint32 m w 0 _ Hr Hw1 Hp Hs) as [E R]. rewrite E.
    cbn [andThen fst snd]. unfold good at 1. cbn [pos_].
    assert (Hle : pos_ m + 4 <= size m).
    { destruct (rest_step m (le_bytes 4 w) _ Hr Hp) as (H1 & _);
        [rewrite le_bytes_length; lia |]. rewrite le_bytes_length in H1. lia. }
    replace (pos_ m + 4 =? npos) with false
      by (symmetry; apply Z.eqb_neq; unfold npos, SIZE_MAX; lia).
    cbn [negb]. rewrite (IH count _ post (app acc [w]) R Hw2); [| cbn [List.length] in Hc; lia
      | cbn [pos_]; lia | exact Hs].
    rewrite <- app_assoc. reflexivity.
Qed.

(** [messages::KillCursors] takes every identifier for a 32-bit number:
    of a message in the format of the protocol, with its [count] 64-bit
    identifiers, it reads the first [count] halves.  So it finds the first
    identifier only if that is below 2^32, and with it a 0 in place of the
    second. *)
Theorem KillCursors_reads_halves (reqID responseTo : Z) (ids : list Z) :
  Forall (fun id => 0 <= id < 2 ^ 64) ids ->
  Z.of_nat (List.length ids) < 2 ^ 32 ->
  KillCursors_of
    (Message_of
       (app (header reqID responseTo KILL_CURSORS)
          (app (le_bytes 4 0)
             (app (le_bytes 4 (Z.of_nat (List.length ids))) (flat_map (le_bytes 8) ids)))))
  = Got (firstn (List.length ids) (halves ids)).
Proof.
  intros Hids Hlen.
  set (payload := app (le_bytes 4 0)
                    (app (le_bytes 4 (Z.of_nat (List.length ids)))
                       (flat_map (le_bytes 8) ids))).
  set (m := Message_of (app (header reqID responseTo KILL_CURSORS) payload)).
  assert (Hr0 : rest m = payload) by apply rest_after_header.
  assert (Hpos : pos_ m = 12) by reflexivity.
  assert (Hfl : List.length (flat_map (le_bytes 8) ids) = (8 * List.length ids)%nat).
  { clear. induction ids as [| id r IH]; [reflexivity |].
    cbn [flat_map List.length]. rewrite List.length_app, le_bytes_length, IH. lia. }
  assert (Hsz : size m < 2 ^ 62).
  { unfold size, m, Message_of, payload, header. cbn [data_].
    rewrite !List.length_app, !le_bytes_length, Hfl. lia. }
  unfold KillCursors_of.
  destruct (extract_uint32 m 0 0 _ Hr0 ltac:(lia) ltac:(lia) Hsz) as [E1 R1].
  rewrite E1. cbn [andThen fst snd].
  destruct (extract_uint32 _ (Z.of_nat (List.length ids)) 0 _ R1 ltac:(lia)
              ltac:(cbn [pos_]; lia) Hsz) as [E2 R2].
  rewrite E2. cbn [andThen fst snd]. unfold good at 1. cbn [pos_].
  replace (pos_ m + 4 + 4 =? npos) with false
    by (symmetry; apply Z.eqb_neq; unfold npos, SIZE_MAX; lia).
  cbn [negb]. rewrite Nat2Z.id.
  rewrite words_of_halves, <- (app_nil_r (flat_map (le_bytes 4) (halves ids))) in R2.
  apply (cursorIDsOf_words (halves ids) (List.length ids) _ [] [] R2).
  - unfold halves. clear - Hids. induction Hids as [| id r Hid Hr IH]; [constructor |].
    cbn [flat_map app]. constructor; [apply Z.mod_pos_bound; lia |].
    constructor; [| exact IH].
    split; [apply Z.div_pos; lia | apply Z.div_lt_upper_bound; lia].
  - unfold halves. clear. induction ids as [| id r IH]; [reflexivity |].
    cbn [flat_map app List.length]. lia.
  - cbn [pos_]. lia.
  - exact Hsz.
Qed.

Lemma KillCursors_reads_halves_witness :
  KillCursors_of
    (Message_of
       (app (header 7 0 KILL_CURSORS)
          (app (le_bytes 4 0)
             (app (le_bytes 4 (Z.of_nat (List.length [5; 6])))
                (flat_map (le_bytes 8) [5; 6])))))
  = Got (firstn (List.length [5; 6]) (halves [5; 6])).
Proof.
  apply (KillCursors_reads_halves 7 0 [5; 6]).
  - repeat constructor; lia.
  - cbn. lia.
Defined.

(** The second of two cursors survives [KILL_CURSORS]. *)
Example second_cursor_is_not_killed :
  KillCursors_of
    (Message_of
       (app (header 7 0 KILL_CURSORS)
          (app (le_bytes 4 0) (app (le_bytes 4 2) (flat_map (le_bytes 8) [5; 6])))))
  = Got [5; 0].
Proof. reflexivity. Qed.

(** ** A query of mongoz, read by mongoz *)

Lemma extract_uint32_any (m : Message) (x was : Z) (post : list Z) :
  rest m = app (le_bytes 4 x) post -> 0 <= pos_ m -> size m < 2 ^ 62 ->
  extract fetch_uint32 was m = Got (wrap 32 x, mkMessage (data_ m) (pos_ m + 4))
  /\ rest (mkMessage (data_ m) (pos_ m + 4)) = post.
Proof.
  intros H Hp Hs. destruct (extract_pod 4 m x was post H ltac:(lia) Hp Hs) as [He Hr].
  split; [| exact Hr]. unfold fetch_uint32. change 4 with (Z.of_nat 4) at 1. rewrite He.
  reflexivity.
Qed.

Lemma extract_int32_any (m : Message) (x was : Z) (post : list Z) :
  rest m = app (le_bytes 4 x) post -> 0 <= pos_ m -> size m < 2 ^ 62 ->
  extract fetch_int32 was m = Got (swrap 32 x, mkMessage (data_ m) (pos_ m + 4))
  /\ rest (mkMessage (data_ m) (pos_ m + 4)) = post.
Proof.
  intros H Hp Hs. destruct (extract_pod 4 m x 0 post H ltac:(lia) Hp Hs) as [He Hr].
  split; [| exact Hr]. unfold extract in *.
  rewrite (not_atEnd m _ _ H Hp) in * by (rewrite le_bytes_length; lia).
  unfold fetch_int32. change 4 with (Z.of_nat 4) at 1. rewrite He. cbn [andThen fst snd].
  f_equal. f_equal. unfold swrap. change (256 ^ Z.of_nat 4) with (2 ^ 32).
  rewrite Zplus_mod_idemp_l. reflexivity.
Qed.

Lemma swrap_wrap_32 (x : Z) : - 2 ^ 31 <= x < 2 ^ 31 -> swrap 32 (wrap 32 x) = x.
Proof.
  intros H. unfold swrap, wrap. change (2 ^ (32 - 1)) with (2 ^ 31).
  rewrite Zplus_mod_idemp_l. rewrite Z.mod_small by lia. lia.
Qed.

(** The query that [QueryComposer] writes for a backend is one that
    [readMsg] takes whole and [messages::Query] reads back: the flags, the
    namespace and the query are the composer's; the number to skip is the
    composer's as an unsigned number; the number to return is the batch
    size, or 1 for a command whose batch size is 0; the field selector is
    the composer's unless that is empty, and the empty document then. *)
Theorem composed_query_is_read_back (q : QueryComposer) :
  sendable (ns_ q) -> wellFormed (query_ q) -> wellFormed (fieldSelector_ q) ->
  0 <= flags_ q < 2 ^ 32 -> - 2 ^ 31 <= batchSize_ q < 2 ^ 31 ->
  Z.of_nat (List.length (composed q)) <= 16 * 1024 * 1024 ->
  exists m,
    readMsg (composed q) = Got (Some m)
    /\ opcode m = Got QUERY
    /\ Query_of m
       = Got (mkQuery (flags_ q) (ns_ q) (wrap 32 (skip_ q))
                (if (batchSize_ q =? 0) && String.eqb (collection (ns_ q)) "$cmd"
                 then 1 else batchSize_ q)
                (query_ q)
                (if isEmpty (fieldSelector_ q) then emptyObject else fieldSelector_ q)).
Proof.
  intros Hn Hq Hfs Hf Hb Hlen.
  set (batch := if (batchSize_ q =? 0) && String.eqb (collection (ns_ q)) "$cmd" then 1
                else batchSize_ q).
  set (batchSize := if (batchSize_ q =? 0) && String.eqb (collection (ns_ q)) "$cmd" then 1
                    else wrap 32 (batchSize_ q)).
  assert (Hbatch : swrap 32 batchSize = batch).
  { unfold batch, batchSize.
    destruct ((batchSize_ q =? 0) && String.eqb (collection (ns_ q)) "$cmd");
      [reflexivity | apply swrap_wrap_32, Hb]. }
  set (tail := if isEmpty (fieldSelector_ q) then [] else fieldSelector_ q).
  set (payload := app (le_bytes 4 (flags_ q))
                    (app (string_bytes (Topology.ns (ns_ q)))
                       (0 :: app (le_bytes 4 (skip_ q))
                               (app (le_bytes 4 batchSize) (app (query_ q) tail))))).
  assert (Hp : composed q = finish (app newBuilder (app (header (msgid_ q) 0 QUERY) payload))).
  { unfold composed, push32, pushPod, pushString, header, payload, tail. fold batchSize.
    destruct (isEmpty (fieldSelector_ q)); cbn [negb];
      rewrite !pushObject_wellFormed by assumption; rewrite <- !app_assoc;
      rewrite ?app_nil_r; reflexivity. }
  rewrite Hp in *. rewrite finished_length in Hlen.
  exists (Message_of (app (header (msgid_ q) 0 QUERY) payload)).
  split; [apply readMsg_finish; lia |].
  split; [apply opcode_of; unfold QUERY; lia |].
  set (m := Message_of (app (header (msgid_ q) 0 QUERY) payload)) in *.
  assert (Hsz : size m < 2 ^ 62) by (unfold size, m, Message_of; cbn [data_]; lia).
  assert (Hr0 : rest m = payload) by apply rest_after_header.
  assert (Hpos : pos_ m = 12) by reflexivity.
  unfold Query_of.
  destruct (extract_uint32 m (flags_ q) 0 _ Hr0 Hf ltac:(cbn [pos_]; lia) Hsz) as [E1 R1].
  rewrite E1. cbn [andThen snd fst].
  destruct (extract_Namespace _ (ns_ q) noNamespace _ R1 Hn ltac:(cbn [pos_]; lia) Hsz)
    as [E2 R2].
  rewrite E2. cbn [andThen snd fst].
  pose proof (Nat2Z.is_nonneg (List.length (string_bytes (Topology.ns (ns_ q))))) as Hnn.
  destruct (extract_uint32_any _ (skip_ q) 0 _ R2 ltac:(cbn [pos_]; lia) Hsz) as [E3 R3].
  rewrite E3. cbn [andThen snd fst].
  destruct (extract_int32_any _ batchSize 0 _ R3 ltac:(cbn [pos_]; lia) Hsz) as [E4 R4].
  rewrite E4. cbn [andThen snd fst].
  destruct (extract_Object _ (query_ q) emptyObject _ R4 Hq ltac:(cbn [pos_]; lia) Hsz)
    as [E5 R5].
  rewrite E5. cbn [andThen snd fst].
  assert (Hpl : Z.of_nat (List.length payload)
                = 4 + Z.of_nat (List.length (string_bytes (Topology.ns (ns_ q)))) + 1 + 4 + 4
                  + Z.of_nat (List.length (query_ q)) + Z.of_nat (List.length tail)).
  { unfold payload. rewrite !List.length_app. cbn [List.length].
    rewrite !List.length_app, !le_bytes_length. lia. }
  assert (Hdl : size m = 12 + Z.of_nat (List.length payload)).
  { unfold size, m, Message_of, header. cbn [data_].
    rewrite !List.length_app, !le_bytes_length. lia. }
  assert (Hgood : forall p k, p < 2 ^ 62 -> negb (good (mkMessage k p)) = false).
  { intros p k Hlt. unfold good. cbn [pos_].
    replace (p =? npos) with false
      by (symmetry; apply Z.eqb_neq; unfold npos, SIZE_MAX; lia).
    reflexivity. }
  rewrite Hbatch. unfold tail in *.
  destruct (isEmpty (fieldSelector_ q)).
  - rewrite (extract_at_end fetch_Object emptyObject _ R5);
      [| unfold size in *; cbn [pos_ data_]; cbn [List.length] in Hpl; lia].
    rewrite Hgood by (cbn [pos_]; lia). reflexivity.
  - rewrite <- (app_nil_r (fieldSelector_ q)) in R5.
    destruct (extract_Object _ (fieldSelector_ q) emptyObject _ R5 Hfs
                ltac:(cbn [pos_]; lia) Hsz) as [E6 R6].
    rewrite E6. rewrite Hgood by (cbn [pos_]; lia). reflexivity.
Qed.

Lemma composed_query_is_read_back_witness :
  exists m,
    readMsg (composed (mkComposer 7 4 exampleSpace (-1) 0 exampleSelector exampleChange))
    = Got (Some m)
    /\ opcode m = Got QUERY
    /\ Query_of m
       = Got (mkQuery 4 exampleSpace (wrap 32 (-1)) 0 exampleSelector exampleChange).
Proof.
  apply (composed_query_is_read_back
           (mkComposer 7 4 exampleSpace (-1) 0 exampleSelector exampleChange)).
  - split; reflexivity.
  - split; [reflexivity | vm_compute; split; [discriminate | reflexivity]].
  - split; [reflexivity | vm_compute; split; [discriminate | reflexivity]].
  - cbn. lia.
  - cbn. lia.
  - vm_compute. discriminate.
Defined.

(** ** Inserts *)

Lemma concat_length_le (docs : list Raw) :
  Forall wellFormed docs -> (List.length docs <= List.length (concat docs))%nat.
Proof.
  induction 1 as [| d r [_ Hd] _ IH]; [reflexivity |].
  cbn [concat List.length]. rewrite List.length_app. lia.
Qed.

Lemma documentsOf_all (docs : list Raw) :
  forall (fuel : nat) (m : Message) (acc : list Raw),
    rest m = concat docs -> Forall wellFormed docs ->
    (List.length docs <= fuel)%nat -> 0 <= pos_ m <= size m -> size m < 2 ^ 62 ->
    documentsOf fuel m acc = Some (Got (app acc docs)).
Proof.
  induction docs as [| d r IH]; intros fuel m acc Hr Hw Hf Hp Hs.
  - cbn [concat] in Hr. rewrite app_nil_r.
    destruct fuel; cbn [documentsOf];
      rewrite (extract_at_end fetch_Object emptyObject m Hr Hp); reflexivity.
  - inversion Hw as [| ? ? Hd Hw']; subst. cbn [concat] in Hr.
    destruct (extract_Object m d emptyObject _ Hr Hd ltac:(lia) Hs) as [E R].
    assert (Hle : pos_ m + Z.of_nat (List.length d) <= size m).
    { destruct (rest_step m d _ Hr ltac:(lia)) as (H1 & _); [destruct Hd; lia | exact H1]. }
    assert (Hg : good (mkMessage (data_ m) (pos_ m + Z.of_nat (List.length d))) = true).
    { unfold good. cbn [pos_].
      replace (pos_ m + Z.of_nat (List.length d) =? npos) with false
        by (symmetry; apply Z.eqb_neq; unfold npos, SIZE_MAX; lia).
      reflexivity. }
    destruct fuel as [| fuel]; [cbn [List.length] in Hf; lia |].
    cbn [documentsOf]. rewrite E, Hg.
    rewrite (IH fuel _ (app acc [d]) R Hw'); [| cbn [List.length] in Hf; lia
      | cbn [pos_]; unfold size in *; cbn [data_]; lia | exact Hs].
    rewrite <- app_assoc. reflexivity.
Qed.

Lemma fold_pushObject (docs : list Raw) :
  forall b, Forall wellFormed docs -> fold_left pushObject docs b = app b (concat docs).
Proof.
  induction docs as [| d r IH]; intros b Hw; cbn [fold_left concat].
  - now rewrite app_nil_r.
  - inversion Hw as [| ? ? Hd Hw']; subst.
    rewrite (IH _ Hw'), pushObject_wellFormed, <- app_assoc by exact Hd. reflexivity.
Qed.

(** [messages::Insert] reads every document of an insert message, in
    their order, and its loop ends; it takes the insert for ordered
    exactly when the flags have the bit [CONTINUE_ON_ERROR].  The insert
    that mongoz packs for a shard in the 2.4 format is read back by
    [readMsg] and [messages::Insert] with its namespace and its documents,
    and as not ordered. *)
Theorem Insert_reads_every_document (reqID responseTo flags : Z) (n : Namespace)
    (docs : list Raw) :
  sendable n -> Forall wellFormed docs -> 0 <= flags < 2 ^ 32 ->
  Z.of_nat (List.length (packInsert n docs)) <= 16 * 1024 * 1024 ->
  Insert_of
    (Message_of
       (app (header reqID responseTo INSERT)
          (app (le_bytes 4 flags)
             (app (string_bytes (Topology.ns n)) (0 :: concat docs)))))
  = Some (Got (mkBase n docs (Z.odd flags) emptyObject))
  /\ exists m,
       readMsg (packInsert n docs) = Got (Some m)
       /\ opcode m = Got INSERT
       /\ Insert_of m = Some (Got (mkBase n docs false emptyObject)).
Proof.
  intros Hn Hw Hf Hlen.
  assert (Hp : packInsert n docs
               = finish (app newBuilder
                           (app (header 0 0 INSERT)
                              (app (le_bytes 4 0)
                                 (app (string_bytes (Topology.ns n)) (0 :: concat docs)))))).
  { unfold packInsert, push32, pushPod, pushString, header.
    rewrite fold_pushObject by exact Hw. rewrite <- !app_assoc. reflexivity. }
  rewrite Hp in *. rewrite finished_length in Hlen.
  assert (Hall : forall r t f, 0 <= f < 2 ^ 32 ->
            Insert_of
              (Message_of
                 (app (header r t INSERT)
                    (app (le_bytes 4 f)
                       (app (string_bytes (Topology.ns n)) (0 :: concat docs)))))
            = Some (Got (mkBase n docs (Z.odd f) emptyObject))).
  { intros r t f Hf'.
    set (payload := app (le_bytes 4 f)
                      (app (string_bytes (Topology.ns n)) (0 :: concat docs))).
    set (m := Message_of (app (header r t INSERT) payload)).
    assert (Hr0 : rest m = payload) by apply rest_after_header.
    assert (Hpos : pos_ m = 12) by reflexivity.
    assert (Hdl : size m
                  = 17 + Z.of_nat (List.length (string_bytes (Topology.ns n)))
                    + Z.of_nat (List.length (concat docs))).
    { unfold size, m, Message_of, payload, header. cbn [data_].
      rewrite !List.length_app. cbn [List.length]. rewrite !le_bytes_length. lia. }
    assert (Hdl' : Z.of_nat (List.length (app (header 0 0 INSERT)
                     (app (le_bytes 4 0)
                        (app (string_bytes (Topology.ns n)) (0 :: concat docs)))))
                   = size m).
    { rewrite Hdl. unfold header. rewrite !List.length_app. cbn [List.length].
      rewrite !le_bytes_length. lia. }
    assert (Hsz : size m < 2 ^ 62) by lia.
    unfold Insert_of.
    destruct (extract_uint32 m f 0 _ Hr0 Hf' ltac:(lia) Hsz) as [E1 R1].
    rewrite E1. cbn [andThen snd fst].
    destruct (extract_Namespace _ n noNamespace _ R1 Hn ltac:(cbn [pos_]; lia) Hsz)
      as [E2 R2].
    rewrite E2. cbn [andThen snd fst].
    pose proof (Nat2Z.is_nonneg (List.length (string_bytes (Topology.ns n)))) as Hnn.
    pose proof (concat_length_le docs Hw) as Hcl.
    unfold good at 1. cbn [pos_].
    match goal with
    | |- context [negb (negb (?p =? npos))] =>
        replace (p =? npos) with false
          by (symmetry; apply Z.eqb_neq; unfold npos, SIZE_MAX; lia)
    end.
    cbn [negb].
    rewrite (documentsOf_all docs _ _ [] R2 Hw).
    - cbn [app]. f_equal. f_equal. f_equal.
      unfold CONTINUE_ON_ERROR. change 1 with (Z.ones 1). rewrite Z.land_ones by lia.
      change (2 ^ 1) with 2. rewrite Zmod_odd. destruct (Z.odd f); reflexivity.
    - unfold size in Hdl. lia.
    - cbn [pos_ data_]. unfold size in *. cbn [data_]. lia.
    - exact Hsz. }
  split; [apply Hall, Hf |].
  eexists. split; [apply readMsg_finish; lia |].
  split; [apply opcode_of; unfold INSERT; lia |].
  apply (Hall 0 0 0). lia.
Qed.

Lemma Insert_reads_every_document_witness :
  Insert_of
    (Message_of
       (app (header 7 0 INSERT)
          (app (le_bytes 4 1)
             (app (string_bytes (Topology.ns exampleSpace))
                (0 :: concat [exampleSelector; exampleChange])))))
  = Some (Got (mkBase exampleSpace [exampleSelector; exampleChange] (Z.odd 1) emptyObject))
  /\ exists m,
       readMsg (packInsert exampleSpace [exampleSelector; exampleChange]) = Got (Some m)
       /\ opcode m = Got INSERT
       /\ Insert_of m
          = Some (Got (mkBase exampleSpace [exampleSelector; exampleChange] false
                         emptyObject)).
Proof.
  apply (Insert_reads_every_document 7 0 1 exampleSpace [exampleSelector; exampleChange]).
  - split; reflexivity.
  - repeat constructor; vm_compute; try reflexivity; discriminate.
  - lia.
  - vm_compute. discriminate.
Defined.

(** ** Messages that end early *)

Lemma extract_after_end (m : Message) (was : Raw) :
  pos_ m = npos -> 3 <= size m < 2 ^ 62 ->
  extract fetch_Object was m = Fault (UndefinedBehaviour "read outside the buffer").
Proof.
  intros Hp Hs. unfold extract, atEnd, fetch_Object, need, bytesAt. rewrite Hp.
  replace (npos =? size m) with false
    by (symmetry; apply Z.eqb_neq; unfold npos, SIZE_MAX; lia).
  change (wrap 64 (npos + 4)) with 3.
  replace (size m <? 3) with false by (symmetry; apply Z.ltb_ge; lia).
  cbn [andThen].
  replace (npos + 4 <=? size m) with false
    by (symmetry; apply Z.leb_gt; unfold npos, SIZE_MAX; lia).
  reflexivity.
Qed.

(** An update that ends where its last document should begin is refused
    as a bad update message.  One that ends a document earlier, after the
    flags, is not: [operator >>] marks the message at the end, the next
    [operator >>] does not look at the mark and reads the length of a
    document from outside the buffer. *)
Theorem Update_that_ends_early (reqID responseTo flags : Z) (n : Namespace) (selector : Raw) :
  sendable n -> wellFormed selector -> - 2 ^ 31 <= flags < 2 ^ 31 ->
  Z.of_nat (String.length (Topology.ns n)) < 2 ^ 32 ->
  let front :=
    app (header reqID responseTo UPDATE)
      (app (le_bytes 4 0) (app (string_bytes (Topology.ns n)) (0 :: le_bytes 4 flags))) in
  Update_of (Message_of (app front selector)) = Fault (runtime_error "bad update message")
  /\ Update_of (Message_of front) = Fault (UndefinedBehaviour "read outside the buffer").
Proof.
  intros Hn Hs Hf Hl front.
  assert (Hsl : List.length (string_bytes (Topology.ns n)) = String.length (Topology.ns n)).
  { clear. induction (Topology.ns n) as [| c r IH]; [reflexivity |].
    cbn [string_bytes List.length String.length]. now rewrite IH. }
  assert (Hfl : Z.of_nat (List.length front)
                = 21 + Z.of_nat (String.length (Topology.ns n))).
  { unfold front, header. rewrite !List.length_app. cbn [List.length].
    rewrite !le_bytes_length, Hsl. lia. }
  split.
  - set (m := Message_of (app front selector)).
    assert (Hr0 : rest m
                  = app (le_bytes 4 0)
                      (app (string_bytes (Topology.ns n))
                         (0 :: app (le_bytes 4 flags) (app selector [])))).
    { unfold m, front. rewrite <- !app_assoc. rewrite rest_after_header.
      rewrite app_nil_r. reflexivity. }
    assert (Hsz : size m < 2 ^ 62).
    { unfold size, m, Message_of. cbn [data_]. rewrite List.length_app.
      destruct Hs as [_ Hs']. lia. }
    assert (Hpos : pos_ m = 12) by reflexivity.
    unfold Update_of.
    destruct (extract_int32 m 0 0 _ Hr0 ltac:(lia) ltac:(cbn [pos_]; lia) Hsz) as [E1 R1].
    rewrite E1. cbn [andThen snd fst].
    destruct (extract_Namespace _ n noNamespace _ R1 Hn ltac:(cbn [pos_]; lia) Hsz) as [E2 R2].
    rewrite E2. cbn [andThen snd fst].
    pose proof (Nat2Z.is_nonneg (List.length (string_bytes (Topology.ns n)))) as Hnn.
    destruct (extract_int32 _ flags 0 _ R2 ltac:(lia) ltac:(cbn [pos_]; lia) Hsz) as [E3 R3].
    rewrite E3. cbn [andThen snd fst].
    destruct (extract_Object _ selector emptyObject _ R3 Hs ltac:(cbn [pos_]; lia) Hsz)
      as [E4 R4].
    rewrite E4. cbn [andThen snd fst].
    rewrite (extract_at_end fetch_Object emptyObject _ R4).
    + reflexivity.
    + cbn [pos_ data_]. unfold size, m, Message_of, sizeof_Header. cbn [data_ pos_].
      rewrite List.length_app, Hsl. destruct Hs as [_ Hs']. lia.
  - set (m := Message_of front).
    assert (Hr0 : rest m
                  = app (le_bytes 4 0)
                      (app (string_bytes (Topology.ns n)) (0 :: app (le_bytes 4 flags) []))).
    { unfold m, front. rewrite rest_after_header. rewrite app_nil_r. reflexivity. }
    assert (Hsz : size m < 2 ^ 62) by (unfold size, m, Message_of; cbn [data_]; lia).
    assert (Hpos : pos_ m = 12) by reflexivity.
    unfold Update_of.
    destruct (extract_int32 m 0 0 _ Hr0 ltac:(lia) ltac:(cbn [pos_]; lia) Hsz) as [E1 R1].
    rewrite E1. cbn [andThen snd fst].
    destruct (extract_Namespace _ n noNamespace _ R1 Hn ltac:(cbn [pos_]; lia) Hsz) as [E2 R2].
    rewrite E2. cbn [andThen snd fst].
    pose proof (Nat2Z.is_nonneg (List.length (string_bytes (Topology.ns n)))) as Hnn.
    destruct (extract_int32 _ flags 0 _ R2 ltac:(lia) ltac:(cbn [pos_]; lia) Hsz) as [E3 R3].
    rewrite E3. cbn [andThen snd fst].
    rewrite (extract_at_end fetch_Object emptyObject _ R3).
    + cbn [andThen snd fst]. rewrite extract_after_end; [reflexivity | reflexivity |].
      unfold size, m, Message_of. cbn [data_]. lia.
    + cbn [pos_ data_]. unfold size, m, Message_of, sizeof_Header. cbn [data_ pos_].
      rewrite Hsl. lia.
Qed.

Lemma Update_that_ends_early_witness :
  let front :=
    app (header 7 0 UPDATE)
      (app (le_bytes 4 0) (app (string_bytes (Topology.ns exampleSpace)) (0 :: le_bytes 4 2))) in
  Update_of (Message_of (app front exampleSelector))
  = Fault (runtime_error "bad update message")
  /\ Update_of (Message_of front) = Fault (UndefinedBehaviour "read outside the buffer").
Proof.
  apply (Update_that_ends_early 7 0 2 exampleSpace exampleSelector).
  - split; reflexivity.
  - split; [reflexivity | vm_compute; split; [discriminate | reflexivity]].
  - lia.
  - vm_compute. reflexivity.
Defined.

(** ** The length that a client declares *)

(** [readMsg] tests the declared length from above only.  A length below
    4 makes the buffer's size wrap around and the allocation fail; a
    length from 4 to 15 whose bytes are there gives a message shorter
    than its header, whose opcode the session then reads from outside the
    buffer; a length from 16 to 16 MiB whose bytes are there gives a
    message of that length less 4 with an opcode; a greater length gives
    no message. *)
Theorem readMsg_tests_the_length_from_above (stream : list Z) :
  (4 <= List.length stream)%nat ->
  let len := le_value (firstn 4 stream) in
  (len < 4 ->
   readMsg stream = Fault (length_error "cannot create std::vector larger than max_size()"))
  /\ (4 <= len < 16 -> len <= Z.of_nat (List.length stream) ->
      exists m, readMsg stream = Got (Some m)
                /\ size m = len - 4
                /\ opcode m = Fault (UndefinedBehaviour "read outside the buffer"))
  /\ (16 <= len <= 16 * 1024 * 1024 -> len <= Z.of_nat (List.length stream) ->
      exists m op, readMsg stream = Got (Some m)
                   /\ size m = len - 4
                   /\ data_ m = firstn (Z.to_nat (len - 4)) (skipn 4 stream)
                   /\ opcode m = Got op)
  /\ (16 * 1024 * 1024 < len -> readMsg stream = Got None).
Proof.
  intros Hl len.
  assert (H4 : (List.length stream <? 4)%nat = false) by (apply Nat.ltb_ge; exact Hl).
  assert (Hbody : forall k, 4 <= k -> k <= Z.of_nat (List.length stream) ->
            (List.length (skipn 4 stream) <? Z.to_nat (k - 4))%nat = false
            /\ size (Message_of (firstn (Z.to_nat (k - 4)) (skipn 4 stream))) = k - 4).
  { intros k Hk1 Hk2. rewrite List.length_skipn. split; [apply Nat.ltb_ge; lia |].
    unfold size, Message_of. cbn [data_].
    rewrite List.length_firstn, List.length_skipn. lia. }
  unfold readMsg. rewrite H4. fold len.
  repeat split.
  - intros Hlen.
    replace (16 * 1024 * 1024 <? len) with false by (symmetry; apply Z.ltb_ge; lia).
    replace (len <? 4) with true by (symmetry; apply Z.ltb_lt; lia). reflexivity.
  - intros Hlen Hs. destruct (Hbody len ltac:(lia) Hs) as [Hb Hz].
    replace (16 * 1024 * 1024 <? len) with false by (symmetry; apply Z.ltb_ge; lia).
    replace (len <? 4) with false by (symmetry; apply Z.ltb_ge; lia).
    rewrite Hb. eexists. split; [reflexivity |]. split; [exact Hz |].
    unfold opcode. rewrite Hz.
    replace (sizeof_Header <=? len - 4) with false
      by (symmetry; apply Z.leb_gt; unfold sizeof_Header; lia).
    reflexivity.
  - intros Hlen Hs. destruct (Hbody len ltac:(lia) Hs) as [Hb Hz].
    replace (16 * 1024 * 1024 <? len) with false by (symmetry; apply Z.ltb_ge; lia).
    replace (len <? 4) with false by (symmetry; apply Z.ltb_ge; lia).
    rewrite Hb. eexists. eexists. split; [reflexivity |]. split; [exact Hz |].
    split; [reflexivity |].
    unfold opcode. rewrite Hz.
    replace (sizeof_Header <=? len - 4) with true
      by (symmetry; apply Z.leb_le; unfold sizeof_Header; lia).
    reflexivity.
  - intros Hlen.
    replace (16 * 1024 * 1024 <? len) with true by (symmetry; apply Z.ltb_lt; lia).
    reflexivity.
Qed.

Lemma readMsg_tests_the_length_from_above_witness :
  let stream := [8; 0; 0; 0; 1; 2; 3; 4] in
  let len := le_value (firstn 4 stream) in
  (len < 4 ->
   readMsg stream = Fault (length_error "cannot create std::vector larger than max_size()"))
  /\ (4 <= len < 16 -> len <= Z.of_nat (List.length stream) ->
      exists m, readMsg stream = Got (Some m)
                /\ size m = len - 4
                /\ opcode m = Fault (UndefinedBehaviour "read outside the buffer"))
  /\ (16 <= len <= 16 * 1024 * 1024 -> len <= Z.of_nat (List.length stream) ->
      exists m op, readMsg stream = Got (Some m)
                   /\ size m = len - 4
                   /\ data_ m = firstn (Z.to_nat (len - 4)) (skipn 4 stream)
                   /\ opcode m = Got op)
  /\ (16 * 1024 * 1024 < len -> readMsg stream = Got None).
Proof.
  apply (readMsg_tests_the_length_from_above [8; 0; 0; 0; 1; 2; 3; 4]).
  cbn [List.length]. lia.
Defined.

End WireFacts.

(* ================================================================== *)
(** * Properties of sequential writes *)
(* ================================================================== *)

Module MultiFacts.
Import Bson Write Multi.
Import MultiNotions.

Lemma sequence_prefix (stop : option (Object -> result bool)) (ops : list Sub) :
  forall (n : nat) (w : MultiWrite) (acks : list Object),
    forallb (quiet stop) (firstn n ops) = true ->
    (forall op, nth_error ops n = Some op -> quiet stop op = false) ->
    let out := sequence stop ops w acks in
    commenced_ (fst out) = app (commenced_ w) (map address (firstn (S n) ops))
    /\ ops_ (fst out) = ops_ w
    /\ writeConcern_ (fst out) = writeConcern_ w
    /\ merge_ (fst out) = merge_ w
    /\ lastWriteConcern_ (fst out) = lastWriteConcern_ w
    /\ lastStatus_ (fst out) = lastStatus_ w
    /\ (forall got, snd out = Ok got -> got = app acks (acksOf (firstn (S n) ops))).
Proof.
  induction ops as [| op ops IH]; intros n w acks Hq Hh; cbv zeta.
  - cbn [sequence fst snd firstn map acksOf flat_map]. rewrite !app_nil_r.
    repeat split. intros got E. now injection E as <-.
  - cbn [sequence firstn map acksOf flat_map]. fold (acksOf (firstn n ops)).
    destruct n as [| n].
    + specialize (Hh op eq_refl). unfold quiet in Hh. cbn [firstn map flat_map].
      rewrite app_nil_r.
      destruct (performed op) as [ack | e]; [| repeat split; intros got E; discriminate].
      destruct (hasErr ack); cbn [negb andb] in Hh;
        [repeat split; intros got E; now injection E as <- |].
      destruct stop as [stop_ |]; [| discriminate].
      destruct (stop_ ack) as [[|] | e]; try discriminate;
        repeat split; intros got E; try discriminate; now injection E as <-.
    + cbn [firstn forallb] in Hq. apply andb_true_iff in Hq. destruct Hq as [Hop Hq].
      unfold quiet in Hop.
      destruct (performed op) as [ack | e]; [| discriminate].
      apply andb_true_iff in Hop. destruct Hop as [He Hs].
      destruct (hasErr ack); [discriminate |].
      assert (Hgo : forall w0 a0,
                match stop with
                | None => sequence stop ops w0 a0
                | Some stop_ =>
                    match stop_ ack with
                    | Throw e => (w0, Throw e)
                    | Ok true => (w0, Ok a0)
                    | Ok false => sequence stop ops w0 a0
                    end
                end = sequence stop ops w0 a0).
      { intros w0 a0. destruct stop as [stop_ |]; [| reflexivity].
        destruct (stop_ ack) as [[|] | e]; try discriminate. reflexivity. }
      rewrite Hgo.
      destruct (IH n (commence w op) (app acks [ack]) Hq
                  (fun o Ho => Hh o Ho)) as (H1 & H2 & H3 & H4 & H5 & H6 & H7).
      cbv zeta in *. rewrite H1, H2, H3, H4, H5, H6. cbn [commence commenced_ ops_
        writeConcern_ merge_ lastWriteConcern_ lastStatus_ map].
      repeat split; [now rewrite <- app_assoc |].
      intros got E. rewrite (H7 got E), <- app_assoc. reflexivity.
Qed.

(** [SequentialWrite::perform] performs a beginning of its operations
    and nothing after it: when the first [n] operations return a status
    without an error for which the predicate to stop at is false, and
    operation [n], if there is one, throws, reports an error or makes the
    predicate true, then exactly the operations up to [n] are commenced.
    If [perform] returns, the status of the write is the merge of their
    statuses, under the write concern of the write; if it throws, the
    status is the one before. *)
Theorem SequentialWrite_performs_a_prefix (s : SequentialWrite) (n : nat) :
  forallb (quiet (stop_ s)) (firstn n (ops_ (multi s))) = true ->
  (forall op, nth_error (ops_ (multi s)) n = Some op -> quiet (stop_ s) op = false) ->
  let after := multi (fst (perform s)) in
  let done := firstn (S n) (ops_ (multi s)) in
  commenced_ after = app (commenced_ (multi s)) (map address done)
  /\ ops_ after = ops_ (multi s)
  /\ match snd (perform s) with
     | Ok _ =>
         merge_ (multi s) (acksOf done) = Ok (lastStatus_ after)
         /\ lastWriteConcern_ after = writeConcern_ (multi s)
     | Throw _ =>
         lastStatus_ after = lastStatus_ (multi s)
         /\ lastWriteConcern_ after = lastWriteConcern_ (multi s)
     end.
Proof.
  intros Hq Hh. cbv zeta.
  destruct (sequence_prefix (stop_ s) (ops_ (multi s)) n (multi s) [] Hq Hh)
    as (H1 & H2 & H3 & H4 & H5 & H6 & H7).
  cbv zeta in *. unfold perform.
  destruct (sequence (stop_ s) (ops_ (multi s)) (multi s) []) as [w [acks | e]];
    cbn [fst snd] in *.
  - specialize (H7 acks eq_refl). cbn [app] in H7. subst acks. rewrite H4.
    destruct (merge_ (multi s) (acksOf (firstn (S n) (ops_ (multi s))))) as [status | e];
      cbn [fst snd multi setAcknowledge commenced_ ops_ lastStatus_ lastWriteConcern_];
      auto.
  - cbn [multi]. auto.
Qed.

Lemma SequentialWrite_performs_a_prefix_witness :
  let after := multi (fst (perform exampleWrite)) in
  let done := firstn 2 (ops_ (multi exampleWrite)) in
  commenced_ after = app (commenced_ (multi exampleWrite)) (map address done)
  /\ ops_ after = ops_ (multi exampleWrite)
  /\ match snd (perform exampleWrite) with
     | Ok _ =>
         merge_ (multi exampleWrite) (acksOf done) = Ok (lastStatus_ after)
         /\ lastWriteConcern_ after = writeConcern_ (multi exampleWrite)
     | Throw _ =>
         lastStatus_ after = lastStatus_ (multi exampleWrite)
         /\ lastWriteConcern_ after = lastWriteConcern_ (multi exampleWrite)
     end.
Proof.
  apply (SequentialWrite_performs_a_prefix exampleWrite 1).
  - reflexivity.
  - intros op E. injection E as <-. reflexivity.
Defined.

End MultiFacts.
